(* ===== verification/_CoqProject ===== *)
-Q . S2P
Prelude.v
Marshall.v
ReplyWindow.v
RpcUtil.v
RpcClient.v
Connection.v
Socket.v
RpcServer.v
RpcChannel.v
Fifo.v
PollMgr.v
Handle.v
LockServer.v
LockServerCache.v
LockClientCache.v
LockProtocol.v
ExtentServer.v
ExtentClient.v
CxxString.v
YfsClient.v
Fuse.v
Address.v
Service.v
RpcSystem.v
RpcServing.v
RpcThreads.v
RpcLive.v
System.v
Txn.v
YfsTxn.v
YfsSystem.v
OneClient.v
SharedFile.v
SharedDir.v
LockOrder.v
LockTester.v
RpcTest.v
Threads.v
Posix.v
PosixLogic.v
Lab3.v
Lab3Spec.v
Lab3Race.v
Lab3Main.v
