(* ===== verification/Prelude.v ===== *)
(** * Verification of the yfs file system

    The repository is a small distributed file system in C++: a FUSE front end
    (src/fuse.cc) on top of a file-system client (src/yfs_client.cc), which keeps
    files and directories as extents. Extents live in an extent server
    (src/extent_server.cc) behind a write-back cache (src/extent_client.cc), and
    are protected by locks that a lock server grants to whole clients, which keep
    them until they are revoked (src/lock_server_cache.cc,
    src/lock_client_cache.cc; src/lock_server.cc is the older blocking server).
    Everything talks through an RPC library (src/rpc) with at-most-once
    execution: marshalling, connections over TCP, a poll thread, a thread pool,
    client and server endpoints; src/handle.cc caches connections by name.

    ** How the model is built

    C++ functions are Rocq functions. A function that can stop short of
    returning has a result in [res]: a failed [VERIFY] or [assert], an uncaught
    exception, or undefined behaviour (an access outside a block, a dangling
    pointer or iterator, signed overflow) is an [Err]. Integers are kept at their
    width ([u8] .. [s64], [int_result]); memory blocks and strings are lists of
    bytes, the contents of fresh memory come from an [Allocator]. Threads are
    interleavings: each definition is one critical section, and step relations
    run them in every order. A wait on a condition variable is a step that is not
    enabled until its condition holds. The answers of the kernel, of the clock and
    of the random generator are arguments.

    ** Files

    - Prelude: outcomes, machine integers, bytes, memory, shared tactics and
      the rewrite database [yfs_len].
    - Marshall: src/rpc/marshall.h and the operators in src/rpc/rpc.cc.
      [marshall], [unmarshall], headers, [<<] and [>>] of every type; the class
      [CodecOk] is what a type promises to the RPC layer, with an instance per type.
    - ReplyWindow: [checkduplicate_and_update], [add_reply], [free_reply_window]
      (src/rpc/rpc.cc), refined to a table of requests [amo_check].
    - RpcUtil: deadline arithmetic (src/rpc/rpc.cc).
    - RpcClient: [rpcc] (src/rpc/rpc.h, src/rpc/rpc.cc): the window of received
      replies, the critical sections of [call1], [got_pdu], [bind], [cancel], the
      [call] templates and the retransmission timer.
    - Connection: src/rpc/connection.cc: reference counts, sending and receiving
      PDUs in pieces, the accepting thread.
    - Socket: the same file's [tcpsconn] as a whole and [connect_to_dst], with the
      descriptors they open and close.
    - RpcServer: [rpcs] (src/rpc/rpc.h, src/rpc/rpc.cc): the [reg] templates,
      [got_pdu], [dispatch] split where other threads may run, and [sys_step], any
      number of requests in flight.
    - RpcChannel: [rpcc::get_refconn], the reference a call holds to its
      connection, and [~rpcc] (src/rpc/rpc.cc), over a heap of connections.
    - Fifo: src/rpc/fifo.h, src/rpc/thr_pool.h, src/rpc/thr_pool.cc.
    - PollMgr: src/rpc/pollmgr.h, src/rpc/pollmgr.cc: [SelectAIO], [EPollAIO], the
      poll thread and the threads that register and remove callbacks.
    - Handle: src/handle.h, src/handle.cc, over an explicit heap.
    - LockServer, LockServerCache, LockClientCache: the three lock components,
      one definition per critical section.
    - LockProtocol: the caching server, all its clients and the messages between
      them, composed.
    - ExtentServer: src/extent_server.cc, src/extent_protocol.h; the class
      [ExtentRpcLaws] is what the server promises to its clients.
    - ExtentClient: src/extent_client.cc, proved against that class, and the
      cluster of clients that use extents under locks.
    - CxxString: what the file system uses of [std::string] and of streams.
    - YfsClient: src/yfs_client.h, src/yfs_client.cc.
    - Fuse: the handlers of src/fuse.cc.
    - Address: [make_sockaddr] (src/rpc/rpc.cc) and the identifier a caching lock
      client sends to the server.
    - Service: the programs src/extent_smain.cc and src/lock_smain.cc, the stubs of
      src/extent_client.cc, src/lock_client.cc and src/lock_client_cache.cc, and the
      callback server; one call along its whole path, from stub to method and back.
    - RpcSystem: any number of [rpcc] endpoints, one [rpcs] and a network that may
      lose, delay, reorder and duplicate packets; [spec_step] is the machine without
      packets in which a call is issued and then performed.
    - RpcServing: the steps of the server from a state in which its connections are
      up: none of them fails and no request is refused.
    - RpcThreads: programs that bind clients, make calls, start and join threads;
      [live_step], the events of a world of such threads, endpoints and packets.
    - RpcLive: what holds of such a world throughout, and that its calls complete.
    - System: clients with their caches, one instance of LockProtocol per extent
      and the server, composed; refines the cluster of ExtentClient.
    - Txn: threads that run locked programs over a shared state, in general.
    - YfsTxn: the operations of YfsClient as such programs.
    - YfsSystem: threads of all clients, running these programs over System; [world]
      is the state of the deployed file system, [world_step] its steps.
    - OneClient: the refinement of [world] by a single [yfs_client].
    - SharedFile, SharedDir: a file and a directory used by all clients, refined to
      a string of bytes and to a list of entries.
    - LockOrder: who waits for whom in [world].
    - LockTester, RpcTest: the tests of src/lock_tester.cc and of
      src/rpc/rpctest.cc, run on the model.
    - Threads: src/rpc/method_thread.h.
    - Posix: programs over system calls, what each call may do, and the
      interleavings of two processes; PosixLogic: a rely/guarantee logic for them.
    - Lab3: src/test-lab-3-b.c and src/test-lab-3-c.c as such programs; Lab3Spec: a
      rule for each of their functions; Lab3Race: the sections in which both
      processes use the same files; Lab3Main: the whole programs.

    ** What is shown

    - RPC: requests and replies survive the wire (Marshall); the server runs
      each request at most once and repeats its one reply in every interleaving
      (RpcServer, over the refinement in ReplyWindow); the client acknowledges only
      what it has received, completes exactly the call a reply belongs to, and its
      timer ends (RpcClient); a call delivers its arguments and its result end to
      end (RpcServer). Clients, network and server together implement calls: what is
      performed is what was called, at most once, and what returns is its outcome
      (RpcSystem); and they do not get stuck: whatever packets are lost with their
      channels, no check fails and all calls can still be completed (RpcLive, over
      RpcServing). A connection lives exactly as long as somebody refers to it
      (RpcChannel); packets are framed and reassembled whatever the network does
      (Connection); the poll thread calls no callback of a removed descriptor
      (PollMgr); the queue is first-in first-out and the pool drains (Fifo); no
      cached connection is used after it was freed (Handle).
    - Services: the stubs are the methods behind them, arguments and results
      included, in both directions (Service); a lock client's identifier leads back
      to its callback port (Address); listeners give back every descriptor
      (Socket); a thread runs its method exactly once (Threads).
    - The whole: any number of clients and threads, with caches, revocable locks
      and write-back, are equivalent to one client with one cache that executes the
      same operations one after the other (OneClient, over the strict two-phase
      locking of Txn and YfsTxn), hence one file is one string of bytes and one
      directory one list of distinct names for all of them (SharedFile, SharedDir);
      the lock the coherence of the caches rests on is
      what the protocol provides (System); threads do not wait in a circle as long
      as second locks are those of files (LockOrder).
    - Tests: the checks of the lock tester never fail in any interleaving
      (LockTester); those of the RPC test's concurrent, lossy and failure tests do
      not either, and the tests can always come to their end, while its simple tests
      stop at the calls with wrong arguments, which end the server (RpcTest); the
      file system tests come to their end and pass on every file system that both
      mounts show alike (Lab3Main).
    - Locks: mutual exclusion over all threads of all clients, no waiting client
      is forgotten, revokes are neither lost nor doubled (LockProtocol).
    - Data: the extent server is a map (ExtentServer); clients that hold the lock
      work on one shared store (ExtentClient); file-system operations do what they
      say, on every branch, under the right locks (YfsClient); every request of the
      kernel is answered (Fuse).
    - Some theorems state behaviour that departs from a comment or from what the
      code is meant to do (a negative PDU size, the window that is never trimmed,
      a read behind the end of a file, an address longer than its buffer, a stub that
      does not match its handler, and others); their comments say so.

    ** Bounds and fuel

    - Messages are shorter than [MAX_MSG] = 2^30 bytes, so that the [int]
      arithmetic of the buffer capacity stays in range; the connection itself
      refuses anything above 10 MB.
    - A client makes fewer than 2^31 - 1 calls ([XID_LIMIT]): transaction
      identifiers do not wrap around.
    - [call1_waits] takes the number of rounds as fuel; the theorem on it gives a
      number that suffices for every timeout. [parse_dir] takes the length of the
      directory plus one, which is proved enough for every string. [dec_aux] takes
      20 digits, enough for a 64-bit number. [carry] takes the loop count of the
      carry of [add_timespec].
    - [DIR_FUEL] = 1003 bounds the entries read by the directory check of the file
      system tests, whose array has 1000; a larger directory is undefined behaviour
      there. The mount paths of those tests have at most 377 bytes, so that their
      [sprintf] buffers of 512 bytes hold every name.

    ** What is not modelled

    - Logging ([jsl_log], [tprintf], [Z], [ERR]), the clock replacement of
      src/gettime.cc (Mac OS X only, in floating point) and the command lines of the
      [main] functions. The resolver ([inet_addr], [gethostbyname]) is a parameter.
    - Packet loss injected by RPC_LOSSY is a [write] that fails (Connection), what
      it makes the client remember (RpcClient), and packets that are lost with their
      channel (RpcThreads). In RpcThreads a channel that is replaced keeps its
      number, and only calls with a timeout of their own are given up: the others
      have 120 seconds, in which a reply is taken to come.
    - RPCs between a client and a server of the file system are single steps in
      System and YfsSystem: Service shows that a call is the method, RpcServer that
      it is executed at most once. Failures of the network are not part of [world].
    - Of src/rpc/rpctest.cc, the [bind] to a server that is gone; the kernel between
      the file system tests and src/fuse.cc, of which Posix states what the calls
      may do; and the scripts.
    - How libfuse lays out a directory entry is a parameter ([FuseDirent]). *)
From stdpp Require Export base gmap sets list strings numbers fin_maps sorting.
From Stdlib Require Export ZArith Lia.
From Stdlib Require Strings.Byte.

#[global] Open Scope Z_scope.

(** * Outcomes of C++ code *)

(** What stops a C++ function short of returning: a failed [VERIFY] or
    [assert] (the process aborts), an uncaught [std::out_of_range] or
    [std::bad_alloc], or a step whose behaviour the language leaves undefined (an
    access outside a block, signed overflow, a dangling iterator). *)
Inductive fault :=
  | Verify_failed
  | Out_of_range
  | Bad_alloc
  | Undefined.

#[export] Instance fault_eq_dec : EqDecision fault.
Proof. solve_decision. Defined.

Inductive res (A : Type) :=
  | Ok (a : A)
  | Err (f : fault).
Arguments Ok {_} _.
Arguments Err {_} _.

#[export] Instance res_ret : MRet res := fun _ a => Ok a.
#[export] Instance res_bind : MBind res :=
  fun _ _ k m => match m with Ok a => k a | Err f => Err f end.
#[export] Instance res_fmap : FMap res :=
  fun _ _ f m => match m with Ok a => Ok (f a) | Err e => Err e end.

(** [VERIFY(b)] and [assert(b)]. *)
Definition VERIFY (b : bool) : res unit :=
  if b then Ok tt else Err Verify_failed.

(** Code whose behaviour is defined only when [b] holds. *)
Definition defined_if (b : bool) : res unit :=
  if b then Ok tt else Err Undefined.

Lemma res_bind_ok {A B} (a : A) (k : A -> res B) : (Ok a ≫= k) = k a.
Proof. reflexivity. Qed.

Lemma res_bind_Ok_inv {A B} (m : res A) (k : A -> res B) b :
  (m ≫= k) = Ok b -> exists a, m = Ok a /\ k a = Ok b.
Proof. destruct m; simpl; [eauto | discriminate]. Qed.

Lemma VERIFY_Ok b u : VERIFY b = Ok u -> b = true.
Proof. by destruct b. Qed.

Lemma defined_if_Ok b u : defined_if b = Ok u -> b = true.
Proof. by destruct b. Qed.

(** * Machine integers *)

(** A [w]-bit unsigned or two's complement value is kept as the [Z] it
    denotes; every conversion is written out with these two functions. *)
Definition wrapU (w z : Z) : Z := z mod 2 ^ w.
Definition wrapS (w z : Z) : Z := (z + 2 ^ (w - 1)) mod 2 ^ w - 2 ^ (w - 1).

Abbreviation u8 := (wrapU 8).
Abbreviation u16 := (wrapU 16).
Abbreviation u32 := (wrapU 32).
Abbreviation u64 := (wrapU 64).
Abbreviation s8 := (wrapS 8).
Abbreviation s16 := (wrapS 16).
Abbreviation s32 := (wrapS 32).
Abbreviation s64 := (wrapS 64).

Definition is_unsigned (w z : Z) : Prop := 0 <= z < 2 ^ w.
Definition is_signed (w z : Z) : Prop := - 2 ^ (w - 1) <= z < 2 ^ (w - 1).

Definition INT_MAX : Z := 2147483647.
Definition UINT_MAX : Z := 4294967295.

#[export] Instance is_unsigned_dec w z : Decision (is_unsigned w z).
Proof. unfold is_unsigned. apply _. Defined.
#[export] Instance is_signed_dec w z : Decision (is_signed w z).
Proof. unfold is_signed. apply _. Defined.

(** The range of a product or sum of [int]s: outside it the C++ program has
    undefined behaviour. *)
Definition int_result (z : Z) : res Z :=
  if decide (is_signed 32 z) then Ok z else Err Undefined.

Section machine_integers.
Context (w : Z) (Hw : 0 < w).

Lemma wrapU_range z : is_unsigned w (wrapU w z).
Proof. apply Z.mod_pos_bound, Z.pow_pos_nonneg; lia. Qed.

Lemma wrapU_small z : is_unsigned w z -> wrapU w z = z.
Proof. apply Z.mod_small. Qed.

Lemma half_modulus : 2 ^ w = 2 * 2 ^ (w - 1).
Proof. rewrite <- Z.pow_succ_r by lia. f_equal. lia. Qed.

Lemma wrapS_small z : is_signed w z -> wrapS w z = z.
Proof.
  unfold is_signed, wrapS. intros ?.
  rewrite Z.mod_small; [lia|]. rewrite half_modulus. lia.
Qed.

Lemma wrapS_range z : is_signed w (wrapS w z).
Proof.
  unfold is_signed, wrapS.
  pose proof (Z.mod_pos_bound (z + 2 ^ (w - 1)) (2 ^ w)) as H.
  rewrite half_modulus in *. assert (0 < 2 ^ (w - 1)) by (apply Z.pow_pos_nonneg; lia).
  lia.
Qed.

Lemma wrapS_wrapU z : wrapS w (wrapU w z) = wrapS w z.
Proof. unfold wrapS, wrapU. by rewrite Zplus_mod_idemp_l. Qed.

Lemma wrapU_wrapS z : wrapU w (wrapS w z) = wrapU w z.
Proof.
  unfold wrapS, wrapU. rewrite Zminus_mod_idemp_l. f_equal. lia.
Qed.

Lemma wrapU_idemp z : wrapU w (wrapU w z) = wrapU w z.
Proof. apply wrapU_small, wrapU_range. Qed.
End machine_integers.

(** * Bytes *)

Abbreviation byte := Byte.byte.

#[export] Instance byte_eq_dec : EqDecision byte := Byte.byte_eq_dec.

(** The value of a byte read as an [unsigned char], and the byte that holds
    the low eight bits of an integer. *)
Definition Z_of_byte (b : byte) : Z := Z.of_N (Byte.to_N b).
Definition byte_of_Z (z : Z) : byte :=
  match Byte.of_N (Z.to_N (u8 z)) with Some b => b | None => Byte.x00 end.

#[export] Instance byte_countable : Countable byte :=
  inj_countable' Z_of_byte byte_of_Z ltac:(by intros []).

#[export] Instance byte_inhabited : Inhabited byte := populate Byte.x00.

Lemma Z_of_byte_range b : is_unsigned 8 (Z_of_byte b).
Proof.
  unfold is_unsigned, Z_of_byte. pose proof (Byte.to_N_bounded b). lia.
Qed.

Lemma byte_of_Z_of_byte b : byte_of_Z (Z_of_byte b) = b.
Proof. by destruct b. Qed.

Lemma Z_of_byte_of_Z z : Z_of_byte (byte_of_Z z) = u8 z.
Proof.
  unfold byte_of_Z, Z_of_byte.
  pose proof (wrapU_range 8 ltac:(lia) z) as Hr. unfold is_unsigned in Hr.
  destruct (Byte.of_N (Z.to_N (u8 z))) as [b|] eqn:E.
  - apply Byte.to_of_N in E. rewrite E. lia.
  - apply Byte.of_N_None_iff in E. lia.
Qed.

Lemma byte_of_Z_u8 z z' : u8 z = u8 z' -> byte_of_Z z = byte_of_Z z'.
Proof. unfold byte_of_Z. by intros ->. Qed.

Lemma land_255 z : Z.land z 255 = u8 z.
Proof. change 255 with (Z.ones 8). by rewrite Z.land_ones by lia. Qed.

(** A [char] promoted to [unsigned int] is sign extended; masking with
    [0xff] recovers the byte. *)
Lemma land_255_promoted b : Z.land (u32 (s8 (Z_of_byte b))) 255 = Z_of_byte b.
Proof. by destruct b. Qed.

(** ** Big-endian words *)

Fixpoint be (n : nat) (z : Z) : list byte :=
  match n with
  | O => []
  | S n' => byte_of_Z (Z.shiftr z (8 * Z.of_nat n')) :: be n' z
  end.

Definition be_val (l : list byte) : Z :=
  fold_left (fun acc b => acc * 256 + Z_of_byte b) l 0.

Lemma length_be n z : length (be n z) = n.
Proof. induction n; simpl; congruence. Qed.

Lemma be_val_acc l acc :
  fold_left (fun acc b => acc * 256 + Z_of_byte b) l acc =
  acc * 2 ^ (8 * Z.of_nat (length l)) + be_val l.
Proof.
  unfold be_val. revert acc. induction l as [|b l IH]; intros acc; simpl fold_left.
  - change (2 ^ (8 * Z.of_nat (length (A:=byte) []))) with 1. lia.
  - rewrite IH, (IH (0 * 256 + Z_of_byte b)). cbn [length].
    replace (8 * Z.of_nat (S (length l))) with (8 + 8 * Z.of_nat (length l)) by lia.
    rewrite Z.pow_add_r by lia. change (2 ^ 8) with 256. ring.
Qed.

Lemma be_val_cons b l :
  be_val (b :: l) = Z_of_byte b * 2 ^ (8 * Z.of_nat (length l)) + be_val l.
Proof. unfold be_val at 1. simpl. rewrite be_val_acc. lia. Qed.

Lemma be_val_be n z : be_val (be n z) = z mod 2 ^ (8 * Z.of_nat n).
Proof.
  induction n as [|n IH]; [by rewrite Z.mod_1_r|].
  cbn [be]. rewrite be_val_cons, IH, length_be, Z_of_byte_of_Z.
  unfold wrapU. rewrite Z.shiftr_div_pow2 by lia.
  set (m := 2 ^ (8 * Z.of_nat n)).
  replace (2 ^ (8 * Z.of_nat (S n))) with (m * 2 ^ 8)
    by (unfold m; rewrite <- Z.pow_add_r by lia; f_equal; lia).
  rewrite Z.rem_mul_r; [lia | unfold m; apply Z.pow_nonzero; lia | lia].
Qed.

Lemma be_mod n z z' :
  z mod 2 ^ (8 * Z.of_nat n) = z' mod 2 ^ (8 * Z.of_nat n) -> be n z = be n z'.
Proof.
  induction n as [|n IH]; [done|]. intros Heq. cbn [be].
  assert (Hm : 2 ^ (8 * Z.of_nat (S n)) = 2 ^ (8 * Z.of_nat n) * 2 ^ 8)
    by (rewrite <- Z.pow_add_r by lia; f_equal; lia).
  assert (0 < 2 ^ (8 * Z.of_nat n)) by (apply Z.pow_pos_nonneg; lia).
  rewrite Hm, !Z.rem_mul_r in Heq by lia.
  pose proof (Z.mod_pos_bound z (2 ^ (8 * Z.of_nat n)) ltac:(lia)).
  pose proof (Z.mod_pos_bound z' (2 ^ (8 * Z.of_nat n)) ltac:(lia)).
  destruct (Z.div_mod_unique (2 ^ (8 * Z.of_nat n))
    ((z / 2 ^ (8 * Z.of_nat n)) mod 2 ^ 8) ((z' / 2 ^ (8 * Z.of_nat n)) mod 2 ^ 8)
    (z mod 2 ^ (8 * Z.of_nat n)) (z' mod 2 ^ (8 * Z.of_nat n))) as [Hhi Hlo]; [lia..|].
  f_equal; [|by apply IH].
  apply byte_of_Z_u8. unfold wrapU. by rewrite !Z.shiftr_div_pow2 by lia.
Qed.

(** Joining two disjoint bit fields is addition. *)
Lemma lor_disjoint n x y :
  0 <= n -> x mod 2 ^ n = 0 -> 0 <= y < 2 ^ n -> Z.lor x y = x + y.
Proof.
  intros Hn Hx Hy.
  assert (Hland : Z.land x y = 0).
  { apply Z.bits_inj_iff. intros i. rewrite Z.land_spec, Z.bits_0.
    destruct (decide (0 <= i)) as [Hi|Hi].
    2: { rewrite !Z.testbit_neg_r by lia. done. }
    destruct (decide (i < n)) as [Hlt|Hge].
    - rewrite <- (Z.mod_pow2_bits_low x n i) by lia. by rewrite Hx, Z.bits_0.
    - rewrite <- (Z.mod_small y (2 ^ n)) by lia.
      rewrite Z.mod_pow2_bits_high by lia. apply andb_false_r. }
  rewrite <- Z.lxor_lor by done. symmetry. by apply Z.add_nocarry_lxor.
Qed.

(** * Blocks of memory *)

(** The contents of freshly allocated memory are unspecified: everything that
    allocates is proved for every choice of them. Allocation itself succeeds. *)
Class Allocator := {
  malloc : nat -> list byte;
  length_malloc : forall n, length (malloc n) = n
}.

(** An allocator that hands out zeroed blocks, to evaluate examples with. *)
Definition zero_allocator : Allocator :=
  {| malloc n := replicate n Byte.x00; length_malloc n := length_replicate n _ |}.

Definition realloc `{Allocator} (b : list byte) (n : nat) : list byte :=
  if decide (n <= length b)%nat then take n b
  else b ++ malloc (n - length b).

Lemma length_realloc `{Allocator} b n : length (realloc b n) = n.
Proof.
  unfold realloc. case_decide; rewrite ?length_take, ?length_app, ?length_malloc; lia.
Qed.

Lemma realloc_grow `{Allocator} b n :
  (length b <= n)%nat -> exists junk, realloc b n = b ++ junk.
Proof.
  intros. unfold realloc. case_decide; [|by eexists].
  exists []. rewrite take_ge by lia. by rewrite app_nil_r.
Qed.

Definition zlen {A} (l : list A) : Z := Z.of_nat (length l).

(** The store of [x] at index [i] of [b], and [memcpy(b + i, p, length p)]. *)
Definition poke (b : list byte) (i : Z) (x : byte) : res (list byte) :=
  if decide (0 <= i < zlen b) then Ok (<[Z.to_nat i := x]> b) else Err Undefined.

Definition memcpy (b : list byte) (i : Z) (p : list byte) : res (list byte) :=
  if decide (0 <= i /\ i + zlen p <= zlen b)
  then Ok (take (Z.to_nat i) b ++ p ++ drop (Z.to_nat (i + zlen p)) b)
  else Err Undefined.

(** * Automation *)

(** Opens the results of monadic code: each hypothesis [m ≫= k = Ok b] is
    split into its steps. *)
Ltac res_inv :=
  repeat match goal with
  | H : (_ ≫= _) = Ok _ |- _ =>
      let a := fresh "a" in let Ha := fresh "Ha" in
      apply res_bind_Ok_inv in H as (a & Ha & H)
  | H : VERIFY _ = Ok _ |- _ => apply VERIFY_Ok in H
  | H : defined_if _ = Ok _ |- _ => apply defined_if_Ok in H
  | H : Ok _ = Ok _ |- _ => injection H; clear H; intros; subst
  | H : Err _ = Ok _ |- _ => discriminate H
  | H : mret _ = Ok _ |- _ => unfold mret, res_ret in H
  end.

(** Closes goals about lengths of lists built with the usual operations. *)
Create Rewrite HintDb yfs_len.
#[export] Hint Rewrite @length_app @length_take @length_drop @length_insert length_be
  @length_realloc @length_malloc @length_replicate @length_fmap : yfs_len.

Ltac len :=
  unfold zlen in *; autorewrite with yfs_len in *; cbn [length] in *; try lia.

Lemma int_result_ok z : is_signed 32 z -> int_result z = Ok z.
Proof. intros. unfold int_result. by rewrite decide_True. Qed.

Lemma poke_ok b i x :
  0 <= i < zlen b -> poke b i x = Ok (<[Z.to_nat i := x]> b).
Proof. intros. unfold poke. by rewrite decide_True. Qed.

Lemma take_S_insert (b : list byte) (i : nat) x :
  (i < length b)%nat -> take (S i) (<[i := x]> b) = take i b ++ [x].
Proof.
  intros Hi. rewrite (take_S_r _ _ x) by (by apply list_lookup_insert_eq).
  by rewrite take_insert_ge by lia.
Qed.
