(* ===== verification/Marshall.v ===== *)
(** * Marshalling

    The wire format of the RPC library: the growing output buffer [marshall],
    the input cursor [unmarshall], the [<<] and [>>] operators of every type
    the program sends, and the request and reply headers
    (src/rpc/marshall.h, src/rpc/rpc.cc).

    [codec] packs the two operators of a type; [CodecOk] is what a type
    promises to the RPC layer: [<<] appends an encoding to any output buffer,
    and [>>] reads that encoding back. *)
From S2P Require Import Prelude.

(** ** Constants and headers *)

Definition DEFAULT_RPC_SZ : Z := 1024.
Definition sizeof_rpc_sz : Z := 4.
Definition sizeof_req_header : Z := 20.
Definition sizeof_reply_header : Z := 8.
Definition static_max (a b : Z) : Z := if a >? b then a else b.
Definition RPC_HEADER_SZ : Z :=
  static_max sizeof_req_header sizeof_reply_header + sizeof_rpc_sz.

Record req_header := ReqHeader {
  h_xid : Z; h_proc : Z; h_clt_nonce : Z; h_srv_nonce : Z; h_xid_rep : Z
}.
Record reply_header := ReplyHeader { r_xid : Z; r_ret : Z }.

#[export] Instance req_header_eq_dec : EqDecision req_header.
Proof. solve_decision. Defined.
#[export] Instance reply_header_eq_dec : EqDecision reply_header.
Proof. solve_decision. Defined.

(** The constructor's parameters are [int]; the two nonces are then stored as
    [unsigned int]. *)
Definition mk_req_header (x p c s xi : Z) : req_header :=
  ReqHeader (s32 x) (s32 p) (u32 (s32 c)) (u32 (s32 s)) (s32 xi).

(** ** The output buffer *)

Record marshall := Marshall {
  m_buf : option (list byte);   (* None after take_buf *)
  m_capa : Z;
  m_ind : Z
}.

Section marshall_ops.
Context `{Allocator}.

Definition new_marshall : marshall :=
  Marshall (Some (malloc (Z.to_nat DEFAULT_RPC_SZ))) DEFAULT_RPC_SZ RPC_HEADER_SZ.

Definition grow (m : marshall) (capa : Z) : res marshall :=
  match m_buf m with
  | None => Err Verify_failed
  | Some b => Ok (Marshall (Some (realloc b (Z.to_nat capa))) capa (m_ind m))
  end.

Definition rawbyte (m : marshall) (x : Z) : res marshall :=
  m ← (if m_capa m <=? m_ind m
       then capa ← int_result (m_capa m * 2); grow m capa
       else Ok m);
  match m_buf m with
  | None => Err Undefined
  | Some b =>
      b ← poke b (m_ind m) (byte_of_Z x);
      ind ← int_result (m_ind m + 1);
      Ok (Marshall (Some b) (m_capa m) ind)
  end.

Definition rawbytes (m : marshall) (p : list byte) (n : Z) : res marshall :=
  last ← int_result (m_ind m + n);
  m ← (if last >? m_capa m
       then capa ← (if m_capa m >? n then int_result (2 * m_capa m)
                    else int_result (m_capa m + n));
            grow m capa
       else Ok m);
  match m_buf m with
  | None => Err Undefined
  | Some b =>
      _ ← defined_if (bool_decide (0 <= n <= zlen p));
      b ← memcpy b (m_ind m) (take (Z.to_nat n) p);
      Ok (Marshall (Some b) (m_capa m) (m_ind m + n))
  end.

Definition pack (m : marshall) (x : Z) : res marshall :=
  m ← rawbyte m (Z.land (Z.shiftr x 24) 0xff);
  m ← rawbyte m (Z.land (Z.shiftr x 16) 0xff);
  m ← rawbyte m (Z.land (Z.shiftr x 8) 0xff);
  rawbyte m (Z.land x 0xff).

Definition pack_req_header (m : marshall) (h : req_header) : res marshall :=
  let saved_sz := m_ind m in
  m ← pack (Marshall (m_buf m) (m_capa m) sizeof_rpc_sz) (h_xid h);
  m ← pack m (h_proc h);
  m ← pack m (s32 (h_clt_nonce h));
  m ← pack m (s32 (h_srv_nonce h));
  m ← pack m (h_xid_rep h);
  Ok (Marshall (m_buf m) (m_capa m) saved_sz).

Definition pack_reply_header (m : marshall) (h : reply_header) : res marshall :=
  let saved_sz := m_ind m in
  m ← pack (Marshall (m_buf m) (m_capa m) sizeof_rpc_sz) (r_xid h);
  m ← pack m (r_ret h);
  Ok (Marshall (m_buf m) (m_capa m) saved_sz).

(** [cstr()] with [size()]: the bytes handed to the connection. *)
Definition marshall_cstr (m : marshall) : list byte :=
  take (Z.to_nat (m_ind m)) (default [] (m_buf m)).

Definition get_content (m : marshall) : list byte :=
  drop (Z.to_nat RPC_HEADER_SZ) (marshall_cstr m).

(** [take_buf] gives the block away and leaves the object empty. *)
Definition marshall_take_buf (m : marshall) : list byte * marshall :=
  (marshall_cstr m, Marshall None (m_capa m) 0).

(** *** [operator<<] *)

Definition put_bool (x : bool) (m : marshall) : res marshall :=
  rawbyte m (if x then 1 else 0).
Definition put_uchar (x : Z) (m : marshall) : res marshall := rawbyte m x.
Definition put_char (x : Z) (m : marshall) : res marshall := put_uchar (u8 x) m.
Definition put_ushort (x : Z) (m : marshall) : res marshall :=
  m ← rawbyte m (Z.land (Z.shiftr x 8) 0xff);
  rawbyte m (Z.land x 0xff).
Definition put_short (x : Z) (m : marshall) : res marshall := put_ushort (u16 x) m.
Definition put_uint (x : Z) (m : marshall) : res marshall :=
  m ← rawbyte m (Z.land (Z.shiftr x 24) 0xff);
  m ← rawbyte m (Z.land (Z.shiftr x 16) 0xff);
  m ← rawbyte m (Z.land (Z.shiftr x 8) 0xff);
  rawbyte m (Z.land x 0xff).
Definition put_int (x : Z) (m : marshall) : res marshall := put_uint (u32 x) m.
Definition put_string (s : list byte) (m : marshall) : res marshall :=
  m ← put_uint (u32 (zlen s)) m;
  rawbytes m s (s32 (zlen s)).
Definition put_ull (x : Z) (m : marshall) : res marshall :=
  m ← put_uint (u32 (Z.shiftr x 32)) m;
  put_uint (u32 x) m.

Fixpoint put_all {C} (put : C -> marshall -> res marshall) (v : list C)
    (m : marshall) : res marshall :=
  match v with
  | [] => Ok m
  | x :: v => m ← put x m; put_all put v m
  end.
Definition put_vector {C} (put : C -> marshall -> res marshall) (v : list C)
    (m : marshall) : res marshall :=
  m ← put_uint (u32 (zlen v)) m;
  put_all put v m.
End marshall_ops.

(** ** The input cursor *)

Record unmarshall := Unmarshall {
  u_buf : list byte;   (* empty for NULL *)
  u_sz : Z;
  u_ind : Z;
  u_ok : bool
}.

Definition unmarshall_empty : unmarshall := Unmarshall [] 0 0 false.
Definition new_unmarshall (b : list byte) (sz : Z) : unmarshall :=
  Unmarshall b sz 0 true.

Definition take_in (another : unmarshall) : unmarshall :=
  Unmarshall (u_buf another) (u_sz another) RPC_HEADER_SZ
    (if u_sz another >=? RPC_HEADER_SZ then true else false).

(** [unmarshall::take_content], also the constructor from a string: the text is
    put behind room for a header. *)
Definition take_content `{Allocator} (u : unmarshall) (s : list byte) : res unmarshall :=
  let sz := s32 (u64 (zlen s + RPC_HEADER_SZ)) in
  _ ← VERIFY (u64 sz <? 2 ^ 63);              (* realloc fails above PTRDIFF_MAX *)
  b ← memcpy (realloc (u_buf u) (Z.to_nat (u64 sz))) RPC_HEADER_SZ s;
  Ok (Unmarshall b sz RPC_HEADER_SZ true).

(** [unmarshall::take_buf]: the block and its size, and what is left. *)
Definition unmarshall_take_buf (u : unmarshall) : list byte * Z * unmarshall :=
  (u_buf u, u_sz u, Unmarshall [] 0 0 (u_ok u)).

Definition okdone (u : unmarshall) : bool := u_ok u && (u_ind u =? u_sz u).

(** The [char] read is promoted to [unsigned int], sign included. *)
Definition get_rawbyte (u : unmarshall) : res (Z * unmarshall) :=
  if u_ind u >=? u_sz u
  then Ok (0, Unmarshall (u_buf u) (u_sz u) (u_ind u) false)
  else match (if decide (0 <= u_ind u) then u_buf u !! Z.to_nat (u_ind u) else None) with
       | None => Err Undefined
       | Some c => Ok (u32 (s8 (Z_of_byte c)),
                       Unmarshall (u_buf u) (u_sz u) (u_ind u + 1) (u_ok u))
       end.

Definition get_rawbytes (ss : list byte) (n : Z) (u : unmarshall)
    : res (list byte * unmarshall) :=
  if u32 (u32 (u_ind u) + n) >? u32 (u_sz u)
  then Ok (ss, Unmarshall (u_buf u) (u_sz u) (u_ind u) false)
  else _ ← defined_if (bool_decide (0 <= u_ind u /\ u_ind u + n <= zlen (u_buf u)));
       Ok (take (Z.to_nat n) (drop (Z.to_nat (u_ind u)) (u_buf u)),
           Unmarshall (u_buf u) (u_sz u) (u_ind u + n) (u_ok u)).

(** The next byte masked with [0xff] and shifted, as every reader uses it. *)
Definition field (shift : Z) (u : unmarshall) : res (Z * unmarshall) :=
  '(c, u) ← get_rawbyte u;
  Ok (u32 (Z.shiftl (Z.land c 0xff) shift), u).

(** [x |= v] on an [unsigned int] and on an [int]. *)
Definition or_uint (x v : Z) : Z := Z.lor x v.
Definition or_int (x v : Z) : Z := s32 (Z.lor (u32 x) v).

Definition unpack (u : unmarshall) : res (Z * unmarshall) :=
  '(b, u) ← field 24 u; let x := s32 b in
  '(b, u) ← field 16 u; let x := or_int x b in
  '(b, u) ← field 8 u; let x := or_int x b in
  '(b, u) ← field 0 u; Ok (or_int x b, u).

Definition unpack_req_header (u : unmarshall) : res (req_header * unmarshall) :=
  let u := Unmarshall (u_buf u) (u_sz u) sizeof_rpc_sz (u_ok u) in
  '(xid, u) ← unpack u;
  '(proc, u) ← unpack u;
  '(clt, u) ← unpack u;
  '(srv, u) ← unpack u;
  '(xid_rep, u) ← unpack u;
  Ok (ReqHeader xid proc (u32 clt) (u32 srv) xid_rep,
      Unmarshall (u_buf u) (u_sz u) RPC_HEADER_SZ (u_ok u)).

Definition unpack_reply_header (u : unmarshall) : res (reply_header * unmarshall) :=
  let u := Unmarshall (u_buf u) (u_sz u) sizeof_rpc_sz (u_ok u) in
  '(xid, u) ← unpack u;
  '(ret, u) ← unpack u;
  Ok (ReplyHeader xid ret, Unmarshall (u_buf u) (u_sz u) RPC_HEADER_SZ (u_ok u)).

(** *** [operator>>]: the first argument is the old value of the variable. *)

Definition get_bool (_ : bool) (u : unmarshall) : res (bool * unmarshall) :=
  '(c, u) ← get_rawbyte u; Ok (bool_decide (c <> 0), u).
Definition get_uchar (_ : Z) (u : unmarshall) : res (Z * unmarshall) :=
  '(c, u) ← get_rawbyte u; Ok (u8 c, u).
Definition get_char (_ : Z) (u : unmarshall) : res (Z * unmarshall) :=
  '(c, u) ← get_rawbyte u; Ok (s8 c, u).
Definition get_ushort (_ : Z) (u : unmarshall) : res (Z * unmarshall) :=
  '(b, u) ← field 8 u; let x := u16 b in
  '(b, u) ← field 0 u; Ok (u16 (Z.lor x b), u).
Definition get_short (_ : Z) (u : unmarshall) : res (Z * unmarshall) :=
  '(b, u) ← field 8 u; let x := s16 b in
  '(b, u) ← field 0 u; Ok (s16 (Z.lor (u32 x) b), u).
Definition get_uint (_ : Z) (u : unmarshall) : res (Z * unmarshall) :=
  '(b, u) ← field 24 u; let x := b in
  '(b, u) ← field 16 u; let x := or_uint x b in
  '(b, u) ← field 8 u; let x := or_uint x b in
  '(b, u) ← field 0 u; Ok (or_uint x b, u).
Definition get_int (_ : Z) (u : unmarshall) : res (Z * unmarshall) :=
  '(b, u) ← field 24 u; let x := s32 b in
  '(b, u) ← field 16 u; let x := or_int x b in
  '(b, u) ← field 8 u; let x := or_int x b in
  '(b, u) ← field 0 u; Ok (or_int x b, u).
Definition get_ull (_ : Z) (u : unmarshall) : res (Z * unmarshall) :=
  '(h, u) ← get_uint 0 u;
  '(l, u) ← get_uint 0 u;
  Ok (Z.lor l (u64 (Z.shiftl h 32)), u).
Definition get_string (s : list byte) (u : unmarshall) : res (list byte * unmarshall) :=
  '(sz, u) ← get_uint 0 u;
  if u_ok u then get_rawbytes s sz u else Ok (s, u).

(** The elements are pushed behind whatever the vector already holds. *)
Fixpoint get_all {C} (get : C -> unmarshall -> res (C * unmarshall)) (init : C)
    (n : nat) (v : list C) (u : unmarshall) : res (list C * unmarshall) :=
  match n with
  | O => Ok (v, u)
  | S n => '(z, u) ← get init u; get_all get init n (v ++ [z]) u
  end.
Definition get_vector {C} (get : C -> unmarshall -> res (C * unmarshall)) (init : C)
    (v : list C) (u : unmarshall) : res (list C * unmarshall) :=
  '(n, u) ← get_uint 0 u;
  get_all get init (Z.to_nat n) v u.

(** *** [std::map]: entries travel in ascending key order and the receiving
    map is cleared first. *)
Section std_map.
Context `{Allocator} {K V : Type} `{Countable K}.
Context (key_lt : relation K) `{!RelDecision key_lt}.

Definition entry_lt (p q : K * V) : Prop := key_lt p.1 q.1.
#[export] Instance entry_lt_dec : RelDecision entry_lt.
Proof. intros p q. unfold entry_lt. apply _. Defined.

Definition map_iter (d : gmap K V) : list (K * V) :=
  merge_sort entry_lt (map_to_list d).

Definition put_entry (putA : K -> marshall -> res marshall)
    (putB : V -> marshall -> res marshall) (e : K * V) (m : marshall) : res marshall :=
  m ← putA e.1 m; putB e.2 m.

Definition put_map (putA : K -> marshall -> res marshall)
    (putB : V -> marshall -> res marshall) (d : gmap K V) (m : marshall)
    : res marshall :=
  m ← put_uint (u32 (Z.of_nat (size d))) m;
  put_all (put_entry putA putB) (map_iter d) m.

Fixpoint get_entries (getA : K -> unmarshall -> res (K * unmarshall)) (initA : K)
    (getB : V -> unmarshall -> res (V * unmarshall)) (initB : V)
    (n : nat) (d : gmap K V) (u : unmarshall) : res (gmap K V * unmarshall) :=
  match n with
  | O => Ok (d, u)
  | S n =>
      '(a, u) ← getA initA u;
      '(b, u) ← getB initB u;
      get_entries getA initA getB initB n (<[a := b]> d) u
  end.

Definition get_map (getA : K -> unmarshall -> res (K * unmarshall)) (initA : K)
    (getB : V -> unmarshall -> res (V * unmarshall)) (initB : V)
    (_ : gmap K V) (u : unmarshall) : res (gmap K V * unmarshall) :=
  '(n, u) ← get_uint 0 u;
  get_entries getA initA getB initB (Z.to_nat n) ∅ u.
End std_map.

(** ** Invariants *)

(** The block is as long as the capacity says, the cursor is inside it, and
    the capacity stays within twice what was written. *)
Definition wf_marshall (m : marshall) : Prop :=
  match m_buf m with
  | None => False
  | Some b => zlen b = m_capa m /\ RPC_HEADER_SZ <= m_ind m <= m_capa m /\
              DEFAULT_RPC_SZ <= m_capa m <= Z.max DEFAULT_RPC_SZ (2 * m_ind m)
  end.

(** The largest message the [int] capacity arithmetic can hold. *)
Definition MAX_MSG : Z := 2 ^ 30.

(** [f] appends exactly [bs] to every output buffer that has room for them. *)
Definition appends (f : marshall -> res marshall) (bs : list byte) : Prop :=
  forall m, wf_marshall m -> m_ind m + zlen bs < MAX_MSG ->
    exists m', f m = Ok m' /\ wf_marshall m' /\
      marshall_cstr m' = marshall_cstr m ++ bs.

Definition wf_unmarshall (u : unmarshall) : Prop :=
  0 <= u_ind u <= u_sz u /\ u_sz u <= zlen (u_buf u) /\ u_sz u <= INT_MAX.

Definition remaining (u : unmarshall) : list byte :=
  drop (Z.to_nat (u_ind u)) (take (Z.to_nat (u_sz u)) (u_buf u)).

Lemma take_content_ok `{Allocator} u s :
  zlen s < MAX_MSG ->
  exists u', take_content u s = Ok u' /\ wf_unmarshall u' /\ u_ok u' = true /\ remaining u' = s.
Proof.
  intros Hs. unfold take_content, MAX_MSG in *. change RPC_HEADER_SZ with 24.
  assert (0 <= zlen s) by (unfold zlen; lia).
  rewrite wrapU_small by (unfold is_unsigned; lia).
  rewrite (wrapS_small 32) by (unfold is_signed; lia).
  rewrite !wrapU_small by (unfold is_unsigned; lia).
  rewrite (proj2 (Z.ltb_lt _ _)) by lia. cbn [VERIFY mbind res_bind].
  pose proof (length_realloc (u_buf u) (Z.to_nat (zlen s + 24))) as Hl.
  set (b := realloc _ _) in *.
  unfold memcpy. rewrite decide_True by (unfold zlen in *; lia). cbn [mbind res_bind].
  eexists. split; [reflexivity|]. unfold wf_unmarshall, remaining. cbn [u_ind u_sz u_buf u_ok].
  assert (Hd : drop (Z.to_nat (24 + zlen s)) b = []) by (apply drop_ge; unfold zlen in *; lia).
  rewrite Hd, app_nil_r. split_and!; try done; try (unfold zlen, INT_MAX in *; len; lia).
  rewrite take_ge by (unfold zlen in *; len; lia).
  rewrite drop_app_length'; [done|]. len.
Qed.

(** [g] started on a good cursor whose unread bytes begin with [bs] returns [a]
    and moves past [bs]; the cursor stays good and the block does not change. *)
Definition consumes {A} (g : unmarshall -> res (A * unmarshall)) (bs : list byte)
    (a : A) : Prop :=
  forall u rest, wf_unmarshall u -> u_ok u = true -> remaining u = bs ++ rest ->
    exists u', g u = Ok (a, u') /\ wf_unmarshall u' /\ remaining u' = rest /\
      u_ok u' = true /\ u_buf u' = u_buf u /\ u_sz u' = u_sz u.

Lemma length_cstr m : wf_marshall m -> zlen (marshall_cstr m) = m_ind m.
Proof.
  unfold wf_marshall, marshall_cstr. destruct m as [[b|] capa ind]; simpl; [|done].
  change RPC_HEADER_SZ with 24. len.
Qed.

Lemma appends_nil f : (forall m, f m = Ok m) -> appends f [].
Proof. intros Hf m Hwf _. exists m. by rewrite Hf, app_nil_r. Qed.

Lemma appends_bind f g bs cs :
  appends f bs -> appends g cs -> appends (fun m => m ← f m; g m) (bs ++ cs).
Proof.
  intros Hf Hg m Hwf Hroom. rewrite <- length_cstr in Hroom by done.
  destruct (Hf m) as (m1 & E1 & Hwf1 & C1); [done|rewrite <- length_cstr by done; len|].
  destruct (Hg m1) as (m2 & E2 & Hwf2 & C2); [done| |].
  { rewrite <- length_cstr, C1 by done. len. }
  exists m2. rewrite E1. simpl. rewrite E2. split_and!; [done..|].
  by rewrite C2, C1, app_assoc.
Qed.

Lemma appends_ext f g bs : (forall m, f m = g m) -> appends g bs -> appends f bs.
Proof. intros Heq Hg m Hwf Hroom. rewrite Heq. by apply Hg. Qed.

Lemma consumes_ret {A} (a : A) : consumes (fun u => Ok (a, u)) [] a.
Proof. intros u rest Hwf Hok Hr. exists u. done. Qed.

Lemma consumes_bind {A B} g (k : A -> unmarshall -> res (B * unmarshall)) bs cs a b :
  consumes g bs a -> consumes (k a) cs b ->
  consumes (fun u => '(x, u) ← g u; k x u) (bs ++ cs) b.
Proof.
  intros Hg Hk u rest Hwf Hok Hr. rewrite <- app_assoc in Hr.
  destruct (Hg u _ Hwf Hok Hr) as (u1 & E1 & Hwf1 & R1 & O1 & B1 & S1).
  destruct (Hk u1 _ Hwf1 O1 R1) as (u2 & E2 & Hwf2 & R2 & O2 & B2 & S2).
  exists u2. rewrite E1. simpl. rewrite E2. split_and!; congruence.
Qed.

Lemma consumes_map {A B} g (f : A -> B) bs a :
  consumes g bs a -> consumes (fun u => '(x, u) ← g u; Ok (f x, u)) bs (f a).
Proof.
  intros Hg. rewrite <- (app_nil_r bs). eapply consumes_bind; [done|].
  apply consumes_ret.
Qed.

Lemma consumes_ext {A} (g h : unmarshall -> res (A * unmarshall)) bs a :
  (forall u, g u = h u) -> consumes h bs a -> consumes g bs a.
Proof. intros Heq Hh u rest Hwf Hok Hr. rewrite Heq. by apply Hh. Qed.

Lemma consumes_eq {A} (g : unmarshall -> res (A * unmarshall)) bs a b :
  a = b -> consumes g bs a -> consumes g bs b.
Proof. by intros ->. Qed.

(** ** The primitives *)

Section primitives.
Context `{Allocator}.

Lemma new_marshall_wf : wf_marshall new_marshall.
Proof.
  unfold wf_marshall, new_marshall. cbn -[Z.to_nat DEFAULT_RPC_SZ].
  unfold zlen. rewrite length_malloc. unfold DEFAULT_RPC_SZ. split_and!; try lia; done.
Qed.

(** Growing to a larger capacity keeps what was written. *)
Lemma grow_spec m capa :
  wf_marshall m -> m_capa m <= capa ->
  exists b, grow m capa = Ok (Marshall (Some b) capa (m_ind m)) /\ zlen b = capa /\
    take (Z.to_nat (m_ind m)) b = marshall_cstr m.
Proof.
  unfold wf_marshall, marshall_cstr, grow. destruct m as [[b|] cap ind]; simpl; [|done].
  change RPC_HEADER_SZ with 24. unfold DEFAULT_RPC_SZ. intros (Hl & Hi & Hc) Hle.
  destruct (realloc_grow b (Z.to_nat capa)) as [junk Hj]; [len|].
  exists (realloc b (Z.to_nat capa)). split_and!; [done|len|].
  rewrite Hj, take_app_le by len. done.
Qed.

Lemma rawbyte_appends x : appends (fun m => rawbyte m x) [byte_of_Z x].
Proof.
  intros m Hwf Hroom. unfold zlen in Hroom. cbn [length] in Hroom. unfold MAX_MSG in *.
  assert (exists b capa, (if m_capa m <=? m_ind m
       then capa ← int_result (m_capa m * 2); grow m capa else Ok m)
      = Ok (Marshall (Some b) capa (m_ind m)) /\ zlen b = capa /\
        m_ind m < capa /\ 0 <= m_ind m /\ DEFAULT_RPC_SZ <= capa /\
        RPC_HEADER_SZ <= m_ind m /\
        capa <= Z.max DEFAULT_RPC_SZ (2 * (m_ind m + 1)) /\
        take (Z.to_nat (m_ind m)) b = marshall_cstr m)
    as (b & capa & E & Hl & Hlt & H0 & Hd & Hh & Hc & C).
  { change RPC_HEADER_SZ with 24. destruct (m_capa m <=? m_ind m) eqn:Ecmp.
    - assert (Hcap : m_capa m = m_ind m /\ 24 <= m_ind m /\ DEFAULT_RPC_SZ <= m_capa m).
      { unfold wf_marshall in Hwf. change RPC_HEADER_SZ with 24 in Hwf.
        destruct (m_buf m); [|done]. lia. }
      unfold DEFAULT_RPC_SZ in *.
      rewrite int_result_ok by (unfold is_signed; lia). simpl.
      destruct (grow_spec m (m_capa m * 2)) as (b & E & Hl & C); [done|lia|].
      exists b, (m_capa m * 2). split_and!; try done; try lia.
    - unfold wf_marshall in Hwf. change RPC_HEADER_SZ with 24 in Hwf.
      destruct m as [[b|] cap ind]; simpl in *; [|done].
      exists b, cap. split_and!; try done; try lia. }
  unfold rawbyte. rewrite E. simpl. rewrite poke_ok by lia. simpl.
  rewrite int_result_ok by (unfold is_signed; lia). simpl.
  eexists. split; [reflexivity|]. split.
  - unfold wf_marshall. simpl. split_and!; try lia. len.
  - unfold marshall_cstr at 1. simpl. rewrite Z2Nat.inj_add by lia.
    rewrite Nat.add_1_r, take_S_insert by len. by rewrite C.
Qed.

Lemma rawbytes_appends p n :
  n = zlen p -> appends (fun m => rawbytes m p n) p.
Proof.
  intros -> m Hwf Hroom. unfold MAX_MSG in *. unfold rawbytes.
  assert (0 <= zlen p) by (unfold zlen; lia).
  assert (Hm : 24 <= m_ind m <= m_capa m /\ 1024 <= m_capa m <= Z.max 1024 (2 * m_ind m)).
  { unfold wf_marshall in Hwf. change RPC_HEADER_SZ with 24 in Hwf.
    unfold DEFAULT_RPC_SZ in *. destruct (m_buf m); [|done]. lia. }
  rewrite (int_result_ok (m_ind m + zlen p)) by (unfold is_signed; lia). cbn [mbind res_bind].
  assert (exists b capa, (if m_ind m + zlen p >? m_capa m
       then capa ← (if m_capa m >? zlen p then int_result (2 * m_capa m)
                    else int_result (m_capa m + zlen p)); grow m capa else Ok m)
      = Ok (Marshall (Some b) capa (m_ind m)) /\ zlen b = capa /\
        m_ind m + zlen p <= capa /\ 1024 <= capa <= Z.max 1024 (2 * (m_ind m + zlen p)) /\
        take (Z.to_nat (m_ind m)) b = marshall_cstr m)
    as (b & capa & E & Hl & Hle & Hc & C).
  { destruct (m_ind m + zlen p >? m_capa m) eqn:Ecmp.
    - destruct (m_capa m >? zlen p) eqn:Ebig.
      + rewrite int_result_ok by (unfold is_signed; lia). simpl.
        destruct (grow_spec m (2 * m_capa m)) as (b & E & Hl & C); [done|lia|].
        exists b, (2 * m_capa m). split_and!; try done; try lia.
      + rewrite int_result_ok by (unfold is_signed; lia). simpl.
        destruct (grow_spec m (m_capa m + zlen p)) as (b & E & Hl & C); [done|lia|].
        exists b, (m_capa m + zlen p). split_and!; try done; try lia.
    - unfold wf_marshall in Hwf. change RPC_HEADER_SZ with 24 in Hwf.
      destruct m as [[b|] cap ind]; simpl in *; [|done].
      exists b, cap. split_and!; try done; try lia. }
  rewrite E. cbn [mbind res_bind m_buf m_ind m_capa].
  rewrite bool_decide_eq_true_2 by lia. cbn [defined_if mbind res_bind].
  rewrite (take_ge p) by (unfold zlen; lia).
  unfold memcpy. rewrite decide_True by lia. cbn [mbind res_bind].
  eexists. split; [reflexivity|]. split.
  - unfold wf_marshall. simpl. change RPC_HEADER_SZ with 24. unfold DEFAULT_RPC_SZ.
    split_and!; try lia. len.
  - unfold marshall_cstr at 1. simpl. rewrite <- C, app_assoc.
    rewrite take_app_le by len. rewrite take_ge by len. done.
Qed.
End primitives.

Lemma get_rawbyte_consumes c :
  consumes get_rawbyte [c] (u32 (s8 (Z_of_byte c))).
Proof.
  intros u rest (Hi & Hs & Hmax) Hok Hr. unfold remaining in Hr. simpl in Hr.
  assert (Hlook : take (Z.to_nat (u_sz u)) (u_buf u) !! Z.to_nat (u_ind u) = Some c).
  { rewrite <- (Nat.add_0_r (Z.to_nat (u_ind u))), <- lookup_drop, Hr. done. }
  apply lookup_take_Some in Hlook as [Hlook Hlt].
  unfold get_rawbyte. destruct (u_ind u >=? u_sz u) eqn:E; [lia|].
  rewrite decide_True by lia. rewrite Hlook.
  eexists. split; [reflexivity|]. split_and!; simpl; try done; [unfold wf_unmarshall; simpl; lia|].
  unfold remaining. simpl. rewrite Z2Nat.inj_add by lia.
  rewrite <- drop_drop, Hr. done.
Qed.

Lemma field_consumes shift c :
  consumes (field shift) [c] (u32 (Z.shiftl (Z_of_byte c) shift)).
Proof.
  rewrite <- (land_255_promoted c).
  apply (consumes_map get_rawbyte (fun x => u32 (Z.shiftl (Z.land x 0xff) shift))),
    get_rawbyte_consumes.
Qed.

Lemma get_rawbytes_consumes old p n :
  n = zlen p -> consumes (get_rawbytes old n) p p.
Proof.
  intros -> u rest (Hi & Hs & Hmax) Hok Hr. unfold remaining, INT_MAX in *.
  assert (Hlen := f_equal length Hr). rewrite length_drop, length_take, length_app in Hlen.
  unfold get_rawbytes, zlen in *.
  rewrite !(wrapU_small 32) by (unfold is_unsigned; lia || rewrite ?wrapU_small; unfold is_unsigned; lia).
  destruct (u_ind u + Z.of_nat (length p) >? u_sz u) eqn:E; [lia|].
  rewrite bool_decide_eq_true_2 by lia. cbn [defined_if mbind res_bind].
  assert (Hp : take (length p) (drop (Z.to_nat (u_ind u)) (u_buf u)) = p).
  { transitivity (take (length p) (p ++ rest)); [|apply take_app_length].
    rewrite <- Hr, !take_drop_commute, take_take. repeat f_equal. lia. }
  rewrite Nat2Z.id, Hp. eexists. split; [reflexivity|].
  split_and!; simpl; try done; [unfold wf_unmarshall, zlen, INT_MAX; simpl; lia|].
  unfold remaining. simpl. rewrite Z2Nat.inj_add by lia.
  by rewrite <- drop_drop, Hr, Nat2Z.id, drop_app_length.
Qed.

(** ** Words on the wire *)

Lemma byte_of_Z_land x : byte_of_Z (Z.land x 255) = byte_of_Z x.
Proof. rewrite land_255. apply byte_of_Z_u8. by apply wrapU_idemp. Qed.

Section words_out.
Context `{Allocator}.

Lemma put_uint_appends x : appends (put_uint x) (be 4 x).
Proof.
  unfold be. cbn [Z.of_nat]. rewrite Z.mul_0_r, Z.shiftr_0_r.
  eapply appends_bind with (bs := [_]);
    [rewrite <- byte_of_Z_land; apply rawbyte_appends|].
  eapply appends_bind with (bs := [_]);
    [rewrite <- byte_of_Z_land; apply rawbyte_appends|].
  eapply appends_bind with (bs := [_]);
    [rewrite <- byte_of_Z_land; apply rawbyte_appends|].
  rewrite <- byte_of_Z_land; apply rawbyte_appends.
Qed.

Lemma put_ushort_appends x : appends (put_ushort x) (be 2 x).
Proof.
  unfold be. cbn [Z.of_nat]. rewrite Z.mul_0_r, Z.shiftr_0_r.
  eapply appends_bind with (bs := [_]);
    [rewrite <- byte_of_Z_land; apply rawbyte_appends|].
  rewrite <- byte_of_Z_land; apply rawbyte_appends.
Qed.
End words_out.

Lemma u32_field b shift :
  0 <= shift <= 24 -> u32 (Z.shiftl (Z_of_byte b) shift) = Z_of_byte b * 2 ^ shift.
Proof.
  intros Hs. rewrite Z.shiftl_mul_pow2 by lia. apply wrapU_small.
  pose proof (Z_of_byte_range b) as Hb. unfold is_unsigned in *.
  assert (2 ^ shift <= 2 ^ 24) by (apply Z.pow_le_mono_r; lia).
  assert (0 < 2 ^ shift) by (apply Z.pow_pos_nonneg; lia). nia.
Qed.

(** The four masked and shifted bytes joined with [|=] are the big-endian
    value. *)
Lemma or_fields b3 b2 b1 b0 :
  Z.lor (Z.lor (Z.lor (u32 (Z.shiftl (Z_of_byte b3) 24)) (u32 (Z.shiftl (Z_of_byte b2) 16)))
    (u32 (Z.shiftl (Z_of_byte b1) 8))) (u32 (Z.shiftl (Z_of_byte b0) 0)) =
  be_val [b3; b2; b1; b0].
Proof.
  rewrite !u32_field by lia. unfold be_val. simpl fold_left.
  pose proof (Z_of_byte_range b3); pose proof (Z_of_byte_range b2).
  pose proof (Z_of_byte_range b1); pose proof (Z_of_byte_range b0).
  unfold is_unsigned in *.
  rewrite (lor_disjoint 24 (Z_of_byte b3 * 2 ^ 24)); [|lia|apply Z.mod_mul; lia|lia].
  rewrite (lor_disjoint 16 (Z_of_byte b3 * 2 ^ 24 + Z_of_byte b2 * 2 ^ 16)); [|lia| |lia].
  2: { apply Z.mod_divide; [lia|]. exists (Z_of_byte b3 * 256 + Z_of_byte b2). lia. }
  rewrite (lor_disjoint 8); [|lia| |lia].
  2: { apply Z.mod_divide; [lia|].
       exists (Z_of_byte b3 * 65536 + Z_of_byte b2 * 256 + Z_of_byte b1). lia. }
  lia.
Qed.

Lemma u32_lor x y : is_unsigned 32 x -> is_unsigned 32 y -> is_unsigned 32 (Z.lor x y).
Proof.
  unfold is_unsigned. intros Hx Hy. split; [apply Z.lor_nonneg; lia|].
  destruct (decide (Z.lor x y = 0)) as [->|Hne]; [lia|].
  apply Z.log2_lt_pow2; [pose proof (proj2 (Z.lor_nonneg x y)); lia|].
  rewrite Z.log2_lor by lia. apply Z.max_lub_lt.
  - destruct (decide (x = 0)) as [->|]; [simpl; lia|]. apply Z.log2_lt_pow2; lia.
  - destruct (decide (y = 0)) as [->|]; [simpl; lia|]. apply Z.log2_lt_pow2; lia.
Qed.

Lemma or_int_s32 x v : is_unsigned 32 x -> or_int (s32 x) v = s32 (Z.lor x v).
Proof. intros. unfold or_int. rewrite wrapU_wrapS by lia. by rewrite wrapU_small. Qed.

Lemma or_int_fields b3 b2 b1 b0 :
  or_int (or_int (or_int (s32 (u32 (Z.shiftl (Z_of_byte b3) 24)))
    (u32 (Z.shiftl (Z_of_byte b2) 16))) (u32 (Z.shiftl (Z_of_byte b1) 8)))
    (u32 (Z.shiftl (Z_of_byte b0) 0)) = s32 (be_val [b3; b2; b1; b0]).
Proof.
  assert (H : forall z, is_unsigned 32 (u32 z)) by (intros; apply wrapU_range; lia).
  rewrite <- or_fields, !or_int_s32; auto using u32_lor.
Qed.

Lemma get_uint_consumes old x : consumes (get_uint old) (be 4 x) (u32 x).
Proof.
  eapply consumes_eq.
  2: { unfold be. cbn [Z.of_nat]. unfold get_uint.
       eapply consumes_bind with (bs := [_]); [apply field_consumes|]. cbv beta zeta.
       eapply consumes_bind with (bs := [_]); [apply field_consumes|]. cbv beta zeta.
       eapply consumes_bind with (bs := [_]); [apply field_consumes|]. cbv beta zeta.
       apply (consumes_map (field 0) (or_uint _)), field_consumes. }
  unfold or_uint. rewrite or_fields. apply (be_val_be 4).
Qed.

Lemma unpack_consumes x : consumes unpack (be 4 x) (s32 x).
Proof.
  eapply consumes_eq.
  2: { unfold be. cbn [Z.of_nat]. unfold unpack.
       eapply consumes_bind with (bs := [_]); [apply field_consumes|]. cbv beta zeta.
       eapply consumes_bind with (bs := [_]); [apply field_consumes|]. cbv beta zeta.
       eapply consumes_bind with (bs := [_]); [apply field_consumes|]. cbv beta zeta.
       apply (consumes_map (field 0) (or_int _)), field_consumes. }
  rewrite or_int_fields. change (s32 (be_val (be 4 x)) = s32 x).
  rewrite be_val_be. by apply wrapS_wrapU.
Qed.

Lemma get_int_unpack old u : get_int old u = unpack u.
Proof. reflexivity. Qed.

(** Reading past the end is not an error of the program: it yields zero and
    marks the cursor bad. *)
Lemma field_total shift u :
  wf_unmarshall u ->
  exists x u', field shift u = Ok (x, u') /\ wf_unmarshall u' /\ u_buf u' = u_buf u /\
    u_sz u' = u_sz u /\ u_ok u' = u_ok u && bool_decide (u_ind u + 1 <= u_sz u) /\
    u_ind u' = Z.min (u_ind u + 1) (u_sz u).
Proof.
  intros (Hi & Hs & Hmax). unfold field, get_rawbyte.
  destruct (u_ind u >=? u_sz u) eqn:E; cbn [mbind res_bind].
  - do 2 eexists. split; [reflexivity|]. unfold wf_unmarshall. cbn [u_buf u_sz u_ok u_ind].
    rewrite bool_decide_eq_false_2 by lia. rewrite andb_false_r. split_and!; try done; lia.
  - rewrite decide_True by lia.
    destruct (lookup_lt_is_Some_2 (u_buf u) (Z.to_nat (u_ind u))) as [c ->];
      [unfold zlen in Hs; lia|]. cbn [mbind res_bind].
    do 2 eexists. split; [reflexivity|]. unfold wf_unmarshall. cbn [u_buf u_sz u_ok u_ind].
    rewrite bool_decide_eq_true_2 by lia. rewrite andb_true_r. split_and!; try done; lia.
Qed.

(** ** Codecs: the interface between a type and the RPC layer *)

Record codec (A : Type) := Codec {
  c_put : A -> marshall -> res marshall;
  c_get : A -> unmarshall -> res (A * unmarshall);
  c_init : A;                    (* a freshly declared variable *)
  c_valid : A -> Prop;           (* the values of the C++ type *)
  c_enc : A -> list byte         (* the specification of the wire format *)
}.
Arguments Codec {_} _ _ _ _ _.
Arguments c_put {_} _ _ _.
Arguments c_get {_} _ _ _.
Arguments c_init {_} _.
Arguments c_valid {_} _ _.
Arguments c_enc {_} _ _.

Class CodecOk {A} (c : codec A) : Prop := {
  codec_put : forall a, c_valid c a -> appends (c_put c a) (c_enc c a);
  codec_get : forall a, c_valid c a -> consumes (c_get c (c_init c)) (c_enc c a) a
}.

Section codecs.
Context `{Allocator}.

Definition bool_codec : codec bool :=
  Codec put_bool get_bool false (fun _ => True)
    (fun b => [byte_of_Z (if b : bool then 1 else 0)]).
Definition uchar_codec : codec Z :=
  Codec put_uchar get_uchar 0 (is_unsigned 8) (fun x => [byte_of_Z x]).
Definition char_codec : codec Z :=
  Codec put_char get_char 0 (is_signed 8) (fun x => [byte_of_Z x]).
Definition ushort_codec : codec Z :=
  Codec put_ushort get_ushort 0 (is_unsigned 16) (be 2).
Definition short_codec : codec Z :=
  Codec put_short get_short 0 (is_signed 16) (be 2).
Definition uint_codec : codec Z :=
  Codec put_uint get_uint 0 (is_unsigned 32) (be 4).
Definition int_codec : codec Z :=
  Codec put_int get_int 0 (is_signed 32) (be 4).
Definition ull_codec : codec Z :=
  Codec put_ull get_ull 0 (is_unsigned 64) (be 8).
Definition string_codec : codec (list byte) :=
  Codec put_string get_string [] (fun s => zlen s <= INT_MAX)
    (fun s => be 4 (zlen s) ++ s).
Definition vector_codec {C} (c : codec C) : codec (list C) :=
  Codec (put_vector (c_put c)) (get_vector (c_get c) (c_init c)) []
    (fun v => zlen v <= UINT_MAX /\ Forall (c_valid c) v)
    (fun v => be 4 (zlen v) ++ concat (c_enc c <$> v)).
Definition pair_codec {A B} (c : codec A) (d : codec B) : codec (A * B) :=
  Codec (fun p m => m ← c_put c p.1 m; c_put d p.2 m)
    (fun p u => '(a, u) ← c_get c p.1 u; '(b, u) ← c_get d p.2 u; Ok ((a, b), u))
    (c_init c, c_init d) (fun p => c_valid c p.1 /\ c_valid d p.2)
    (fun p => c_enc c p.1 ++ c_enc d p.2).

#[export] Instance bool_codec_ok : CodecOk bool_codec.
Proof.
  split; intros b _.
  - apply rawbyte_appends.
  - eapply consumes_eq; [|apply (consumes_map get_rawbyte (fun c => bool_decide (c <> 0))),
      get_rawbyte_consumes]. by destruct b.
Qed.

#[export] Instance uchar_codec_ok : CodecOk uchar_codec.
Proof.
  split; intros x Hx; [apply rawbyte_appends|].
  eapply consumes_eq; [|apply (consumes_map get_rawbyte u8), get_rawbyte_consumes].
  rewrite <- land_255, land_255_promoted, Z_of_byte_of_Z. by apply wrapU_small.
Qed.

Lemma s8_promoted x : s8 (u32 (s8 x)) = s8 x.
Proof.
  transitivity (s8 (u8 (u32 (s8 x)))); [symmetry; by apply wrapS_wrapU|].
  replace (u8 (u32 (s8 x))) with (u8 x); [by apply wrapS_wrapU|].
  rewrite <- (wrapU_wrapS 8) by lia. unfold wrapU.
  by rewrite Z.mod_mod_divide by (exists (2 ^ 24); lia).
Qed.

#[export] Instance char_codec_ok : CodecOk char_codec.
Proof.
  split; intros x Hx; simpl.
  - intros m Hwf Hroom. unfold put_char, put_uchar.
    replace (byte_of_Z x) with (byte_of_Z (u8 x)) by (apply byte_of_Z_u8, wrapU_idemp; lia).
    by apply rawbyte_appends.
  - eapply consumes_eq; [|apply (consumes_map get_rawbyte s8), get_rawbyte_consumes].
    rewrite s8_promoted, Z_of_byte_of_Z, wrapS_wrapU by lia. by apply wrapS_small.
Qed.

#[export] Instance uint_codec_ok : CodecOk uint_codec.
Proof.
  split; intros x Hx; [apply put_uint_appends|].
  eapply consumes_eq; [exact (wrapU_small 32 x Hx)|]. apply get_uint_consumes.
Qed.

#[export] Instance int_codec_ok : CodecOk int_codec.
Proof.
  split; intros x Hx; cbn [c_put c_get c_enc c_init int_codec].
  - rewrite (be_mod 4 x (u32 x)); [apply put_uint_appends|].
    symmetry. apply (Z.mod_mod x (2 ^ 32)). lia.
  - eapply consumes_eq; [exact (wrapS_small 32 ltac:(lia) x Hx)|]. apply unpack_consumes.
Qed.

Lemma be_8 x : be 8 x = be 4 (Z.shiftr x 32) ++ be 4 x.
Proof. cbn [be app Z.of_nat]. rewrite !Z.shiftr_shiftr by lia. done. Qed.

Lemma be_4_u32 x : be 4 (u32 x) = be 4 x.
Proof. apply be_mod, (Z.mod_mod x (2 ^ 32)). lia. Qed.

#[export] Instance ull_codec_ok : CodecOk ull_codec.
Proof.
  split; intros x Hx; cbn [c_put c_get c_enc c_init ull_codec]; rewrite be_8.
  - rewrite <- (be_4_u32 (Z.shiftr x 32)), <- (be_4_u32 x).
    apply appends_bind; apply put_uint_appends.
  - eapply consumes_eq.
    2: { unfold get_ull. eapply consumes_bind; [apply get_uint_consumes|].
         apply (consumes_map (get_uint 0) (fun l => Z.lor l (u64 (Z.shiftl _ 32)))),
           get_uint_consumes. }
    change (0 <= x < 2 ^ 64) in Hx. cbv beta.
    rewrite Z.lor_comm, Z.shiftl_mul_pow2, Z.shiftr_div_pow2 by lia. unfold wrapU.
    assert (0 <= x / 2 ^ 32 < 2 ^ 32)
      by (split; [apply Z.div_pos; lia | apply Z.div_lt_upper_bound; lia]).
    rewrite (Z.mod_small (x / 2 ^ 32)), (Z.mod_small (x / 2 ^ 32 * 2 ^ 32)) by lia.
    rewrite (lor_disjoint 32); [|lia|apply Z.mod_mul; lia|apply Z.mod_pos_bound; lia].
    pose proof (Z.div_mod x (2 ^ 32)). lia.
Qed.

Lemma u16_lor a b : u16 (Z.lor a b) = Z.lor (u16 a) (u16 b).
Proof. unfold wrapU. rewrite <- !Z.land_ones by lia. apply Z.land_lor_distr_l. Qed.

Lemma u16_u32_s16 y : u16 (u32 (s16 y)) = u16 y.
Proof.
  rewrite <- (wrapU_wrapS 16 y). apply Z.mod_mod_divide. by exists (2 ^ 16).
Qed.

Lemma or_fields2 b1 b0 :
  Z.lor (u32 (Z.shiftl (Z_of_byte b1) 8)) (u32 (Z.shiftl (Z_of_byte b0) 0)) =
  be_val [b1; b0].
Proof.
  rewrite !u32_field by lia. unfold be_val. simpl fold_left.
  pose proof (Z_of_byte_range b0) as Hb. unfold is_unsigned in Hb.
  rewrite (lor_disjoint 8); [lia|lia|apply Z.mod_mul; lia|lia].
Qed.

#[export] Instance ushort_codec_ok : CodecOk ushort_codec.
Proof.
  split; intros x Hx; [apply put_ushort_appends|].
  eapply consumes_eq.
  2: { cbn [c_get c_enc ushort_codec be Z.of_nat]. unfold get_ushort.
       eapply consumes_bind with (bs := [_]); [apply field_consumes|]. cbv beta zeta.
       apply (consumes_map (field 0) (fun b => u16 (Z.lor _ b))), field_consumes. }
  cbv beta. rewrite u16_lor, wrapU_idemp, <- u16_lor, or_fields2 by lia.
  change (u16 (be_val (be 2 x)) = x). rewrite be_val_be.
  change (u16 (u16 x) = x). rewrite wrapU_idemp by lia. by apply wrapU_small.
Qed.

#[export] Instance short_codec_ok : CodecOk short_codec.
Proof.
  split; intros x Hx; cbn [c_put c_get c_enc c_init short_codec].
  - rewrite (be_mod 2 x (u16 x)); [apply put_ushort_appends|].
    symmetry. apply (Z.mod_mod x (2 ^ 16)). lia.
  - eapply consumes_eq.
    2: { cbn [be Z.of_nat]. unfold get_short.
         eapply consumes_bind with (bs := [_]); [apply field_consumes|]. cbv beta zeta.
         apply (consumes_map (field 0) (fun b => s16 (Z.lor _ b))), field_consumes. }
    cbv beta. rewrite <- (wrapS_wrapU 16) by lia.
    rewrite u16_lor, u16_u32_s16, <- u16_lor, or_fields2.
    change (s16 (u16 (be_val (be 2 x))) = x). rewrite be_val_be.
    change (s16 (u16 (u16 x)) = x). rewrite !wrapS_wrapU by lia. by apply wrapS_small.
Qed.

#[export] Instance string_codec_ok : CodecOk string_codec.
Proof.
  split; intros s Hs; change (zlen s <= INT_MAX) in Hs; unfold INT_MAX in Hs;
    cbn [c_put c_get c_enc c_init string_codec];
    assert (0 <= zlen s) by (unfold zlen; lia).
  - rewrite <- (be_4_u32 (zlen s)). apply appends_bind; [apply put_uint_appends|].
    apply rawbytes_appends, wrapS_small; [lia|]. unfold is_signed. lia.
  - intros u rest Hwf Hok Hr. rewrite <- app_assoc in Hr. unfold get_string.
    destruct (get_uint_consumes 0 (zlen s) u _ Hwf Hok Hr)
      as (u1 & E1 & Hwf1 & R1 & O1 & B1 & S1).
    rewrite E1. cbn [mbind res_bind].
    rewrite wrapU_small by (unfold is_unsigned; lia). rewrite O1.
    destruct (get_rawbytes_consumes [] s (zlen s) eq_refl u1 rest Hwf1 O1 R1)
      as (u2 & E2 & Hwf2 & R2 & O2 & B2 & S2).
    exists u2. rewrite E2. split_and!; congruence.
Qed.

Lemma put_all_appends {C} put (enc : C -> list byte) v :
  (forall x, x ∈ v -> appends (put x) (enc x)) ->
  appends (put_all put v) (concat (enc <$> v)).
Proof.
  induction v as [|x v IH]; intros Hput; [by apply appends_nil|].
  cbn [put_all fmap list_fmap concat]. apply appends_bind; [set_solver|].
  apply IH. set_solver.
Qed.

Lemma get_all_consumes {C} get (init : C) (enc : C -> list byte) v pre :
  (forall x, x ∈ v -> consumes (get init) (enc x) x) ->
  consumes (get_all get init (length v) pre) (concat (enc <$> v)) (pre ++ v).
Proof.
  revert pre. induction v as [|x v IH]; intros pre Hget.
  { rewrite app_nil_r. apply consumes_ret. }
  cbn [get_all fmap list_fmap concat length]. eapply consumes_bind; [apply Hget; set_solver|]. cbv beta.
  replace (pre ++ x :: v) with ((pre ++ [x]) ++ v) by (by rewrite <- app_assoc).
  apply (IH (pre ++ [x])). set_solver.
Qed.

#[export] Instance vector_codec_ok {C} (c : codec C) :
  CodecOk c -> CodecOk (vector_codec c).
Proof.
  intros Hc. split; intros v [Hlen Hv]; unfold UINT_MAX in Hlen;
    cbn [c_put c_get c_enc c_init vector_codec]; rewrite Forall_forall in Hv.
  - rewrite <- (be_4_u32 (zlen v)). apply appends_bind; [apply put_uint_appends|].
    apply put_all_appends. intros x Hx. by apply Hc, Hv.
  - eapply consumes_bind; [apply get_uint_consumes|]. cbv beta.
    rewrite wrapU_small by (unfold is_unsigned, zlen in *; lia).
    unfold zlen. rewrite Nat2Z.id. apply get_all_consumes.
    intros x Hx. by apply Hc, Hv.
Qed.

#[export] Instance pair_codec_ok {A B} (c : codec A) (d : codec B) :
  CodecOk c -> CodecOk d -> CodecOk (pair_codec c d).
Proof.
  intros Hc Hd. split; intros [a b] [Ha Hb]; cbn [c_put c_get c_enc c_init pair_codec fst snd].
  - apply appends_bind; [by apply Hc | by apply Hd].
  - eapply consumes_bind; [by apply Hc|]. cbv beta.
    apply (consumes_map (c_get d (c_init d)) (fun b => (a, b))). by apply Hd.
Qed.
End codecs.

(** ** Headers *)

Definition enc_req_header (h : req_header) : list byte :=
  be 4 (h_xid h) ++ be 4 (h_proc h) ++ be 4 (h_clt_nonce h) ++ be 4 (h_srv_nonce h) ++
  be 4 (h_xid_rep h).
Definition enc_reply_header (h : reply_header) : list byte :=
  be 4 (r_xid h) ++ be 4 (r_ret h).

Definition valid_req_header (h : req_header) : Prop :=
  is_signed 32 (h_xid h) /\ is_signed 32 (h_proc h) /\ is_unsigned 32 (h_clt_nonce h) /\
  is_unsigned 32 (h_srv_nonce h) /\ is_signed 32 (h_xid_rep h).
Definition valid_reply_header (h : reply_header) : Prop :=
  is_signed 32 (r_xid h) /\ is_signed 32 (r_ret h).

Lemma mk_req_header_valid x p c s xi : valid_req_header (mk_req_header x p c s xi).
Proof.
  unfold valid_req_header, mk_req_header. simpl.
  split_and!; first [apply wrapS_range | apply wrapU_range]; lia.
Qed.

Section headers.
Context `{Allocator}.

(** Overwriting inside the block: no growth, nothing else moves. *)
Lemma rawbyte_at pre c post capa x :
  zlen pre < capa -> zlen pre < INT_MAX ->
  rawbyte (Marshall (Some (pre ++ c :: post)) capa (zlen pre)) x =
  Ok (Marshall (Some ((pre ++ [byte_of_Z x]) ++ post)) capa (zlen (pre ++ [byte_of_Z x]))).
Proof.
  intros Hcap Hmax. unfold rawbyte, INT_MAX in *. simpl.
  destruct (capa <=? zlen pre) eqn:E; [lia|]. simpl.
  rewrite poke_ok by (len; lia). simpl.
  rewrite int_result_ok by (unfold is_signed, zlen in *; lia). simpl.
  unfold zlen. rewrite Nat2Z.id, insert_app_r_alt, Nat.sub_diag by lia. simpl.
  rewrite <- app_assoc. simpl. rewrite length_app. simpl. do 3 f_equal. lia.
Qed.

Lemma pack_at pre old post capa x :
  length old = 4%nat -> zlen (pre ++ old) <= capa -> zlen pre < INT_MAX - 4 ->
  pack (Marshall (Some (pre ++ old ++ post)) capa (zlen pre)) x =
  Ok (Marshall (Some ((pre ++ be 4 x) ++ post)) capa (zlen (pre ++ be 4 x))).
Proof.
  intros Hold Hcap Hmax.
  destruct old as [|o3 [|o2 [|o1 [|o0 [|]]]]]; try discriminate. clear Hold.
  assert (zlen pre + 4 <= capa) by (len; lia). unfold INT_MAX in *.
  unfold pack. cbn [app].
  do 4 (rewrite rawbyte_at by (len; unfold INT_MAX; lia); cbn [mbind res_bind]).
  assert (E : forall a b c d : byte,
    (((pre ++ [a]) ++ [b]) ++ [c]) ++ [d] = pre ++ [a; b; c; d]).
  { intros. by rewrite <- !app_assoc. }
  rewrite !byte_of_Z_land, !E. cbn [be Z.of_nat]. by rewrite Z.mul_0_r, Z.shiftr_0_r.
Qed.

Lemma split_block (b : list byte) n k :
  (n + k <= length b)%nat ->
  exists pre old post, b = pre ++ old ++ post /\ length pre = n /\ length old = k.
Proof.
  intros Hle. exists (take n b), (take k (drop n b)), (drop k (drop n b)).
  rewrite !take_drop. split_and!; [done|len..].
Qed.

Lemma cstr_overwrite (pre old hdr post : list byte) n :
  length old = length hdr -> (length pre + length hdr <= n)%nat ->
  take n ((pre ++ hdr) ++ post) =
  take (length pre) (take n (pre ++ old ++ post)) ++ hdr ++
  drop (length pre + length hdr) (take n (pre ++ old ++ post)).
Proof.
  intros Hlen Hn. rewrite take_take, Nat.min_l, take_app_length by lia.
  rewrite (app_assoc pre old), (take_app_ge (pre ++ old)), (take_app_ge (pre ++ hdr)) by len.
  rewrite drop_app_ge by len. rewrite <- !app_assoc. do 2 f_equal.
  rewrite !length_app, Hlen, Nat.sub_diag. done.
Qed.

Lemma be_4_s32 x : be 4 (s32 x) = be 4 x.
Proof. by rewrite <- be_4_u32, wrapU_wrapS, be_4_u32. Qed.

(** The header goes to offset 4; the size field before it and the arguments
    after it are left alone. *)
Lemma pack_req_header_spec m h :
  wf_marshall m ->
  exists m', pack_req_header m h = Ok m' /\ wf_marshall m' /\ m_ind m' = m_ind m /\
    marshall_cstr m' = take 4 (marshall_cstr m) ++ enc_req_header h ++
                       drop 24 (marshall_cstr m).
Proof.
  unfold wf_marshall. destruct m as [[b|] capa ind]; [|done].
  cbn [m_buf m_capa m_ind]. change RPC_HEADER_SZ with 24. unfold DEFAULT_RPC_SZ.
  intros (Hl & Hi & Hc).
  destruct (split_block b 4 20) as (pre & old & post & -> & Hpre & Hold); [len|].
  destruct (split_block old 4 16) as (o1 & old2 & e & -> & H1 & H2); [len|].
  destruct (split_block old2 4 12) as (o2 & old3 & e' & -> & H3 & H4); [len|].
  destruct (split_block old3 4 8) as (o3 & old4 & e'' & -> & H5 & H6); [len|].
  destruct (split_block old4 4 4) as (o4 & o5 & e3 & -> & H7 & H8); [len|].
  assert (e = [] /\ e' = [] /\ e'' = [] /\ e3 = []) as (-> & -> & -> & ->).
  { split_and!; apply length_zero_iff_nil; len. }
  rewrite !app_nil_r in *.
  assert (Hz : sizeof_rpc_sz = zlen pre) by (unfold sizeof_rpc_sz, zlen; lia).
  unfold pack_req_header. cbn [m_buf m_capa m_ind]. rewrite Hz, <- !app_assoc.
  do 5 (rewrite pack_at by (first [done | len; unfold INT_MAX; lia]); cbn [mbind res_bind]).
  eexists. split; [reflexivity|]. cbn [m_buf m_ind m_capa].
  split_and!; try done; try (len; lia).
  unfold marshall_cstr. cbn [m_buf m_ind default id]. rewrite !be_4_s32.
  replace (((((pre ++ be 4 (h_xid h)) ++ be 4 (h_proc h)) ++ be 4 (h_clt_nonce h)) ++
       be 4 (h_srv_nonce h)) ++ be 4 (h_xid_rep h)) with (pre ++ enc_req_header h)
    by (unfold enc_req_header; by rewrite <- !app_assoc).
  rewrite (cstr_overwrite pre (o1 ++ o2 ++ o3 ++ o4 ++ o5)) by (unfold enc_req_header; len; lia).
  rewrite Hpre, <- !app_assoc. reflexivity.
Qed.

Lemma pack_reply_header_spec m h :
  wf_marshall m ->
  exists m', pack_reply_header m h = Ok m' /\ wf_marshall m' /\ m_ind m' = m_ind m /\
    marshall_cstr m' = take 4 (marshall_cstr m) ++ enc_reply_header h ++
                       drop 12 (marshall_cstr m).
Proof.
  unfold wf_marshall. destruct m as [[b|] capa ind]; [|done].
  cbn [m_buf m_capa m_ind]. change RPC_HEADER_SZ with 24. unfold DEFAULT_RPC_SZ.
  intros (Hl & Hi & Hc).
  destruct (split_block b 4 8) as (pre & old & post & -> & Hpre & Hold); [len|].
  destruct (split_block old 4 4) as (o1 & o2 & e & -> & H1 & H2); [len|].
  assert (e = []) as -> by (apply length_zero_iff_nil; len).
  rewrite !app_nil_r in *.
  assert (Hz : sizeof_rpc_sz = zlen pre) by (unfold sizeof_rpc_sz, zlen; lia).
  unfold pack_reply_header. cbn [m_buf m_capa m_ind]. rewrite Hz, <- !app_assoc.
  do 2 (rewrite pack_at by (first [done | len; unfold INT_MAX; lia]); cbn [mbind res_bind]).
  eexists. split; [reflexivity|]. cbn [m_buf m_ind m_capa].
  split_and!; try done; try (len; lia).
  unfold marshall_cstr. cbn [m_buf m_ind default id].
  replace ((pre ++ be 4 (r_xid h)) ++ be 4 (r_ret h)) with (pre ++ enc_reply_header h)
    by (unfold enc_reply_header; by rewrite <- !app_assoc).
  rewrite (cstr_overwrite pre (o1 ++ o2)) by (unfold enc_reply_header; len; lia).
  rewrite Hpre, <- !app_assoc. reflexivity.
Qed.
End headers.

(** Reading starts at offset 4 whatever the cursor was. *)
Lemma unpack_req_header_spec szf h body :
  valid_req_header h -> length szf = 4%nat ->
  zlen (szf ++ enc_req_header h ++ body) <= INT_MAX ->
  let buf := szf ++ enc_req_header h ++ body in
  unpack_req_header (new_unmarshall buf (zlen buf)) =
  Ok (h, Unmarshall buf (zlen buf) RPC_HEADER_SZ true).
Proof.
  intros (Hx & Hp & Hc & Hs & Hr) Hszf Hmax buf. unfold unpack_req_header, new_unmarshall.
  cbn [u_buf u_sz u_ok]. set (u0 := Unmarshall _ _ _ _).
  assert (Hcons : consumes (fun u => '(x, u) ← unpack u; '(p, u) ← unpack u;
      '(c, u) ← unpack u; '(s, u) ← unpack u; '(r, u) ← unpack u;
      Ok (ReqHeader x p (u32 c) (u32 s) r, u)) (enc_req_header h) h).
  { unfold enc_req_header. eapply consumes_eq.
    2: { do 4 (eapply consumes_bind; [apply unpack_consumes|]; cbv beta).
         apply (consumes_map unpack (fun r => ReqHeader _ _ _ _ r)), unpack_consumes. }
    destruct h as [x p c s r]. cbn [h_xid h_proc h_clt_nonce h_srv_nonce h_xid_rep] in *.
    rewrite !wrapU_wrapS, !wrapS_small, !wrapU_small by (done || lia). done. }
  assert (Hlb : length buf = (24 + length body)%nat)
    by (unfold buf, enc_req_header; len).
  destruct (Hcons u0 body) as (u' & E & _ & _ & O & B & S).
  { unfold wf_unmarshall, u0, sizeof_rpc_sz. simpl. fold buf in Hmax. unfold zlen in *. lia. }
  { done. }
  { unfold remaining, u0. cbn [u_ind u_sz u_buf]. unfold zlen. rewrite Nat2Z.id.
    rewrite take_ge by lia. change (Z.to_nat sizeof_rpc_sz) with 4%nat.
    rewrite <- Hszf. apply drop_app_length. }
  revert E. destruct (unpack u0) as [[x u1]|] eqn:E1; [simpl|discriminate].
  destruct (unpack u1) as [[p u2]|] eqn:E2; [simpl|discriminate].
  destruct (unpack u2) as [[c u3]|] eqn:E3; [simpl|discriminate].
  destruct (unpack u3) as [[s u4]|] eqn:E4; [simpl|discriminate].
  destruct (unpack u4) as [[r u5]|] eqn:E5; [simpl|discriminate].
  intros E. injection E as <- <-. rewrite O, B, S. done.
Qed.

Lemma unpack_reply_header_spec szf h body :
  valid_reply_header h -> length szf = 4%nat ->
  zlen (szf ++ enc_reply_header h ++ body) <= INT_MAX ->
  let buf := szf ++ enc_reply_header h ++ body in
  unpack_reply_header (new_unmarshall buf (zlen buf)) =
  Ok (h, Unmarshall buf (zlen buf) RPC_HEADER_SZ true).
Proof.
  intros (Hx & Hr) Hszf Hmax buf. unfold unpack_reply_header, new_unmarshall.
  cbn [u_buf u_sz u_ok]. set (u0 := Unmarshall _ _ _ _).
  assert (Hcons : consumes (fun u => '(x, u) ← unpack u; '(r, u) ← unpack u;
      Ok (ReplyHeader x r, u)) (enc_reply_header h) h).
  { unfold enc_reply_header. eapply consumes_eq.
    2: { eapply consumes_bind; [apply unpack_consumes|]; cbv beta.
         apply (consumes_map unpack (fun r => ReplyHeader _ r)), unpack_consumes. }
    destruct h as [x r]. cbn [r_xid r_ret] in *. by rewrite !wrapS_small by (done || lia). }
  assert (Hlb : length buf = (12 + length body)%nat)
    by (unfold buf, enc_reply_header; len).
  destruct (Hcons u0 body) as (u' & E & _ & _ & O & B & S).
  { unfold wf_unmarshall, u0, sizeof_rpc_sz. simpl. fold buf in Hmax. unfold zlen in *. lia. }
  { done. }
  { unfold remaining, u0. cbn [u_ind u_sz u_buf]. unfold zlen. rewrite Nat2Z.id.
    rewrite take_ge by lia. change (Z.to_nat sizeof_rpc_sz) with 4%nat.
    rewrite <- Hszf. apply drop_app_length. }
  revert E. destruct (unpack u0) as [[x u1]|] eqn:E1; [simpl|discriminate].
  destruct (unpack u1) as [[r u2]|] eqn:E2; [simpl|discriminate].
  intros E. injection E as <- <-. rewrite O, B, S. done.
Qed.

(** ** Whole messages *)

Section messages.
Context `{Allocator} {A : Type} (c : codec A) `{!CodecOk c}.

(** What a sender builds: arguments first, then the header in front. *)
Definition build_request (h : req_header) (a : A) : res marshall :=
  m ← c_put c a new_marshall; pack_req_header m h.
Definition build_reply (h : reply_header) (a : A) : res marshall :=
  m ← c_put c a new_marshall; pack_reply_header m h.

(** The connection overwrites the first four bytes with the size. *)
Definition with_size_field (szf pkt : list byte) : list byte := szf ++ drop 4 pkt.

Lemma put_new_marshall a :
  c_valid c a -> RPC_HEADER_SZ + zlen (c_enc c a) < MAX_MSG ->
  exists m, c_put c a new_marshall = Ok m /\ wf_marshall m /\
    length (marshall_cstr new_marshall) = 24%nat /\
    marshall_cstr m = marshall_cstr new_marshall ++ c_enc c a.
Proof.
  intros Ha Hroom. assert (Hwf := new_marshall_wf).
  destruct (codec_put a Ha new_marshall Hwf Hroom) as (m & E & Hm & C).
  exists m. split_and!; try done.
  pose proof (length_cstr _ Hwf) as Hl. unfold zlen in Hl. change (m_ind new_marshall) with 24 in Hl.
  lia.
Qed.

Lemma build_request_spec h a :
  c_valid c a -> RPC_HEADER_SZ + zlen (c_enc c a) < MAX_MSG ->
  exists m junk, build_request h a = Ok m /\ wf_marshall m /\ length junk = 4%nat /\
    marshall_cstr m = junk ++ enc_req_header h ++ c_enc c a.
Proof.
  intros Ha Hroom. destruct (put_new_marshall a Ha Hroom) as (m & E & Hwf & L & C).
  destruct (pack_req_header_spec m h Hwf) as (m' & E' & Hwf' & _ & C').
  exists m', (take 4 (marshall_cstr m)). unfold build_request. rewrite E. cbn [mbind res_bind].
  split_and!; try done.
  - rewrite C. len.
  - rewrite C' at 1. rewrite C at 2. by rewrite <- L, drop_app_length.
Qed.

Lemma build_reply_spec h a :
  c_valid c a -> RPC_HEADER_SZ + zlen (c_enc c a) < MAX_MSG ->
  exists m junk pad, build_reply h a = Ok m /\ wf_marshall m /\ length junk = 4%nat /\
    length pad = 12%nat /\
    marshall_cstr m = junk ++ enc_reply_header h ++ pad ++ c_enc c a.
Proof.
  intros Ha Hroom. destruct (put_new_marshall a Ha Hroom) as (m & E & Hwf & L & C).
  destruct (pack_reply_header_spec m h Hwf) as (m' & E' & Hwf' & _ & C').
  exists m', (take 4 (marshall_cstr m)), (drop 12 (marshall_cstr new_marshall)).
  unfold build_reply. rewrite E. cbn [mbind res_bind]. split_and!; try done.
  - rewrite C. len.
  - len.
  - rewrite C' at 1. rewrite C at 2. rewrite drop_app_le by lia. by rewrite app_assoc.
Qed.

(** Reading the arguments of a message behind its header. *)
Lemma read_message_body pre a :
  c_valid c a -> length pre = 24%nat -> zlen (pre ++ c_enc c a) <= INT_MAX ->
  let buf := pre ++ c_enc c a in
  exists u, c_get c (c_init c) (Unmarshall buf (zlen buf) RPC_HEADER_SZ true) = Ok (a, u) /\
    okdone u = true.
Proof.
  intros Ha Hpre Hmax buf.
  destruct (codec_get a Ha (Unmarshall buf (zlen buf) RPC_HEADER_SZ true) [])
    as (u & E & Hwf & R & O & B & S).
  - unfold wf_unmarshall. simpl. change RPC_HEADER_SZ with 24. fold buf in Hmax.
    unfold buf, zlen in *. rewrite length_app in *. lia.
  - done.
  - unfold remaining. cbn [u_ind u_sz u_buf]. unfold zlen. rewrite Nat2Z.id, take_ge by lia.
    change (Z.to_nat RPC_HEADER_SZ) with 24%nat. rewrite <- Hpre, app_nil_r.
    apply drop_app_length.
  - exists u. split; [done|]. unfold okdone. rewrite O. simpl. apply Z.eqb_eq.
    unfold remaining in R. apply (f_equal length) in R. unfold wf_unmarshall, zlen in Hwf.
    rewrite length_drop, length_take in R. simpl in R. lia.
Qed.
(** The packet, size field filled in, as the receiving side sees it. *)
Lemma request_parse h a szf :
  c_valid c a -> valid_req_header h -> length szf = 4%nat ->
  RPC_HEADER_SZ + zlen (c_enc c a) < MAX_MSG ->
  exists m, build_request h a = Ok m /\
    let pkt := with_size_field szf (marshall_cstr m) in
    unpack_req_header (new_unmarshall pkt (zlen pkt)) =
      Ok (h, Unmarshall pkt (zlen pkt) RPC_HEADER_SZ true) /\
    exists u', c_get c (c_init c) (Unmarshall pkt (zlen pkt) RPC_HEADER_SZ true) = Ok (a, u') /\
      okdone u' = true.
Proof.
  intros Ha Hh Hszf Hroom.
  destruct (build_request_spec h a Ha Hroom) as (m & junk & E & Hwf & Lj & C).
  exists m. split; [done|]. intros pkt.
  assert (Hpkt : pkt = szf ++ enc_req_header h ++ c_enc c a).
  { unfold pkt, with_size_field. rewrite C, <- Lj, drop_app_length. done. }
  change RPC_HEADER_SZ with 24 in Hroom. unfold MAX_MSG in Hroom.
  assert (Hmax : zlen (szf ++ enc_req_header h ++ c_enc c a) <= INT_MAX)
    by (unfold INT_MAX, enc_req_header; len).
  rewrite Hpkt. split; [by apply unpack_req_header_spec|].
  rewrite (app_assoc szf). rewrite app_assoc in Hmax.
  apply read_message_body; [done|unfold enc_req_header; len|done].
Qed.

Lemma reply_parse h a szf :
  c_valid c a -> valid_reply_header h -> length szf = 4%nat ->
  RPC_HEADER_SZ + zlen (c_enc c a) < MAX_MSG ->
  exists m, build_reply h a = Ok m /\
    let pkt := with_size_field szf (marshall_cstr m) in
    unpack_reply_header (new_unmarshall pkt (zlen pkt)) =
      Ok (h, Unmarshall pkt (zlen pkt) RPC_HEADER_SZ true) /\
    exists u', c_get c (c_init c) (take_in (Unmarshall pkt (zlen pkt) RPC_HEADER_SZ true)) =
      Ok (a, u') /\ okdone u' = true.
Proof.
  intros Ha Hh Hszf Hroom.
  destruct (build_reply_spec h a Ha Hroom) as (m & junk & pad & E & Hwf & Lj & Lp & C).
  exists m. split; [done|]. intros pkt.
  assert (Hpkt : pkt = szf ++ enc_reply_header h ++ pad ++ c_enc c a).
  { unfold pkt, with_size_field. rewrite C, <- Lj, drop_app_length. done. }
  change RPC_HEADER_SZ with 24 in Hroom. unfold MAX_MSG in Hroom.
  assert (Hmax : zlen (szf ++ enc_reply_header h ++ pad ++ c_enc c a) <= INT_MAX)
    by (unfold INT_MAX, enc_reply_header; len).
  rewrite Hpkt. split; [by apply unpack_reply_header_spec|].
  assert (Hre : szf ++ enc_reply_header h ++ pad ++ c_enc c a =
          (szf ++ enc_reply_header h ++ pad) ++ c_enc c a) by (by rewrite <- !app_assoc).
  rewrite Hre in *. unfold take_in. cbn [u_buf u_sz].
  replace (zlen ((szf ++ enc_reply_header h ++ pad) ++ c_enc c a) >=? RPC_HEADER_SZ) with true.
  - apply read_message_body; [done|unfold enc_reply_header; len|done].
  - symmetry. apply Z.geb_le. change RPC_HEADER_SZ with 24. unfold enc_reply_header. len.
Qed.
End messages.

(** ** Theorems *)

(** C21. Request round trip. For every type whose operators satisfy [CodecOk],
    a request built by [<<] and [pack_req_header] is never refused for lack of
    room below [MAX_MSG] bytes, and after the connection has stored the size in
    its first four bytes the server unpacks the same header, reads back the
    same arguments and finds the message exactly consumed ([okdone]). *)
Theorem request_roundtrip `{Allocator} {A} (c : codec A) `{!CodecOk c} h a szf :
  c_valid c a -> valid_req_header h -> length szf = 4%nat ->
  RPC_HEADER_SZ + zlen (c_enc c a) < MAX_MSG ->
  exists m, build_request c h a = Ok m /\
    let pkt := with_size_field szf (marshall_cstr m) in
    exists u u', unpack_req_header (new_unmarshall pkt (zlen pkt)) = Ok (h, u) /\
      c_get c (c_init c) u = Ok (a, u') /\ okdone u' = true.
Proof.
  intros Ha Hh Hszf Hroom.
  destruct (request_parse c h a szf Ha Hh Hszf Hroom) as (m & E & Eu & u' & Eg & Hd).
  exists m. split; [done|]. by eexists _, u'.
Qed.

(** Reply round trip. The reply built by a handler's [<<] and
    [pack_reply_header] gives the client the same header back; the client then
    moves the block into the caller's [unmarshall] with [take_in], reads the
    result with [>>] and finds the message exactly consumed. *)
Theorem reply_roundtrip `{Allocator} {A} (c : codec A) `{!CodecOk c} h a szf :
  c_valid c a -> valid_reply_header h -> length szf = 4%nat ->
  RPC_HEADER_SZ + zlen (c_enc c a) < MAX_MSG ->
  exists m, build_reply c h a = Ok m /\
    let pkt := with_size_field szf (marshall_cstr m) in
    exists u u', unpack_reply_header (new_unmarshall pkt (zlen pkt)) = Ok (h, u) /\
      c_get c (c_init c) (take_in u) = Ok (a, u') /\ okdone u' = true.
Proof.
  intros Ha Hh Hszf Hroom.
  destruct (reply_parse c h a szf Ha Hh Hszf Hroom) as (m & E & Eu & u' & Eg & Hd).
  exists m. split; [done|]. by eexists _, u'.
Qed.

(** Reading is memory safe and detects truncation. On a well-formed cursor
    the four-byte reader never leaves the block: it always returns, keeps the
    cursor well formed and the block unchanged, and the cursor is good
    afterwards exactly when it was good and four bytes were left. *)
Theorem get_uint_total old u :
  wf_unmarshall u ->
  exists x u', get_uint old u = Ok (x, u') /\ wf_unmarshall u' /\ u_buf u' = u_buf u /\
    u_ok u' = u_ok u && bool_decide (u_ind u + 4 <= u_sz u).
Proof.
  intros Hwf. unfold get_uint.
  destruct (field_total 24 u Hwf) as (x3 & u1 & -> & W1 & B1 & S1 & O1 & I1). cbn [mbind res_bind].
  destruct (field_total 16 u1 W1) as (x2 & u2 & -> & W2 & B2 & S2 & O2 & I2). cbn [mbind res_bind].
  destruct (field_total 8 u2 W2) as (x1 & u3 & -> & W3 & B3 & S3 & O3 & I3). cbn [mbind res_bind].
  destruct (field_total 0 u3 W3) as (x0 & u4 & -> & W4 & B4 & S4 & O4 & I4). cbn [mbind res_bind].
  do 2 eexists. split; [reflexivity|]. split_and!; [done|congruence|].
  rewrite O4, O3, O2, O1, S3, S2, S1. destruct (u_ok u); [|done]. rewrite !andb_true_l.
  unfold wf_unmarshall in *. repeat case_bool_decide; try done; lia.
Qed.

(** The length check of [unmarshall::rawbytes] is unsigned 32-bit
    arithmetic: a length field within [_ind] of [2^32] wraps around, passes the
    check of a good cursor, and the string constructor then reads outside the
    block. *)
Theorem get_rawbytes_wraps ss n u :
  wf_unmarshall u -> zlen (u_buf u) < 2 ^ 32 -> 2 ^ 32 - u_ind u <= n < 2 ^ 32 ->
  get_rawbytes ss n u = Err Undefined.
Proof.
  unfold wf_unmarshall, INT_MAX. intros (Hi & Hs & Hmax) Hb Hn. unfold get_rawbytes.
  rewrite (wrapU_small 32 (u_ind u)), (wrapU_small 32 (u_sz u)) by (unfold is_unsigned; lia).
  assert (Hw : u32 (u_ind u + n) = u_ind u + n - 2 ^ 32).
  { unfold wrapU. symmetry. apply Z.mod_unique with 1; lia. }
  rewrite Hw. destruct (_ >? _) eqn:E; [lia|].
  rewrite bool_decide_eq_false_2 by lia. done.
Qed.

(** *** Witnesses *)

#[local] Existing Instance zero_allocator.

(** A request with a lock id and a client name, the arguments of
    [lock_protocol::acquire]. *)
Definition sample_name : list byte :=
  [Byte.x31; Byte.x32; Byte.x37; Byte.x3a; Byte.xff].

Lemma request_roundtrip_witness :
  exists m, build_request (pair_codec ull_codec string_codec)
      (mk_req_header 7 0x7001 (2 ^ 32 - 5) 12 6) (2 ^ 40 + 3, sample_name) = Ok m /\
    let pkt := with_size_field (be 4 41) (marshall_cstr m) in
    exists u u', unpack_req_header (new_unmarshall pkt (zlen pkt)) =
        Ok (mk_req_header 7 0x7001 (2 ^ 32 - 5) 12 6, u) /\
      c_get (pair_codec ull_codec string_codec)
        (c_init (pair_codec ull_codec string_codec)) u =
        Ok ((2 ^ 40 + 3, sample_name), u') /\ okdone u' = true.
Proof.
  apply (request_roundtrip _).
  - vm_compute. intuition discriminate.
  - apply mk_req_header_valid.
  - vm_compute. reflexivity.
  - vm_compute. reflexivity.
Defined.

Lemma reply_roundtrip_witness :
  exists m, build_reply (vector_codec string_codec)
      (ReplyHeader 9 0) [sample_name; []] = Ok m /\
    let pkt := with_size_field (be 4 41) (marshall_cstr m) in
    exists u u', unpack_reply_header (new_unmarshall pkt (zlen pkt)) = Ok (ReplyHeader 9 0, u) /\
      c_get (vector_codec string_codec) [] (take_in u) = Ok ([sample_name; []], u') /\
      okdone u' = true.
Proof.
  apply (reply_roundtrip (vector_codec string_codec) (ReplyHeader 9 0) [sample_name; []] (be 4 41)).
  - split; [|repeat constructor]; vm_compute; discriminate.
  - vm_compute. intuition discriminate.
  - vm_compute. reflexivity.
  - vm_compute. reflexivity.
Defined.

Lemma get_uint_total_witness :
  exists x u', get_uint 0 (Unmarshall [Byte.x01; Byte.x02] 2 0 true) = Ok (x, u') /\
    wf_unmarshall u' /\ u_buf u' = [Byte.x01; Byte.x02] /\ u_ok u' = false.
Proof.
  apply (get_uint_total 0 (Unmarshall [Byte.x01; Byte.x02] 2 0 true)).
  vm_compute. intuition discriminate.
Defined.

Lemma get_rawbytes_wraps_witness :
  get_rawbytes [] (2 ^ 32 - 4) (Unmarshall (replicate 32 Byte.x00) 32 28 true) = Err Undefined.
Proof. apply get_rawbytes_wraps; vm_compute; intuition discriminate. Defined.
