(* ===== verification/ReplyWindow.v ===== *)
(** * The at-most-once reply window

    [rpcs] keeps, per client nonce, a list of the requests it has seen, with
    the reply of those it has answered (src/rpc/rpc.h [reply_t],
    src/rpc/rpc.cc [checkduplicate_and_update], [add_reply],
    [free_reply_window]). This file translates the three functions, states the
    table they stand for ([amo_check]) and proves that they implement it. *)
From S2P Require Import Prelude.

Inductive rpcstate_t := NEW | INPROGRESS | DONE | FORGOTTEN.

#[export] Instance rpcstate_eq_dec : EqDecision rpcstate_t.
Proof. solve_decision. Defined.

Record reply_t := Reply {
  rp_xid : Z;
  rp_cb_present : bool;
  rp_buf : option (list byte);   (* None for NULL *)
  rp_sz : Z
}.

Definition new_reply_t (xid : Z) : reply_t := Reply xid false None 0.

(** ** The code *)

(** The loop that drops acknowledged replies, followed by the [erase]: the list
    from the iterator on. The loop condition reads [it->xid] before it compares
    [it] with [end()], so running off the list is undefined. *)
Fixpoint forward_window (xid_rep : Z) (window : list reply_t) : res (list reply_t) :=
  match window with
  | [] => Err Undefined
  | it :: rest =>
      if rp_xid it <=? xid_rep then
        if negb (rp_cb_present it) || bool_decide (rp_buf it = None)
        then Ok window
        else forward_window xid_rep rest
      else Ok window
  end.

(** The search for an entry with this xid. *)
Fixpoint find_xid (xid : Z) (window : list reply_t) : option reply_t :=
  match window with
  | [] => None
  | it :: rest => if rp_xid it =? xid then Some it else find_xid xid rest
  end.

(** Insertion before the first larger xid, at the back if there is none. *)
Fixpoint insert_reply (r : reply_t) (window : list reply_t) : list reply_t :=
  match window with
  | [] => [r]
  | it :: rest =>
      if rp_xid it >? rp_xid r then r :: window else it :: insert_reply r rest
  end.

(** What the caller gets: the state, the out parameters [*b], [*sz] when they
    are assigned, and the window left behind. *)
Record check_result := CheckResult {
  cr_state : rpcstate_t;
  cr_out : option (list byte * Z);
  cr_window : list reply_t
}.

(** The tail of the function: remember the request. *)
Definition remember (xid : Z) (window : list reply_t) : check_result :=
  let r := Reply xid true (rp_buf (new_reply_t xid)) (rp_sz (new_reply_t xid)) in
  CheckResult NEW None (insert_reply r window).

Definition checkduplicate_and_update (window : list reply_t) (xid xid_rep : Z)
    : res check_result :=
  _ ← VERIFY (xid >? xid_rep);
  match window, last window with
  | front :: _, Some back =>
      window ← (if rp_xid front <=? xid_rep then forward_window xid_rep window
                else Ok window);
      match window with
      | [] => Ok (remember xid window)
      | front :: _ =>
          if rp_xid front >? xid then Ok (CheckResult FORGOTTEN None window)
          else if rp_xid back >=? xid then
            match find_xid xid window with
            | Some it =>
                if rp_cb_present it then Ok (CheckResult INPROGRESS None window)
                else match rp_buf it with
                     | Some b => Ok (CheckResult DONE (Some (b, rp_sz it)) window)
                     | None => Ok (CheckResult DONE (Some ([], rp_sz it)) window)
                     end
            | None => Ok (remember xid window)
            end
          else Ok (remember xid window)
      end
  | _, _ => Ok (remember xid window)
  end.

Fixpoint set_reply (xid : Z) (b : list byte) (sz : Z) (window : list reply_t)
    : list reply_t :=
  match window with
  | [] => []
  | it :: rest =>
      if rp_xid it =? xid then Reply (rp_xid it) false (Some b) sz :: rest
      else it :: set_reply xid b sz rest
  end.

Definition add_reply (window : list reply_t) (xid : Z) (b : list byte) (sz : Z)
    : res (list reply_t) :=
  _ ← VERIFY (bool_decide (window <> []));
  Ok (set_reply xid b sz window).

(** [free_reply_window]: the map left behind and the buffers given to
    [free]. *)
Definition free_reply_window (reply_window : gmap Z (list reply_t))
    : gmap Z (list reply_t) * list (list byte) :=
  (∅, w ← (map_to_list reply_window).*2; omap rp_buf w).

(** ** Specification: a table of requests *)

Inductive amo_status := Running | Replied (b : list byte) (sz : Z).

#[export] Instance amo_status_eq_dec : EqDecision amo_status.
Proof. solve_decision. Defined.

(** A request whose xid is in the table is a duplicate; one below everything
    in the table is too old; any other is recorded. *)
Definition amo_check (t : gmap Z amo_status) (xid : Z)
    : rpcstate_t * option (list byte * Z) * gmap Z amo_status :=
  match t !! xid with
  | Some Running => (INPROGRESS, None, t)
  | Some (Replied b sz) => (DONE, Some (b, sz), t)
  | None =>
      if decide (t <> ∅ /\ map_Forall (fun k _ => xid < k) t)
      then (FORGOTTEN, None, t)
      else (NEW, None, <[xid := Running]> t)
  end.

(** An entry is either in progress and has no buffer, or answered and has
    one. *)
Definition entry_ok (r : reply_t) : Prop :=
  (rp_cb_present r = true /\ rp_buf r = None) \/
  (rp_cb_present r = false /\ is_Some (rp_buf r)).

Definition window_ok (w : list reply_t) : Prop :=
  StronglySorted Z.lt (rp_xid <$> w) /\ Forall entry_ok w.

Definition entry_status (r : reply_t) : amo_status :=
  if rp_cb_present r then Running else Replied (default [] (rp_buf r)) (rp_sz r).

Definition window_table (w : list reply_t) : gmap Z amo_status :=
  list_to_map ((fun r => (rp_xid r, entry_status r)) <$> w).

(** ** Lemmas *)

Lemma window_ok_nil : window_ok [].
Proof. split; constructor. Qed.

Lemma window_ok_cons r w :
  window_ok (r :: w) <->
  entry_ok r /\ window_ok w /\ Forall (fun r' => rp_xid r < rp_xid r') w.
Proof.
  unfold window_ok. cbn [fmap list_fmap]. rewrite Forall_cons. split.
  - intros [Hs [He Hw]]. inversion Hs as [|? ? Hs' Hlt]; subst.
    rewrite Forall_fmap in Hlt. done.
  - intros (He & [Hs Hw] & Hlt). split; [|done]. constructor; [done|].
    by rewrite Forall_fmap.
Qed.

Lemma window_table_cons r w :
  window_table (r :: w) = <[rp_xid r := entry_status r]> (window_table w).
Proof. reflexivity. Qed.

Lemma lookup_window_table w xid :
  window_table w !! xid = entry_status <$> find_xid xid w.
Proof.
  induction w as [|r w IH]; [done|].
  rewrite window_table_cons. simpl. destruct (Z.eqb_spec (rp_xid r) xid) as [->|Hne].
  - by rewrite lookup_insert_eq.
  - by rewrite lookup_insert_ne.
Qed.

Lemma find_xid_Some xid w r : find_xid xid w = Some r -> r ∈ w /\ rp_xid r = xid.
Proof.
  induction w as [|r' w IH]; simpl; [done|].
  destruct (Z.eqb_spec (rp_xid r') xid) as [E|E]; [|set_solver].
  intros [= ->]. set_solver.
Qed.

Lemma find_xid_None xid w r : find_xid xid w = None -> r ∈ w -> rp_xid r <> xid.
Proof.
  induction w as [|r' w IH]; simpl; [set_solver|].
  destruct (Z.eqb_spec (rp_xid r') xid); [done|]. set_solver.
Qed.

(** The window never moves forward: the entries the loop meets are either
    answered ([cb_present] is false) or in progress (no buffer), and it stops
    at both. *)
Lemma forward_window_stays xid_rep r w :
  entry_ok r -> forward_window xid_rep (r :: w) = Ok (r :: w).
Proof.
  intros [[H1 H2]|[H1 H2]]; simpl; destruct (_ <=? _); try done.
  - rewrite H2, bool_decide_eq_true_2 by done. by rewrite orb_true_r.
  - by rewrite H1.
Qed.

Lemma insert_reply_elem r r' w : r' ∈ insert_reply r w <-> r' = r \/ r' ∈ w.
Proof.
  induction w as [|a w IH]; simpl; [set_solver|].
  destruct (_ >? _); set_solver.
Qed.

Lemma insert_reply_ok r w :
  window_ok w -> entry_ok r -> find_xid (rp_xid r) w = None ->
  window_ok (insert_reply r w).
Proof.
  induction w as [|a w IH]; intros Hw Hr Hf; simpl.
  { apply window_ok_cons. split_and!; [done|apply window_ok_nil|constructor]. }
  pose proof Hw as (Ha & Hw' & Hlt)%window_ok_cons. simpl in Hf.
  destruct (Z.eqb_spec (rp_xid a) (rp_xid r)) as [|Hne]; [done|].
  rewrite Z.gtb_ltb. destruct (Z.ltb_spec (rp_xid r) (rp_xid a)).
  - apply window_ok_cons. split_and!; [done..|]. constructor; [done|].
    eapply Forall_impl; [done|]. simpl. lia.
  - apply window_ok_cons. split_and!; [done|by apply IH|].
    rewrite Forall_forall in *. intros x [->|Hx]%insert_reply_elem; [lia|by apply Hlt].
Qed.

Lemma insert_reply_table r w :
  find_xid (rp_xid r) w = None ->
  window_table (insert_reply r w) = <[rp_xid r := entry_status r]> (window_table w).
Proof.
  induction w as [|a w IH]; intros Hf; [done|]. simpl in *.
  destruct (Z.eqb_spec (rp_xid a) (rp_xid r)) as [|Hne]; [done|].
  destruct (_ >? _); [done|]. rewrite !window_table_cons, IH by done.
  by rewrite insert_insert_ne.
Qed.

Lemma set_reply_xids xid b sz w : rp_xid <$> set_reply xid b sz w = rp_xid <$> w.
Proof.
  induction w as [|a w IH]; [done|]. cbn [set_reply].
  destruct (_ =? _); [done|]. rewrite !fmap_cons. by f_equal.
Qed.

Lemma set_reply_ok xid b sz w : window_ok w -> window_ok (set_reply xid b sz w).
Proof.
  intros [Hs He]. split; [by rewrite set_reply_xids|].
  clear Hs. induction He as [|r w Hr He IH]; simpl; [constructor|].
  destruct (_ =? _); constructor; try done. right. simpl. by split; [|eexists].
Qed.

Lemma set_reply_table xid b sz w :
  is_Some (find_xid xid w) ->
  window_table (set_reply xid b sz w) = <[xid := Replied b sz]> (window_table w).
Proof.
  intros Hf. induction w as [|a w IH]; simpl in *; [by destruct Hf|].
  destruct (Z.eqb_spec (rp_xid a) xid) as [<-|Hne].
  - rewrite !window_table_cons. simpl. by rewrite insert_insert_eq.
  - rewrite !window_table_cons, IH by done. by rewrite insert_insert_ne.
Qed.

Lemma window_table_empty w : window_table w = ∅ <-> w = [].
Proof.
  split; [|by intros ->]. destruct w as [|r w]; [done|]. intros He.
  assert (window_table (r :: w) !! rp_xid r = None) as Hn by (by rewrite He).
  rewrite lookup_window_table in Hn. simpl in Hn. by rewrite Z.eqb_refl in Hn.
Qed.

(** In a sorted window, "the front is larger" says that everything is. *)
Lemma window_table_above w r xid :
  window_ok (r :: w) ->
  map_Forall (fun k _ => xid < k) (window_table (r :: w)) <-> xid < rp_xid r.
Proof.
  intros (_ & _ & Hlt)%window_ok_cons. rewrite Forall_forall in Hlt. split.
  - intros Hall. apply (Hall (rp_xid r) (entry_status r)).
    rewrite lookup_window_table. simpl. by rewrite Z.eqb_refl.
  - intros Hr k s. rewrite lookup_window_table. intros (r' & Hf & _)%fmap_Some.
    apply find_xid_Some in Hf as [[->|Hin]%elem_of_cons <-]; [done|].
    specialize (Hlt _ Hin). lia.
Qed.

Lemma window_ok_last w back r :
  window_ok w -> last w = Some back -> r ∈ w -> rp_xid r <= rp_xid back.
Proof.
  induction w as [|a w IH]; [set_solver|]. intros (_ & Hw & Hlt)%window_ok_cons Hl Hin.
  rewrite Forall_forall in Hlt. destruct w as [|a' w].
  - injection Hl as ->. apply list_elem_of_singleton in Hin as ->. lia.
  - change (last (a :: a' :: w)) with (last (a' :: w)) in Hl.
    apply elem_of_cons in Hin as [->|Hin]; [|by apply IH].
    specialize (Hlt back). apply last_Some_elem_of in Hl. apply Hlt in Hl. lia.
Qed.

Lemma remember_refines xid w :
  window_ok w -> find_xid xid w = None ->
  window_ok (cr_window (remember xid w)) /\
  window_table (cr_window (remember xid w)) = <[xid := Running]> (window_table w).
Proof.
  intros Hw Hf. split.
  - apply insert_reply_ok; [done| |done]. by left.
  - by apply (insert_reply_table (Reply xid true None 0)).
Qed.

(** The front test of the code. *)
Definition below_front (w : list reply_t) (xid : Z) : bool :=
  match w with front :: _ => rp_xid front >? xid | [] => false end.

Lemma amo_check_not_found w xid :
  window_ok w -> find_xid xid w = None ->
  amo_check (window_table w) xid =
  if below_front w xid then (FORGOTTEN, None, window_table w)
  else (NEW, None, <[xid := Running]> (window_table w)).
Proof.
  intros Hw Hf. unfold amo_check. rewrite lookup_window_table, Hf. simpl.
  destruct w as [|r w].
  - rewrite decide_False; [done|]. by intros [].
  - simpl. rewrite Z.gtb_ltb. destruct (Z.ltb_spec xid (rp_xid r)).
    + rewrite decide_True; [done|]. split; [by rewrite window_table_empty|].
      by apply window_table_above.
    + rewrite decide_False; [done|]. intros [_ Hall].
      apply window_table_above in Hall; [lia|done].
Qed.

Lemma checkduplicate_spec w xid xid_rep :
  window_ok w -> xid_rep < xid ->
  exists r, checkduplicate_and_update w xid xid_rep = Ok r /\ window_ok (cr_window r) /\
    (cr_state r, cr_out r, window_table (cr_window r)) = amo_check (window_table w) xid.
Proof.
  intros Hw Hlt. unfold checkduplicate_and_update.
  replace (xid >? xid_rep) with true by (symmetry; apply Z.gtb_lt; lia).
  cbn [VERIFY mbind res_bind].
  destruct w as [|front w].
  { eexists. split; [reflexivity|]. destruct (remember_refines xid []) as [H1 H2]; [done..|].
    split; [done|]. by rewrite H2, amo_check_not_found. }
  destruct (last_is_Some (front :: w)) as [_ [back Hb]]; [done|]. rewrite Hb.
  replace (if rp_xid front <=? xid_rep then forward_window xid_rep (front :: w)
           else Ok (front :: w)) with (Ok (front :: w)).
  2: { destruct (_ <=? _); [|done]. symmetry. apply forward_window_stays.
       by apply window_ok_cons in Hw as [? _]. }
  cbn [mbind res_bind].
  destruct (find_xid xid (front :: w)) as [it|] eqn:Hf.
  - pose proof (find_xid_Some _ _ _ Hf) as [Hin Hx].
    assert (rp_xid front <= xid).
    { apply elem_of_cons in Hin as [->|Hin]; [lia|].
      apply window_ok_cons in Hw as (_ & _ & Hall).
      rewrite Forall_forall in Hall. specialize (Hall _ Hin). lia. }
    pose proof (window_ok_last _ _ _ Hw Hb Hin).
    rewrite Z.gtb_ltb, Z.geb_leb.
    destruct (Z.ltb_spec xid (rp_xid front)); [lia|].
    destruct (Z.leb_spec xid (rp_xid back)); [|lia].
    unfold amo_check. rewrite lookup_window_table, Hf. simpl fmap. unfold entry_status.
    destruct (rp_cb_present it); [by eexists|].
    destruct (rp_buf it); by eexists.
  - rewrite amo_check_not_found by done. simpl. destruct (rp_xid front >? xid).
    + by eexists.
    + exists (remember xid (front :: w)).
      destruct (remember_refines xid (front :: w)) as [H1 H2]; [done..|].
      split; [|by rewrite H2]. by destruct (_ >=? _).
Qed.

Lemma add_reply_spec w xid b sz :
  window_ok w -> is_Some (window_table w !! xid) ->
  exists w', add_reply w xid b sz = Ok w' /\ window_ok w' /\
    window_table w' = <[xid := Replied b sz]> (window_table w).
Proof.
  intros Hw Hin. rewrite lookup_window_table, fmap_is_Some in Hin.
  exists (set_reply xid b sz w). split_and!.
  - unfold add_reply. rewrite bool_decide_eq_true_2; [done|]. intros ->. by destruct Hin.
  - by apply set_reply_ok.
  - by apply set_reply_table.
Qed.

(** ** Theorems *)


(** A request that acknowledges its own xid (or a later one) aborts the
    server: the [assert] in [checkduplicate_and_update] fails, and on no other
    input of a well-formed window. *)
Theorem checkduplicate_aborts w xid xid_rep :
  window_ok w ->
  checkduplicate_and_update w xid xid_rep = Err Verify_failed <-> xid <= xid_rep.
Proof.
  intros Hw. split.
  - intros E. apply Z.nlt_ge. intros Hlt.
    destruct (checkduplicate_spec w xid xid_rep Hw Hlt) as (r & E' & _). congruence.
  - intros Hle. unfold checkduplicate_and_update. rewrite Z.gtb_ltb.
    by destruct (Z.ltb_spec xid_rep xid); [lia|].
Qed.

(** Acknowledged replies are never dropped. The loop that should advance
    the window past the replies the client has acknowledged stops at the first
    entry of every well-formed window, so whatever [xid_rep] says, every
    recorded request is still recorded afterwards and no buffer is freed. *)
Theorem window_never_forgets w xid xid_rep r :
  window_ok w -> checkduplicate_and_update w xid xid_rep = Ok r ->
  w ⊆ cr_window r /\ (cr_state r <> NEW -> cr_window r = w).
Proof.
  intros Hw E.
  assert (Hstay : forall fr w', w = fr :: w' ->
    (if rp_xid fr <=? xid_rep then forward_window xid_rep w else Ok w) = Ok w).
  { intros fr w' ->. destruct (_ <=? _); [|done]. apply forward_window_stays.
    by apply window_ok_cons in Hw as [? _]. }
  assert (Hrem : w ⊆ cr_window (remember xid w)).
  { intros x Hx. apply insert_reply_elem. by right. }
  unfold checkduplicate_and_update in E. res_inv.
  destruct w as [|fr w']; [by res_inv|].
  destruct (last_is_Some (fr :: w')) as [_ [back Hb]]; [done|]. rewrite Hb in E.
  rewrite (Hstay fr w' eq_refl) in E. cbn [mbind res_bind] in E.
  repeat case_match; res_inv; done.
Qed.

(** *** Witnesses *)

Definition sample_window : list reply_t :=
  [Reply 1 false (Some [Byte.x2a]) 1; Reply 3 true None 0].

Lemma sample_window_ok : window_ok sample_window.
Proof.
  split; [repeat constructor; done|].
  apply Forall_cons. split; [right; by split; [|eexists]|].
  apply Forall_singleton. by left.
Qed.


Lemma checkduplicate_aborts_witness :
  checkduplicate_and_update sample_window 4 4 = Err Verify_failed <-> 4 <= 4.
Proof. apply checkduplicate_aborts, sample_window_ok. Defined.

Lemma window_never_forgets_witness :
  checkduplicate_and_update sample_window 9 8 =
    Ok (CheckResult NEW None (sample_window ++ [Reply 9 true None 0])) /\
  sample_window ⊆ sample_window ++ [Reply 9 true None 0].
Proof.
  split; [reflexivity|].
  apply (window_never_forgets sample_window 9 8 (CheckResult NEW None _) sample_window_ok).
  reflexivity.
Defined.
