(* ===== verification/RpcUtil.v ===== *)
(** * Time arithmetic of the RPC library

    The deadline helpers of src/rpc/rpc.cc ([cmp_timespec], [add_timespec],
    [diff_timespec]) and the ordering of socket addresses. *)
From S2P Require Import Prelude.

Record timespec := Timespec { tv_sec : Z; tv_nsec : Z }.

#[export] Instance timespec_eq_dec : EqDecision timespec.
Proof. solve_decision. Defined.

Definition NSEC : Z := 1000000000.

Definition cmp_timespec (a b : timespec) : Z :=
  if tv_sec a >? tv_sec b then 1
  else if tv_sec a <? tv_sec b then -1
  else if tv_nsec a >? tv_nsec b then 1
  else if tv_nsec a <? tv_nsec b then -1
  else 0.

(** The carry loop, [while (tv_nsec > 1000000000)]; each turn takes one second
    off, so [tv_nsec / 1000000000] turns are enough. *)
Fixpoint carry (fuel : nat) (t : timespec) : timespec :=
  match fuel with
  | O => t
  | S fuel =>
      if tv_nsec t >? NSEC then carry fuel (Timespec (tv_sec t + 1) (tv_nsec t - NSEC))
      else t
  end.

(** Integer division and remainder truncate towards zero, as in C++. *)
Definition add_timespec (a : timespec) (b : Z) : res timespec :=
  let sec := tv_sec a + Z.quot b 1000 in
  let nsec := tv_nsec a + Z.rem b 1000 * 1000000 in
  _ ← VERIFY (nsec >=? 0);
  Ok (carry (Z.to_nat (nsec / NSEC)) (Timespec sec nsec)).

Definition diff_timespec (e start : timespec) : res Z :=
  let diff := s32 (if tv_sec e >? tv_sec start then (tv_sec e - tv_sec start) * 1000 else 0) in
  _ ← VERIFY (negb (diff =? 0) || (tv_sec e =? tv_sec start));
  Ok (if tv_nsec e >? tv_nsec start
      then s32 (diff + Z.quot (tv_nsec e - tv_nsec start) 1000000)
      else s32 (diff - Z.quot (tv_nsec start - tv_nsec e) 1000000)).

(** [operator<] on [sockaddr_in], as (address, port). *)
Definition sockaddr_lt (a b : Z * Z) : bool :=
  (a.1 <? b.1) || ((a.1 =? b.1) && (a.2 <? b.2)).

(** ** Specification *)

Definition total_ns (t : timespec) : Z := tv_sec t * NSEC + tv_nsec t.
Definition normalised (t : timespec) : Prop := 0 <= tv_nsec t < NSEC.

#[export] Instance normalised_dec t : Decision (normalised t).
Proof. unfold normalised. apply _. Defined.

Lemma carry_total fuel t : total_ns (carry fuel t) = total_ns t.
Proof.
  revert t. induction fuel as [|fuel IH]; intros t; simpl; [done|].
  destruct (_ >? _); [|done]. rewrite IH. unfold total_ns, NSEC. simpl. lia.
Qed.

Lemma carry_sec fuel t : tv_sec t <= tv_sec (carry fuel t).
Proof.
  revert t. induction fuel as [|fuel IH]; intros t; simpl; [lia|].
  destruct (_ >? _); [|lia]. etrans; [|apply IH]. simpl. lia.
Qed.

(** Enough fuel: the loop has really stopped. *)
Lemma carry_done fuel t :
  0 <= tv_nsec t -> tv_nsec t / NSEC <= Z.of_nat fuel ->
  0 <= tv_nsec (carry fuel t) <= NSEC.
Proof.
  unfold NSEC. revert t. induction fuel as [|fuel IH]; intros t H0 Hf; simpl.
  - pose proof (Z.div_pos (tv_nsec t) 1000000000 H0 ltac:(lia)).
    assert (tv_nsec t / 1000000000 = 0) as E by lia. apply Z.div_small_iff in E; lia.
  - rewrite Z.gtb_ltb. unfold NSEC. destruct (Z.ltb_spec 1000000000 (tv_nsec t)); [|simpl; lia].
    apply IH; simpl; [lia|].
    replace (tv_nsec t - 1000000000) with (tv_nsec t + (-1) * 1000000000) by lia.
    rewrite Z.div_add by lia. lia.
Qed.

Lemma add_timespec_spec a b :
  normalised a -> 0 <= b ->
  exists t, add_timespec a b = Ok t /\ total_ns t = total_ns a + b * 1000000 /\
    0 <= tv_nsec t <= NSEC /\ tv_sec a <= tv_sec t.
Proof.
  intros Ha Hb. unfold normalised in Ha. unfold add_timespec.
  pose proof (Z.quot_rem' b 1000) as Hqr. pose proof (Z.rem_bound_pos b 1000 Hb ltac:(lia)).
  replace (tv_nsec a + Z.rem b 1000 * 1000000 >=? 0) with true by (symmetry; apply Z.geb_le; lia).
  simpl. eexists. split; [reflexivity|]. split; [|split].
  - rewrite carry_total. unfold total_ns, NSEC. simpl. lia.
  - apply carry_done; simpl; [lia|]. rewrite Z2Nat.id; [lia|].
    apply Z.div_pos; unfold NSEC; lia.
  - etrans; [|apply carry_sec]. simpl. pose proof (Z.quot_pos b 1000). lia.
Qed.

(** ** Theorems *)

(** The carry test is strict, so a sum of exactly one second stays in the
    nanosecond field: the result is not a valid [timespec] for any normalised
    time whose milliseconds complete the second. *)
Theorem add_timespec_not_normalised a b :
  normalised a -> 0 <= b -> tv_nsec a + Z.rem b 1000 * 1000000 = NSEC ->
  exists t, add_timespec a b = Ok t /\ tv_nsec t = NSEC /\ ~ normalised t.
Proof.
  intros Ha Hb E. unfold add_timespec. rewrite E.
  exists (Timespec (tv_sec a + Z.quot b 1000) NSEC).
  split; [reflexivity|]. unfold normalised. simpl. lia.
Qed.

(** [cmp_timespec] orders normalised times by the instant they denote. *)
Theorem cmp_timespec_order a b :
  normalised a -> normalised b ->
  cmp_timespec a b = Z.sgn (total_ns a - total_ns b).
Proof.
  unfold normalised, cmp_timespec, total_ns, NSEC. intros Ha Hb.
  rewrite !Z.gtb_ltb.
  destruct (Z.ltb_spec (tv_sec b) (tv_sec a)); [symmetry; apply Z.sgn_pos; lia|].
  destruct (Z.ltb_spec (tv_sec a) (tv_sec b)); [symmetry; apply Z.sgn_neg; lia|].
  destruct (Z.ltb_spec (tv_nsec b) (tv_nsec a)); [symmetry; apply Z.sgn_pos; lia|].
  destruct (Z.ltb_spec (tv_nsec a) (tv_nsec b)); [symmetry; apply Z.sgn_neg; lia|].
  symmetry. apply Z.sgn_null. lia.
Qed.

(** [diff_timespec] of two normalised times in order, less than a day
    apart, is their distance in milliseconds with an error below one. *)
Theorem diff_timespec_close e start :
  normalised e -> normalised start -> total_ns start <= total_ns e ->
  tv_sec e - tv_sec start <= 86400 ->
  exists d, diff_timespec e start = Ok d /\
    Z.abs (d * 1000000 - (total_ns e - total_ns start)) < 1000000.
Proof.
  unfold normalised, diff_timespec, total_ns, NSEC. intros He Hs Hle Hday.
  assert (tv_sec start <= tv_sec e) by lia.
  set (d0 := if tv_sec e >? tv_sec start then (tv_sec e - tv_sec start) * 1000 else 0).
  assert (Hd0 : d0 = (tv_sec e - tv_sec start) * 1000).
  { unfold d0. rewrite Z.gtb_ltb. destruct (Z.ltb_spec (tv_sec start) (tv_sec e)); lia. }
  rewrite (wrapS_small 32 ltac:(lia) d0) by (unfold is_signed; lia). rewrite Hd0.
  replace (negb ((tv_sec e - tv_sec start) * 1000 =? 0) || (tv_sec e =? tv_sec start)) with true.
  2: { symmetry. apply orb_true_iff. destruct (Z.eqb_spec (tv_sec e) (tv_sec start)); [by right|].
       left. apply negb_true_iff, Z.eqb_neq. lia. }
  simpl. rewrite Z.gtb_ltb.
  destruct (Z.ltb_spec (tv_nsec start) (tv_nsec e)); eexists; (split; [reflexivity|]).
  - pose proof (Z.quot_rem' (tv_nsec e - tv_nsec start) 1000000).
    pose proof (Z.rem_bound_pos (tv_nsec e - tv_nsec start) 1000000 ltac:(lia) ltac:(lia)).
    rewrite (wrapS_small 32) by (unfold is_signed; lia). lia.
  - pose proof (Z.quot_rem' (tv_nsec start - tv_nsec e) 1000000).
    pose proof (Z.rem_bound_pos (tv_nsec start - tv_nsec e) 1000000 ltac:(lia) ltac:(lia)).
    rewrite (wrapS_small 32) by (unfold is_signed; lia). lia.
Qed.

(** *** Witnesses *)

Lemma add_timespec_not_normalised_witness :
  exists t, add_timespec (Timespec 5 999000000) 1001 = Ok t /\ tv_nsec t = NSEC /\ ~ normalised t.
Proof. apply add_timespec_not_normalised; by vm_compute. Defined.

Lemma cmp_timespec_order_witness :
  cmp_timespec (Timespec 5 7) (Timespec 5 8) =
  Z.sgn (total_ns (Timespec 5 7) - total_ns (Timespec 5 8)).
Proof. apply cmp_timespec_order; by vm_compute. Defined.

Lemma diff_timespec_close_witness :
  exists d, diff_timespec (Timespec 6 1) (Timespec 5 999999999) = Ok d /\
    Z.abs (d * 1000000 - (total_ns (Timespec 6 1) - total_ns (Timespec 5 999999999))) < 1000000.
Proof. apply diff_timespec_close; by vm_compute. Defined.
