(* ===== verification/RpcClient.v ===== *)
(** * The RPC client endpoint

    [rpcc] of src/rpc/rpc.h and src/rpc/rpc.cc: the window of received
    replies ([update_xid_rep]), the request side of [call1], the reply upcall
    [got_pdu], [bind], [cancel] and the marshalling stubs [call]. Each
    definition is what the code does between taking and dropping [m_]; the
    calls of several threads are interleavings of these steps. *)
From S2P Require Import Prelude Marshall RpcUtil.

(** ** The window of received replies *)

(** Insertion before the first larger element, at the back if there is none. *)
Fixpoint insert_xid (xid : Z) (w : list Z) : list Z :=
  match w with
  | [] => [xid]
  | it :: rest => if it >? xid then xid :: w else it :: insert_xid xid rest
  end.

(** [while (front() + 1 == *it) pop_front()], where [pre] are the elements
    before [it]: once they are gone the front is [*it] itself. *)
Fixpoint pop_front_while (pre : list Z) (it : Z) : list Z :=
  match pre with
  | [] => []
  | front :: pre' => if u32 (front + 1) =? it then pop_front_while pre' it else pre
  end.

(** The compression loop with the list split at the iterator. *)
Fixpoint compress (pre suf : list Z) : list Z :=
  match suf with
  | [] => pre
  | it :: suf => compress (pop_front_while pre it ++ [it]) suf
  end.

Definition update_xid_rep (w : list Z) (xid : Z) : res (list Z) :=
  match w with
  | [] => Err Undefined
  | front :: _ =>
      if xid <=? front then Ok w
      else match insert_xid xid w with
           | [] => Err Undefined
           | first :: rest => Ok (compress [first] rest)
           end
  end.

(** *** What the window means *)

(** [tracks R w]: the front acknowledges exactly the longest run of xids from 1
    on that are all in [R], and the rest of [R] is in the list. *)
Definition tracks (R : gset Z) (w : list Z) : Prop :=
  match w with
  | [] => False
  | f :: rest =>
      StronglySorted Z.le w /\ 0 <= f < 2 ^ 32 /\ Forall (fun y => 1 <= y < 2 ^ 32) rest /\
      (forall x, x ∈ R <-> 1 <= x <= f \/ x ∈ rest) /\ f + 1 ∉ R
  end.

Lemma tracks_init : tracks ∅ [0].
Proof.
  simpl. split_and!; [by repeat constructor|lia|lia|by repeat constructor| |set_solver].
  intros x. set_solver by lia.
Qed.

Lemma insert_xid_elem xid w y : y ∈ insert_xid xid w <-> y = xid \/ y ∈ w.
Proof. induction w as [|a w IH]; simpl; [set_solver|]. destruct (_ >? _); set_solver. Qed.

Lemma insert_xid_sorted xid w :
  StronglySorted Z.le w -> StronglySorted Z.le (insert_xid xid w).
Proof.
  induction 1 as [|a w Hs IH Ha]; simpl; [by repeat constructor|].
  rewrite Z.gtb_ltb. destruct (Z.ltb_spec xid a).
  - constructor; [by constructor|]. constructor; [lia|].
    eapply Forall_impl; [done|]. simpl. lia.
  - constructor; [done|]. rewrite Forall_forall in *.
    intros y [->|Hy]%insert_xid_elem; [done|by apply Ha].
Qed.

Lemma insert_xid_head xid f rest :
  f < xid -> insert_xid xid (f :: rest) = f :: insert_xid xid rest.
Proof. intros. simpl. rewrite Z.gtb_ltb. by destruct (Z.ltb_spec xid f); [lia|]. Qed.

Lemma pop_front_while_all pre it f :
  Forall (fun y => y = f) pre -> 0 <= f -> f + 1 = it -> it < 2 ^ 32 ->
  pop_front_while pre it = [].
Proof.
  intros Hpre H0 <- Hmax. induction Hpre as [|y pre -> Hpre IH]; [done|]. simpl.
  rewrite wrapU_small by (unfold is_unsigned; lia). by rewrite Z.eqb_refl.
Qed.

(** The loop pops a prefix whose values, with the new front, form a run
    without gaps; the new front's successor is not in the list. *)
Lemma compress_spec suf : forall f pre,
  StronglySorted Z.le ((f :: pre) ++ suf) -> f + 1 ∉ f :: pre ->
  Forall (fun y => 0 <= y < 2 ^ 32) ((f :: pre) ++ suf) ->
  exists popped h rest, compress (f :: pre) suf = h :: rest /\
    (f :: pre) ++ suf = popped ++ h :: rest /\ f <= h /\
    (forall y, f <= y <= h -> y ∈ (f :: pre) ++ suf) /\ h + 1 ∉ h :: rest.
Proof.
  induction suf as [|it suf IH]; intros f pre Hs Hn Hb.
  { exists [], f, pre. rewrite app_nil_r. split_and!; try done; try lia.
    intros y Hy. assert (y = f) as -> by lia. set_solver. }
  cbn [compress].
  assert (Hle : Forall (fun y => y <= it) (f :: pre)).
  { apply Forall_forall. intros y Hy. apply StronglySorted_app in Hs as (H1 & H2 & _).
    eapply H1; [done|set_solver]. }
  assert (Hge : Forall (fun y => f <= y) pre).
  { simpl in Hs. inversion Hs as [|? ? _ Hf]; subst. by apply Forall_app in Hf as [? _]. }
  destruct (decide (f + 1 = it)) as [Hit|Hit].
  - assert (Hall : Forall (fun y => y = f) (f :: pre)).
    { constructor; [done|]. rewrite Forall_cons, !Forall_forall in *.
      intros y Hy. destruct Hle as [_ Hle]. specialize (Hle y Hy). specialize (Hge y Hy).
      assert (y <> f + 1) by set_solver. lia. }
    assert (Hbit : 0 <= it < 2 ^ 32).
    { rewrite Forall_forall in Hb. apply Hb. set_solver. }
    assert (0 <= f) by (rewrite Forall_forall in Hb; apply (Hb f); set_solver).
    rewrite (pop_front_while_all _ _ f) by (done || lia).
    apply Forall_app in Hb as [Hb1 Hb2]. apply StronglySorted_app in Hs as (_ & _ & Hs2).
    destruct (IH it []) as (popped & h & rest & E & Esplit & Hfh & Hrun & Hh);
      [done|set_solver by lia|done|].
    exists ((f :: pre) ++ popped), h, rest. cbn [app] in E. cbn [app]. rewrite E.
    split_and!; try done; [|lia|].
    + cbn [app] in Esplit. rewrite Esplit. by rewrite app_assoc.
    + intros y Hy. destruct (decide (y = f)) as [->|]; [set_solver|].
      assert (y ∈ it :: suf) by (apply Hrun; lia). set_solver.
  - assert (Epop : pop_front_while (f :: pre) it = f :: pre).
    { simpl. assert (u32 (f + 1) <> it); [|by rewrite (proj2 (Z.eqb_neq _ _))].
      rewrite Forall_forall in Hb, Hle. pose proof (Hb f ltac:(set_solver)).
      pose proof (Hle f ltac:(set_solver)). unfold wrapU.
      destruct (decide (f + 1 = 2 ^ 32)) as [E|]; [rewrite E, Z.mod_same; lia|].
      rewrite Z.mod_small; lia. }
    rewrite Epop. destruct (IH f (pre ++ [it])) as (popped & h & rest & E & Esplit & Hrest).
    + cbn [app]. rewrite <- app_assoc. done.
    + set_solver.
    + cbn [app]. rewrite <- app_assoc. done.
    + exists popped, h, rest. cbn [app] in *. rewrite <- app_assoc in *. done.
Qed.

(** Receiving [xid] adds it to the set the window stands for. *)
Lemma update_xid_rep_tracks R w xid :
  tracks R w -> 1 <= xid < 2 ^ 32 ->
  exists w', update_xid_rep w xid = Ok w' /\ tracks ({[xid]} ∪ R) w'.
Proof.
  destruct w as [|f rest]; [done|]. intros (Hs & H0 & Hb & HR & Hmax) Hx.
  cbn [update_xid_rep]. destruct (Z.leb_spec xid f) as [Hle|Hgt].
  { exists (f :: rest). split; [done|]. cbn [tracks]. split_and!; try done; try lia.
    - intros x. rewrite elem_of_union, elem_of_singleton, HR. split; [|tauto].
      intros [->|?]; [left; lia|done].
    - rewrite elem_of_union, elem_of_singleton. intros [|]; [lia|done]. }
  pose proof (insert_xid_sorted xid _ Hs) as Hs'. rewrite insert_xid_head in * by done.
  assert (Hins : forall y, y ∈ insert_xid xid rest -> 1 <= y < 2 ^ 32).
  { rewrite Forall_forall in Hb. intros y [->|Hy]%insert_xid_elem; auto. }
  destruct (compress_spec (insert_xid xid rest) f []) as (popped & h & rest' & E & Esp & Hfh & Hrun & Hh).
  { done. } { set_solver by lia. }
  { constructor; [lia|]. apply Forall_forall. intros y Hy%Hins. lia. }
  exists (h :: rest'). rewrite E. split; [done|].
  cbn [app] in *. pose proof Hs' as Hsort. rewrite Esp in Hsort.
  apply StronglySorted_app in Hsort as (Hpop & _ & Hsuf).
  assert (Hsub : forall y, y ∈ rest' -> y ∈ insert_xid xid rest).
  { intros y Hy. destruct popped as [|p popped]; injection Esp as -> Esp; [by rewrite Esp|].
    rewrite Esp. set_solver. }
  assert (Hin : forall y, y ∈ insert_xid xid rest -> y <= h \/ y ∈ rest').
  { intros y Hy. assert (y ∈ popped ++ h :: rest') as [Hp|[->|?]%elem_of_cons]%elem_of_app
      by (rewrite <- Esp; set_solver); [|left; lia|by right].
    left. apply Hpop; [done|set_solver]. }
  assert (Hmem : forall x, x ∈ {[xid]} ∪ R <-> 1 <= x <= f \/ x ∈ insert_xid xid rest).
  { intros x. rewrite elem_of_union, elem_of_singleton, HR, insert_xid_elem. tauto. }
  assert (Hhb : h < 2 ^ 32).
  { assert (h ∈ f :: insert_xid xid rest) as [->|Hy%Hins]%elem_of_cons
      by (rewrite Esp; set_solver); lia. }
  split_and!; [done|lia|lia| | |].
  - apply Forall_forall. auto.
  - intros x. rewrite Hmem. split.
    + intros [?|Hx']; [left; lia|]. destruct (Hin _ Hx'); [left|by right].
      specialize (Hins _ Hx'). lia.
    + intros [Hr|?]; [|auto]. destruct (decide (x <= f)); [left; lia|right].
      assert (x ∈ f :: insert_xid xid rest) as [->|?]%elem_of_cons by (apply Hrun; lia); [lia|done].
  - rewrite Hmem. intros [?|Hy]; [lia|]. destruct (Hin _ Hy); [lia|]. set_solver.
Qed.

(** ** State *)

Definition rpc_bind : Z := 1.
Definition timeout_failure : Z := -1.
Definition unmarshal_args_failure : Z := -2.
Definition unmarshal_reply_failure : Z := -3.
Definition atmostonce_failure : Z := -4.
Definition oldsrv_failure : Z := -5.
Definition bind_failure : Z := -6.
Definition cancel_failure : Z := -7.

(** A call in progress. [ca_intret] is meaningful once [ca_done] is set. *)
Record caller := Caller {
  ca_xid : Z; ca_un : unmarshall; ca_intret : Z; ca_done : bool
}.

(** The request kept back by the lossy-network test. *)
Record request := Request { rq_buf : list byte; rq_xid : Z }.
Definition request_clear : request := Request [] (-1).
Definition request_isvalid (r : request) : bool := negb (rq_xid r =? -1).

Record rpcc := Rpcc {
  clt_nonce : Z;
  srv_nonce : Z;
  bind_done : bool;
  xid_ : Z;
  lossytest : Z;
  retrans : bool;
  reachable : bool;
  destroy_wait : bool;
  calls : gmap Z caller;          (* keyed by the xid as an int *)
  xid_rep_window : list Z;
  dup_req : request;
  xid_rep_done : Z
}.

(** The constructor; [rnd] is what [random()] returned and [loss] the value of
    RPC_LOSSY, 0 when unset. *)
Definition new_rpcc (retrans : bool) (rnd loss : Z) : rpcc :=
  Rpcc (if retrans then u32 rnd else 0) 0 false 1 loss retrans true false ∅ [0]
    request_clear (-1).

Definition set_calls (st : rpcc) (c : gmap Z caller) (w : list Z) : rpcc :=
  Rpcc (clt_nonce st) (srv_nonce st) (bind_done st) (xid_ st) (lossytest st) (retrans st)
    (reachable st) (destroy_wait st) c w (dup_req st) (xid_rep_done st).
Definition set_dup (st : rpcc) (d : request) (done : Z) : rpcc :=
  Rpcc (clt_nonce st) (srv_nonce st) (bind_done st) (xid_ st) (lossytest st) (retrans st)
    (reachable st) (destroy_wait st) (calls st) (xid_rep_window st) d done.

Definition set_reachable (st : rpcc) (r : bool) : rpcc :=
  Rpcc (clt_nonce st) (srv_nonce st) (bind_done st) (xid_ st) (lossytest st) (retrans st)
    r (destroy_wait st) (calls st) (xid_rep_window st) (dup_req st) (xid_rep_done st).

Definition window_front (st : rpcc) : res Z :=
  match xid_rep_window st with [] => Err Undefined | f :: _ => Ok f end.

(** ** [call1] *)

Inductive begin_result :=
  | Refused (ret : Z)
  | Begun (st : rpcc) (xid xid_rep : Z) (req : marshall).

(** The first critical section: the guards, the xid, the caller's slot and the
    header. *)
Definition call1_begin `{Allocator} (st : rpcc) (proc : Z) (req : marshall)
    (rep : unmarshall) : res begin_result :=
  if (negb (proc =? rpc_bind) && negb (bind_done st)) || ((proc =? rpc_bind) && bind_done st)
  then Ok (Refused bind_failure)
  else if destroy_wait st then Ok (Refused cancel_failure)
  else
    let xid := xid_ st in
    let st' := Rpcc (clt_nonce st) (srv_nonce st) (bind_done st) (u32 (xid + 1))
      (lossytest st) (retrans st) (reachable st) (destroy_wait st)
      (<[s32 xid := Caller xid rep 0 false]> (calls st)) (xid_rep_window st)
      (dup_req st) (xid_rep_done st) in
    front ← window_front st;
    req ← pack_req_header req
      (mk_req_header xid proc (clt_nonce st) (srv_nonce st) front);
    Ok (Begun st' xid (s32 front) req).

(** What goes out on a live connection: under RPC_LOSSY, first the request kept
    back once its reply window has passed, then the request itself. *)
Definition call1_transmit (st : rpcc) (req : marshall) : rpcc * list (list byte) :=
  if reachable st then
    if request_isvalid (dup_req st) && (xid_rep_done st >? rq_xid (dup_req st))
    then (set_dup st request_clear (xid_rep_done st),
          [rq_buf (dup_req st); marshall_cstr req])
    else (st, [marshall_cstr req])
  else (st, []).

(** The second critical section: the slot is given up. The caller object is
    what the slot held: nobody else can reach it afterwards. *)
Definition call1_unlink (st : rpcc) (xid : Z) : res (rpcc * caller) :=
  match calls st !! s32 xid with
  | None => Err Undefined
  | Some ca =>
      w ← update_xid_rep (xid_rep_window st) xid;
      Ok (set_calls st (delete (s32 xid) (calls st)) w, ca)
  end.

(** The third, only under RPC_LOSSY and after a reply. *)
Definition call1_keep_dup (st : rpcc) (ca : caller) (xid_rep : Z) (req : marshall) : rpcc :=
  if ca_done ca && negb (lossytest st =? 0) then
    set_dup st
      (if request_isvalid (dup_req st) then dup_req st
       else Request (marshall_cstr req) (s32 (ca_xid ca)))
      (if xid_rep >? xid_rep_done st then xid_rep else xid_rep_done st)
  else st.

Definition call1_end (st : rpcc) (xid xid_rep : Z) (req : marshall) : res (rpcc * caller * Z) :=
  '(st, ca) ← call1_unlink st xid;
  Ok (call1_keep_dup st ca xid_rep req, ca,
      if ca_done ca then ca_intret ca else timeout_failure).

(** ** The reply upcall *)

Definition rpcc_got_pdu (st : rpcc) (b : list byte) (sz : Z) : res rpcc :=
  '(h, rep) ← unpack_reply_header (new_unmarshall b sz);
  if negb (u_ok rep) then Ok st
  else
    w ← update_xid_rep (xid_rep_window st) (u32 (r_xid h));
    match calls st !! r_xid h with
    | None => Ok (set_calls st (calls st) w)
    | Some ca =>
        if ca_done ca then Ok (set_calls st (calls st) w)
        else Ok (set_calls st
               (<[r_xid h := Caller (ca_xid ca) (take_in rep) (r_ret h) true]> (calls st)) w)
    end.

(** ** [bind] and [cancel] *)

(** What [bind] does with the outcome of its call. *)
Definition bind_finish (st : rpcc) (ret r : Z) : rpcc :=
  if ret =? 0 then
    Rpcc (clt_nonce st) (u32 r) true (xid_ st) (lossytest st) (retrans st) (reachable st)
      (destroy_wait st) (calls st) (xid_rep_window st) (dup_req st) (xid_rep_done st)
  else st.

(** [cancel] up to its wait: every caller is completed with an error, and new
    calls are refused while some have not left. *)
Definition cancel (st : rpcc) : rpcc :=
  Rpcc (clt_nonce st) (srv_nonce st) (bind_done st) (xid_ st) (lossytest st) (retrans st)
    (reachable st) (if bool_decide (calls st = ∅) then destroy_wait st else true)
    ((fun ca => Caller (ca_xid ca) (ca_un ca) cancel_failure true) <$> calls st)
    (xid_rep_window st) (dup_req st) (xid_rep_done st).

(** ** The stubs *)

(** [call_m] after [call1] returned [intret] and left the reply in [u]. *)
Definition call_m {R} (cr : codec R) (r : R) (intret : Z) (u : unmarshall) : res (Z * R) :=
  if intret <? 0 then Ok (intret, r)
  else '(r, u) ← c_get cr r u;
       _ ← VERIFY (okdone u);
       Ok (intret, r).

Section stubs.
Context `{Allocator}.
Context {A1 A2 A3 A4 A5 A6 A7 : Type}.
Context (c1 : codec A1) (c2 : codec A2) (c3 : codec A3) (c4 : codec A4)
  (c5 : codec A5) (c6 : codec A6) (c7 : codec A7).

(** The argument buffer each [call] template fills before [call_m]. *)
Definition call_0 : res marshall := Ok new_marshall.
Definition call_1 (a1 : A1) : res marshall := c_put c1 a1 new_marshall.
Definition call_2 (a1 : A1) (a2 : A2) : res marshall :=
  m ← c_put c1 a1 new_marshall; c_put c2 a2 m.
Definition call_3 (a1 : A1) (a2 : A2) (a3 : A3) : res marshall :=
  m ← c_put c1 a1 new_marshall; m ← c_put c2 a2 m; c_put c3 a3 m.
Definition call_4 (a1 : A1) (a2 : A2) (a3 : A3) (a4 : A4) : res marshall :=
  m ← c_put c1 a1 new_marshall; m ← c_put c2 a2 m; m ← c_put c3 a3 m; c_put c4 a4 m.
Definition call_5 (a1 : A1) (a2 : A2) (a3 : A3) (a4 : A4) (a5 : A5) : res marshall :=
  m ← c_put c1 a1 new_marshall; m ← c_put c2 a2 m; m ← c_put c3 a3 m;
  m ← c_put c4 a4 m; c_put c5 a5 m.
Definition call_6 (a1 : A1) (a2 : A2) (a3 : A3) (a4 : A4) (a5 : A5) (a6 : A6) : res marshall :=
  m ← c_put c1 a1 new_marshall; m ← c_put c2 a2 m; m ← c_put c3 a3 m;
  m ← c_put c4 a4 m; m ← c_put c5 a5 m; c_put c6 a6 m.
Definition call_7 (a1 : A1) (a2 : A2) (a3 : A3) (a4 : A4) (a5 : A5) (a6 : A6) (a7 : A7)
    : res marshall :=
  m ← c_put c1 a1 new_marshall; m ← c_put c2 a2 m; m ← c_put c3 a3 m;
  m ← c_put c4 a4 m; m ← c_put c5 a5 m; m ← c_put c6 a6 m; c_put c7 a7 m.
End stubs.

(** ** The steps of a client and their invariant *)

(** Replies carry the xid of a request that was sent: the server copies it from
    the request header. *)
Definition reply_issued (st : rpcc) (b : list byte) (sz : Z) : Prop :=
  forall h rep, unpack_reply_header (new_unmarshall b sz) = Ok (h, rep) ->
    u_ok rep = true -> 1 <= r_xid h < xid_ st.

(** Fewer than [2^31 - 1] calls are made over the life of a client. *)
Definition XID_LIMIT : Z := 2 ^ 31 - 1.

Inductive rpcc_step `{Allocator} : rpcc -> rpcc -> Prop :=
  | step_begin st proc req rep st' x xr req' :
      xid_ st < XID_LIMIT -> call1_begin st proc req rep = Ok (Begun st' x xr req') ->
      rpcc_step st st'
  | step_transmit st req : rpcc_step st (call1_transmit st req).1
  | step_unlink st x st' ca :
      is_unsigned 32 x -> call1_unlink st x = Ok (st', ca) -> rpcc_step st st'
  | step_keep_dup st ca xr req : rpcc_step st (call1_keep_dup st ca xr req)
  | step_got_pdu st b sz st' :
      reply_issued st b sz -> rpcc_got_pdu st b sz = Ok st' -> rpcc_step st st'
  | step_bind st ret r : rpcc_step st (bind_finish st ret r)
  | step_cancel st : rpcc_step st (cancel st)
  | step_reachable st r : rpcc_step st (set_reachable st r).

Definition rpcc_reachable `{Allocator} (st : rpcc) : Prop :=
  exists retrans rnd loss, rtc rpcc_step (new_rpcc retrans rnd loss) st.

(** [R] are the xids whose call is over or whose reply has arrived. *)
Record rpcc_inv (R : gset Z) (st : rpcc) : Prop := {
  inv_tracks : tracks R (xid_rep_window st);
  inv_xid : 1 <= xid_ st <= XID_LIMIT;
  inv_completed : forall x, x ∈ R -> 1 <= x < xid_ st;
  inv_calls : forall k ca, calls st !! k = Some ca ->
    ca_xid ca = k /\ 1 <= k < xid_ st /\ (ca_done ca = false -> k ∉ R)
}.

Lemma rpcc_inv_init retrans rnd loss : rpcc_inv ∅ (new_rpcc retrans rnd loss).
Proof.
  split; simpl; [apply tracks_init|unfold XID_LIMIT; lia|set_solver|].
  intros k ca. by rewrite lookup_empty.
Qed.

Lemma s32_xid x : 1 <= x <= XID_LIMIT -> s32 x = x.
Proof. unfold XID_LIMIT. intros. apply wrapS_small; [lia|]. unfold is_signed. lia. Qed.

Lemma call1_begin_inv `{Allocator} R st proc req rep st' x xr req' :
  rpcc_inv R st -> xid_ st < XID_LIMIT ->
  call1_begin st proc req rep = Ok (Begun st' x xr req') -> rpcc_inv R st'.
Proof.
  intros [Ht Hx HR Hc] Hlim E. unfold call1_begin in E.
  destruct (_ || _); [discriminate|]. destruct (destroy_wait st); [discriminate|].
  cbv zeta in E. res_inv.
  set (x := xid_ st) in *.
  assert (Hu : u32 (x + 1) = x + 1) by (apply wrapU_small; unfold is_unsigned, XID_LIMIT in *; lia).
  split; cbn [xid_rep_window xid_ calls]; rewrite ?Hu; [done|lia| |].
  - intros y Hy%HR. lia.
  - rewrite s32_xid by lia. intros k ca. destruct (decide (k = x)) as [->|Hne].
    + rewrite lookup_insert_eq. intros [= <-]. split_and!; [done|lia|lia|].
      intros _ Hin%HR. lia.
    + rewrite lookup_insert_ne by done. intros (? & ? & ?)%Hc. split_and!; [done|lia|lia|done].
Qed.

(** Once [x] is completed, only its own slot may be touched. *)
Lemma complete_inv R st x c :
  rpcc_inv R st -> 1 <= x < xid_ st ->
  (forall k ca, c !! k = Some ca -> k <> x -> calls st !! k = Some ca) ->
  (forall ca, c !! x = Some ca -> ca_xid ca = x /\ ca_done ca = true) ->
  exists w, update_xid_rep (xid_rep_window st) x = Ok w /\
    rpcc_inv ({[x]} ∪ R) (set_calls st c w).
Proof.
  intros [Ht Hx HR Hc] Hr Hother Hself. unfold XID_LIMIT in *.
  destruct (update_xid_rep_tracks R (xid_rep_window st) x) as (w & E & Ht'); [done|lia|].
  exists w. split; [done|].
  split; cbn [xid_rep_window xid_ calls set_calls]; [done|unfold XID_LIMIT; lia| |].
  - intros y [->%elem_of_singleton|Hy%HR]%elem_of_union; lia.
  - intros k ca Hk. destruct (decide (k = x)) as [->|Hne].
    + destruct (Hself ca Hk) as [? Hd]. split_and!; [done|lia|lia|congruence].
    + destruct (Hc k ca) as (? & ? & Hn); [by apply Hother|].
      split_and!; [done|lia|lia|]. intros Hd%Hn. set_solver.
Qed.

Lemma call1_unlink_inv R st x st' ca :
  rpcc_inv R st -> is_unsigned 32 x -> call1_unlink st x = Ok (st', ca) ->
  rpcc_inv ({[x]} ∪ R) st' /\ calls st !! x = Some ca.
Proof.
  intros Hinv Hux E. unfold call1_unlink in E.
  destruct (calls st !! s32 x) as [c|] eqn:Ec; [|discriminate]. res_inv.
  pose proof (inv_calls _ _ Hinv _ _ Ec) as (_ & Hk & _).
  pose proof (inv_xid _ _ Hinv) as Hlim. unfold XID_LIMIT in Hlim.
  assert (s32 x = x) as Hsx.
  { rewrite <- (wrapU_small 32 x) by done. rewrite <- (wrapU_wrapS 32 x).
    rewrite (wrapU_small 32 (s32 x)) by (unfold is_unsigned; lia). rewrite wrapS_small; [done|lia|].
    apply wrapS_range. lia. }
  rewrite Hsx in *. split; [|done].
  destruct (complete_inv R st x (delete x (calls st)) Hinv Hk) as (w & Ew & Hres).
  - intros k c' Hl _. by apply lookup_delete_Some in Hl as [_ ?].
  - intros c'. by rewrite lookup_delete_eq.
  - congruence.
Qed.

Lemma got_pdu_inv R st b sz st' :
  rpcc_inv R st -> reply_issued st b sz -> rpcc_got_pdu st b sz = Ok st' ->
  exists R', rpcc_inv R' st'.
Proof.
  intros Hinv Hiss E. unfold rpcc_got_pdu in E. apply res_bind_Ok_inv in E as ([h rep] & Eh & E).
  destruct (u_ok rep) eqn:Eok; simpl in E; [|res_inv; eauto].
  specialize (Hiss h rep Eh Eok). pose proof (inv_xid _ _ Hinv) as Hlim. unfold XID_LIMIT in Hlim.
  rewrite wrapU_small in E by (unfold is_unsigned; lia).
  assert (Hsame : forall ca, calls st !! r_xid h = Some ca -> ca_done ca = true ->
    ca_xid ca = r_xid h /\ ca_done ca = true).
  { intros ca Hca Hd. by destruct (inv_calls _ _ Hinv _ _ Hca) as (? & _). }
  exists ({[r_xid h]} ∪ R). destruct (calls st !! r_xid h) as [ca|] eqn:Eca.
  - destruct (ca_done ca) eqn:Ed.
    + destruct (complete_inv R st (r_xid h) (calls st) Hinv Hiss) as (w & Ew & Hres); [done| |].
      { intros c' Hc'. apply Hsame; congruence. }
      rewrite Ew in E. simpl in E. res_inv. done.
    + destruct (complete_inv R st (r_xid h) (<[r_xid h := Caller (ca_xid ca) (take_in rep) (r_ret h) true]> (calls st)) Hinv Hiss) as (w & Ew & Hres).
      { intros k c' Hc' Hne. by rewrite lookup_insert_ne in Hc' by done. }
      { intros c'. rewrite lookup_insert_eq. intros [= <-]. simpl. split; [|done].
        by destruct (inv_calls _ _ Hinv _ _ Eca). }
      rewrite Ew in E. simpl in E. res_inv. done.
  - destruct (complete_inv R st (r_xid h) (calls st) Hinv Hiss) as (w & Ew & Hres); [done|congruence|].
    rewrite Ew in E. simpl in E. res_inv. done.
Qed.

Lemma cancel_inv R st : rpcc_inv R st -> rpcc_inv R (cancel st).
Proof.
  intros [Ht Hx HR Hc]. split; [done..|]. cbn [calls cancel xid_].
  intros k ca. rewrite lookup_fmap. intros (ca' & Hca' & ->)%fmap_Some_1. simpl.
  destruct (Hc _ _ Hca') as (? & ? & ?). done.
Qed.

Lemma rpcc_reachable_inv `{Allocator} st : rpcc_reachable st -> exists R, rpcc_inv R st.
Proof.
  intros (rt & rnd & loss & Hsteps). remember (new_rpcc rt rnd loss) as st0 eqn:E0.
  assert (H0 : exists R, rpcc_inv R st0) by (exists ∅; subst; apply rpcc_inv_init).
  clear E0. revert H0. induction Hsteps as [st|s1 s2 s3 Hstep _ IH]; [done|].
  intros [R Hinv]. apply IH. clear IH. pose proof Hinv as [Ht Hx HR Hc].
  destruct Hstep.
  - exists R. by eapply call1_begin_inv.
  - exists R. unfold call1_transmit. repeat case_match; by split.
  - exists ({[x]} ∪ R). by eapply call1_unlink_inv.
  - exists R. unfold call1_keep_dup. case_match; by split.
  - by eapply got_pdu_inv.
  - exists R. unfold bind_finish. case_match; by split.
  - exists R. by apply cancel_inv.
  - exists R. by split.
Qed.

Lemma window_front_below R st :
  rpcc_inv R st -> exists f, window_front st = Ok f /\ 0 <= f /\ f < xid_ st.
Proof.
  intros [Ht Hx HR _]. unfold window_front.
  destruct (xid_rep_window st) as [|f rest]; [done|]. destruct Ht as (_ & Hf & _ & HRf & _).
  exists f. split_and!; [done|lia|]. destruct (decide (1 <= f)); [|lia]. apply HR, HRf. lia.
Qed.

(** ** The retransmission timer *)

Definition to_max : Z := 120000.
Definition to_min : Z := 1000.

(** The deadline of one wait, and what is left of [finaldeadline]: its seconds
    become 0 when this is the last wait. *)
Definition next_deadline (now : timespec) (curr_to : Z) (final : timespec)
    : res (timespec * timespec) :=
  next ← add_timespec now curr_to;
  if cmp_timespec next final >? 0 then Ok (final, Timespec 0 (tv_nsec final))
  else Ok (next, final).

(** The deadlines [call1] waits for when no reply comes; [clock i] is the time
    read at the start of round [i], and the result is [None] when [fuel] rounds
    are not enough. *)
Fixpoint call1_waits (fuel : nat) (clock : nat -> timespec) (i : nat)
    (final : timespec) (curr_to : Z) : res (option (list timespec)) :=
  match fuel with
  | O => Ok None
  | S fuel =>
      if tv_sec final =? 0 then Ok (Some [])
      else
        '(next, final) ← next_deadline (clock i) curr_to final;
        curr_to ← int_result (curr_to * 2);
        rest ← call1_waits fuel clock (S i) final curr_to;
        Ok (option_map (cons next) rest)
  end.

Lemma call1_waits_S fuel clock i final curr_to :
  call1_waits (S fuel) clock i final curr_to =
  if tv_sec final =? 0 then Ok (Some [])
  else
    '(next, final) ← next_deadline (clock i) curr_to final;
    curr_to ← int_result (curr_to * 2);
    rest ← call1_waits fuel clock (S i) final curr_to;
    Ok (option_map (cons next) rest).
Proof. reflexivity. Qed.

Section timer.
Context (clock : nat -> timespec) (t0 final : timespec) (to : Z) (k : nat).
Hypothesis clock_normalised : forall i, normalised (clock i).
Hypothesis clock_start : total_ns t0 <= total_ns (clock O).
Hypothesis clock_waits : forall i,
  total_ns (clock i) + to_min * 2 ^ Z.of_nat i * 1000000 <= total_ns (clock (S i)).
Hypothesis final_later : total_ns final = total_ns t0 + to * 1000000.
Hypothesis final_range : 0 < tv_sec final /\ 0 <= tv_nsec final <= NSEC.
Hypothesis rounds_enough : to < to_min * (2 ^ Z.of_nat k - 1).
Hypothesis rounds_int : (k <= 21)%nat.

Lemma clock_lower i :
  total_ns t0 + to_min * (2 ^ Z.of_nat i - 1) * 1000000 <= total_ns (clock i).
Proof.
  induction i as [|i IH]; [unfold to_min; simpl; lia|].
  specialize (clock_waits i). unfold to_min in *.
  rewrite Nat2Z.inj_succ, Z.pow_succ_r by lia. lia.
Qed.

Lemma cmp_timespec_later a b :
  0 <= tv_nsec a <= NSEC -> 0 <= tv_nsec b <= NSEC -> total_ns b < total_ns a ->
  cmp_timespec a b = 1.
Proof.
  unfold cmp_timespec, total_ns, NSEC. intros Ha Hb Hlt. rewrite !Z.gtb_ltb.
  destruct (Z.ltb_spec (tv_sec b) (tv_sec a)); [done|].
  destruct (Z.ltb_spec (tv_sec a) (tv_sec b)); [lia|].
  destruct (Z.ltb_spec (tv_nsec b) (tv_nsec a)); [done|lia].
Qed.

Lemma waits_bounded j : forall i, (i + S j = k)%nat ->
  exists ds, call1_waits (S (S j)) clock i final (to_min * 2 ^ Z.of_nat i) = Ok (Some ds) /\
    (length ds <= S j)%nat /\ last ds = Some final.
Proof.
  induction j as [|j IH]; intros i Hi; rewrite call1_waits_S.
  all: rewrite (proj2 (Z.eqb_neq (tv_sec final) 0)) by lia.
  all: assert (Hpow : to_min * 2 ^ Z.of_nat i * 2 = to_min * 2 ^ Z.of_nat (S i))
    by (rewrite Nat2Z.inj_succ, Z.pow_succ_r; lia).
  all: assert (Hint : int_result (to_min * 2 ^ Z.of_nat i * 2) = Ok (to_min * 2 ^ Z.of_nat (S i))).
  1, 3: rewrite Hpow; apply int_result_ok;
    pose proof (Z.pow_le_mono_r 2 (Z.of_nat (S i)) 21 ltac:(lia) ltac:(lia));
    pose proof (Z.pow_pos_nonneg 2 (Z.of_nat (S i)) ltac:(lia) ltac:(lia));
    unfold is_signed, to_min; lia.
  all: pose proof (add_timespec_spec (clock i) (to_min * 2 ^ Z.of_nat i) (clock_normalised i)
    ltac:(unfold to_min; pose proof (Z.pow_pos_nonneg 2 (Z.of_nat i)); lia))
    as (next & En & Htot & Hns & _).
  all: pose proof (clock_lower i) as Hlow.
  all: unfold next_deadline; rewrite En; cbn [mbind res_bind].
  - rewrite cmp_timespec_later; [|done|tauto|].
    2: { rewrite Htot, final_later. unfold to_min in *.
         replace k with (S i) in rounds_enough by lia.
         rewrite Nat2Z.inj_succ, Z.pow_succ_r in rounds_enough by lia. lia. }
    simpl Z.gtb. cbn [mbind res_bind]. rewrite Hint. cbn [mbind res_bind].
    exists [final]. simpl. done.
  - destruct (cmp_timespec next final >? 0) eqn:Ecmp; cbn [mbind res_bind]; rewrite Hint;
      cbn [mbind res_bind].
    + rewrite call1_waits_S. exists [final]. simpl. split_and!; [done|lia|done].
    + destruct (IH (S i)) as (ds & E & Hl & Hlast); [lia|]. rewrite E. cbn [mbind res_bind].
      exists (next :: ds). split_and!; [done|simpl; lia|]. by destruct ds.
Qed.
End timer.

(** ** Theorems *)

(** Receiving the xids of a list, in that order. *)
Fixpoint receive_all (w : list Z) (xs : list Z) : res (list Z) :=
  match xs with
  | [] => Ok w
  | x :: xs => w ← update_xid_rep w x; receive_all w xs
  end.

Lemma receive_all_tracks xs : forall R w,
  tracks R w -> Forall (fun x => 1 <= x < 2 ^ 32) xs ->
  exists w', receive_all w xs = Ok w' /\ tracks (list_to_set xs ∪ R) w'.
Proof.
  induction xs as [|x xs IH]; intros R w Ht Hxs; simpl.
  { exists w. split; [done|]. by replace (∅ ∪ R) with R by set_solver. }
  apply Forall_cons in Hxs as [Hx Hxs].
  destruct (update_xid_rep_tracks R w x Ht Hx) as (w1 & -> & Ht1). simpl.
  destruct (IH _ _ Ht1 Hxs) as (w2 & -> & Ht2). exists w2. split; [done|].
  by replace ({[x]} ∪ list_to_set xs ∪ R) with (list_to_set xs ∪ ({[x]} ∪ R)) by set_solver.
Qed.

(** C25. The acknowledged xid is the end of the longest run. Whatever replies
    have arrived, in whatever order and however often, the front of
    [xid_rep_window] (the [xid_rep] of the next request) is the number [f] such
    that all of 1..f have arrived and f+1 has not. *)
Theorem xid_rep_longest_run xs :
  Forall (fun x => 1 <= x < 2 ^ 32) xs ->
  exists f rest, receive_all [0] xs = Ok (f :: rest) /\ 0 <= f /\
    (forall x, 1 <= x <= f -> x ∈ xs) /\ f + 1 ∉ xs.
Proof.
  intros Hxs. destruct (receive_all_tracks xs ∅ [0] tracks_init Hxs) as (w & E & Ht).
  destruct w as [|f rest]; [done|]. destruct Ht as (_ & Hf & _ & HR & Hn).
  exists f, rest. split_and!; [done|lia| |].
  - intros x Hx. assert (x ∈ list_to_set (C := gset Z) xs ∪ ∅) as Hin by (apply HR; lia). set_solver.
  - set_solver.
Qed.

(** C24. A client never acknowledges a call that is still waiting. In every
    reachable state, whatever the interleaving of calls, replies, timeouts and
    cancellations, the acknowledged xid is below the next xid and below every
    outstanding call that has no result yet. *)
Theorem never_acks_outstanding `{Allocator} st :
  rpcc_reachable st ->
  exists f, window_front st = Ok f /\ f < xid_ st /\
    forall k ca, calls st !! k = Some ca -> ca_done ca = false -> f < k.
Proof.
  intros [R Hinv]%rpcc_reachable_inv.
  destruct (window_front_below R st Hinv) as (f & Ef & Hf & Hfx).
  exists f. split_and!; [done..|]. intros k ca (_ & Hk & Hn)%(inv_calls _ _ Hinv) Hd.
  specialize (Hn Hd). pose proof (inv_tracks _ _ Hinv) as Ht. unfold window_front in Ef.
  destruct (xid_rep_window st) as [|f' rest]; [done|]. injection Ef as ->.
  destruct Ht as (_ & _ & _ & HRf & _). rewrite HRf in Hn. lia.
Qed.

(** The state after [call1] has taken an xid. *)
Definition begun_state (st : rpcc) (rep : unmarshall) : rpcc :=
  Rpcc (clt_nonce st) (srv_nonce st) (bind_done st) (xid_ st + 1) (lossytest st) (retrans st)
    (reachable st) (destroy_wait st) (<[xid_ st := Caller (xid_ st) rep 0 false]> (calls st))
    (xid_rep_window st) (dup_req st) (xid_rep_done st).

Lemma call1_begin_spec `{Allocator} {A} (c : codec A) `{!CodecOk c} R st proc a m rep szf :
  rpcc_inv R st -> xid_ st < XID_LIMIT ->
  (proc = rpc_bind <-> bind_done st = false) -> is_signed 32 proc -> destroy_wait st = false ->
  is_unsigned 32 (clt_nonce st) -> is_unsigned 32 (srv_nonce st) ->
  c_valid c a -> RPC_HEADER_SZ + zlen (c_enc c a) < MAX_MSG ->
  c_put c a new_marshall = Ok m -> (forall b, length (szf b) = 4%nat) ->
  exists xr req u', call1_begin st proc m rep = Ok (Begun (begun_state st rep) (xid_ st) xr req) /\
    0 <= xr < xid_ st /\
    let pkt := with_size_field (szf (marshall_cstr req)) (marshall_cstr req) in
    let u := Unmarshall pkt (zlen pkt) RPC_HEADER_SZ true in
    unpack_req_header (new_unmarshall pkt (zlen pkt)) =
      Ok (ReqHeader (xid_ st) proc (clt_nonce st) (srv_nonce st) xr, u) /\
    c_get c (c_init c) u = Ok (a, u') /\ okdone u' = true.
Proof.
  intros Hinv Hlim Hbind Hproc Hdw Hcn Hsn Ha Hroom Hm Hszf. pose proof (inv_xid _ _ Hinv) as Hx.
  destruct (window_front_below R st Hinv) as (f & Ef & Hf & Hfx).
  set (h := ReqHeader (xid_ st) proc (clt_nonce st) (srv_nonce st) f).
  assert (Hh : mk_req_header (xid_ st) proc (clt_nonce st) (srv_nonce st) f = h).
  { unfold mk_req_header, XID_LIMIT in *. rewrite !wrapU_wrapS, !wrapU_small by done.
    rewrite !wrapS_small; try done; unfold is_signed; lia. }
  assert (Hv : valid_req_header h) by (rewrite <- Hh; apply mk_req_header_valid).
  destruct (build_request_spec c h a Ha Hroom) as (req & _ & Ereq & _).
  destruct (request_parse c h a (szf (marshall_cstr req)) Ha Hv (Hszf _) Hroom)
    as (req' & Ereq' & Eu & u' & Eg & Hd).
  assert (req' = req) as -> by congruence. clear Ereq'.
  exists f, req, u'. split; [|split; [lia|exact (conj Eu (conj Eg Hd))]].
  unfold build_request in Ereq. rewrite Hm in Ereq. cbn [mbind res_bind] in Ereq.
  unfold call1_begin. replace (_ || _) with false.
  2: { destruct (Z.eqb_spec proc rpc_bind) as [?|Hne], (bind_done st); simpl; try done;
         exfalso; [by assert (true = false) by (by apply Hbind)|by apply Hne, Hbind]. }
  rewrite Hdw, Ef. cbn [mbind res_bind]. rewrite Hh, Ereq. cbn [mbind res_bind].
  rewrite (s32_xid (xid_ st)) by lia. unfold XID_LIMIT in *.
  rewrite (wrapS_small 32 ltac:(lia) f) by (unfold is_signed; lia).
  rewrite (wrapU_small 32 (xid_ st + 1)) by (unfold is_unsigned; lia).
  unfold begun_state. by rewrite Hdw.
Qed.

(** What [call1] puts on the wire is acceptable to the server. In every
    reachable state that may make the call, [call1] takes a fresh xid, and the
    packet decodes to a header with that xid, the procedure and both nonces,
    whose [xid_rep] is below its [xid] (the condition the server asserts). *)
Theorem call1_header_ok `{Allocator} {A} (c : codec A) `{!CodecOk c} st proc a m rep szf :
  rpcc_reachable st -> xid_ st < XID_LIMIT ->
  (proc = rpc_bind <-> bind_done st = false) -> is_signed 32 proc -> destroy_wait st = false ->
  is_unsigned 32 (clt_nonce st) -> is_unsigned 32 (srv_nonce st) ->
  c_valid c a -> RPC_HEADER_SZ + zlen (c_enc c a) < MAX_MSG ->
  c_put c a new_marshall = Ok m -> length szf = 4%nat ->
  exists st' xr req u, call1_begin st proc m rep = Ok (Begun st' (xid_ st) xr req) /\
    calls st !! xid_ st = None /\ xid_ st' = xid_ st + 1 /\ xr < xid_ st /\
    unpack_req_header (new_unmarshall (with_size_field szf (marshall_cstr req))
                         (zlen (with_size_field szf (marshall_cstr req)))) =
      Ok (ReqHeader (xid_ st) proc (clt_nonce st) (srv_nonce st) xr, u).
Proof.
  intros [R Hinv]%rpcc_reachable_inv Hlim Hbind Hproc Hdw Hcn Hsn Ha Hroom Hm Hszf.
  destruct (call1_begin_spec c R st proc a m rep (fun _ => szf)) as (xr & req & u' & E & Hxr & Eu & _);
    try done.
  exists (begun_state st rep), xr, req. eexists. split; [exact E|]. split_and!; [|done|lia|exact Eu].
  destruct (calls st !! xid_ st) as [ca|] eqn:Ec; [|done].
  apply (inv_calls _ _ Hinv) in Ec as (_ & ? & _). lia.
Qed.

(** A reply completes exactly its call. When the reply packet for a pending
    xid arrives, that call is marked done with the reply's return code, every
    other call is left alone, and [call_m] then yields the value the server
    marshalled. *)
Theorem reply_completes_call `{Allocator} {A} (c : codec A) `{!CodecOk c} st x ca ret a m szf :
  rpcc_reachable st -> calls st !! x = Some ca -> ca_done ca = false ->
  0 <= ret -> is_signed 32 ret -> c_valid c a -> RPC_HEADER_SZ + zlen (c_enc c a) < MAX_MSG ->
  build_reply c (ReplyHeader x ret) a = Ok m -> length szf = 4%nat ->
  let pkt := with_size_field szf (marshall_cstr m) in
  exists st' ca', rpcc_got_pdu st pkt (zlen pkt) = Ok st' /\
    calls st' !! x = Some ca' /\ ca_done ca' = true /\ ca_intret ca' = ret /\
    call_m c (c_init c) (ca_intret ca') (ca_un ca') = Ok (ret, a) /\
    forall y, y <> x -> calls st' !! y = calls st !! y.
Proof.
  intros [R Hinv]%rpcc_reachable_inv Hca Hd Hret Hs Ha Hroom Hm Hszf pkt.
  pose proof (inv_calls _ _ Hinv _ _ Hca) as (Hself & Hx & _).
  pose proof (inv_xid _ _ Hinv) as Hlim. unfold XID_LIMIT in Hlim.
  destruct (reply_parse c (ReplyHeader x ret) a szf Ha) as (m' & E & Eu & u' & Eg & Hdone);
    [split; [unfold is_signed; simpl; lia|done]|done|done|].
  assert (m' = m) as -> by congruence. fold pkt in Eu, Eg. clearbody pkt.
  unfold rpcc_got_pdu. rewrite Eu. cbn [mbind res_bind u_ok negb r_xid].
  rewrite wrapU_small by (unfold is_unsigned; lia).
  destruct (complete_inv R st x (delete x (calls st)) Hinv Hx) as (w & Ew & _).
  { intros k c' Hc' Hne. by rewrite lookup_delete_ne in Hc' by done. }
  { intros c'. by rewrite lookup_delete_eq. }
  rewrite Ew, Hca, Hd. cbn [mbind res_bind]. do 2 eexists. split; [reflexivity|].
  cbn [calls set_calls]. rewrite lookup_insert_eq. split_and!; [done..| |].
  - unfold call_m. cbn [ca_intret ca_un r_ret]. destruct (Z.ltb_spec ret 0); [lia|].
    rewrite Eg. cbn [mbind res_bind]. by rewrite Hdone.
  - intros y Hy. by rewrite lookup_insert_ne.
Qed.


(** *** Witnesses *)

#[local] Existing Instance zero_allocator.

Lemma xid_rep_longest_run_witness :
  exists f rest, receive_all [0] [3; 1; 3; 2; 7] = Ok (f :: rest) /\ 0 <= f /\
    (forall x, 1 <= x <= f -> x ∈ [3; 1; 3; 2; 7]) /\ f + 1 ∉ [3; 1; 3; 2; 7].
Proof. apply xid_rep_longest_run. repeat constructor; lia. Defined.

(** A client that has sent its bind request. *)
Definition sample_begun : res begin_result :=
  req ← call_1 int_codec 0; call1_begin (new_rpcc true 77 0) rpc_bind req unmarshall_empty.
Definition sample_client : rpcc :=
  match sample_begun with Ok (Begun st _ _ _) => st | _ => new_rpcc true 77 0 end.

Lemma sample_client_reachable : rpcc_reachable sample_client.
Proof.
  exists true, 77, 0. apply rtc_once.
  destruct (call_1 int_codec 0) as [req|] eqn:E; [|vm_compute in E; discriminate].
  assert (exists x xr req', call1_begin (new_rpcc true 77 0) rpc_bind req unmarshall_empty =
    Ok (Begun sample_client x xr req')) as (x & xr & req' & Eb).
  { unfold sample_client, sample_begun. rewrite E. cbn [mbind res_bind].
    injection E as <-. do 3 eexists. vm_compute. reflexivity. }
  eapply step_begin; [|exact Eb]. vm_compute. reflexivity.
Qed.

Lemma never_acks_outstanding_witness :
  exists f, window_front sample_client = Ok f /\ f < xid_ sample_client /\
    forall k ca, calls sample_client !! k = Some ca -> ca_done ca = false -> f < k.
Proof. apply never_acks_outstanding, sample_client_reachable. Defined.

Lemma call1_header_ok_witness :
  exists m, c_put int_codec 0 new_marshall = Ok m /\
  exists st' xr req u, call1_begin (new_rpcc true 77 0) rpc_bind m unmarshall_empty =
      Ok (Begun st' 1 xr req) /\
    calls (new_rpcc true 77 0) !! 1 = None /\ xid_ st' = 1 + 1 /\ xr < 1 /\
    unpack_req_header (new_unmarshall (with_size_field (be 4 28) (marshall_cstr req))
                         (zlen (with_size_field (be 4 28) (marshall_cstr req)))) =
      Ok (ReqHeader 1 rpc_bind 77 0 xr, u).
Proof.
  destruct (c_put int_codec 0 new_marshall) as [m|] eqn:E; [|vm_compute in E; discriminate].
  exists m. split; [done|].
  apply (call1_header_ok int_codec (new_rpcc true 77 0) rpc_bind 0 m unmarshall_empty (be 4 28)).
  - by exists true, 77, 0.
  - done.
  - done.
  - vm_compute. intuition discriminate.
  - done.
  - vm_compute. intuition discriminate.
  - vm_compute. intuition discriminate.
  - vm_compute. intuition discriminate.
  - vm_compute. reflexivity.
  - exact E.
  - reflexivity.
Defined.

Lemma reply_completes_call_witness :
  exists m, build_reply int_codec (ReplyHeader 1 0) 1234 = Ok m /\
  let pkt := with_size_field (be 4 28) (marshall_cstr m) in
  exists st' ca', rpcc_got_pdu sample_client pkt (zlen pkt) = Ok st' /\
    calls st' !! 1 = Some ca' /\ ca_done ca' = true /\ ca_intret ca' = 0 /\
    call_m int_codec 0 (ca_intret ca') (ca_un ca') = Ok (0, 1234) /\
    forall y, y <> 1 -> calls st' !! y = calls sample_client !! y.
Proof.
  destruct (build_reply int_codec (ReplyHeader 1 0) 1234) as [m|] eqn:E;
    [|vm_compute in E; discriminate].
  exists m. split; [done|].
  destruct (calls sample_client !! 1) as [ca|] eqn:Eca; [|vm_compute in Eca; discriminate].
  assert (Hd : ca_done ca = false) by (vm_compute in Eca; injection Eca as <-; reflexivity).
  apply (reply_completes_call int_codec sample_client 1 ca 0 1234 m (be 4 28)).
  - apply sample_client_reachable.
  - exact Eca.
  - exact Hd.
  - done.
  - vm_compute. intuition discriminate.
  - vm_compute. intuition discriminate.
  - vm_compute. reflexivity.
  - exact E.
  - reflexivity.
Defined.

