(* ===== verification/Connection.v ===== *)
(** * Connections

    The [connection] class of src/rpc/connection.h and src/rpc/connection.cc:
    reference counting and deletion, sending a PDU in however many [write]s the
    kernel accepts, reassembling PDUs from however many [read]s, and the
    accepting side's table of connections. The kernel's answers are inputs of
    the steps; each step is what the code does under [m_] (or [ref_m_]). *)
From S2P Require Import Prelude Marshall.

Definition MAX_PDU : Z := Z.shiftl 10 20.

(** ** State *)

Record charbuf := Charbuf {
  cb_buf : option (list byte);   (* None for NULL *)
  cb_sz : Z;
  cb_solong : Z
}.
Definition new_charbuf : charbuf := Charbuf None 0 0.

Record connection := Connection {
  cn_fd : Z;
  cn_dead : bool;
  cn_wpdu : charbuf;
  cn_rpdu : charbuf;
  cn_create_time : Z * Z;        (* seconds, microseconds *)
  cn_waiters : Z;
  cn_refno : Z;
  cn_lossy : Z
}.

Definition new_connection (fd lossy : Z) (now : Z * Z) : connection :=
  Connection fd false new_charbuf new_charbuf now 0 1 lossy.

Definition set_dead (c : connection) (d : bool) : connection :=
  Connection (cn_fd c) d (cn_wpdu c) (cn_rpdu c) (cn_create_time c) (cn_waiters c)
    (cn_refno c) (cn_lossy c).
Definition set_wpdu (c : connection) (w : charbuf) : connection :=
  Connection (cn_fd c) (cn_dead c) w (cn_rpdu c) (cn_create_time c) (cn_waiters c)
    (cn_refno c) (cn_lossy c).
Definition set_rpdu (c : connection) (r : charbuf) : connection :=
  Connection (cn_fd c) (cn_dead c) (cn_wpdu c) r (cn_create_time c) (cn_waiters c)
    (cn_refno c) (cn_lossy c).
Definition set_waiters (c : connection) (n : Z) : connection :=
  Connection (cn_fd c) (cn_dead c) (cn_wpdu c) (cn_rpdu c) (cn_create_time c) n
    (cn_refno c) (cn_lossy c).
Definition set_refno (c : connection) (n : Z) : connection :=
  Connection (cn_fd c) (cn_dead c) (cn_wpdu c) (cn_rpdu c) (cn_create_time c) (cn_waiters c)
    n (cn_lossy c).

(** ** References *)

Definition incref (c : connection) : connection := set_refno c (cn_refno c + 1).

(** The destructor checks that the connection is dead and nobody is sending. *)
Definition destroy (c : connection) : res unit :=
  _ ← VERIFY (cn_dead c);
  VERIFY (bool_decide (cb_buf (cn_wpdu c) = None)).

(** [None]: the object has deleted itself. *)
Definition decref (c : connection) : res (option connection) :=
  let c := set_refno c (cn_refno c - 1) in
  _ ← VERIFY (cn_refno c >=? 0);
  if (cn_refno c =? 0) && cn_dead c then _ ← destroy c; Ok None
  else Ok (Some c).

Definition closeconn (c : connection) : connection :=
  if cn_dead c then c else set_dead c true.

Definition compare (c another : connection) : Z :=
  if (cn_create_time c).1 >? (cn_create_time another).1 then 1
  else if (cn_create_time c).1 <? (cn_create_time another).1 then -1
  else if (cn_create_time c).2 >? (cn_create_time another).2 then 1
  else if (cn_create_time c).2 <? (cn_create_time another).2 then -1
  else 0.

(** ** Sending *)

(** What [write] answers: a byte count, EAGAIN, or another error. *)
Inductive write_result := Wrote (n : Z) | Write_eagain | Write_error.

(** The bytes accepted by the kernel are returned with the new state. *)
Definition writepdu (c : connection) (w : write_result) : res (bool * connection * list byte) :=
  let p := cn_wpdu c in
  _ ← VERIFY (cb_solong p >=? 0);
  if cb_solong p =? cb_sz p then Ok (true, c, [])
  else match cb_buf p with
  | None => Err Undefined
  | Some b =>
      b ← (if cb_solong p =? 0 then memcpy b 0 (be 4 (cb_sz p)) else Ok b);
      _ ← defined_if (bool_decide (cb_solong p <= cb_sz p <= zlen b));
      match w with
      | Write_eagain => Ok (true, set_wpdu c (Charbuf (Some b) (cb_sz p) (cb_solong p)), [])
      | Write_error => Ok (false, set_wpdu c (Charbuf (Some b) 0 (-1)), [])
      | Wrote n =>
          Ok (true, set_wpdu c (Charbuf (Some b) (cb_sz p) (cb_solong p + n)),
              take (Z.to_nat n) (drop (Z.to_nat (cb_solong p)) b))
      end
  end.

(** [send] before its first wait. *)
Definition send_enter (c : connection) : connection := set_waiters c (cn_waiters c + 1).

(** The first wait ends when the connection is dead or nobody else sends. *)
Definition send_may_start (c : connection) : bool :=
  cn_dead c || bool_decide (cb_buf (cn_wpdu c) = None).

Inductive send_state :=
  | Send_refused (c : connection)              (* returned false *)
  | Send_waiting (c : connection)              (* waits for send_complete_ *)
  | Send_written (c : connection).             (* ready for send_finish *)

Definition send_start (c : connection) (b : list byte) (sz : Z) (w : write_result)
    : res (send_state * list byte) :=
  let c := set_waiters c (cn_waiters c - 1) in
  if cn_dead c then Ok (Send_refused c, [])
  else
    '(ok, c, out) ← writepdu (set_wpdu c (Charbuf (Some b) sz 0)) w;
    if negb ok then Ok (Send_written (set_dead c true), out)
    else if cb_solong (cn_wpdu c) =? cb_sz (cn_wpdu c) then Ok (Send_written c, out)
    else Ok (Send_waiting c, out).

(** The second wait ends when this holds. *)
Definition send_completed (c : connection) : bool :=
  cn_dead c || (cb_solong (cn_wpdu c) <? 0) ||
  (cb_sz (cn_wpdu c) <=? cb_solong (cn_wpdu c)).

Definition send_finish (c : connection) : bool * connection :=
  (negb (cn_dead c) && (cb_solong (cn_wpdu c) =? cb_sz (cn_wpdu c)),
   set_wpdu c (Charbuf None 0 0)).

(** The poll thread found the socket writable. *)
Definition write_cb (c : connection) (s : Z) (w : write_result)
    : res (connection * list byte) :=
  _ ← VERIFY (negb (cn_dead c));
  _ ← VERIFY (cn_fd c =? s);
  if cb_sz (cn_wpdu c) =? 0 then Ok (c, [])
  else
    '(ok, c, out) ← writepdu c w;
    if negb ok then Ok (set_dead c true, out)
    else _ ← VERIFY (cb_solong (cn_wpdu c) >=? 0); Ok (c, out).

(** ** Receiving *)

(** What [read] answers: bytes, end of file, or an error; [eagain] says whether
    [errno] is EAGAIN, which after an end of file is whatever an earlier call
    left there. *)
Inductive read_result :=
  | Got (bs : list byte)
  | Got_eof (eagain : bool)
  | Got_error (eagain : bool).

(** The size word, when no PDU is being read: [None] closes the connection. *)
Definition read_size `{Allocator} (rpdu : charbuf) (r : read_result) : res (option charbuf) :=
  match r with
  | Got_eof _ => Ok None
  | Got_error eagain => _ ← VERIFY (negb eagain); Ok None
  | Got bs =>
      if negb (zlen bs =? 4) then Ok None
      else
        let sz := s32 (be_val bs) in
        if sz >? MAX_PDU then Ok None
        else
          _ ← VERIFY (bool_decide (cb_buf rpdu = None));
          _ ← VERIFY (u64 (sz + 4) <? 2 ^ 63);   (* malloc fails above PTRDIFF_MAX *)
          b ← memcpy (malloc (Z.to_nat (u64 (sz + 4)))) 0 bs;
          Ok (Some (Charbuf (Some b) sz 4))
  end.

(** The body: the kernel stores what it read behind the bytes already there. *)
Definition read_body (rpdu : charbuf) (r : read_result) : res (bool * charbuf) :=
  match cb_buf rpdu with
  | None => Err Undefined
  | Some b =>
      match r with
      | Got_eof eagain | Got_error eagain =>
          if eagain then Ok (true, rpdu) else Ok (false, new_charbuf)
      | Got bs =>
          b ← memcpy b (cb_solong rpdu) bs;
          Ok (true, Charbuf (Some b) (cb_sz rpdu) (cb_solong rpdu + zlen bs))
      end
  end.

(** [r1] answers the read of the size word, if there is one, [r2] the other. *)
Definition readpdu `{Allocator} (rpdu : charbuf) (r1 r2 : read_result)
    : res (bool * charbuf) :=
  if cb_sz rpdu =? 0 then
    p ← read_size rpdu r1;
    match p with
    | None => Ok (false, rpdu)
    | Some rpdu => read_body rpdu r2
    end
  else read_body rpdu r2.

(** [read_cb]: the PDU handed to [got_pdu] if one is complete, which [consumed]
    says whether the manager accepted. *)
Definition read_cb `{Allocator} (c : connection) (s : Z) (r1 r2 : read_result) (consumed : bool)
    : res (connection * option (list byte * Z)) :=
  _ ← VERIFY (cn_fd c =? s);
  if cn_dead c then Ok (c, None)
  else
    '(succ, rpdu) ← (if bool_decide (cb_buf (cn_rpdu c) = None) ||
                        (cb_solong (cn_rpdu c) <? cb_sz (cn_rpdu c))
                     then readpdu (cn_rpdu c) r1 r2 else Ok (true, cn_rpdu c));
    let c := set_rpdu (if succ : bool then c else set_dead c true) rpdu in
    match cb_buf rpdu with
    | Some b =>
        if cb_sz rpdu =? cb_solong rpdu
        then Ok (if consumed then set_rpdu c new_charbuf else c, Some (b, cb_sz rpdu))
        else Ok (c, None)
    | None => Ok (c, None)
    end.

(** ** Framing, the sending side *)

(** A packet as it travels: its first four bytes are its size. *)
Definition frame_of (b : list byte) : list byte := with_size_field (be 4 (zlen b)) b.

Definition kernel_accepts (c : connection) (w : write_result) : Prop :=
  match w with
  | Wrote n => 0 <= n <= cb_sz (cn_wpdu c) - cb_solong (cn_wpdu c)
  | _ => True
  end.

(** A connection in the middle of sending [frame], [out] being what the kernel
    has taken so far. *)
Definition sending (frame : list byte) (c : connection) (out : list byte) : Prop :=
  (exists b, cb_buf (cn_wpdu c) = Some b /\ cb_sz (cn_wpdu c) = zlen frame /\
     0 <= cb_solong (cn_wpdu c) <= zlen frame /\ zlen b = zlen frame /\
     frame_of b = frame /\ (cb_solong (cn_wpdu c) <> 0 -> b = frame) /\
     out = take (Z.to_nat (cb_solong (cn_wpdu c))) frame) \/
  (cn_dead c = true /\ out `prefix_of` frame).

Lemma frame_of_length b : 4 <= zlen b -> zlen (frame_of b) = zlen b.
Proof. intros. unfold frame_of, with_size_field. len. Qed.

Lemma frame_of_memcpy b :
  4 <= zlen b -> memcpy b 0 (be 4 (zlen b)) = Ok (frame_of b).
Proof.
  intros Hl. unfold memcpy. rewrite decide_True by (len; lia).
  unfold zlen at 2. rewrite length_be. done.
Qed.

Lemma frame_of_idemp b : 4 <= zlen b -> frame_of (frame_of b) = frame_of b.
Proof.
  intros Hl. pose proof (frame_of_length b Hl) as E. unfold frame_of at 1. rewrite E.
  reflexivity.
Qed.

(** One [writepdu] of a live sender. *)
Lemma writepdu_sending frame c out w :
  4 <= zlen frame -> sending frame c out -> cn_dead c = false -> kernel_accepts c w ->
  exists ok c' out', writepdu c w = Ok (ok, c', out') /\ cn_dead c' = false /\
    cn_fd c' = cn_fd c /\
    if ok : bool then sending frame c' (out ++ out') else out ++ out' `prefix_of` frame.
Proof.
  intros Hf [(b & Hb & Hsz & Hso & Hlb & Hfr & Hpatched & Hout)|[Hd _]] Hd' Hk; [|congruence].
  unfold writepdu. replace (cb_solong (cn_wpdu c) >=? 0) with true by (symmetry; apply Z.geb_le; lia).
  cbn [VERIFY mbind res_bind].
  destruct (Z.eqb_spec (cb_solong (cn_wpdu c)) (cb_sz (cn_wpdu c))) as [E|Hne].
  { exists true, c, []. rewrite app_nil_r. split_and!; try done. left. by exists b. }
  rewrite Hb.
  assert (Hb' : (if cb_solong (cn_wpdu c) =? 0 then memcpy b 0 (be 4 (cb_sz (cn_wpdu c))) else Ok b)
    = Ok frame).
  { destruct (Z.eqb_spec (cb_solong (cn_wpdu c)) 0) as [E0|E0].
    - rewrite Hsz, <- Hlb. rewrite frame_of_memcpy by lia. by rewrite Hfr.
    - by rewrite Hpatched. }
  rewrite Hb'. cbn [mbind res_bind].
  rewrite bool_decide_eq_true_2 by lia. cbn [defined_if mbind res_bind].
  assert (Hff : frame_of frame = frame) by (rewrite <- Hfr; apply frame_of_idemp; lia).
  destruct w as [n| |].
  - simpl in Hk. do 3 eexists. split; [reflexivity|]. cbn [cn_dead set_wpdu cn_fd].
    split_and!; [done|done|]. left. exists frame. cbn [cn_wpdu set_wpdu cb_buf cb_sz cb_solong].
    split_and!; try done; try lia. rewrite Hout, Z2Nat.inj_add by lia.
    apply take_take_drop.
  - do 3 eexists. split; [reflexivity|]. split_and!; try done. rewrite app_nil_r. left.
    exists frame. cbn [cn_wpdu set_wpdu cb_buf cb_sz cb_solong]. split_and!; try done; lia.
  - do 3 eexists. split; [reflexivity|]. split_and!; try done. rewrite app_nil_r, Hout.
    apply prefix_take.
Qed.

(** The poll thread's calls while a sender waits: it stops calling once the
    connection is dead. *)
Inductive write_run : connection -> connection -> list byte -> Prop :=
  | wr_done c : write_run c c []
  | wr_cb c w c1 out c2 outs :
      cn_dead c = false -> kernel_accepts c w ->
      write_cb c (cn_fd c) w = Ok (c1, out) -> write_run c1 c2 outs ->
      write_run c c2 (out ++ outs).

Lemma write_cb_sending frame c out w c' out' :
  4 <= zlen frame -> sending frame c out -> cn_dead c = false -> kernel_accepts c w ->
  write_cb c (cn_fd c) w = Ok (c', out') -> sending frame c' (out ++ out').
Proof.
  intros Hf Hs Hd Hk E. unfold write_cb in E. res_inv.
  destruct (cb_sz (cn_wpdu c) =? 0) eqn:Ez.
  { res_inv. by rewrite app_nil_r. }
  destruct (writepdu_sending frame c out w Hf Hs Hd Hk) as (ok & c1 & o1 & E1 & Hd1 & _ & Hres).
  rewrite E1 in E. cbn [mbind res_bind] in E. destruct ok; cbn [negb] in E; res_inv; [done|].
  right. done.
Qed.

Lemma write_run_sending frame c c' outs :
  4 <= zlen frame -> write_run c c' outs -> forall out,
  sending frame c out -> sending frame c' (out ++ outs).
Proof.
  intros Hf Hrun. induction Hrun as [c|c w c1 o c2 os Hd Hk E _ IH]; intros out Hs.
  - by rewrite app_nil_r.
  - rewrite app_assoc. apply IH. by eapply write_cb_sending.
Qed.

(** The state [send] leaves to the poll thread, or finishes in itself. *)
Definition send_conn (s : send_state) : connection :=
  match s with Send_refused c | Send_waiting c | Send_written c => c end.

Lemma send_start_sending c b w ss out :
  4 <= zlen b -> cn_dead c = false ->
  kernel_accepts (set_wpdu c (Charbuf (Some b) (zlen b) 0)) w ->
  send_start c b (zlen b) w = Ok (ss, out) -> sending (frame_of b) (send_conn ss) out.
Proof.
  intros Hb Hd Hk E. unfold send_start in E. cbn [cn_dead set_waiters] in E. rewrite Hd in E.
  set (c0 := set_wpdu _ _) in E.
  assert (Hs0 : sending (frame_of b) c0 []).
  { left. exists b. subst c0. cbn [cn_wpdu set_wpdu cb_buf cb_sz cb_solong].
    rewrite frame_of_length by done. split_and!; try done; lia. }
  destruct (writepdu_sending (frame_of b) c0 [] w) as (ok & c1 & o1 & E1 & Hd1 & _ & Hres);
    [by rewrite frame_of_length|done|done|done|].
  rewrite E1 in E. cbn [mbind res_bind] in E. destruct ok; cbn [negb] in E.
  - destruct (_ =? _); res_inv; done.
  - res_inv. by right.
Qed.

(** ** Framing, the receiving side *)

Lemma be_val_frame b : 4 <= zlen b <= INT_MAX -> s32 (be_val (take 4 (frame_of b))) = zlen b.
Proof.
  intros Hl. unfold INT_MAX in Hl.
  assert (take 4 (frame_of b) = be 4 (zlen b)) as ->.
  { unfold frame_of, with_size_field. rewrite take_app_le by len. by rewrite take_ge by len. }
  rewrite be_val_be. change (8 * Z.of_nat 4) with 32. rewrite Z.mod_small by lia.
  apply wrapS_small; [lia|]. unfold is_signed. lia.
Qed.

(** A reader holding the first [solong] bytes of [frame]. *)
Definition receiving (frame : list byte) (p : charbuf) : Prop :=
  exists b, cb_buf p = Some b /\ cb_sz p = zlen frame /\ zlen frame <= zlen b /\
    4 <= cb_solong p <= zlen frame /\
    take (Z.to_nat (cb_solong p)) b = take (Z.to_nat (cb_solong p)) frame.

Lemma read_size_receiving `{Allocator} frame b r :
  frame = frame_of b -> 4 <= zlen b <= MAX_PDU -> r = Got (take 4 frame) ->
  exists p, read_size new_charbuf r = Ok (Some p) /\ receiving frame p /\ cb_solong p = 4.
Proof.
  intros -> [Hl Hmax] ->. assert (MAX_PDU = 10485760) as Hm by done.
  pose proof (frame_of_length b Hl) as Hfl. unfold read_size.
  assert (zlen (take 4 (frame_of b)) = 4) as -> by (unfold zlen in *; rewrite length_take; lia).
  cbn [negb Z.eqb]. rewrite be_val_frame by (unfold INT_MAX; lia).
  destruct (zlen b >? MAX_PDU) eqn:E; [lia|].
  rewrite bool_decide_eq_true_2 by done.
  rewrite (wrapU_small 64) by (unfold is_unsigned; lia).
  rewrite (proj2 (Z.ltb_lt (zlen b + 4) (2 ^ 63))) by lia.
  cbn [VERIFY mbind res_bind]. unfold memcpy.
  rewrite decide_True by (clear - Hl Hfl; len; lia).
  cbn [mbind res_bind]. eexists. split; [reflexivity|]. split; [|done].
  eexists. cbn [cb_buf cb_sz cb_solong]. split_and!; try done; try lia.
  clear - Hl Hfl. len.
Qed.

Lemma read_body_receiving frame p bs :
  receiving frame p -> 0 < zlen bs ->
  bs = take (length bs) (drop (Z.to_nat (cb_solong p)) frame) ->
  exists p', read_body p (Got bs) = Ok (true, p') /\ receiving frame p' /\
    cb_solong p' = cb_solong p + zlen bs.
Proof.
  intros (b & Hb & Hsz & Hlb & Hso & Htk) Hpos Hbs. unfold read_body. rewrite Hb.
  assert (Hfit : cb_solong p + zlen bs <= zlen frame).
  { apply (f_equal length) in Hbs. rewrite length_take, length_drop in Hbs.
    unfold zlen in *. lia. }
  unfold memcpy. rewrite decide_True by lia. cbn [mbind res_bind].
  eexists. split; [reflexivity|]. cbn [cb_solong]. split; [|done].
  eexists. cbn [cb_buf cb_sz cb_solong]. split_and!; try done; try lia.
  - unfold zlen in *. rewrite !length_app, length_drop, length_take. lia.
  - rewrite Htk, app_assoc, take_app_le by (unfold zlen in *; rewrite length_app, length_take; lia).
    rewrite take_ge by (unfold zlen in *; rewrite length_app, length_take; lia).
    rewrite Hbs at 1. rewrite take_take_drop. f_equal. unfold zlen. lia.
Qed.

(** A sequence of [read_cb]s, each with what the kernel answered; the PDUs
    delivered to the manager, which accepts them. *)
Fixpoint run_reads `{Allocator} (c : connection) (arr : list (read_result * read_result))
    : res (connection * list (list byte)) :=
  match arr with
  | [] => Ok (c, [])
  | (r1, r2) :: arr =>
      '(c, d) ← read_cb c (cn_fd c) r1 r2 true;
      '(c, ds) ← run_reads c arr;
      Ok (c, match d with Some (b, sz) => take (Z.to_nat sz) b :: ds | None => ds end)
  end.

(** The reads that deliver one frame: the size word and the first piece of the
    body in one callback, every other piece in a callback of its own. *)
Definition frame_reads (frame : list byte) (pieces : list (list byte))
    : list (read_result * read_result) :=
  match pieces with
  | [] => []
  | p :: ps => (Got (take 4 frame), Got p) :: ((fun p => (Got_error true, Got p)) <$> ps)
  end.

Section reassembly.
Context `{Allocator}.

(** After a successful read: deliver and start afresh, or go on. *)
Lemma read_cb_receiving c frame r1 r2 p :
  cn_dead c = false -> receiving frame p ->
  bool_decide (cb_buf (cn_rpdu c) = None) || (cb_solong (cn_rpdu c) <? cb_sz (cn_rpdu c)) = true ->
  readpdu (cn_rpdu c) r1 r2 = Ok (true, p) ->
  read_cb c (cn_fd c) r1 r2 true =
  if cb_solong p =? zlen frame
  then Ok (set_rpdu (set_rpdu c p) new_charbuf, Some (default [] (cb_buf p), zlen frame))
  else Ok (set_rpdu c p, None).
Proof.
  intros Hd (b & Hb & Hsz & _) Hcond E. unfold read_cb. rewrite Z.eqb_refl.
  cbn [VERIFY mbind res_bind]. rewrite Hd, Hcond, E. cbn [mbind res_bind].
  rewrite Hb, Hsz, Z.eqb_sym. done.
Qed.

Lemma receiving_complete frame p :
  receiving frame p -> cb_solong p = zlen frame ->
  take (Z.to_nat (zlen frame)) (default [] (cb_buf p)) = frame.
Proof.
  intros (b & -> & _ & _ & _ & Htk) E. rewrite E in Htk. simpl. rewrite Htk.
  unfold zlen. rewrite Nat2Z.id. by apply take_ge.
Qed.

Lemma no_pieces_left (ps : list (list byte)) :
  Forall (fun p => 0 < zlen p) ps -> concat ps = [] -> ps = [].
Proof.
  intros Hps E. destruct ps as [|p ps]; [done|]. apply Forall_cons in Hps as [Hp _].
  cbn [concat] in E. apply app_eq_nil in E as [-> _]. unfold zlen in Hp. simpl in Hp. lia.
Qed.

Lemma run_reads_rest frame ps : forall c,
  cn_dead c = false -> receiving frame (cn_rpdu c) -> cb_solong (cn_rpdu c) < zlen frame ->
  Forall (fun p => 0 < zlen p) ps ->
  concat ps = drop (Z.to_nat (cb_solong (cn_rpdu c))) frame ->
  run_reads c ((fun p => (Got_error true, Got p)) <$> ps) =
  Ok (set_rpdu c new_charbuf, [frame]).
Proof.
  induction ps as [|p ps IH]; intros c Hd Hrec Hlt Hps Hcat.
  { apply (f_equal length) in Hcat. rewrite length_drop in Hcat. simpl in Hcat.
    destruct Hrec as (? & _ & _ & _ & Hso & _). unfold zlen in *. lia. }
  apply Forall_cons in Hps as [Hp Hps]. cbn [concat] in Hcat.
  assert (Hpiece : p = take (length p) (drop (Z.to_nat (cb_solong (cn_rpdu c))) frame)).
  { rewrite <- Hcat. by rewrite take_app_length. }
  destruct (read_body_receiving frame (cn_rpdu c) p Hrec Hp Hpiece) as (q & Eq & Hq & Hqs).
  assert (Hsz : cb_sz (cn_rpdu c) = zlen frame) by (by destruct Hrec as (? & _ & ? & _)).
  cbn [fmap list_fmap run_reads].
  rewrite (read_cb_receiving c frame _ _ q); [|done|done| |].
  2: { rewrite Hsz. apply orb_true_iff. right. by apply Z.ltb_lt. }
  2: { unfold readpdu. rewrite Hsz. destruct (Z.eqb_spec (zlen frame) 0); [|done].
       destruct Hrec as (? & _ & _ & _ & Hso & _). lia. }
  assert (Hrest : concat ps = drop (Z.to_nat (cb_solong q)) frame).
  { rewrite Hqs. destruct Hrec as (? & _ & _ & _ & Hso & _).
    rewrite Z2Nat.inj_add by (unfold zlen; lia). rewrite <- drop_drop, <- Hcat.
    unfold zlen. by rewrite Nat2Z.id, drop_app_length. }
  destruct (Z.eqb_spec (cb_solong q) (zlen frame)) as [E|Hne].
  - assert (ps = []) as ->.
    { apply no_pieces_left; [done|]. rewrite Hrest, E. apply drop_ge. unfold zlen. lia. }
    cbn [mbind res_bind run_reads fmap list_fmap].
    rewrite receiving_complete by done. done.
  - cbn [mbind res_bind].
    assert (cb_solong q <= zlen frame) by (destruct Hq as (? & _ & _ & _ & ? & _); lia).
    rewrite (IH (set_rpdu c q)); cbn [cn_rpdu set_rpdu cn_dead]; [done|done|done|lia|done|done].
Qed.

Lemma run_reads_frame c b pieces :
  cn_dead c = false -> cn_rpdu c = new_charbuf -> 4 < zlen b <= MAX_PDU ->
  Forall (fun p => 0 < zlen p) pieces -> concat pieces = drop 4 (frame_of b) ->
  run_reads c (frame_reads (frame_of b) pieces) = Ok (c, [frame_of b]).
Proof.
  intros Hd Hr Hl Hps Hcat. pose proof (frame_of_length b ltac:(lia)) as Hfl.
  destruct pieces as [|p ps].
  { apply (f_equal length) in Hcat. rewrite length_drop in Hcat. cbn [concat length] in Hcat.
    unfold zlen in *. lia. }
  apply Forall_cons in Hps as [Hp Hps]. cbn [concat] in Hcat.
  destruct (read_size_receiving (frame_of b) b (Got (take 4 (frame_of b))) eq_refl ltac:(lia) eq_refl)
    as (q0 & E0 & Hq0 & Hs0).
  destruct (read_body_receiving (frame_of b) q0 p Hq0 Hp) as (q & Eq & Hq & Hqs).
  { rewrite Hs0. change (Z.to_nat 4) with 4%nat. rewrite <- Hcat. by rewrite take_app_length. }
  assert (Hc : c = set_rpdu c new_charbuf) by (rewrite <- Hr; by destruct c).
  cbn [frame_reads run_reads].
  rewrite (read_cb_receiving c (frame_of b) _ _ q); [|done|done|by rewrite Hr|].
  2: { rewrite Hr. unfold readpdu. cbn [cb_sz new_charbuf Z.eqb]. rewrite E0. done. }
  assert (Hrest : concat ps = drop (Z.to_nat (cb_solong q)) (frame_of b)).
  { rewrite Hqs, Hs0, Z2Nat.inj_add by (unfold zlen; lia). rewrite <- drop_drop.
    change (Z.to_nat 4) with 4%nat. rewrite <- Hcat.
    unfold zlen. by rewrite Nat2Z.id, drop_app_length. }
  destruct (Z.eqb_spec (cb_solong q) (zlen (frame_of b))) as [E|Hne].
  - assert (ps = []) as ->.
    { apply no_pieces_left; [done|]. rewrite Hrest, E. apply drop_ge. unfold zlen. lia. }
    cbn [mbind res_bind run_reads fmap list_fmap].
    rewrite receiving_complete by done. by rewrite Hc at 2.
  - cbn [mbind res_bind].
    assert (cb_solong q <= zlen (frame_of b)) by (destruct Hq as (? & _ & _ & _ & ? & _); lia).
    rewrite (run_reads_rest (frame_of b) ps (set_rpdu c q));
      cbn [cn_rpdu set_rpdu cn_dead]; [|done|done|lia|done|done].
    cbn [mbind res_bind]. by rewrite Hc at 2.
Qed.
End reassembly.

(** Consecutive frames: [run_reads] composes. *)
Lemma run_reads_app `{Allocator} c arr1 arr2 c1 ds1 :
  run_reads c arr1 = Ok (c1, ds1) ->
  run_reads c (arr1 ++ arr2) = ('(c2, ds2) ← run_reads c1 arr2; Ok (c2, ds1 ++ ds2)).
Proof.
  revert c ds1. induction arr1 as [|[r1 r2] arr1 IH]; intros c ds1 E.
  - cbn [run_reads] in E. res_inv. simpl.
    by destruct (run_reads c1 arr2) as [[??]|].
  - cbn [app run_reads] in *. apply res_bind_Ok_inv in E as ([c' d] & E1 & E).
    rewrite E1. cbn [mbind res_bind]. apply res_bind_Ok_inv in E as ([c'' ds] & E2 & E).
    res_inv. rewrite (IH _ _ E2). cbn [mbind res_bind].
    destruct (run_reads c1 arr2) as [[c2 ds2]|]; cbn [mbind res_bind]; [|done].
    by destruct d as [[??]|].
Qed.

(** ** The accepting side *)

(** [std::map<int, connection *>], in the order of its keys. *)
Fixpoint conns_set (k : Z) (v : connection) (l : list (Z * connection)) : list (Z * connection) :=
  match l with
  | [] => [(k, v)]
  | (k', v') :: l' =>
      if k <? k' then (k, v) :: l
      else if k =? k' then (k, v) :: l'
      else (k', v') :: conns_set k v l'
  end.

(** Dead, and referenced by the table only. *)
Definition collectable (c : connection) : bool := cn_dead c && (cn_refno c =? 1).

(** The loop over the table: [conns_.erase(i)] invalidates [i], and the loop
    goes on with [i++]. *)
Fixpoint collect_dead (l : list (Z * connection)) : res unit :=
  match l with
  | [] => Ok tt
  | (_, c) :: l =>
      if collectable c then _ ← decref c; Err Undefined
      else collect_dead l
  end.

(** [process_accept] once [accept] has answered with the socket [s1]. *)
Definition process_accept (conns : list (Z * connection)) (s1 lossy : Z) (now : Z * Z)
    : res (list (Z * connection)) :=
  let ch := new_connection s1 lossy now in
  _ ← collect_dead conns;
  Ok (conns_set (cn_fd ch) ch conns).

(** What [accept_conn] does with one answer of [select]. *)
Inductive select_result := Sel_eintr | Sel_error | Sel_ready (on_pipe on_tcp : bool).
Inductive accept_action := Acc_again | Acc_exit | Acc_accept.
Definition accept_conn_step (r : select_result) : res accept_action :=
  match r with
  | Sel_eintr => Ok Acc_again
  | Sel_error => Err Verify_failed
  | Sel_ready true _ => Ok Acc_exit
  | Sel_ready false true => Ok Acc_accept
  | Sel_ready false false => Err Verify_failed
  end.

(** [~tcpsconn]: every connection of the table is closed and released. *)
Fixpoint close_all (l : list (Z * connection)) : res (list (option connection)) :=
  match l with
  | [] => Ok []
  | (_, c) :: l => o ← decref (closeconn c); os ← close_all l; Ok (o :: os)
  end.

(** * Properties *)

(** C23. Whatever the kernel accepts per [write], once [send] returns true the
    bytes handed to the kernel are exactly the packet with its length in the
    first four bytes; when it returns false they are a prefix of it. *)
Theorem send_emits_frame c b w ss out c' outs ret c'' :
  4 <= zlen b -> cn_dead c = false ->
  kernel_accepts (set_wpdu c (Charbuf (Some b) (zlen b) 0)) w ->
  send_start c b (zlen b) w = Ok (ss, out) ->
  write_run (send_conn ss) c' outs ->
  send_finish c' = (ret, c'') ->
  (if ret then out ++ outs = frame_of b else out ++ outs `prefix_of` frame_of b) /\
  cb_buf (cn_wpdu c'') = None.
Proof.
  intros Hb Hd Hk E Hrun Hfin.
  pose proof (send_start_sending _ _ _ _ _ Hb Hd Hk E) as Hs.
  pose proof (frame_of_length b Hb) as Hl.
  pose proof (write_run_sending (frame_of b) _ _ _ ltac:(lia) Hrun out Hs) as Hs'.
  unfold send_finish in Hfin. injection Hfin as <- <-. split; [|done].
  destruct Hs' as [(b' & _ & Hsz & Hso & _ & _ & _ & Hout)|[Hd' Hpre]].
  - destruct (negb (cn_dead c') && _) eqn:E'.
    + apply andb_true_iff in E' as [_ E']. apply Z.eqb_eq in E'. rewrite Hout, E', Hsz.
      unfold zlen. rewrite Nat2Z.id. by apply take_ge.
    + rewrite Hout. apply prefix_take.
  - by rewrite Hd'.
Qed.


(** C33. The sizes [readpdu] refuses are those above [MAX_PDU], so a peer that
    announces a negative size stops the process: with -4 to -1 the size word is
    copied into a block smaller than itself, with anything below -4 the
    allocation fails and [VERIFY] aborts. *)
Theorem negative_size_faults `{Allocator} c sz r2 ok :
  cn_dead c = false -> cn_rpdu c = new_charbuf -> - 2 ^ 31 <= sz < 0 ->
  read_cb c (cn_fd c) (Got (be 4 sz)) r2 ok =
  Err (if -4 <=? sz then Undefined else Verify_failed).
Proof.
  intros Hd Hr Hsz. unfold read_cb. rewrite Z.eqb_refl, Hd, Hr.
  cbn [VERIFY mbind res_bind cb_buf cb_sz new_charbuf].
  rewrite bool_decide_eq_true_2 by done. cbn [orb]. unfold readpdu, read_size.
  cbn [cb_sz cb_buf new_charbuf]. unfold zlen at 1. rewrite length_be.
  change (0 =? 0) with true. change (Z.of_nat 4 =? 4) with true. cbn [negb].
  rewrite be_val_be. change (8 * Z.of_nat 4) with 32. fold (wrapU 32 sz).
  rewrite wrapS_wrapU, wrapS_small by (unfold is_signed; lia).
  destruct (Z.gtb_spec sz MAX_PDU) as [E|_]; [change MAX_PDU with 10485760 in E; lia|].
  rewrite bool_decide_eq_true_2 by done. cbn [VERIFY mbind res_bind].
  destruct (Z.leb_spec (-4) sz) as [Hs|Hs].
  - rewrite (wrapU_small 64) by (unfold is_unsigned; lia).
    rewrite (proj2 (Z.ltb_lt (sz + 4) (2 ^ 63))) by lia. cbn [VERIFY mbind res_bind].
    unfold memcpy. rewrite decide_False; [done|]. len.
  - unfold wrapU. rewrite <- (Z.mod_unique (sz + 4) (2 ^ 64) (-1) (sz + 4 + 2 ^ 64)) by lia.
    rewrite (proj2 (Z.ltb_ge (sz + 4 + 2 ^ 64) (2 ^ 63))) by lia. done.
Qed.

(** Accepting a connection registers it, provided no entry of the table is
    garbage; if one is, the collection loop advances an erased iterator (or the
    destructor's check fails), so a dead connection is never collected safely. *)
Theorem process_accept_garbage conns s1 lossy now :
  (forall k c, (k, c) ∈ conns -> collectable c = false) /\
    process_accept conns s1 lossy now =
      Ok (conns_set s1 (new_connection s1 lossy now) conns) \/
  (exists k c, (k, c) ∈ conns /\ collectable c = true) /\
    exists f, process_accept conns s1 lossy now = Err f.
Proof.
  unfold process_accept. cbn [cn_fd new_connection].
  assert (Hc : (forall k c, (k, c) ∈ conns -> collectable c = false) /\ collect_dead conns = Ok tt \/
    (exists k c, (k, c) ∈ conns /\ collectable c = true) /\ exists f, collect_dead conns = Err f).
  { induction conns as [|[k c] l IH]; cbn [collect_dead].
    - left. split; [|done]. intros k c Hin. by apply elem_of_nil in Hin.
    - destruct (collectable c) eqn:E.
      + right. split; [exists k, c; by split; [left|]|].
        destruct (decref c); [by eexists|by eexists].
      + destruct IH as [[Hall ->]|[(k' & c' & Hin & Hc) [f ->]]].
        * left. split; [|done]. intros k' c' [[= -> ->]|Hin]%elem_of_cons; [done|by eapply Hall].
        * right. split; [exists k', c'; by split; [right|]|by eexists]. }
  destruct Hc as [[Hall ->]|[Hex [f ->]]]; [left|right]; split; try done. by exists f.
Qed.

(** ** Witnesses *)

Module ConnectionExamples.
Definition c0 : connection := new_connection 7 0 (100, 0).
Definition pkt : list byte := be 4 0 ++ [byte_of_Z 65; byte_of_Z 66].
Definition sent (n : Z) : connection :=
  set_wpdu (set_waiters c0 (-1)) (Charbuf (Some (frame_of pkt)) 6 n).
End ConnectionExamples.
Import ConnectionExamples.
#[local] Existing Instance zero_allocator.

Lemma send_emits_frame_witness :
  exists ss out c' outs, send_start c0 pkt (zlen pkt) (Wrote 3) = Ok (ss, out) /\
    write_run (send_conn ss) c' outs /\ out ++ outs = frame_of pkt.
Proof.
  assert (E : send_start c0 pkt (zlen pkt) (Wrote 3) =
    Ok (Send_waiting (sent 3), be 3 0)) by (vm_compute; reflexivity).
  assert (R : write_run (sent 3) (sent 6) ([byte_of_Z 6; byte_of_Z 65; byte_of_Z 66] ++ [])).
  { eapply (wr_cb _ (Wrote 3)); [reflexivity|simpl; lia|vm_compute; reflexivity|constructor]. }
  exists (Send_waiting (sent 3)), (be 3 0), (sent 6), ([byte_of_Z 6; byte_of_Z 65; byte_of_Z 66] ++ []).
  split; [exact E|]. split; [exact R|].
  refine (proj1 (send_emits_frame c0 pkt (Wrote 3) _ _ (sent 6) _ true _ _ eq_refl _ E R eq_refl)).
  - vm_compute. discriminate.
  - simpl. vm_compute. split; discriminate.
Defined.


Lemma negative_size_faults_witness :
  read_cb c0 7 (Got (be 4 (-1))) (Got []) true = Err Undefined.
Proof. apply (negative_size_faults c0 (-1)); [reflexivity|reflexivity|lia]. Defined.
