(* ===== verification/Socket.v ===== *)
(** * Sockets of connections and listeners

    The constructor of [tcpsconn], [accept_conn]'s loop as a whole, [~tcpsconn]
    and [connect_to_dst] of src/rpc/connection.cc with the descriptors they open
    and close. The results of the system calls are arguments; an [open] call
    returns a descriptor that is not in use. *)
From S2P Require Import Prelude Marshall Connection.

(** [close] of a descriptor, also of one that is not open (-1). *)
Definition close_fd (s : Z) (fds : gset Z) : gset Z := fds ∖ {[s]}.
Definition open_fd (s : Z) (fds : gset Z) : gset Z := if 0 <=? s then {[s]} ∪ fds else fds.

(** ** Connecting *)

(** [s]: the answer of [socket], which is not checked; [cret]: of [connect]. *)
Definition connect_to_dst (s cret lossy : Z) (now : Z * Z) (fds : gset Z)
    : option connection * gset Z :=
  let fds := open_fd s fds in
  if cret <? 0 then (None, close_fd s fds)
  else (Some (new_connection s lossy now), fds).

(** ** Listening *)

Record tcpsconn := Tcpsconn {
  tc_tcp : Z;
  tc_pipe : Z * Z;
  tc_conns : list (Z * connection);
  tc_running : bool                  (* the accept thread *)
}.

(** The answers of [socket], [bind], [listen], [pipe] and of the thread's
    creation. *)
Definition new_tcpsconn (tcp bret lret pret p0 p1 th : Z) (fds : gset Z) : res (tcpsconn * gset Z) :=
  let fds := open_fd tcp fds in
  _ ← VERIFY (negb (tcp <? 0));
  _ ← VERIFY (negb (bret <? 0));
  _ ← VERIFY (negb (lret <? 0));
  _ ← VERIFY (negb (pret <? 0));
  let fds := open_fd p1 (open_fd p0 fds) in
  _ ← VERIFY (negb (th =? 0));
  Ok (Tcpsconn tcp (p0, p1) [] true, fds).

(** One round of [accept_conn]: what [select] said and, if a connection is
    waiting, what [accept] returned ([pthread_exit] when that failed). *)
Definition accept_round (r : select_result) (s1 lossy : Z) (now : Z * Z) (t : tcpsconn) (fds : gset Z)
    : res (tcpsconn * gset Z) :=
  a ← accept_conn_step r;
  match a with
  | Acc_again => Ok (t, fds)
  | Acc_exit =>
      Ok (Tcpsconn (tc_tcp t) (tc_pipe t) (tc_conns t) false,
          close_fd (tc_tcp t) (close_fd (tc_pipe t).1 fds))
  | Acc_accept =>
      if s1 <? 0 then Ok (Tcpsconn (tc_tcp t) (tc_pipe t) (tc_conns t) false, fds)
      else
        conns ← process_accept (tc_conns t) s1 lossy now;
        Ok (Tcpsconn (tc_tcp t) (tc_pipe t) conns true, open_fd s1 fds)
  end.

(** The destructor of a connection that was deleted ([None]) closes its
    descriptor. *)
Fixpoint close_deleted (l : list (Z * connection)) (os : list (option connection)) (fds : gset Z) : gset Z :=
  match l, os with
  | (_, c) :: l, o :: os =>
      close_deleted l os (match o with None => close_fd (cn_fd c) fds | Some _ => fds end)
  | _, _ => fds
  end.

(** [~tcpsconn]: the write end of the pipe is closed, the accept thread, if it
    still runs, sees the read end ready and ends, and the connections are closed
    and released. *)
Definition delete_tcpsconn (t : tcpsconn) (fds : gset Z) : res (gset Z) :=
  _ ← VERIFY (bool_decide ((tc_pipe t).2 ∈ fds));
  let fds := close_fd (tc_pipe t).2 fds in
  '(t, fds) ← (if tc_running t then accept_round (Sel_ready true false) 0 0 (0, 0) t fds
               else Ok (t, fds));
  os ← close_all (tc_conns t);
  Ok (close_deleted (tc_conns t) os fds).

(** A listener from its constructor through rounds of its accept thread, as long
    as nobody else holds its connections. Every descriptor the system returns is
    new, and the read end of the pipe is not ready while the write end is open. *)
Inductive listens (fds0 : gset Z) : tcpsconn -> gset Z -> Prop :=
  | li_new tcp p0 p1 th t fds :
      tcp ∉ fds0 -> p0 ∉ {[tcp]} ∪ fds0 -> p1 ∉ {[p0; tcp]} ∪ fds0 -> 0 <= p0 -> 0 <= p1 ->
      new_tcpsconn tcp 0 0 0 p0 p1 th fds0 = Ok (t, fds) -> listens fds0 t fds
  | li_round t fds ready s1 lossy now t' fds' :
      listens fds0 t fds -> tc_running t = true -> s1 ∉ fds ->
      accept_round (Sel_ready false ready) s1 lossy now t fds = Ok (t', fds') ->
      listens fds0 t' fds'.

(** ** Lemmas *)

Lemma open_close s fds : s ∉ fds -> close_fd s (open_fd s fds) = fds.
Proof. intros Hs. unfold close_fd, open_fd. destruct (0 <=? s); set_solver. Qed.

(** The descriptors of the listener's table. *)
Definition keys (l : list (Z * connection)) : gset Z := list_to_set l.*1.

Lemma keys_nil : keys [] = ∅.
Proof. done. Qed.

Lemma keys_cons k c l : keys ((k, c) :: l) = {[k]} ∪ keys l.
Proof. done. Qed.

Lemma conns_set_keys k c l : keys (conns_set k c l) = {[k]} ∪ keys l.
Proof.
  induction l as [|[k' c'] l IH]; cbn [conns_set]; [done|].
  destruct (k <? k'); [done|]. destruct (Z.eqb_spec k k') as [->|].
  - rewrite !keys_cons. set_solver.
  - rewrite !keys_cons, IH. set_solver.
Qed.

#[local] Opaque keys.

(** Connections nobody else uses: as the listener made them. *)
Definition unused (l : list (Z * connection)) : Prop :=
  Forall (fun p => exists lossy now, p.2 = new_connection p.1 lossy now) l.

Lemma conns_set_unused k lossy now l : unused l -> unused (conns_set k (new_connection k lossy now) l).
Proof.
  intros Hl. induction Hl as [|[k' c'] l Hc Hl IH]; simpl.
  - constructor; [by eauto|constructor].
  - destruct (k <? k'); [constructor; [by eauto|by constructor]|].
    destruct (k =? k'); constructor; eauto.
Qed.

Lemma collect_unused l : unused l -> collect_dead l = Ok tt.
Proof. intros Hl. induction Hl as [|[k c] l (lossy & now & Hc) _ IH]; [done|]. simpl in *. by subst. Qed.

Lemma close_unused l fds : unused l ->
  close_all l = Ok (replicate (length l) None) /\
  close_deleted l (replicate (length l) None) fds = fds ∖ keys l.
Proof.
  intros Hl. revert fds. induction Hl as [|[k c] l (lossy & now & Hc) _ IH]; intros fds.
  - split; [done|]. cbn. rewrite keys_nil. set_solver.
  - cbn [fst snd] in Hc. subst c. destruct (IH (close_fd k fds)) as [Ha IH2].
    split; [simpl; by rewrite Ha|].
    rewrite keys_cons. cbn [length replicate close_deleted cn_fd new_connection].
    rewrite IH2. unfold close_fd. set_solver.
Qed.

Lemma process_accept_unused l s1 lossy now : unused l ->
  process_accept l s1 lossy now = Ok (conns_set s1 (new_connection s1 lossy now) l).
Proof. intros Hl. unfold process_accept. by rewrite collect_unused. Qed.

(** ** The invariant of a listener *)

Definition own (t : tcpsconn) : gset Z := {[tc_tcp t; (tc_pipe t).1; (tc_pipe t).2]}.

Record listener_inv (fds0 : gset Z) (t : tcpsconn) (fds : gset Z) : Prop := {
  lv_unused : unused (tc_conns t);
  lv_fresh : own t ∪ keys (tc_conns t) ## fds0;
  lv_apart : own t ## keys (tc_conns t);
  lv_fds : fds = own t ∪ keys (tc_conns t) ∪ fds0;
  lv_pipe : (tc_pipe t).2 <> tc_tcp t /\ (tc_pipe t).2 <> (tc_pipe t).1
}.

Lemma listens_inv fds0 t fds : listens fds0 t fds -> listener_inv fds0 t fds.
Proof.
  induction 1 as [tcp p0 p1 th t fds Ht Hp0 Hp1 Hs0 Hs1 Hnew|t fds ready s1 lossy now t' fds' _ IH Hrun Hs Hround].
  - unfold new_tcpsconn, open_fd in Hnew. cbn [Z.ltb] in Hnew.
    destruct (Z.ltb_spec tcp 0); [done|]. cbn [negb VERIFY mbind res_bind Z.compare] in Hnew.
    destruct (th =? 0); [done|]. cbn in Hnew. simplify_eq.
    rewrite !(proj2 (Z.leb_le _ _)) by lia.
    split; cbn; rewrite ?keys_nil; unfold own; cbn; [constructor|set_solver..].
  - destruct IH as [Hun Hfr Hap Hfds Hp]. unfold accept_round in Hround.
    destruct ready; [|done]. cbn [accept_conn_step mbind res_bind] in Hround.
    destruct (Z.ltb_spec s1 0); [by simplify_eq|].
    rewrite process_accept_unused in Hround by done. cbn [mbind res_bind] in Hround. simplify_eq.
    unfold open_fd. rewrite (proj2 (Z.leb_le _ _)) by lia.
    split; cbn [tc_conns tc_tcp tc_pipe]; rewrite ?conns_set_keys; unfold own in *; cbn [tc_conns tc_tcp tc_pipe] in *;
      [by apply conns_set_unused|clear Hun Hp Hrun H; subst; set_solver..|done].
Qed.

(** ** Claims *)

(** A listener gives back what it took: deleting it closes the listening
    socket, both ends of the pipe and every connection it accepted, and no other
    descriptor. The exception is a listener whose accept thread ended because
    [accept] failed: the listening socket and the read end of the pipe stay open. *)
Theorem listener_balanced fds0 t fds :
  listens fds0 t fds ->
  delete_tcpsconn t fds =
    Ok (if tc_running t then fds0 else {[tc_tcp t; (tc_pipe t).1]} ∪ fds0).
Proof.
  intros [Hun Hfr Hap Hfds Hp]%listens_inv. unfold delete_tcpsconn, own in *.
  rewrite bool_decide_eq_true_2 by set_solver. cbn [VERIFY mbind res_bind].
  destruct (tc_running t); cbn [accept_round accept_conn_step mbind res_bind tc_conns];
    (edestruct close_unused as [-> Hc]; [exact Hun|]); cbn [mbind res_bind]; rewrite Hc;
    f_equal; unfold close_fd; set_solver.
Qed.

(** [connect_to_dst] keeps a descriptor exactly when it returns a connection. *)
Lemma connect_balanced s cret lossy now fds :
  0 <= s -> s ∉ fds ->
  connect_to_dst s cret lossy now fds =
    if cret <? 0 then (None, fds) else (Some (new_connection s lossy now), {[s]} ∪ fds).
Proof.
  intros Hs Hf. unfold connect_to_dst. rewrite open_close by done. unfold open_fd.
  by rewrite (proj2 (Z.leb_le _ _)) by lia.
Qed.

(** ** Examples *)

Definition idle_listener : tcpsconn := Tcpsconn 3 (4, 5) [] true.

Lemma idle_listens : listens {[0; 1; 2]} idle_listener {[5; 4; 3; 0; 1; 2]}.
Proof.
  apply (li_new _ 3 4 5 1); try set_solver; try lia.
Qed.

Lemma listener_balanced_witness :
  delete_tcpsconn (Tcpsconn 3 (4, 5) [(6, new_connection 6 0 (0, 0))] true) {[6; 5; 4; 3; 0; 1; 2]} =
    Ok {[0; 1; 2]}.
Proof.
  refine (listener_balanced {[0; 1; 2]} _ _ _).
  apply (li_round _ idle_listener {[5; 4; 3; 0; 1; 2]} true 6 0 (0, 0)).
  - exact idle_listens.
  - reflexivity.
  - set_solver.
  - vm_compute. reflexivity.
Defined.

(** A listener whose [accept] failed (no descriptor left, say) is deaf. *)
Example failed_accept_leaks :
  exists t fds, accept_round (Sel_ready false true) (-1) 0 (0, 0) idle_listener {[5; 4; 3; 0; 1; 2]} = Ok (t, fds) /\
    tc_running t = false /\ delete_tcpsconn t fds = Ok {[3; 4; 0; 1; 2]}.
Proof. eexists _, _. split; [reflexivity|]. split; [reflexivity|]. vm_compute. reflexivity. Qed.
