(* ===== verification/RpcServer.v ===== *)
(** * The RPC server

    [rpcs] of src/rpc/rpc.h and src/rpc/rpc.cc: the handlers the [reg]
    templates build, registration, statistics, and [dispatch], which turns a
    request packet into at most one execution of its handler and a reply. The
    dispatch of one request is split at the points where other threads may run
    (before and after the handler); [sys_step] interleaves any number of them.
    The connections are shared objects in a heap. *)
From S2P Require Import Prelude Marshall ReplyWindow RpcClient Connection.

(** ** Handlers *)

Section handlers.
Context `{Allocator} {S : Type}.

(** [handler::fn], over the state [S] of the object whose methods are
    registered. *)
Definition handler : Type := unmarshall -> marshall -> S -> res (Z * marshall * S).

Context {A1 A2 A3 A4 A5 A6 A7 R : Type}.
Context (c1 : codec A1) (c2 : codec A2) (c3 : codec A3) (c4 : codec A4)
  (c5 : codec A5) (c6 : codec A6) (c7 : codec A7) (cr : codec R).

(** The end every [fn] shares: run the method on the decoded arguments and
    marshall its result. *)
Definition fn_tail (args : unmarshall) (ret : marshall) (s : S)
    (meth : R -> S -> res (Z * R * S)) : res (Z * marshall * S) :=
  if negb (okdone args) then Ok (unmarshal_args_failure, ret, s)
  else '(b, r, s) ← meth (c_init cr) s;
       ret ← c_put cr r ret;
       Ok (b, ret, s).

Definition reg_1 (meth : A1 -> R -> S -> res (Z * R * S)) : handler := fun args ret s =>
  '(a1, args) ← c_get c1 (c_init c1) args;
  fn_tail args ret s (meth a1).

Definition reg_2 (meth : A1 -> A2 -> R -> S -> res (Z * R * S)) : handler := fun args ret s =>
  '(a1, args) ← c_get c1 (c_init c1) args;
  '(a2, args) ← c_get c2 (c_init c2) args;
  fn_tail args ret s (meth a1 a2).

Definition reg_3 (meth : A1 -> A2 -> A3 -> R -> S -> res (Z * R * S)) : handler :=
  fun args ret s =>
  '(a1, args) ← c_get c1 (c_init c1) args;
  '(a2, args) ← c_get c2 (c_init c2) args;
  '(a3, args) ← c_get c3 (c_init c3) args;
  fn_tail args ret s (meth a1 a2 a3).

Definition reg_4 (meth : A1 -> A2 -> A3 -> A4 -> R -> S -> res (Z * R * S)) : handler :=
  fun args ret s =>
  '(a1, args) ← c_get c1 (c_init c1) args;
  '(a2, args) ← c_get c2 (c_init c2) args;
  '(a3, args) ← c_get c3 (c_init c3) args;
  '(a4, args) ← c_get c4 (c_init c4) args;
  fn_tail args ret s (meth a1 a2 a3 a4).

Definition reg_5 (meth : A1 -> A2 -> A3 -> A4 -> A5 -> R -> S -> res (Z * R * S))
    : handler := fun args ret s =>
  '(a1, args) ← c_get c1 (c_init c1) args;
  '(a2, args) ← c_get c2 (c_init c2) args;
  '(a3, args) ← c_get c3 (c_init c3) args;
  '(a4, args) ← c_get c4 (c_init c4) args;
  '(a5, args) ← c_get c5 (c_init c5) args;
  fn_tail args ret s (meth a1 a2 a3 a4 a5).

Definition reg_6 (meth : A1 -> A2 -> A3 -> A4 -> A5 -> A6 -> R -> S -> res (Z * R * S))
    : handler := fun args ret s =>
  '(a1, args) ← c_get c1 (c_init c1) args;
  '(a2, args) ← c_get c2 (c_init c2) args;
  '(a3, args) ← c_get c3 (c_init c3) args;
  '(a4, args) ← c_get c4 (c_init c4) args;
  '(a5, args) ← c_get c5 (c_init c5) args;
  '(a6, args) ← c_get c6 (c_init c6) args;
  fn_tail args ret s (meth a1 a2 a3 a4 a5 a6).

Definition reg_7
    (meth : A1 -> A2 -> A3 -> A4 -> A5 -> A6 -> A7 -> R -> S -> res (Z * R * S))
    : handler := fun args ret s =>
  '(a1, args) ← c_get c1 (c_init c1) args;
  '(a2, args) ← c_get c2 (c_init c2) args;
  '(a3, args) ← c_get c3 (c_init c3) args;
  '(a4, args) ← c_get c4 (c_init c4) args;
  '(a5, args) ← c_get c5 (c_init c5) args;
  '(a6, args) ← c_get c6 (c_init c6) args;
  '(a7, args) ← c_get c7 (c_init c7) args;
  fn_tail args ret s (meth a1 a2 a3 a4 a5 a6 a7).
End handlers.
Arguments handler : clear implicits.

(** ** The server's state *)

Section rpcs.
Context `{Allocator} {S : Type}.

Record rpcs := Rpcs {
  rs_nonce : Z;
  rs_reply_window : gmap Z (list reply_t);
  rs_conns : gmap Z Z;                 (* client nonce to connection *)
  rs_counting : Z;
  rs_curr_counts : Z;
  rs_counts : gmap Z Z;
  rs_procs : gmap Z (handler S);
  rs_reachable : bool;
  rs_heap : gmap Z connection          (* the live connection objects *)
}.

Definition set_window (st : rpcs) (w : gmap Z (list reply_t)) : rpcs :=
  Rpcs (rs_nonce st) w (rs_conns st) (rs_counting st) (rs_curr_counts st) (rs_counts st)
    (rs_procs st) (rs_reachable st) (rs_heap st).
Definition set_conns (st : rpcs) (cs : gmap Z Z) (hp : gmap Z connection) : rpcs :=
  Rpcs (rs_nonce st) (rs_reply_window st) cs (rs_counting st) (rs_curr_counts st)
    (rs_counts st) (rs_procs st) (rs_reachable st) hp.
Definition set_heap (st : rpcs) (hp : gmap Z connection) : rpcs :=
  set_conns st (rs_conns st) hp.
Definition set_counts (st : rpcs) (curr : Z) (counts : gmap Z Z) : rpcs :=
  Rpcs (rs_nonce st) (rs_reply_window st) (rs_conns st) (rs_counting st) curr counts
    (rs_procs st) (rs_reachable st) (rs_heap st).
Definition set_procs (st : rpcs) (p : gmap Z (handler S)) : rpcs :=
  Rpcs (rs_nonce st) (rs_reply_window st) (rs_conns st) (rs_counting st) (rs_curr_counts st)
    (rs_counts st) p (rs_reachable st) (rs_heap st).

(** [rpcs::set_reachable]. *)
Definition rpcs_set_reachable (st : rpcs) (r : bool) : rpcs :=
  Rpcs (rs_nonce st) (rs_reply_window st) (rs_conns st) (rs_counting st) (rs_curr_counts st)
    (rs_counts st) (rs_procs st) r (rs_heap st).

(** A method call on a connection that no longer exists is undefined. *)
Definition conn_incref (hp : gmap Z connection) (c : Z) : res (gmap Z connection) :=
  match hp !! c with Some cn => Ok (<[c := incref cn]> hp) | None => Err Undefined end.
Definition conn_decref (hp : gmap Z connection) (c : Z) : res (gmap Z connection) :=
  match hp !! c with
  | Some cn =>
      o ← decref cn;
      Ok (match o with Some cn => <[c := cn]> hp | None => delete c hp end)
  | None => Err Undefined
  end.

(** [rpcbind], the handler every server registers: the parameter is ignored. *)
Definition rpcbind (nonce : Z) (a r : Z) (s : S) : res (Z * Z * S) := Ok (0, s32 nonce, s).

Definition reg1 (st : rpcs) (proc : Z) (h : handler S) : res rpcs :=
  _ ← VERIFY (bool_decide (rs_procs st !! s32 proc = None));
  Ok (set_procs st (<[s32 proc := h]> (rs_procs st))).

(** The constructor, [nonce] being the random number drawn. *)
Definition new_rpcs (nonce count : Z) : res rpcs :=
  reg1 (Rpcs (u32 nonce) ∅ ∅ count count ∅ ∅ true ∅) rpc_bind
    (reg_1 int_codec int_codec (rpcbind (u32 nonce))).

Definition updatestat (st : rpcs) (proc : Z) : rpcs :=
  let counts := <[proc := default 0 (rs_counts st !! proc) + 1]> (rs_counts st) in
  let curr := rs_curr_counts st - 1 in
  set_counts st (if curr =? 0 then rs_counting st else curr) counts.

(** [~rpcs] after the listener and the pool are gone. *)
Definition delete_rpcs (st : rpcs) : rpcs * list (list byte) :=
  let '(w, freed) := free_reply_window (rs_reply_window st) in (set_window st w, freed).

(** ** Arrival of a packet *)

Record djob_t := Djob { dj_buf : list byte; dj_sz : Z; dj_conn : Z }.

(** [got_pdu]: [succ] is the thread pool's answer, [reach2] the second read of
    [reachable_]. The result is the queued job and the value returned; when the
    job was queued and [reachable_] has become false, the job the pool still
    holds is deleted, and its dispatch uses it after that. *)
Definition got_pdu (st : rpcs) (c : Z) (b : list byte) (sz : Z) (succ reach2 : bool)
    : res (rpcs * option djob_t * bool) :=
  if negb (rs_reachable st) then Ok (st, None, true)
  else
    hp ← conn_incref (rs_heap st) c;
    if negb succ || negb reach2 then
      hp ← conn_decref hp c;
      if succ then Err Undefined else Ok (set_heap st hp, None, false)
    else Ok (set_heap st hp, Some (Djob b sz c), true).

(** ** Dispatch *)

Record job := Job {
  jb_conn : Z;
  jb_h : req_header;
  jb_f : handler S;
  jb_req : unmarshall
}.

(** What [dispatch] has decided before it runs a handler. *)
Inductive begun :=
  | B_bad_header
  | B_old_server (pkt : list byte)
  | B_new (j : job)
  | B_inprogress
  | B_done (h : req_header) (b : list byte) (sz : Z)
  | B_forgotten (pkt : list byte).

(** [conns_]: save the latest good connection to the client. *)
Definition save_conn (st : rpcs) (clt c : Z) : res rpcs :=
  match rs_conns st !! clt with
  | None =>
      hp ← conn_incref (rs_heap st) c;
      Ok (set_conns st (<[clt := c]> (rs_conns st)) hp)
  | Some old =>
      match rs_heap st !! old, rs_heap st !! c with
      | Some co, Some cc =>
          if compare co cc <? 0 then
            hp ← conn_decref (rs_heap st) old;
            hp ← conn_incref hp c;
            Ok (set_conns st (<[clt := c]> (rs_conns st)) hp)
          else Ok st
      | _, _ => Err Undefined
      end
  end.

(** The new window is stored back, and the classification turned into what
    [dispatch] does next; [rep] packs a reply without results. *)
Definition classify (st : rpcs) (c : Z) (h : req_header) (f : handler S) (req : unmarshall)
    : res (rpcs * begun) :=
  if negb (h_clt_nonce h =? 0) then
    let w := default [] (rs_reply_window st !! h_clt_nonce h) in
    st ← save_conn (set_window st (<[h_clt_nonce h := w]> (rs_reply_window st))) (h_clt_nonce h) c;
    r ← checkduplicate_and_update w (u32 (h_xid h)) (u32 (h_xid_rep h));
    let st := set_window st (<[h_clt_nonce h := cr_window r]> (rs_reply_window st)) in
    match cr_state r, cr_out r with
    | NEW, _ => Ok (st, B_new (Job c h f req))
    | INPROGRESS, _ => Ok (st, B_inprogress)
    | DONE, Some (b, sz) => Ok (st, B_done h b sz)
    | DONE, None => Err Undefined
    | FORGOTTEN, _ =>
        rep ← pack_reply_header new_marshall (ReplyHeader (h_xid h) atmostonce_failure);
        Ok (st, B_forgotten (marshall_cstr rep))
    end
  else Ok (st, B_new (Job c h f req)).

(** [dispatch] up to the call of the handler, or to its end. *)
Definition dispatch_begin (st : rpcs) (j : djob_t) : res (rpcs * begun) :=
  let c := dj_conn j in
  '(h, req) ← unpack_req_header (new_unmarshall (dj_buf j) (dj_sz j));
  if negb (u_ok req) then
    hp ← conn_decref (rs_heap st) c; Ok (set_heap st hp, B_bad_header)
  else if negb (h_srv_nonce h =? 0) && negb (h_srv_nonce h =? rs_nonce st) then
    rep ← pack_reply_header new_marshall (ReplyHeader (h_xid h) oldsrv_failure);
    Ok (st, B_old_server (marshall_cstr rep))
  else match rs_procs st !! h_proc h with
  | None => Err Verify_failed
  | Some f =>
      '(st, b) ← classify st c h f req;
      match b with
      | B_new _ => Ok (if rs_counting st =? 0 then st else updatestat st (h_proc h), b)
      | _ => hp ← conn_decref (rs_heap st) c; Ok (set_heap st hp, b)
      end
  end.

(** The handler runs, and its reply is packed and taken out of [rep]. *)
Definition dispatch_run (j : job) (s : S) : res (list byte * S) :=
  '(ret, rep, s) ← jb_f j (jb_req j) new_marshall s;
  _ ← VERIFY (negb (ret =? unmarshal_args_failure));
  _ ← VERIFY (ret >=? 0);
  rep ← pack_reply_header rep (ReplyHeader (h_xid (jb_h j)) ret);
  Ok ((marshall_take_buf rep).1, s).

(** The reply is recorded and sent: the connection used is returned. *)
Definition dispatch_reply (st : rpcs) (j : job) (b1 : list byte) : res (rpcs * Z) :=
  let c := jb_conn j in
  let clt := h_clt_nonce (jb_h j) in
  st ← (if clt >? 0 then
          w ← add_reply (default [] (rs_reply_window st !! clt)) (u32 (h_xid (jb_h j))) b1 (zlen b1);
          Ok (set_window st (<[clt := w]> (rs_reply_window st)))
        else Ok st);
  match rs_heap st !! c with
  | None => Err Undefined
  | Some cn =>
      '(hp, c) ← (if cn_dead cn && negb (bool_decide (rs_conns st !! clt = Some c)) then
                    hp ← conn_decref (rs_heap st) c;
                    match rs_conns st !! clt with
                    | Some c' => hp ← conn_incref hp c'; Ok (hp, c')
                    | None => Err Undefined      (* conns_[clt] is a null pointer *)
                    end
                  else Ok (rs_heap st, c));
      hp ← conn_decref hp c;
      Ok (set_heap st hp, c)
  end.
End rpcs.
Arguments rpcs : clear implicits.
Arguments job : clear implicits.
Arguments begun : clear implicits.

(** ** Any number of requests in flight *)

Section system.
Context `{Allocator} {S : Type}.

(** [sy_exec] logs every execution of a handler and [sy_sent] every reply
    sent, both with the client, the request and the packet. *)
Record sys := Sys {
  sy_rs : rpcs S;
  sy_app : S;
  sy_queue : list djob_t;              (* in the thread pool *)
  sy_run : list (job S);               (* about to run the handler *)
  sy_rep : list (job S * list byte);   (* about to record and send the reply *)
  sy_exec : list (Z * Z * list byte);
  sy_sent : list (Z * Z * list byte)
}.

Definition job_key (j : job S) : Z * Z := (h_clt_nonce (jb_h j), u32 (h_xid (jb_h j))).

(** The effect of [dispatch_begin] on the system. *)
Definition after_begin (s : sys) (st : rpcs S) (q : list djob_t) (b : begun S) : sys :=
  match b with
  | B_new j => Sys st (sy_app s) q (j :: sy_run s) (sy_rep s) (sy_exec s) (sy_sent s)
  | B_done h b _ =>
      Sys st (sy_app s) q (sy_run s) (sy_rep s) (sy_exec s)
        ((h_clt_nonce h, u32 (h_xid h), b) :: sy_sent s)
  | _ => Sys st (sy_app s) q (sy_run s) (sy_rep s) (sy_exec s) (sy_sent s)
  end.

(** Requests arrive, are dispatched, run and answered in any order, also
    duplicated ones; the other threads of the process change the connections. *)
Inductive sys_step : sys -> sys -> Prop :=
  | ss_arrive s c b sz st dj :
      got_pdu (sy_rs s) c b sz true true = Ok (st, Some dj, true) ->
      sys_step s (Sys st (sy_app s) (dj :: sy_queue s) (sy_run s) (sy_rep s) (sy_exec s) (sy_sent s))
  | ss_begin s q1 dj q2 st b :
      sy_queue s = q1 ++ dj :: q2 ->
      dispatch_begin (sy_rs s) dj = Ok (st, b) ->
      sys_step s (after_begin s st (q1 ++ q2) b)
  | ss_run s r1 j r2 b app :
      sy_run s = r1 ++ j :: r2 ->
      dispatch_run j (sy_app s) = Ok (b, app) ->
      sys_step s (Sys (sy_rs s) app (sy_queue s) (r1 ++ r2) ((j, b) :: sy_rep s)
                    ((job_key j, b) :: sy_exec s) (sy_sent s))
  | ss_reply s p1 j b p2 st c :
      sy_rep s = p1 ++ (j, b) :: p2 ->
      dispatch_reply (sy_rs s) j b = Ok (st, c) ->
      sys_step s (Sys st (sy_app s) (sy_queue s) (sy_run s) (p1 ++ p2) (sy_exec s)
                    ((job_key j, b) :: sy_sent s))
  | ss_conns s hp :
      sys_step s (Sys (set_heap (sy_rs s) hp) (sy_app s) (sy_queue s) (sy_run s) (sy_rep s)
                    (sy_exec s) (sy_sent s)).

Definition sys_init (s : sys) : Prop :=
  rs_reply_window (sy_rs s) = ∅ /\ sy_run s = [] /\ sy_rep s = [] /\ sy_exec s = [] /\ sy_sent s = [].

Definition sys_reachable (s : sys) : Prop := exists s0, sys_init s0 /\ rtc sys_step s0 s.

(** Only clients with a nonce ask for at-most-once. *)
Definition amo_keys (l : list (Z * Z)) : list (Z * Z) := filter (fun k => k.1 <> 0) l.

Definition table_of (s : rpcs S) (clt : Z) : gmap Z amo_status :=
  window_table (default [] (rs_reply_window s !! clt)).

Definition status (s : rpcs S) (k : Z * Z) : option amo_status := table_of s k.1 !! k.2.

Record sys_inv (s : sys) : Prop := {
  si_windows : map_Forall (fun _ => window_ok) (rs_reply_window (sy_rs s));
  (* started and unfinished requests are marked as running, and once only *)
  si_run : forall k, k ∈ amo_keys (job_key <$> sy_run s) -> status (sy_rs s) k = Some Running;
  si_rep : forall j b, (j, b) ∈ sy_rep s -> (job_key j).1 <> 0 ->
    status (sy_rs s) (job_key j) = Some Running /\ (job_key j, b) ∈ sy_exec s;
  si_rep_once : NoDup (amo_keys ((fun p => job_key p.1) <$> sy_rep s));
  si_exec_once : NoDup (amo_keys ((job_key <$> sy_run s) ++ (sy_exec s).*1));
  (* the table knows what was executed *)
  si_exec : forall k b, (k, b) ∈ sy_exec s -> k.1 <> 0 ->
    status (sy_rs s) k = Some (Replied b (zlen b)) \/
    status (sy_rs s) k = Some Running /\ exists j, (j, b) ∈ sy_rep s /\ job_key j = k;
  si_table : forall k b sz, k.1 <> 0 -> status (sy_rs s) k = Some (Replied b sz) ->
    (k, b) ∈ sy_exec s;
  si_sent : forall k b, (k, b) ∈ sy_sent s -> k.1 <> 0 -> (k, b) ∈ sy_exec s
}.

(** *** What the operations do to the window *)

Lemma conn_ops_window (st st' : rpcs S) clt c :
  save_conn st clt c = Ok st' ->
  rs_reply_window st' = rs_reply_window st /\ rs_procs st' = rs_procs st /\
  rs_counting st' = rs_counting st.
Proof.
  unfold save_conn. intros E. destruct (rs_conns st !! clt).
  - destruct (rs_heap st !! z); [|done]. destruct (rs_heap st !! c); [|done].
    destruct (_ <? _); res_inv; done.
  - res_inv. done.
Qed.

Lemma window_ok_default (w : gmap Z (list reply_t)) clt :
  map_Forall (fun _ => window_ok) w -> window_ok (default [] (w !! clt)).
Proof.
  intros Hw. destruct (w !! clt) eqn:E; [by apply (Hw clt)|apply window_ok_nil].
Qed.

(** The table after [classify], and what it answered. *)
Definition classified (st : rpcs S) (h : req_header) (st' : rpcs S) (b : begun S) : Prop :=
  let k := (h_clt_nonce h, u32 (h_xid h)) in
  map_Forall (fun _ => window_ok) (rs_reply_window st') /\
  (forall k', k' <> k \/ (forall j, b <> B_new j) -> status st' k' = status st k') /\
  match b with
  | B_new j => job_key j = k /\
      (k.1 <> 0 -> status st k = None /\ status st' k = Some Running)
  | B_done h' b sz => h' = h /\ k.1 <> 0 /\ status st k = Some (Replied b sz)
  | _ => True
  end.

Lemma status_insert (st : rpcs S) clt w k :
  status (set_window st (<[clt := w]> (rs_reply_window st))) k =
  if decide (k.1 = clt) then window_table w !! k.2 else status st k.
Proof.
  unfold status, table_of. cbn [rs_reply_window set_window]. case_decide as E.
  - rewrite E, lookup_insert_eq. done.
  - by rewrite lookup_insert_ne.
Qed.

Lemma status_same (st st' : rpcs S) :
  rs_reply_window st' = rs_reply_window st -> forall k, status st' k = status st k.
Proof. intros E k. unfold status, table_of. by rewrite E. Qed.

Lemma checkduplicate_inv w xid xid_rep r :
  window_ok w -> checkduplicate_and_update w xid xid_rep = Ok r ->
  window_ok (cr_window r) /\
  (cr_state r, cr_out r, window_table (cr_window r)) = amo_check (window_table w) xid.
Proof.
  intros Hw E. assert (xid_rep < xid).
  { unfold checkduplicate_and_update in E. apply res_bind_Ok_inv in E as (u & Hv & _).
    apply VERIFY_Ok, Z.gtb_lt in Hv. lia. }
  destruct (checkduplicate_spec w xid xid_rep) as (r' & E' & Hr); [done..|].
  rewrite E in E'. by injection E' as ->.
Qed.

Lemma amo_check_cases t xid st out t' :
  (st, out, t') = amo_check t xid ->
  (t' = t /\ st <> NEW /\ (st = DONE -> exists b sz, out = Some (b, sz) /\ t !! xid = Some (Replied b sz)))
  \/ (st = NEW /\ t !! xid = None /\ t' = <[xid := Running]> t).
Proof.
  unfold amo_check. destruct (t !! xid) as [[|b sz]|] eqn:E.
  - intros [= -> -> ->]. left. done.
  - intros [= -> -> ->]. left. split_and!; [done..|]. intros _. by exists b, sz.
  - case_decide; intros [= -> -> ->]; [by left|by right].
Qed.

Lemma classify_spec (st st' : rpcs S) c h f req b :
  map_Forall (fun _ => window_ok) (rs_reply_window st) ->
  classify st c h f req = Ok (st', b) -> classified st h st' b.
Proof.
  intros Hw E. unfold classify in E. set (clt := h_clt_nonce h) in *.
  destruct (Z.eqb_spec clt 0) as [H0|Hn0]; cbn [negb] in E.
  { injection E as <- <-. split_and!; [done|done|done|]. intros []. done. }
  set (w := default [] (rs_reply_window st !! clt)) in *.
  assert (Hwok : window_ok w) by (by apply window_ok_default).
  apply res_bind_Ok_inv in E as (st1 & E1 & E). apply conn_ops_window in E1 as (Hw1 & _).
  cbn [rs_reply_window set_window] in Hw1.
  apply res_bind_Ok_inv in E as (r & Er & E).
  destruct (checkduplicate_inv _ _ _ _ Hwok Er) as [Hrok Hamo].
  set (st2 := set_window st1 _) in E.
  assert (Hst2 : forall k, status st2 k =
    if decide (k.1 = clt) then window_table (cr_window r) !! k.2 else status st k).
  { intros k. unfold st2. rewrite status_insert. case_decide as Hk; [done|].
    unfold status, table_of. rewrite Hw1. by rewrite lookup_insert_ne. }
  assert (Hok2 : map_Forall (fun _ => window_ok) (rs_reply_window st2)).
  { unfold st2. cbn [rs_reply_window set_window]. rewrite Hw1.
    repeat apply map_Forall_insert_2; done. }
  assert (Hold : forall k, k.1 = clt -> status st k = window_table w !! k.2).
  { intros k Hk. unfold status, table_of. by rewrite Hk. }
  destruct (amo_check_cases _ _ _ _ _ Hamo) as [(Ht & Hne & Hdone)|(Hnew & Hfresh & Ht)].
  - assert (Hsame : forall k, status st2 k = status st k).
    { intros k. rewrite Hst2. case_decide; [|done]. by rewrite Hold, Ht. }
    assert (Hb : st' = st2 /\ (forall j, b <> B_new j) /\ match b with
      | B_done h' b sz => h' = h /\ status st (clt, u32 (h_xid h)) = Some (Replied b sz)
      | _ => True end).
    { destruct (cr_state r); [done| | |].
      - by injection E as <- <-.
      - destruct (Hdone eq_refl) as (b' & sz & Ho & Hl). rewrite Ho in E. injection E as <- <-.
        split_and!; [done|done|done|]. by rewrite Hold.
      - apply res_bind_Ok_inv in E as (rep & _ & E). by injection E as <- <-. }
    destruct Hb as (-> & Hnb & Hb). split_and!; [done|by intros|].
    destruct b; try done; [by destruct (Hnb j)|]. destruct Hb as [-> Hb]. done.
  - rewrite Hnew in E. injection E as <- <-. split_and!; [done| |done|].
    + intros k' [Hk|Hk]; [|by destruct (Hk _ eq_refl)].
      rewrite Hst2. case_decide as Hc; [|done]. rewrite (Hold k' Hc), Ht.
      apply lookup_insert_ne. intros Hx. apply Hk. destruct k'; simpl in *. by subst.
    + intros _. rewrite Hold by done. split; [done|].
      rewrite Hst2, decide_True, Ht by done. simpl. apply lookup_insert_eq.
Qed.

Lemma dispatch_begin_spec (st st' : rpcs S) dj b :
  map_Forall (fun _ => window_ok) (rs_reply_window st) ->
  dispatch_begin st dj = Ok (st', b) -> exists h, classified st h st' b.
Proof.
  intros Hw E. unfold dispatch_begin in E.
  apply res_bind_Ok_inv in E as ([h req] & _ & E).
  destruct (negb (u_ok req)).
  { res_inv. exists h. split_and!; [done|by intros|done]. }
  destruct (_ && _).
  { apply res_bind_Ok_inv in E as (rep & _ & E). injection E as <- <-.
    exists h. split_and!; [done|by intros|done]. }
  destruct (rs_procs st !! h_proc h) as [f|]; [|done].
  apply res_bind_Ok_inv in E as ([st1 b1] & E1 & E).
  apply classify_spec in E1; [|done]. exists h. destruct b1; res_inv; try done.
  by destruct (rs_counting st1 =? 0).
Qed.

Lemma dispatch_reply_spec (st st' : rpcs S) j b c :
  map_Forall (fun _ => window_ok) (rs_reply_window st) ->
  (h_clt_nonce (jb_h j) > 0 -> status st (job_key j) = Some Running) ->
  dispatch_reply st j b = Ok (st', c) ->
  map_Forall (fun _ => window_ok) (rs_reply_window st') /\
  forall k, status st' k =
    if decide (k = job_key j /\ h_clt_nonce (jb_h j) > 0) then Some (Replied b (zlen b))
    else status st k.
Proof.
  intros Hw Hrun E. unfold dispatch_reply in E.
  apply res_bind_Ok_inv in E as (st1 & E1 & E).
  assert (Hst' : rs_reply_window st' = rs_reply_window st1).
  { destruct (rs_heap st1 !! jb_conn j); [|done].
    apply res_bind_Ok_inv in E as ([hp c'] & _ & E). res_inv. done. }
  rewrite Hst'. clear E.
  destruct (Z.gtb_spec (h_clt_nonce (jb_h j)) 0) as [Hpos|Hneg].
  - set (clt := h_clt_nonce (jb_h j)) in *.
    assert (Hwok := window_ok_default _ clt Hw).
    destruct (add_reply_spec _ (u32 (h_xid (jb_h j))) b (zlen b) Hwok) as (w' & Ew & Hw' & Ht).
    { exists Running. apply (Hrun ltac:(lia)). }
    rewrite Ew in E1. cbn [mbind res_bind] in E1. injection E1 as <-. split.
    + by apply map_Forall_insert_2.
    + intros k. rewrite (status_same _ _ Hst'), status_insert, Ht.
      unfold status at 1, table_of. destruct k as [n x]. simpl.
      repeat case_decide; subst; simpl in *; try done.
      * destruct H1 as [[= ->] _]. apply lookup_insert_eq.
      * rewrite lookup_insert_ne; [done|]. intros <-. apply H1. split; [done|lia].
      * destruct H1 as [[= -> ->] _]. done.
  - injection E1 as <-. split; [done|]. intros k. rewrite (status_same _ _ Hst').
    rewrite decide_False; [done|]. lia.
Qed.

(** *** The invariant *)

Lemma elem_of_amo_keys k l : k ∈ amo_keys l <-> k.1 <> 0 /\ k ∈ l.
Proof. unfold amo_keys. exact (list_elem_of_filter (fun k => k.1 <> 0) l k). Qed.

Lemma amo_keys_app l1 l2 : amo_keys (l1 ++ l2) = amo_keys l1 ++ amo_keys l2.
Proof. apply filter_app. Qed.

#[export] Instance amo_keys_proper : Proper (Permutation ==> Permutation) amo_keys.
Proof. intros l1 l2 Hl. unfold amo_keys. by rewrite Hl. Qed.

Lemma sys_inv_init s : sys_init s -> sys_inv s.
Proof.
  destruct s as [st app q run rep exec sent]. intros (Hw & Hr & Hp & He & Hs). simpl in *. subst.
  split; simpl; try done; try (by intros; set_solver).
  - rewrite Hw. apply map_Forall_empty.
  - constructor.
  - constructor.
  - intros k b sz _. unfold status, table_of. rewrite Hw, lookup_empty. done.
Qed.

(** The rest of the server's state does not matter. *)
Lemma sys_inv_same s st app q :
  rs_reply_window st = rs_reply_window (sy_rs s) -> sys_inv s ->
  sys_inv (Sys st app q (sy_run s) (sy_rep s) (sy_exec s) (sy_sent s)).
Proof.
  intros E [H1 H2 H3 H4 H5 H6 H7 H8]. pose proof (status_same _ _ E) as Hst.
  split; simpl; try done.
  - by rewrite E.
  - intros k Hk. rewrite Hst. by apply H2.
  - intros j b Hj Hn. rewrite Hst. by apply H3.
  - intros k b Hk Hn. rewrite Hst. by apply H6.
  - intros k b sz Hn. rewrite Hst. by apply H7.
Qed.

(** Nothing was started under a key the table does not have. *)
Lemma fresh_key s k :
  sys_inv s -> k.1 <> 0 -> status (sy_rs s) k = None ->
  k ∉ amo_keys ((job_key <$> sy_run s) ++ (sy_exec s).*1).
Proof.
  intros Hi Hn Hf Hin. rewrite amo_keys_app, elem_of_app in Hin. destruct Hin as [Hin|Hin].
  - apply (si_run _ Hi) in Hin. congruence.
  - apply elem_of_amo_keys in Hin as [_ Hin].
    apply list_elem_of_fmap in Hin as ([k' b] & -> & Hin). simpl in *.
    destruct (si_exec _ Hi k' b Hin Hn) as [E|[E _]]; congruence.
Qed.

Lemma sys_inv_new s st q j :
  sys_inv s -> classified (sy_rs s) (jb_h j) st (B_new j) ->
  sys_inv (Sys st (sy_app s) q (j :: sy_run s) (sy_rep s) (sy_exec s) (sy_sent s)).
Proof.
  intros Hi (Hw & Hst & _ & Hnew). fold (job_key j) in *.
  assert (Hother : forall k, k.1 <> 0 -> is_Some (status (sy_rs s) k) ->
    status st k = status (sy_rs s) k).
  { intros k Hn [x Hx]. apply Hst. left. intros ->. destruct (Hnew Hn). congruence. }
  split; simpl; try done.
  - intros k [Hn [->|Hin]%elem_of_cons]%elem_of_amo_keys; [by apply Hnew|].
    assert (status (sy_rs s) k = Some Running) as E by (by apply (si_run _ Hi), elem_of_amo_keys).
    by rewrite Hother; [|done|rewrite E].
  - intros j' b Hin Hn. destruct (si_rep _ Hi _ _ Hin Hn) as [E ?].
    by rewrite Hother; [|done|rewrite E].
  - by apply (si_rep_once _ Hi).
  - destruct (decide ((job_key j).1 = 0)) as [E0|Hn].
    + unfold amo_keys. rewrite filter_cons_False by (by intros []). apply (si_exec_once _ Hi).
    + unfold amo_keys. rewrite filter_cons_True by done. apply NoDup_cons. split.
      * apply (fresh_key s); [done..|]. by apply Hnew.
      * apply (si_exec_once _ Hi).
  - intros k b Hin Hn. destruct (si_exec _ Hi k b Hin Hn) as [E|[E ?]];
      rewrite Hother by (by rewrite ?E); auto.
  - intros k b sz Hn. destruct (decide (k = job_key j)) as [->|Hk].
    + destruct (Hnew Hn) as [_ ->]. done.
    + rewrite Hst by (by left). by apply (si_table _ Hi).
  - apply (si_sent _ Hi).
Qed.

Lemma sys_inv_begin s st q dj b :
  sys_inv s -> dispatch_begin (sy_rs s) dj = Ok (st, b) -> sys_inv (after_begin s st q b).
Proof.
  intros Hi E. destruct (dispatch_begin_spec _ _ _ _ (si_windows _ Hi) E) as (h & Hc).
  destruct b as [| |j| |h' b sz|];
    try (destruct Hc as (Hw & Hst & _);
         assert (Hsame : forall k, status st k = status (sy_rs s) k)
           by (intros k; apply Hst; right; done);
         destruct Hi as [? H2 H3 ? ? H6 H7 ?]; split; simpl; try done;
         [intros k; rewrite Hsame; apply H2|intros j' b'; rewrite Hsame; apply H3
         |intros k b'; rewrite Hsame; apply H6|intros k b' sz'; rewrite Hsame; apply H7]).
  - apply (sys_inv_new s); [done|]. destruct Hc as (Hw & Hst & Hk & Hn).
    split_and!; [done| |done|]; unfold job_key in Hk; by rewrite Hk.
  - destruct Hc as (Hw & Hst & -> & Hn & Hl).
    assert (Hsame : forall k, status st k = status (sy_rs s) k)
      by (intros k; apply Hst; right; done).
    destruct Hi as [? H2 H3 ? ? H6 H7 H8]. split; simpl; try done.
    + intros k. rewrite Hsame. apply H2.
    + intros j' b'. rewrite Hsame. apply H3.
    + intros k b'. rewrite Hsame. apply H6.
    + intros k b' sz'. rewrite Hsame. apply H7.
    + intros k b' [[= -> ->]|Hin]%elem_of_cons Hk; [|by apply H8]. by eapply H7.
Qed.

Lemma sys_inv_run s r1 j r2 b app :
  sys_inv s -> sy_run s = r1 ++ j :: r2 ->
  sys_inv (Sys (sy_rs s) app (sy_queue s) (r1 ++ r2) ((j, b) :: sy_rep s)
             ((job_key j, b) :: sy_exec s) (sy_sent s)).
Proof.
  intros Hi Er. pose proof (si_exec_once _ Hi) as Hnd. rewrite Er in Hnd.
  assert (Hrun : (job_key j).1 <> 0 -> status (sy_rs s) (job_key j) = Some Running).
  { intros Hn. apply (si_run _ Hi), elem_of_amo_keys. split; [done|]. rewrite Er.
    apply list_elem_of_fmap. exists j. set_solver. }
  assert (Hp : (job_key <$> r1 ++ j :: r2) ++ (sy_exec s).*1 ≡ₚ
    (job_key <$> r1 ++ r2) ++ (job_key j :: (sy_exec s).*1)).
  { rewrite !fmap_app, fmap_cons. rewrite <- !app_assoc. f_equiv. simpl. apply Permutation_middle. }
  rewrite Hp in Hnd. destruct Hi as [H1 H2 H3 H4 H5 H6 H7 H8].
  split; simpl; try done.
  - intros k [Hn Hin]%elem_of_amo_keys. apply H2, elem_of_amo_keys. split; [done|].
    rewrite Er. rewrite fmap_app in *. set_solver.
  - intros j' b' [[= -> ->]|Hin]%elem_of_cons Hn; [split; [auto|left]|].
    destruct (H3 _ _ Hin Hn). split; [done|by right].
  - destruct (decide ((job_key j).1 = 0)) as [E0|Hn]; unfold amo_keys.
    + by rewrite filter_cons_False by (by intros []).
    + rewrite filter_cons_True by done. apply NoDup_cons. split; [|done].
      intros [_ Hin]%elem_of_amo_keys. apply list_elem_of_fmap in Hin as ([j' b'] & E & Hin).
      simpl in E. destruct (H3 _ _ Hin) as [_ Hex]; [by rewrite <- E|]. rewrite <- E in Hex.
      rewrite amo_keys_app in Hnd. apply NoDup_app in Hnd as (_ & _ & Hnd).
      unfold amo_keys in Hnd. rewrite filter_cons_True in Hnd by done.
      apply NoDup_cons in Hnd as [Hnd _]. apply Hnd, elem_of_amo_keys. split; [done|].
      apply list_elem_of_fmap. by exists (job_key j, b').
  - intros k b' [[= -> ->]|Hin]%elem_of_cons Hn.
    + right. split; [auto|]. exists j. by split; [left|].
    + destruct (H6 _ _ Hin Hn) as [?|[? (j' & ? & ?)]]; [by left|right].
      split; [done|]. exists j'. split; [by right|done].
  - intros k b' sz Hn E. right. by eapply H7.
  - intros k b' Hin Hn. right. by apply H8.
Qed.

(** Among the answers waiting to be sent there is one per request. *)
Lemma rep_unique s p1 j b p2 j' b' :
  sys_inv s -> sy_rep s = p1 ++ (j, b) :: p2 -> (j', b') ∈ p1 ++ p2 ->
  (job_key j).1 <> 0 -> job_key j' <> job_key j.
Proof.
  intros Hi E Hin Hn Heq. pose proof (si_rep_once _ Hi) as Hnd. rewrite E in Hnd.
  rewrite <- Permutation_middle, fmap_cons in Hnd.
  unfold amo_keys in Hnd. rewrite filter_cons_True in Hnd by done.
  apply NoDup_cons in Hnd as [Hni _]. apply Hni, elem_of_amo_keys. split; [done|].
  apply list_elem_of_fmap. by exists (j', b').
Qed.

Lemma exec_unique s k b b' :
  sys_inv s -> k.1 <> 0 -> (k, b) ∈ sy_exec s -> (k, b') ∈ sy_exec s -> b = b'.
Proof.
  intros Hi Hn H1 H2. pose proof (si_exec_once _ Hi) as Hnd. rewrite amo_keys_app in Hnd.
  apply NoDup_app in Hnd as (_ & _ & Hnd). clear Hi.
  induction (sy_exec s) as [|[k0 b0] l IH]; [by apply elem_of_nil in H1|].
  rewrite fmap_cons in Hnd. unfold amo_keys in Hnd. rewrite filter_cons in Hnd.
  assert (Hmem : forall b'', (k, b'') ∈ l -> k ∈ amo_keys l.*1).
  { intros b'' Hin. apply elem_of_amo_keys. split; [done|].
    apply list_elem_of_fmap. by exists (k, b''). }
  simpl in Hnd.
  apply elem_of_cons in H1 as [E1|H1]; apply elem_of_cons in H2 as [E2|H2]; simplify_eq; try done.
  - rewrite decide_True in Hnd by done. apply NoDup_cons in Hnd as [Hni _]. destruct Hni. eauto.
  - rewrite decide_True in Hnd by done. apply NoDup_cons in Hnd as [Hni _]. destruct Hni. eauto.
  - apply IH; [done..|]. case_decide; [|done]. by apply NoDup_cons in Hnd as [_ ?].
Qed.

Lemma sys_inv_reply s p1 j b p2 st c :
  sys_inv s -> sy_rep s = p1 ++ (j, b) :: p2 -> 0 <= (job_key j).1 ->
  dispatch_reply (sy_rs s) j b = Ok (st, c) ->
  sys_inv (Sys st (sy_app s) (sy_queue s) (sy_run s) (p1 ++ p2) (sy_exec s)
             ((job_key j, b) :: sy_sent s)).
Proof.
  intros Hi Ep Hpos E.
  assert (Hinp : (j, b) ∈ sy_rep s) by (rewrite Ep; set_solver).
  assert (Hrun : h_clt_nonce (jb_h j) > 0 -> status (sy_rs s) (job_key j) = Some Running).
  { intros Hgt. apply (si_rep _ Hi j b Hinp). simpl. lia. }
  destruct (dispatch_reply_spec _ _ _ _ _ (si_windows _ Hi) Hrun E) as [Hw Hst].
  assert (Hsub : forall x, x ∈ p1 ++ p2 -> x ∈ sy_rep s) by (intros x; rewrite Ep; set_solver).
  assert (Hself : (job_key j).1 <> 0 -> status st (job_key j) = Some (Replied b (zlen b))).
  { intros Hn. rewrite Hst, decide_True; [done|]. split; [done|]. simpl in *. lia. }
  assert (Hother : forall k, k <> job_key j -> status st k = status (sy_rs s) k).
  { intros k Hk. rewrite Hst, decide_False; [done|]. by intros []. }
  pose proof (exec_unique s) as Huniq. pose proof (rep_unique s p1 j b p2) as Hru.
  pose proof Hi as [H1 H2 H3 H4 H5 H6 H7 H8]. split; simpl; try done.
  - intros k Hin. pose proof Hin as [Hn Hin']%elem_of_amo_keys.
    rewrite Hother; [by apply H2|]. intros ->.
    rewrite amo_keys_app in H5. apply NoDup_app in H5 as (_ & Hd & _). apply (Hd _ Hin).
    apply elem_of_amo_keys. split; [done|]. destruct (H3 _ _ Hinp Hn) as [_ Hex].
    apply list_elem_of_fmap. by exists (job_key j, b).
  - intros j' b' Hin Hn. destruct (H3 j' b') as [Hr Hx]; [auto..|]. split; [|done].
    rewrite Hother; [done|]. intros Heq. eapply Hru; [done|done|exact Hin| |done].
    by rewrite <- Heq.
  - rewrite Ep in H4. rewrite <- Permutation_middle, fmap_cons in H4.
    unfold amo_keys in H4. rewrite filter_cons in H4. case_decide; [|done].
    by apply NoDup_cons in H4 as [_ ?].
  - intros k b' Hin Hn. destruct (decide (k = job_key j)) as [->|Hk].
    + left. destruct (H3 _ _ Hinp Hn) as [_ Hex].
      rewrite (Huniq _ b' b Hi Hn Hin Hex). auto.
    + rewrite Hother by done. destruct (H6 _ _ Hin Hn) as [?|[? (j' & Hj' & Hkj)]]; [by left|right].
      split; [done|]. exists j'. split; [|done]. rewrite Ep in Hj'.
      apply elem_of_app in Hj' as [Hj'|[[= -> ->]|Hj']%elem_of_cons]; [set_solver| |set_solver].
      done.
  - intros k b' sz Hn Hs. destruct (decide (k = job_key j)) as [->|Hk].
    + rewrite Hself in Hs by done. injection Hs as <- <-. by apply (H3 _ _ Hinp).
    + rewrite Hother in Hs by done. by eapply H7.
  - intros k b' [[= -> ->]|Hin]%elem_of_cons Hn; [by apply (H3 _ _ Hinp)|by apply H8].
Qed.

(** Nonces are unsigned. *)
Definition nonces_ok (s : sys) : Prop :=
  Forall (fun j => 0 <= h_clt_nonce (jb_h j)) (sy_run s) /\
  Forall (fun p => 0 <= h_clt_nonce (jb_h p.1)) (sy_rep s).

(** The job of a request that is to be run. *)
Lemma dispatch_begin_new (st st' : rpcs S) dj j :
  dispatch_begin st dj = Ok (st', B_new j) ->
  unpack_req_header (new_unmarshall (dj_buf dj) (dj_sz dj)) = Ok (jb_h j, jb_req j) /\
  rs_procs st !! h_proc (jb_h j) = Some (jb_f j).
Proof.
  intros E. unfold dispatch_begin in E. apply res_bind_Ok_inv in E as ([h req] & Eh & E).
  rewrite Eh. destruct (negb (u_ok req)); [by res_inv|]. destruct (_ && _).
  { by apply res_bind_Ok_inv in E as (rep & _ & E). }
  destruct (rs_procs st !! h_proc h) as [f|] eqn:Ef; [|done].
  apply res_bind_Ok_inv in E as ([st1 b1] & E1 & E).
  assert (b1 = B_new j) as -> by (destruct b1; res_inv; congruence).
  assert (j = Job (dj_conn dj) h f req) as ->; [|done].
  unfold classify in E1. destruct (negb _); [|by injection E1 as _ <-].
  apply res_bind_Ok_inv in E1 as (st2 & _ & E1). apply res_bind_Ok_inv in E1 as (r & _ & E1).
  destruct (cr_state r), (cr_out r) as [[? ?]|]; res_inv; try done; by injection E1 as _ <-.
Qed.

Lemma dispatch_begin_nonce (st st' : rpcs S) dj j :
  dispatch_begin st dj = Ok (st', B_new j) -> 0 <= h_clt_nonce (jb_h j).
Proof.
  intros [Eh _]%dispatch_begin_new. unfold unpack_req_header in Eh.
  repeat (apply res_bind_Ok_inv in Eh as ([? ?] & _ & Eh)).
  injection Eh as <- _. simpl. by apply wrapU_range.
Qed.

(** The handler table is the one registered. *)
Lemma got_pdu_procs (st st' : rpcs S) c b sz succ reach2 o v :
  got_pdu st c b sz succ reach2 = Ok (st', o, v) -> rs_procs st' = rs_procs st.
Proof.
  unfold got_pdu. destruct (negb (rs_reachable st)); [by intros [= <- _ _]|]. intros E.
  apply res_bind_Ok_inv in E as (hp & _ & E). destruct (_ || _); [|by injection E as <- _ _].
  apply res_bind_Ok_inv in E as (hp' & _ & E). destruct succ; [done|by injection E as <- _ _].
Qed.

Lemma dispatch_begin_procs (st st' : rpcs S) dj b :
  dispatch_begin st dj = Ok (st', b) -> rs_procs st' = rs_procs st.
Proof.
  intros E. unfold dispatch_begin in E. apply res_bind_Ok_inv in E as ([h req] & _ & E).
  destruct (negb (u_ok req)); [by res_inv|]. destruct (_ && _).
  { by apply res_bind_Ok_inv in E as (rep & _ & [= <- _]). }
  destruct (rs_procs st !! h_proc h) as [f|]; [|done].
  apply res_bind_Ok_inv in E as ([st1 b1] & E1 & E).
  assert (rs_procs st1 = rs_procs st) as <-.
  { unfold classify in E1. destruct (negb _); [|by injection E1 as <- _].
    apply res_bind_Ok_inv in E1 as (st2 & (_ & Hp & _)%conn_ops_window & E1).
    apply res_bind_Ok_inv in E1 as (r & _ & E1).
    destruct (cr_state r), (cr_out r) as [[? ?]|]; res_inv; try done; by injection E1 as <- _. }
  destruct b1; res_inv; try done. by destruct (_ =? 0).
Qed.

Lemma dispatch_reply_procs (st st' : rpcs S) j b c :
  dispatch_reply st j b = Ok (st', c) -> rs_procs st' = rs_procs st.
Proof.
  intros E. unfold dispatch_reply in E. apply res_bind_Ok_inv in E as (st1 & E1 & E).
  assert (rs_procs st1 = rs_procs st) as <- by (destruct (_ >? _); by res_inv).
  destruct (rs_heap st1 !! jb_conn j); [|done].
  apply res_bind_Ok_inv in E as ([hp c'] & _ & E). by res_inv.
Qed.

Lemma sys_step_nonces s s' : sys_step s s' -> nonces_ok s -> nonces_ok s'.
Proof.
  intros Hs [H1 H2]. destruct Hs as [s c b sz st dj E|s q1 dj q2 st b Eq E|s r1 j r2 b app Er E
    |s p1 j b p2 st c Ep E|s hp]; try done.
  - destruct b; try done. split; simpl; [|done]. constructor; [by eapply dispatch_begin_nonce|done].
  - rewrite Er, Forall_app, Forall_cons in H1. destruct H1 as (? & ? & ?).
    split; simpl; [by apply Forall_app|by constructor].
  - rewrite Ep, Forall_app, Forall_cons in H2. destruct H2 as (? & ? & ?).
    split; simpl; [done|by apply Forall_app].
Qed.

Lemma sys_step_inv s s' : sys_step s s' -> nonces_ok s -> sys_inv s -> sys_inv s'.
Proof.
  intros Hs [_ Hn] Hi. destruct Hs as [s c b sz st dj E|s q1 dj q2 st b Eq E|s r1 j r2 b app Er E
    |s p1 j b p2 st c Ep E|s hp].
  - apply sys_inv_same; [|done]. unfold got_pdu in E. destruct (negb _); [done|].
    apply res_bind_Ok_inv in E as (hp & _ & E). simpl in E. by injection E as <- _.
  - by eapply sys_inv_begin.
  - by apply sys_inv_run.
  - eapply sys_inv_reply; [done..| |done]. rewrite Ep, Forall_app, Forall_cons in Hn.
    by destruct Hn as (_ & ? & _).
  - by apply sys_inv_same.
Qed.

Lemma sys_reachable_inv s : sys_reachable s -> sys_inv s.
Proof.
  intros (s0 & H0 & Hrun).
  assert (Hb : nonces_ok s0 /\ sys_inv s0).
  { split; [|by apply sys_inv_init]. destruct H0 as (_ & Hr & Hp & _).
    split; [rewrite Hr|rewrite Hp]; constructor. }
  clear H0. induction Hrun as [s|s s1 s2 Hstep _ IH]; [by apply Hb|].
  apply IH. destruct Hb. split; [by eapply sys_step_nonces|by eapply sys_step_inv].
Qed.
End system.
Arguments sys : clear implicits.

(** ** The handler templates *)

(** A handler of several arguments is a handler of their tuple, and so is the
    client's stub: what holds of one argument of any type holds of all. *)
Section arities.
Context `{Allocator} {S A1 A2 A3 A4 A5 A6 A7 R : Type}.
Context (c1 : codec A1) (c2 : codec A2) (c3 : codec A3) (c4 : codec A4)
  (c5 : codec A5) (c6 : codec A6) (c7 : codec A7) (cr : codec R).

Ltac arity :=
  intros; unfold reg_1, reg_2, reg_3, reg_4, reg_5, reg_6, reg_7, call_1, call_2, call_3,
    call_4, call_5, call_6, call_7; cbn [c_get c_put c_init pair_codec fst snd];
  repeat match goal with
  | |- context [@mbind res _ _ _ _ ?x] =>
      lazymatch x with context [@mbind res _] => fail | _ => idtac end;
      let E := fresh in destruct x as [[? ?]|] eqn:E; cbn [mbind res_bind fst snd]; try reflexivity
  end.

Lemma reg_2_tuple (meth : A1 -> A2 -> R -> S -> res (Z * R * S)) args ret s :
  reg_2 c1 c2 cr meth args ret s =
  reg_1 (pair_codec c1 c2) cr (fun p => meth p.1 p.2) args ret s.
Proof. arity. Qed.

Lemma reg_3_tuple (meth : A1 -> A2 -> A3 -> R -> S -> res (Z * R * S)) args ret s :
  reg_3 c1 c2 c3 cr meth args ret s =
  reg_1 (pair_codec c1 (pair_codec c2 c3)) cr (fun p => meth p.1 p.2.1 p.2.2) args ret s.
Proof. arity. Qed.

Lemma reg_4_tuple (meth : A1 -> A2 -> A3 -> A4 -> R -> S -> res (Z * R * S)) args ret s :
  reg_4 c1 c2 c3 c4 cr meth args ret s =
  reg_1 (pair_codec c1 (pair_codec c2 (pair_codec c3 c4))) cr
    (fun p => meth p.1 p.2.1 p.2.2.1 p.2.2.2) args ret s.
Proof. arity. Qed.

Lemma reg_5_tuple (meth : A1 -> A2 -> A3 -> A4 -> A5 -> R -> S -> res (Z * R * S)) args ret s :
  reg_5 c1 c2 c3 c4 c5 cr meth args ret s =
  reg_1 (pair_codec c1 (pair_codec c2 (pair_codec c3 (pair_codec c4 c5)))) cr
    (fun p => meth p.1 p.2.1 p.2.2.1 p.2.2.2.1 p.2.2.2.2) args ret s.
Proof. arity. Qed.

Lemma reg_6_tuple (meth : A1 -> A2 -> A3 -> A4 -> A5 -> A6 -> R -> S -> res (Z * R * S))
    args ret s :
  reg_6 c1 c2 c3 c4 c5 c6 cr meth args ret s =
  reg_1 (pair_codec c1 (pair_codec c2 (pair_codec c3 (pair_codec c4 (pair_codec c5 c6))))) cr
    (fun p => meth p.1 p.2.1 p.2.2.1 p.2.2.2.1 p.2.2.2.2.1 p.2.2.2.2.2) args ret s.
Proof. arity. Qed.

Lemma reg_7_tuple (meth : A1 -> A2 -> A3 -> A4 -> A5 -> A6 -> A7 -> R -> S -> res (Z * R * S))
    args ret s :
  reg_7 c1 c2 c3 c4 c5 c6 c7 cr meth args ret s =
  reg_1 (pair_codec c1 (pair_codec c2 (pair_codec c3 (pair_codec c4 (pair_codec c5
    (pair_codec c6 c7)))))) cr
    (fun p => meth p.1 p.2.1 p.2.2.1 p.2.2.2.1 p.2.2.2.2.1 p.2.2.2.2.2.1 p.2.2.2.2.2.2)
    args ret s.
Proof. arity. Qed.
End arities.

(** The path of one call: request out, handler, reply back. *)
Lemma call_path `{Allocator} {S A R} (c : codec A) (cr : codec R) `{!CodecOk c, !CodecOk cr}
    (meth : A -> R -> S -> res (Z * R * S)) conn h a s ret r s' (szf szf' : list byte -> list byte) :
  c_valid c a -> c_valid cr r -> valid_req_header h -> 0 <= ret <= INT_MAX ->
  (forall b, length (szf b) = 4%nat) -> (forall b, length (szf' b) = 4%nat) ->
  RPC_HEADER_SZ + zlen (c_enc c a) < MAX_MSG -> RPC_HEADER_SZ + zlen (c_enc cr r) < MAX_MSG ->
  meth a (c_init cr) s = Ok (ret, r, s') ->
  exists m req rep u, build_request c h a = Ok m /\
    (let pkt := with_size_field (szf (marshall_cstr m)) (marshall_cstr m) in
     unpack_req_header (new_unmarshall pkt (zlen pkt)) = Ok (h, req) /\ u_ok req = true) /\
    dispatch_run (Job conn h (reg_1 c cr meth) req) s = Ok (rep, s') /\
    (let pkt := with_size_field (szf' rep) rep in
     unpack_reply_header (new_unmarshall pkt (zlen pkt)) = Ok (ReplyHeader (h_xid h) ret, u)) /\
    call_m cr (c_init cr) ret (take_in u) = Ok (ret, r).
Proof.
  intros Ha Hr Hh Hret Hs1 Hs2 Hra Hrr Hmeth.
  destruct (build_request_spec c h a Ha Hra) as (m0 & _ & E0 & _).
  destruct (request_parse c h a (szf (marshall_cstr m0)) Ha Hh (Hs1 _) Hra) as (m & E & Eu & u' & Eg & Hd).
  assert (m = m0) as -> by congruence.
  assert (Hrh : valid_reply_header (ReplyHeader (h_xid h) ret)).
  { unfold INT_MAX in Hret. destruct Hh as (? & _). split; [done|]. split; simpl; lia. }
  destruct (build_reply_spec cr (ReplyHeader (h_xid h) ret) r Hr Hrr) as (mr0 & _ & _ & Er0 & _).
  destruct (reply_parse cr (ReplyHeader (h_xid h) ret) r (szf' (marshall_cstr mr0)) Hr Hrh (Hs2 _) Hrr)
    as (mr & Er & Eur & ur & Egr & Hdr).
  assert (mr = mr0) as -> by congruence.
  exists m0. eexists _, (marshall_cstr mr0), _. split; [done|]. split; [by split; [apply Eu|]|].
  split_and!; [|exact Eur|].
  - unfold dispatch_run. cbn [jb_f jb_req jb_h]. unfold reg_1 at 1. rewrite Eg. cbn [mbind res_bind].
    unfold fn_tail. rewrite Hd. cbn [negb]. rewrite Hmeth. cbn [mbind res_bind].
    unfold build_reply in Er. apply res_bind_Ok_inv in Er as (mp & Ep & Er). rewrite Ep.
    cbn [mbind res_bind]. unfold unmarshal_args_failure.
    destruct (Z.eqb_spec ret (-2)); [lia|]. destruct (Z.geb_spec ret 0); [|lia].
    cbn [VERIFY negb mbind res_bind]. rewrite Er. done.
  - unfold call_m. destruct (Z.ltb_spec ret 0); [lia|]. rewrite Egr. cbn [mbind res_bind].
    by rewrite Hdr.
Qed.

(** * Properties *)

(** C1. At-most-once execution. In every interleaving of arriving, duplicated,
    running and answered requests, the handler of a request is executed at most
    once per client (with a nonce) and xid. *)
Theorem at_most_once `{Allocator} {S} (s : sys S) :
  sys_reachable s -> NoDup (amo_keys (sy_exec s).*1).
Proof.
  intros Hs%sys_reachable_inv. pose proof (si_exec_once _ Hs) as Hnd.
  rewrite amo_keys_app in Hnd. by apply NoDup_app in Hnd as (_ & _ & ?).
Qed.


(** One call from end to end: the arguments the client's stub marshalled
    are the ones the method receives, and the result and return code of the
    method are the ones the stub hands to the caller, for any types whose
    operators satisfy [CodecOk]. *)
Theorem rpc_end_to_end `{Allocator} {S A R} (c : codec A) (cr : codec R) `{!CodecOk c, !CodecOk cr}
    (meth : A -> R -> S -> res (Z * R * S)) conn h a s ret r s' szf szf' :
  c_valid c a -> c_valid cr r -> valid_req_header h -> 0 <= ret <= INT_MAX ->
  length szf = 4%nat -> length szf' = 4%nat ->
  RPC_HEADER_SZ + zlen (c_enc c a) < MAX_MSG -> RPC_HEADER_SZ + zlen (c_enc cr r) < MAX_MSG ->
  meth a (c_init cr) s = Ok (ret, r, s') ->
  exists m req rep u, build_request c h a = Ok m /\
    (let pkt := with_size_field szf (marshall_cstr m) in
     unpack_req_header (new_unmarshall pkt (zlen pkt)) = Ok (h, req) /\ u_ok req = true) /\
    dispatch_run (Job conn h (reg_1 c cr meth) req) s = Ok (rep, s') /\
    (let pkt := with_size_field szf' rep in
     unpack_reply_header (new_unmarshall pkt (zlen pkt)) = Ok (ReplyHeader (h_xid h) ret, u)) /\
    call_m cr (c_init cr) ret (take_in u) = Ok (ret, r).
Proof. intros. by apply (call_path c cr meth conn h a s ret r s' (fun _ => szf) (fun _ => szf')). Qed.

(** The six templates for handlers of two to seven arguments are the
    one-argument template at the tuple of the arguments. *)
Theorem handlers_by_tuple `{Allocator} {S A1 A2 A3 A4 A5 A6 A7 R} (c1 : codec A1) (c2 : codec A2)
    (c3 : codec A3) (c4 : codec A4) (c5 : codec A5) (c6 : codec A6) (c7 : codec A7)
    (cr : codec R) args ret (s : S) :
  (forall meth, reg_2 c1 c2 cr meth args ret s =
     reg_1 (pair_codec c1 c2) cr (fun p => meth p.1 p.2) args ret s) /\
  (forall meth, reg_3 c1 c2 c3 cr meth args ret s =
     reg_1 (pair_codec c1 (pair_codec c2 c3)) cr (fun p => meth p.1 p.2.1 p.2.2) args ret s) /\
  (forall meth, reg_4 c1 c2 c3 c4 cr meth args ret s =
     reg_1 (pair_codec c1 (pair_codec c2 (pair_codec c3 c4))) cr
       (fun p => meth p.1 p.2.1 p.2.2.1 p.2.2.2) args ret s) /\
  (forall meth, reg_5 c1 c2 c3 c4 c5 cr meth args ret s =
     reg_1 (pair_codec c1 (pair_codec c2 (pair_codec c3 (pair_codec c4 c5)))) cr
       (fun p => meth p.1 p.2.1 p.2.2.1 p.2.2.2.1 p.2.2.2.2) args ret s) /\
  (forall meth, reg_6 c1 c2 c3 c4 c5 c6 cr meth args ret s =
     reg_1 (pair_codec c1 (pair_codec c2 (pair_codec c3 (pair_codec c4 (pair_codec c5 c6))))) cr
       (fun p => meth p.1 p.2.1 p.2.2.1 p.2.2.2.1 p.2.2.2.2.1 p.2.2.2.2.2) args ret s) /\
  (forall meth, reg_7 c1 c2 c3 c4 c5 c6 c7 cr meth args ret s =
     reg_1 (pair_codec c1 (pair_codec c2 (pair_codec c3 (pair_codec c4 (pair_codec c5
       (pair_codec c6 c7)))))) cr
       (fun p => meth p.1 p.2.1 p.2.2.1 p.2.2.2.1 p.2.2.2.2.1 p.2.2.2.2.2.1 p.2.2.2.2.2.2)
       args ret s).
Proof.
  split_and!; intros; [apply reg_2_tuple|apply reg_3_tuple|apply reg_4_tuple|apply reg_5_tuple
    |apply reg_6_tuple|apply reg_7_tuple].
Qed.

(** References. [got_pdu] takes a reference to the connection of each job;
    a job whose header does not parse gives it back, a job meant for an earlier
    server instance returns without giving it back, so that connection is never
    deleted. *)
Theorem oldsrv_keeps_reference `{Allocator} {S} (st : rpcs S) c b sz st1 dj st2 out :
  got_pdu st c b sz true true = Ok (st1, Some dj, true) ->
  dispatch_begin st1 dj = Ok (st2, out) ->
  match out with
  | B_bad_header => conn_decref (rs_heap st1) c = Ok (rs_heap st2)
  | B_old_server _ =>
      exists cn, rs_heap st !! c = Some cn /\ rs_heap st2 !! c = Some (incref cn)
  | _ => True
  end.
Proof.
  unfold got_pdu. destruct (negb (rs_reachable st)); [done|]. unfold conn_incref.
  destruct (rs_heap st !! c) as [cn|]; [|done]. cbn [mbind res_bind negb orb].
  intros [= <- <-] E. unfold dispatch_begin in E. cbn [dj_conn rs_heap set_heap set_conns] in E.
  apply res_bind_Ok_inv in E as ([h req] & _ & E). destruct (negb (u_ok req)).
  { apply res_bind_Ok_inv in E as (hp & Ed & E). by injection E as <- <-. }
  destruct (_ && _).
  { apply res_bind_Ok_inv in E as (rep & _ & E). injection E as <- <-.
    exists cn. split; [done|]. apply lookup_insert_eq. }
  destruct (_ !! _) as [f|]; [|done]. apply res_bind_Ok_inv in E as ([st' b'] & Ec & E).
  unfold classify in Ec. destruct (negb _).
  - apply res_bind_Ok_inv in Ec as (? & _ & Ec). apply res_bind_Ok_inv in Ec as (r & _ & Ec).
    destruct (cr_state r), (cr_out r) as [[? ?]|]; res_inv; done.
  - res_inv. done.
Qed.

(** When the connection of a client without a nonce has died by the time
    its handler returns, the code looks up the nonce 0 in [conns_], finds the
    null pointer the lookup created, and dereferences it: the dispatch never
    completes. *)
Theorem dead_unbound_client_faults `{Allocator} {S} (st : rpcs S) j b cn :
  h_clt_nonce (jb_h j) = 0 -> rs_conns st !! 0 = None ->
  rs_heap st !! jb_conn j = Some cn -> cn_dead cn = true ->
  exists f, dispatch_reply st j b = Err f.
Proof.
  intros Hn Hc Hh Hd. unfold dispatch_reply. rewrite Hn. cbn [Z.gtb Z.compare mbind res_bind].
  rewrite Hh, Hd, Hc. rewrite bool_decide_eq_false_2 by done. cbn [andb negb].
  destruct (conn_decref (rs_heap st) (jb_conn j)); by eexists.
Qed.

(** ** Witnesses *)

(** A server with one handler (procedure 7 adds to a counter) receives the same
    request twice. *)
Module ServerExamples.
#[local] Existing Instance zero_allocator.

Definition get {A} (d : A) (r : res A) : A := match r with Ok a => a | Err _ => d end.
Definition add_meth (a r s : Z) : res (Z * Z * Z) := Ok (0, s32 (s + a), s + a).
Definition conn0 : connection := new_connection 3 0 (100, 0).
Definition add_handler : handler Z := reg_1 int_codec int_codec add_meth.
Definition header0 : req_header := ReqHeader 1 7 5 77 0.
Definition packet (srv : Z) : list byte :=
  with_size_field (be 4 28)
    (marshall_cstr (get new_marshall (build_request int_codec (ReqHeader 1 7 5 srv 0) 40))).
Definition reply0 : list byte :=
  marshall_cstr (get new_marshall (build_reply int_codec (ReplyHeader 1 0) 40)).
Definition dj0 : djob_t := Djob (packet 77) 28 3.

Section run.
Context (f : handler Z).
Definition server0 : rpcs Z := Rpcs 77 ∅ ∅ 0 0 ∅ {[7 := f]} true {[3 := conn0]}.
Definition arrived (s : rpcs Z) : rpcs Z := (get (s, None, true) (got_pdu s 3 (packet 77) 28 true true)).1.1.
Definition sys0 : sys Z := Sys server0 0 [] [] [] [] [].
Definition sys2 : sys Z := Sys (arrived (arrived server0)) 0 [dj0; dj0] [] [] [] [].
Definition begun1 : rpcs Z * begun Z := get (server0, B_bad_header) (dispatch_begin (sy_rs sys2) dj0).
Definition sys3 : sys Z := after_begin sys2 begun1.1 [dj0] begun1.2.
Definition job0 : job Z :=
  match begun1.2 with B_new j => j | _ => Job 0 header0 f unmarshall_empty end.
Definition sys4 : sys Z := Sys (sy_rs sys3) 40 [dj0] [] [(job0, reply0)] [((5, 1), reply0)] [].
Definition replied : rpcs Z * Z := get (server0, 0) (dispatch_reply (sy_rs sys4) job0 reply0).
Definition sys5 : sys Z := Sys replied.1 40 [dj0] [] [] [((5, 1), reply0)] [((5, 1), reply0)].
Definition begun2 : rpcs Z * begun Z := get (server0, B_bad_header) (dispatch_begin replied.1 dj0).
Definition sys6 : sys Z := after_begin sys5 begun2.1 [] begun2.2.

Lemma sys6_reachable : dispatch_run job0 0 = Ok (reply0, 40) -> sys_reachable sys6.
Proof.
  intros Hrun. exists sys0. split; [by repeat split|].
  eapply rtc_l; [apply (ss_arrive sys0 3 (packet 77) 28 (arrived server0) dj0); vm_compute; reflexivity|].
  eapply rtc_l; [apply (ss_arrive _ 3 (packet 77) 28 (arrived (arrived server0)) dj0); vm_compute; reflexivity|].
  eapply rtc_l; [apply (ss_begin sys2 [] dj0 [dj0] begun1.1 begun1.2);
    [reflexivity|vm_compute; reflexivity]|].
  eapply rtc_l; [apply (ss_run sys3 [] job0 [] reply0 40); [vm_compute; reflexivity|exact Hrun]|].
  eapply rtc_l; [apply (ss_reply sys4 [] job0 reply0 [] replied.1 replied.2);
    [reflexivity|vm_compute; reflexivity]|].
  eapply rtc_l; [apply (ss_begin sys5 [] dj0 [] begun2.1 begun2.2);
    [reflexivity|vm_compute; reflexivity]|]. apply rtc_refl.
Qed.
End run.

Lemma job0_runs : dispatch_run (job0 add_handler) 0 = Ok (reply0, 40).
Proof. vm_compute. reflexivity. Qed.
End ServerExamples.
Import ServerExamples.
#[local] Existing Instance zero_allocator.

Lemma at_most_once_witness :
  amo_keys (sy_exec (sys6 add_handler)).*1 = [(5, 1)] /\
  NoDup (amo_keys (sy_exec (sys6 add_handler)).*1).
Proof.
  split; [vm_compute; reflexivity|].
  apply (at_most_once (sys6 add_handler)), sys6_reachable, job0_runs.
Defined.


Lemma rpc_end_to_end_witness :
  exists m req rep u, build_request int_codec header0 40 = Ok m /\
    (let pkt := with_size_field (be 4 28) (marshall_cstr m) in
     unpack_req_header (new_unmarshall pkt (zlen pkt)) = Ok (header0, req) /\ u_ok req = true) /\
    dispatch_run (Job 3 header0 (reg_1 int_codec int_codec add_meth) req) 2 = Ok (rep, 42) /\
    (let pkt := with_size_field (be 4 28) rep in
     unpack_reply_header (new_unmarshall pkt (zlen pkt)) = Ok (ReplyHeader 1 0, u)) /\
    call_m int_codec 0 0 (take_in u) = Ok (0, 42).
Proof.
  apply (rpc_end_to_end int_codec int_codec add_meth 3 header0 40 2 0 42 42);
    try reflexivity; vm_compute; split_and!; (reflexivity || discriminate).
Defined.

Lemma oldsrv_keeps_reference_witness :
  exists st1 dj st2 pkt cn, got_pdu (server0 add_handler) 3 (packet 78) 28 true true = Ok (st1, Some dj, true) /\
    dispatch_begin st1 dj = Ok (st2, B_old_server pkt) /\ rs_heap st2 !! 3 = Some (incref cn).
Proof.
  generalize add_handler. intros f.
  set (st1 := (get (server0 f, None, true) (got_pdu (server0 f) 3 (packet 78) 28 true true)).1.1).
  set (r := get (server0 f, B_bad_header) (dispatch_begin st1 (Djob (packet 78) 28 3))).
  assert (E1 : got_pdu (server0 f) 3 (packet 78) 28 true true = Ok (st1, Some (Djob (packet 78) 28 3), true))
    by (vm_compute; reflexivity).
  set (pkt := match r.2 with B_old_server p => p | _ => [] end).
  assert (E2 : dispatch_begin st1 (Djob (packet 78) 28 3) = Ok (r.1, B_old_server pkt))
    by (vm_compute; reflexivity).
  destruct (oldsrv_keeps_reference (server0 f) 3 (packet 78) 28 _ _ _ _ E1 E2) as (cn & _ & Hk).
  exists st1, (Djob (packet 78) 28 3), r.1, pkt, cn. exact (conj E1 (conj E2 Hk)).
Defined.

Lemma dead_unbound_client_faults_witness :
  exists f, dispatch_reply (set_heap (server0 add_handler) {[3 := set_dead (incref conn0) true]})
    (Job 3 (ReqHeader 1 7 0 77 0) add_handler unmarshall_empty) [] = Err f.
Proof.
  apply (dead_unbound_client_faults _ _ _ (set_dead (incref conn0) true)); reflexivity.
Defined.
