(* ===== verification/RpcChannel.v ===== *)
(** * The connection of an RPC client

    The channel of [rpcc] (src/rpc/rpc.cc): [get_refconn], which replaces a dead
    connection, the reference every [call1] holds while it runs, and the
    destructor. Connections are objects in a heap that delete themselves with
    their last reference (Connection), so a use after that is a fault. *)
From S2P Require Import Prelude Marshall Connection RpcServer.

(** ** Operations *)

Record channel := Channel {
  ch_chan : option Z;                  (* chan_; None for NULL *)
  ch_heap : gmap Z connection
}.
Definition new_channel : channel := Channel None ∅.

Definition conn_isdead (hp : gmap Z connection) (c : Z) : res bool :=
  match hp !! c with Some cn => Ok (cn_dead cn) | None => Err Undefined end.

Definition decref_opt (hp : gmap Z connection) (ch : option Z) : res (gmap Z connection) :=
  match ch with Some c => conn_decref hp c | None => Ok hp end.

(** [dst] is what [connect_to_dst] returns when it is called: the address of a
    new connection, or NULL. *)
Definition get_refconn (st : channel) (ch : option Z) (dst : option (Z * connection))
    : res (channel * option Z) :=
  stale ← match ch_chan st with
          | None => Ok true
          | Some c => conn_isdead (ch_heap st) c
          end;
  st ← (if stale : bool then
          hp ← decref_opt (ch_heap st) (ch_chan st);
          Ok (match dst with
              | Some (p, cn) => Channel (Some p) (<[p := cn]> hp)
              | None => Channel None hp
              end)
        else Ok st);
  match ch_chan st with
  | Some c =>
      hp ← decref_opt (ch_heap st) ch;
      hp ← conn_incref hp c;
      Ok (Channel (ch_chan st) hp, Some c)
  | None => Ok (st, ch)
  end.

(** The end of [call1]. *)
Definition call1_decref (st : channel) (ch : option Z) : res channel :=
  hp ← decref_opt (ch_heap st) ch; Ok (Channel (ch_chan st) hp).

(** [~rpcc], with [n] calls in progress. *)
Definition delete_rpcc (st : channel) (n : Z) : res channel :=
  hp ← match ch_chan st with
       | None => Ok (ch_heap st)
       | Some c =>
           match ch_heap st !! c with
           | None => Err Undefined
           | Some cn => conn_decref (<[c := closeconn cn]> (ch_heap st)) c
           end
       end;
  _ ← VERIFY (n =? 0);
  Ok (Channel (ch_chan st) hp).

(** ** Calls in progress *)

(** A call: its [ch], and whether it is inside [connection::send]. *)
Abbreviation user := (option Z * bool)%type.

Record calls := Calls { cs_st : channel; cs_users : list user }.

Definition sender (us : list user) (c : Z) : Prop := (Some c, true) ∈ us.

(** Only a thread inside [send] has a buffer registered, and [send] clears it
    before it returns (Connection, [send_finish]). *)
Definition senders_ok (hp : gmap Z connection) (us : list user) : Prop :=
  forall c cn, hp !! c = Some cn -> cb_buf (cn_wpdu cn) <> None -> sender us c.

Inductive calls_step : calls -> calls -> Prop :=
  | CS_start st us : calls_step (Calls st us) (Calls st ((None, false) :: us))
  | CS_ref st us1 ch us2 dst st' ch' :
      (forall p cn, dst = Some (p, cn) ->
         ch_heap st !! p = None /\ exists fd lossy now, cn = new_connection fd lossy now) ->
      get_refconn st ch dst = Ok (st', ch') ->
      calls_step (Calls st (us1 ++ (ch, false) :: us2)) (Calls st' (us1 ++ (ch', false) :: us2))
  | CS_send st us1 c us2 :
      calls_step (Calls st (us1 ++ (Some c, false) :: us2)) (Calls st (us1 ++ (Some c, true) :: us2))
  | CS_sent st us1 c us2 :
      senders_ok (ch_heap st) (us1 ++ (Some c, false) :: us2) ->
      calls_step (Calls st (us1 ++ (Some c, true) :: us2)) (Calls st (us1 ++ (Some c, false) :: us2))
  | CS_conn st us c cn cn' :
      ch_heap st !! c = Some cn -> cn_refno cn' = cn_refno cn ->
      (cn_dead cn = true -> cn_dead cn' = true) ->
      senders_ok (<[c := cn']> (ch_heap st)) us ->
      calls_step (Calls st us) (Calls (Channel (ch_chan st) (<[c := cn']> (ch_heap st))) us)
  | CS_end st us1 ch us2 st' :
      call1_decref st ch = Ok st' ->
      calls_step (Calls st (us1 ++ (ch, false) :: us2)) (Calls st' (us1 ++ us2)).

Definition calls_reachable (s : calls) : Prop := rtc calls_step (Calls new_channel []) s.

(** ** Invariant *)

Definition held (ch : option Z) (c : Z) : Z := if decide (ch = Some c) then 1 else 0.
Definition refs (us : list user) (c : Z) : Z := foldr (fun u n => held u.1 c + n) 0 us.

(** [R] counts the references: every object has exactly that many, at least one,
    and every referenced object exists; an object that is not the current
    channel is dead; a registered buffer belongs to a call that is sending. *)
Record heap_inv (hp : gmap Z connection) (chan : option Z) (R : Z -> Z) (us : list user) : Prop := {
  hi_conn : forall c cn, hp !! c = Some cn ->
    cn_refno cn = R c /\ 0 < R c /\ (chan <> Some c -> cn_dead cn = true);
  hi_live : forall c, 0 < R c -> is_Some (hp !! c);
  hi_send : senders_ok hp us
}.

Definition calls_inv (s : calls) : Prop :=
  let chan := ch_chan (cs_st s) in
  heap_inv (ch_heap (cs_st s)) chan (fun c => held chan c + refs (cs_users s) c) (cs_users s).

Lemma held_range (ch : option Z) (c : Z) : 0 <= held ch c <= 1.
Proof. unfold held. case_decide; lia. Qed.

Lemma held_eq (c : Z) : held (Some c) c = 1.
Proof. unfold held. by rewrite decide_True. Qed.

Lemma held_ne (ch : option Z) (c : Z) : ch <> Some c -> held ch c = 0.
Proof. intros. unfold held. by rewrite decide_False. Qed.

Lemma refs_cons (u : user) (us : list user) (c : Z) : refs (u :: us) c = held u.1 c + refs us c.
Proof. reflexivity. Qed.

Lemma refs_nonneg (us : list user) (c : Z) : 0 <= refs us c.
Proof.
  induction us as [|u us IH]; [done|]. rewrite refs_cons. pose proof (held_range u.1 c). lia.
Qed.

Lemma refs_app (us1 us2 : list user) (c : Z) : refs (us1 ++ us2) c = refs us1 c + refs us2 c.
Proof. induction us1 as [|u us1 IH]; [done|]. cbn [app]. rewrite !refs_cons, IH. lia. Qed.

Lemma refs_middle (us1 us2 : list user) (u : user) (c : Z) :
  refs (us1 ++ u :: us2) c = held u.1 c + refs (us1 ++ us2) c.
Proof. rewrite !refs_app, refs_cons. lia. Qed.

Lemma sender_refs (us : list user) (c : Z) : sender us c -> 0 < refs us c.
Proof.
  unfold sender. intros (us1 & us2 & ->)%list_elem_of_split.
  rewrite refs_middle. cbn [fst]. rewrite held_eq. pose proof (refs_nonneg (us1 ++ us2) c). lia.
Qed.

Lemma heap_inv_ext (hp : gmap Z connection) (chan : option Z) (R R' : Z -> Z) (us us' : list user) :
  heap_inv hp chan R us -> (forall c, R' c = R c) -> (forall c, sender us c -> sender us' c) ->
  heap_inv hp chan R' us'.
Proof.
  intros [Hc Hl Hs] HR Hus. split.
  - intros c cn. rewrite HR. apply Hc.
  - intros c. rewrite HR. apply Hl.
  - intros c cn H Hb. eapply Hus, Hs; eauto.
Qed.

(** [decref] when nobody is sending on a connection that goes away. *)
Lemma conn_decref_eq (hp : gmap Z connection) (c : Z) (cn : connection) :
  hp !! c = Some cn -> 0 < cn_refno cn ->
  (cn_refno cn = 1 -> cn_dead cn = true /\ cb_buf (cn_wpdu cn) = None) ->
  conn_decref hp c = Ok (if decide (cn_refno cn = 1) then delete c hp
                         else <[c := set_refno cn (cn_refno cn - 1)]> hp).
Proof.
  intros Hcn Hp H1. unfold conn_decref. rewrite Hcn. unfold decref. cbn zeta.
  set (cn' := set_refno cn (cn_refno cn - 1)). change (cn_refno cn') with (cn_refno cn - 1).
  unfold VERIFY at 1. replace (cn_refno cn - 1 >=? 0) with true by lia. cbn [mbind res_bind].
  case_decide as E.
  - destruct (H1 E) as [Hd Hbuf]. unfold destroy, VERIFY.
    change (cn_dead cn') with (cn_dead cn). change (cn_wpdu cn') with (cn_wpdu cn).
    rewrite Hd, Hbuf. replace (cn_refno cn - 1 =? 0) with true by lia. done.
  - replace (cn_refno cn - 1 =? 0) with false by lia. done.
Qed.

(** Giving a reference up. [chan'] is the channel afterwards: if [c] is no longer
    it, [c] is dead. *)
Lemma decref_inv (hp : gmap Z connection) (chan chan' : option Z) (R : Z -> Z) (us : list user)
    (ch : option Z) :
  heap_inv hp chan R us ->
  (forall c, ch = Some c -> 0 < R c) -> (forall c, sender us c -> 0 < R c - held ch c) ->
  (forall c, chan' = Some c -> 0 < R c - held ch c) ->
  (forall c cn, chan' <> Some c -> hp !! c = Some cn -> cn_dead cn = true) ->
  exists hp', decref_opt hp ch = Ok hp' /\ heap_inv hp' chan' (fun c => R c - held ch c) us /\
    (forall c, hp !! c = None -> hp' !! c = None).
Proof.
  intros [Hc Hl Hs] Hpos Hsend Hchan Hdead. destruct ch as [c|]; cbn [decref_opt].
  2: { exists hp. split; [done|]. split; [|done]. split; try done.
       - intros c cn H. rewrite held_ne, Z.sub_0_r by done. destruct (Hc c cn H) as (? & ? & _).
         split_and!; eauto.
       - intros c. rewrite held_ne, Z.sub_0_r by done. auto. }
  destruct (Hl c (Hpos c eq_refl)) as [cn Hcn]. destruct (Hc c cn Hcn) as (Hr & Hp & _).
  assert (Hother : forall d, d <> c -> R d - held (Some c) d = R d) by
    (intros; rewrite held_ne by congruence; lia).
  rewrite (conn_decref_eq hp c cn Hcn); [|lia|].
  2: { intros H1. split.
       - eapply Hdead; [|done]. intros E. specialize (Hchan c E). rewrite held_eq in Hchan. lia.
       - destruct (cb_buf (cn_wpdu cn)) eqn:E; [|done]. exfalso.
         assert (Hsc : sender us c) by (eapply Hs; [done|congruence]).
         specialize (Hsend c Hsc). rewrite held_eq in Hsend. lia. }
  eexists. split; [reflexivity|]. case_decide as H1.
  - split; [|intros d Hn; by apply lookup_delete_None; right]. split.
    + intros d dn [Hne Hdn]%lookup_delete_Some. rewrite Hother by done.
      destruct (Hc d dn Hdn) as (? & ? & _). split_and!; eauto.
    + intros d. destruct (decide (d = c)) as [->|]; [rewrite held_eq; lia|].
      rewrite Hother, lookup_delete_ne by done. auto.
    + intros d dn [Hne Hdn]%lookup_delete_Some. by apply Hs.
  - split; [|intros d Hn; rewrite lookup_insert_ne; congruence]. split.
    + intros d dn [[<- <-]|[Hne Hdn]]%lookup_insert_Some.
      * rewrite held_eq. cbn. split_and!; [lia|lia|]. intros. by eapply Hdead.
      * rewrite Hother by done. destruct (Hc d dn Hdn) as (? & ? & _). split_and!; eauto.
    + intros d. destruct (decide (d = c)) as [->|]; [rewrite lookup_insert_eq; eauto|].
      rewrite Hother, lookup_insert_ne by done. auto.
    + intros d dn [[<- <-]|[Hne Hdn]]%lookup_insert_Some; [|by apply Hs].
      intros Hb. by apply (Hs c cn Hcn).
Qed.

Lemma incref_inv (hp : gmap Z connection) (chan : option Z) (R : Z -> Z) (us : list user) (c : Z) :
  heap_inv hp chan R us -> is_Some (hp !! c) ->
  exists hp', conn_incref hp c = Ok hp' /\ heap_inv hp' chan (fun d => R d + held (Some c) d) us.
Proof.
  intros [Hc Hl Hs] [cn Hcn]. unfold conn_incref. rewrite Hcn. eexists. split; [reflexivity|].
  split.
  - intros d dn [[<- <-]|[Hne Hdn]]%lookup_insert_Some.
    + rewrite held_eq. destruct (Hc c cn Hcn) as (? & ? & ?). cbn. split_and!; [lia|lia|done].
    + rewrite held_ne, Z.add_0_r by congruence. auto.
  - intros d Hd. destruct (decide (d = c)) as [->|]; [rewrite lookup_insert_eq; eauto|].
    rewrite lookup_insert_ne by done. apply Hl. rewrite held_ne in Hd by congruence. lia.
  - intros d dn [[<- <-]|[Hne Hdn]]%lookup_insert_Some Hb; [by apply (Hs c cn)|by apply (Hs d dn)].
Qed.

Lemma connect_inv (hp : gmap Z connection) (R : Z -> Z) (us : list user) (p : Z) fd lossy now :
  heap_inv hp None R us -> hp !! p = None -> (forall d, 0 <= R d) ->
  heap_inv (<[p := new_connection fd lossy now]> hp) (Some p) (fun d => R d + held (Some p) d) us.
Proof.
  intros [Hc Hl Hs] Hp Hnn.
  assert (HRp : R p = 0).
  { destruct (decide (0 < R p)) as [H|H]; [|specialize (Hnn p); lia].
    apply Hl in H. rewrite Hp in H. by destruct H. }
  split.
  - intros d dn [[<- <-]|[Hne Hdn]]%lookup_insert_Some.
    + rewrite held_eq, HRp. done.
    + rewrite held_ne, Z.add_0_r by congruence. destruct (Hc d dn Hdn) as (? & ? & Hd).
      split_and!; [done|done|]. intros _. by apply Hd.
  - intros d Hd. destruct (decide (d = p)) as [->|]; [rewrite lookup_insert_eq; eauto|].
    rewrite lookup_insert_ne by done. apply Hl. rewrite held_ne in Hd by congruence. lia.
  - intros d dn [[<- <-]|[Hne Hdn]]%lookup_insert_Some Hb; [done|by apply (Hs d dn)].
Qed.

Lemma sender_middle (us1 us2 : list user) (ch : option Z) (c : Z) :
  sender (us1 ++ (ch, false) :: us2) c <-> sender (us1 ++ us2) c.
Proof. unfold sender. rewrite !elem_of_app, elem_of_cons. naive_solver. Qed.

(** The second half of [get_refconn]: the call's old reference is exchanged. *)
Lemma exchange_inv (hp : gmap Z connection) (c : Z) (ch : option Z) (us : list user) :
  heap_inv hp (Some c) (fun d => held (Some c) d + (held ch d + refs us d)) us ->
  exists hp' hp'', decref_opt hp ch = Ok hp' /\ conn_incref hp' c = Ok hp'' /\
    heap_inv hp'' (Some c) (fun d => held (Some c) d + (held (Some c) d + refs us d)) us.
Proof.
  intros Hi.
  destruct (decref_inv hp (Some c) (Some c) _ us ch Hi) as (hp' & E & Hi' & _).
  - intros d ->. rewrite held_eq. pose proof (held_range (Some c) d). pose proof (refs_nonneg us d). lia.
  - intros d Hd%sender_refs. pose proof (held_range (Some c) d). lia.
  - intros d [= <-]. rewrite held_eq. pose proof (refs_nonneg us c). lia.
  - intros d dn Hne Hd. by apply (hi_conn _ _ _ _ Hi d dn Hd).
  - destruct (incref_inv hp' (Some c) _ us c Hi') as (hp'' & E' & Hi'').
    + apply (hi_live _ _ _ _ Hi'). rewrite held_eq. pose proof (refs_nonneg us c). lia.
    + exists hp', hp''. split_and!; [done|done|].
      eapply heap_inv_ext; [exact Hi''| |done]. intros d. cbn beta. lia.
Qed.

(** The first half: a dead channel is replaced. *)
Lemma renew_inv (st : channel) (ch : option Z) (us : list user) (dst : option (Z * connection)) :
  heap_inv (ch_heap st) (ch_chan st) (fun d => held (ch_chan st) d + (held ch d + refs us d)) us ->
  (forall c cn, ch_chan st = Some c -> ch_heap st !! c = Some cn -> cn_dead cn = true) ->
  (forall p cn, dst = Some (p, cn) ->
     ch_heap st !! p = None /\ exists fd lossy now, cn = new_connection fd lossy now) ->
  exists hp, decref_opt (ch_heap st) (ch_chan st) = Ok hp /\
    match dst with
    | Some (p, cn) =>
        heap_inv (<[p := cn]> hp) (Some p) (fun d => held (Some p) d + (held ch d + refs us d)) us
    | None => heap_inv hp None (fun d => held None d + (held ch d + refs us d)) us
    end.
Proof.
  intros Hi Hd Hdst.
  assert (Hnn : forall d, 0 <= held ch d + refs us d).
  { intros d. pose proof (held_range ch d). pose proof (refs_nonneg us d). lia. }
  destruct (decref_inv _ _ None _ us (ch_chan st) Hi) as (hp & E & Hi' & Hnone).
  - intros d ->. rewrite held_eq. specialize (Hnn d). lia.
  - intros d Hs%sender_refs. pose proof (held_range ch d). lia.
  - done.
  - intros d dn _ Hdn. destruct (decide (ch_chan st = Some d)) as [Ec|Ec]; [by eapply Hd|].
    by apply (hi_conn _ _ _ _ Hi d dn Hdn).
  - exists hp. split; [done|]. destruct dst as [[p cn]|].
    + destruct (Hdst p cn eq_refl) as (Hp & fd & lossy & now & ->).
      eapply heap_inv_ext; [eapply connect_inv; [exact Hi'|by apply Hnone|]| |done];
        intros d; cbn beta; specialize (Hnn d); lia.
    + eapply heap_inv_ext; [exact Hi'| |done]. intros d. cbn beta. rewrite (held_ne None d) by done. lia.
Qed.

Lemma get_refconn_inv (st : channel) (us1 us2 : list user) (ch : option Z) (dst : option (Z * connection)) :
  calls_inv (Calls st (us1 ++ (ch, false) :: us2)) ->
  (forall p cn, dst = Some (p, cn) ->
     ch_heap st !! p = None /\ exists fd lossy now, cn = new_connection fd lossy now) ->
  exists st' ch', get_refconn st ch dst = Ok (st', ch') /\
    calls_inv (Calls st' (us1 ++ (ch', false) :: us2)) /\ (ch_chan st' <> None -> ch' = ch_chan st').
Proof.
  intros Hi Hdst. set (us := us1 ++ us2).
  assert (Hback : forall hp chan ch', heap_inv hp chan (fun d => held chan d + (held ch' d + refs us d)) us ->
    calls_inv (Calls (Channel chan hp) (us1 ++ (ch', false) :: us2))).
  { intros hp chan ch' H. eapply heap_inv_ext; [exact H| |].
    - intros d. cbn [cs_st cs_users ch_chan]. rewrite refs_middle. cbn [fst]. unfold us. lia.
    - intros d Hs. by apply sender_middle. }
  assert (Hi0 : heap_inv (ch_heap st) (ch_chan st) (fun d => held (ch_chan st) d + (held ch d + refs us d)) us).
  { eapply heap_inv_ext; [exact Hi| |].
    - intros d. cbn [cs_st cs_users ch_chan]. rewrite refs_middle. cbn [fst]. unfold us. lia.
    - intros d Hs. by apply sender_middle in Hs. }
  assert (Hstale : exists b, match ch_chan st with None => Ok true | Some c => conn_isdead (ch_heap st) c end = Ok b /\
    (b = true -> forall c cn, ch_chan st = Some c -> ch_heap st !! c = Some cn -> cn_dead cn = true) /\
    (b = false -> exists c, ch_chan st = Some c)).
  { destruct (ch_chan st) as [c|]; [|exists true; split_and!; [done..|congruence]].
    destruct (hi_live _ _ _ _ Hi0 c) as [cn Hcn].
    { rewrite held_eq. pose proof (held_range ch c). pose proof (refs_nonneg us c). lia. }
    exists (cn_dead cn). unfold conn_isdead. rewrite Hcn. split_and!; [done| |by eauto].
    intros Hb c' cn' [= <-] H. congruence. }
  destruct Hstale as (b & E & Hdead & Halive). unfold get_refconn. rewrite E. cbn [mbind res_bind].
  destruct b.
  - destruct (renew_inv st ch us dst Hi0 (Hdead eq_refl) Hdst) as (hp & -> & H). cbn [mbind res_bind].
    destruct dst as [[p cn]|]; cbn [ch_chan ch_heap].
    + destruct (exchange_inv _ p ch us H) as (hp' & hp'' & -> & E2 & H'). cbn [mbind res_bind].
      rewrite E2. cbn [mbind res_bind]. do 2 eexists. split_and!; [reflexivity|by apply Hback|done].
    + do 2 eexists. split_and!; [reflexivity|by apply Hback|done].
  - destruct (Halive eq_refl) as [c Hc]. cbn [mbind res_bind]. rewrite Hc in *.
    destruct (exchange_inv _ c ch us Hi0) as (hp' & hp'' & -> & E2 & H'). cbn [mbind res_bind].
    rewrite E2. cbn [mbind res_bind]. do 2 eexists. split_and!; [reflexivity|by apply Hback|done].
Qed.

Lemma call1_decref_inv (st : channel) (us1 us2 : list user) (ch : option Z) :
  calls_inv (Calls st (us1 ++ (ch, false) :: us2)) ->
  exists st', call1_decref st ch = Ok st' /\ calls_inv (Calls st' (us1 ++ us2)).
Proof.
  intros Hi. unfold calls_inv in Hi. cbn [cs_st cs_users] in Hi.
  destruct (decref_inv _ _ (ch_chan st) _ _ ch Hi) as (hp & E & Hi' & _).
  - intros d ->. rewrite refs_middle. cbn [fst]. rewrite held_eq.
    pose proof (held_range (ch_chan st) d). pose proof (refs_nonneg (us1 ++ us2) d). lia.
  - intros d Hs%sender_middle%sender_refs. rewrite refs_middle. cbn [fst].
    pose proof (held_range (ch_chan st) d). lia.
  - intros d ->. rewrite refs_middle. cbn [fst]. rewrite held_eq.
    pose proof (refs_nonneg (us1 ++ us2) d). lia.
  - intros d dn Hne Hdn. by apply (hi_conn _ _ _ _ Hi d dn Hdn).
  - unfold call1_decref. rewrite E. cbn [mbind res_bind]. eexists. split; [reflexivity|].
    eapply heap_inv_ext; [exact Hi'| |].
    + intros d. cbn [cs_st cs_users ch_chan]. rewrite refs_middle. cbn [fst]. lia.
    + intros d Hs. by apply sender_middle in Hs.
Qed.

Lemma calls_step_inv (s s' : calls) : calls_inv s -> calls_step s s' -> calls_inv s'.
Proof.
  intros Hi Hs. inversion Hs; subst; clear Hs.
  - eapply heap_inv_ext; [exact Hi| |]; cbn [cs_st cs_users].
    + intros d. rewrite refs_cons. cbn [fst]. rewrite (held_ne None d) by done. lia.
    + intros d Hd. by apply list_elem_of_further.
  - destruct (get_refconn_inv st us1 us2 ch dst Hi H) as (? & ? & E & Hi' & _). congruence.
  - eapply heap_inv_ext; [exact Hi| |]; cbn [cs_st cs_users].
    + intros d. by rewrite !refs_middle.
    + intros d. unfold sender. set_solver.
  - destruct Hi as [Hc Hl _]. split; [|intros d Hd; apply Hl|exact H]; cbn [cs_st cs_users] in *.
    + intros d dn Hdn. specialize (Hc d dn Hdn). by rewrite !refs_middle in *.
    + by rewrite !refs_middle in *.
  - destruct Hi as [Hc Hl _]. split; cbn [cs_st cs_users ch_chan ch_heap] in *; [| |done].
    + intros d dn [[<- <-]|[Hne Hdn]]%lookup_insert_Some; [|by apply Hc].
      destruct (Hc c cn H) as (? & ? & ?). split_and!; [congruence|done|auto].
    + intros d Hd. destruct (decide (d = c)) as [->|]; [rewrite lookup_insert_eq; eauto|].
      rewrite lookup_insert_ne by done. auto.
  - destruct (call1_decref_inv st us1 us2 ch Hi) as (? & E & Hi'). congruence.
Qed.

Lemma calls_reachable_inv (s : calls) : calls_reachable s -> calls_inv s.
Proof.
  intros Hr. unfold calls_reachable in Hr.
  assert (H0 : calls_inv (Calls new_channel [])).
  { split; cbn; done. }
  revert H0. induction Hr as [|x y z Hs _ IH]; [done|]. intros H0. apply IH.
  by eapply calls_step_inv.
Qed.

(** With no call in progress, the destructor frees the one connection left. *)
Lemma delete_rpcc_frees (st : channel) :
  calls_inv (Calls st []) -> exists st', delete_rpcc st 0 = Ok st' /\ ch_heap st' = ∅.
Proof.
  intros [Hc Hl Hs]. cbn [cs_st cs_users] in *.
  assert (Honly : forall d dn, ch_heap st !! d = Some dn -> ch_chan st = Some d /\ cn_refno dn = 1).
  { intros d dn Hd. destruct (Hc d dn Hd) as (Hr & Hp & _). cbn [refs foldr] in *.
    unfold held in *. case_decide; [split; [done|lia]|lia]. }
  unfold delete_rpcc. destruct (ch_chan st) as [c|] eqn:Ec.
  - destruct (Hl c) as [cn Hcn]; [rewrite held_eq; cbn; lia|]. rewrite Hcn.
    destruct (Honly c cn Hcn) as [_ H1].
    assert (Hr : cn_refno (closeconn cn) = 1) by (unfold closeconn; by destruct (cn_dead cn)).
    rewrite (conn_decref_eq _ c (closeconn cn)); [|by rewrite lookup_insert_eq|lia|].
    + rewrite decide_True by done. cbn. eexists. split; [reflexivity|]. cbn.
      apply map_eq. intros d. rewrite lookup_empty. destruct (decide (d = c)) as [->|Hne].
      { apply lookup_delete_eq. }
      rewrite lookup_delete_ne, lookup_insert_ne by done.
      destruct (ch_heap st !! d) as [dn|] eqn:Ed; [|done]. destruct (Honly d dn Ed). congruence.
    + intros _. split; [unfold closeconn; by destruct (cn_dead cn) eqn:?|].
      destruct (cb_buf (cn_wpdu cn)) eqn:Eb.
      * exfalso. assert (sender [] c) as Hx by (eapply Hs; [done|congruence]). by apply elem_of_nil in Hx.
      * unfold closeconn. by destruct (cn_dead cn).
  - cbn. eexists. split; [reflexivity|]. cbn. apply map_eq. intros d. rewrite lookup_empty.
    destruct (ch_heap st !! d) as [dn|] eqn:Ed; [|done]. destruct (Honly d dn Ed). congruence.
Qed.

(** * Properties *)

(** C28. The life of a client's connections. However calls come and go, connections
    break and are replaced: every connection object carries exactly as many
    references as the channel and the running calls hold to it, and exists
    exactly as long as there is one (none is leaked, none is freed early);
    fetching the channel and finishing a call never touch a freed connection,
    and a call that gets a connection gets the current one; and when no call is
    left, the destructor frees the last. *)
Theorem channel_references (s : calls) : calls_reachable s ->
  (forall c, is_Some (ch_heap (cs_st s) !! c) <-> 0 < held (ch_chan (cs_st s)) c + refs (cs_users s) c) /\
  (forall c cn, ch_heap (cs_st s) !! c = Some cn ->
     cn_refno cn = held (ch_chan (cs_st s)) c + refs (cs_users s) c) /\
  (forall us1 ch us2, cs_users s = us1 ++ (ch, false) :: us2 ->
     (exists st', call1_decref (cs_st s) ch = Ok st') /\
     forall dst, (forall p cn, dst = Some (p, cn) ->
         ch_heap (cs_st s) !! p = None /\ exists fd lossy now, cn = new_connection fd lossy now) ->
       exists st' ch', get_refconn (cs_st s) ch dst = Ok (st', ch') /\
         (ch_chan st' <> None -> ch' = ch_chan st')) /\
  (cs_users s = [] -> exists st', delete_rpcc (cs_st s) 0 = Ok st' /\ ch_heap st' = ∅).
Proof.
  intros Hi%calls_reachable_inv. destruct s as [st us]; cbn [cs_st cs_users] in *.
  pose proof Hi as [Hc Hl Hs]. cbn [cs_st cs_users] in *. split_and!.
  - intros c. split; [|apply Hl]. intros [cn Hcn]. by apply (Hc c cn).
  - intros c cn Hcn. by apply Hc.
  - intros us1 ch us2 ->. split.
    + destruct (call1_decref_inv st us1 us2 ch Hi) as (st' & E & _). eauto.
    + intros dst Hdst. destruct (get_refconn_inv st us1 us2 ch dst Hi Hdst) as (st' & ch' & E & _ & Hch).
      eauto.
  - intros ->. by apply delete_rpcc_frees.
Qed.

(** One call on a fresh connection. *)
Definition one_call : calls :=
  Calls (Channel (Some 5) {[5 := set_refno (new_connection 9 0 (100, 0)) 2]}) [(Some 5, false)].

Lemma one_call_reachable : calls_reachable one_call.
Proof.
  eapply rtc_l; [apply CS_start|].
  eapply rtc_l; [|apply rtc_refl].
  apply (CS_ref new_channel [] None [] (Some (5, new_connection 9 0 (100, 0))));
    [|vm_compute; reflexivity].
  intros p cn [= <- <-]. split; [reflexivity|]. by exists 9, 0, (100, 0).
Defined.

Lemma channel_references_witness :
  calls_reachable one_call /\ exists st', call1_decref (cs_st one_call) (Some 5) = Ok st'.
Proof.
  split; [apply one_call_reachable|].
  destruct (channel_references one_call one_call_reachable) as (_ & _ & H & _).
  exact (proj1 (H [] (Some 5) [] eq_refl)).
Defined.
