(* ===== verification/Fifo.v ===== *)
(** * The bounded queue and the thread pool

    [fifo] of src/rpc/fifo.h and [ThrPool] of src/rpc/thr_pool.h and
    src/rpc/thr_pool.cc. A call that blocks is a step that is not enabled. *)
From S2P Require Import Prelude.

Section fifo.
Context {T : Type}.

Record fifo := Fifo { q_ : list T; max_ : Z }.

(** The limit is an [int] stored as [unsigned int]. *)
Definition new_fifo (limit : Z) : fifo := Fifo [] (u32 limit).

(** The result is a [bool]. *)
Definition fifo_size (f : fifo) : bool := negb (zlen (q_ f) =? 0).

Definition has_space (f : fifo) : bool := (max_ f =? 0) || (zlen (q_ f) <? max_ f).

(** [None]: the caller waits for space. *)
Definition enq (f : fifo) (e : T) (blocking : bool) : option (bool * fifo) :=
  if has_space f then Some (true, Fifo (q_ f ++ [e]) (max_ f))
  else if blocking then None else Some (false, f).

(** [None]: the caller waits for an element. *)
Definition deq (f : fifo) : option (T * fifo) :=
  match q_ f with
  | [] => None
  | e :: q => Some (e, Fifo q (max_ f))
  end.

(** Any interleaving of the two operations, with what went in and out, oldest
    first. *)
Inductive fifo_run (limit : Z) : list T -> list T -> fifo -> Prop :=
  | fr_new : fifo_run limit [] [] (new_fifo limit)
  | fr_enq ins outs f e b f' :
      fifo_run limit ins outs f -> enq f e b = Some (true, f') ->
      fifo_run limit (ins ++ [e]) outs f'
  | fr_refused ins outs f e f' :
      fifo_run limit ins outs f -> enq f e false = Some (false, f') ->
      fifo_run limit ins outs f'
  | fr_deq ins outs f e f' :
      fifo_run limit ins outs f -> deq f = Some (e, f') ->
      fifo_run limit ins (outs ++ [e]) f'.

Lemma fifo_run_spec limit ins outs f :
  fifo_run limit ins outs f ->
  ins = outs ++ q_ f /\ max_ f = u32 limit /\ (max_ f <> 0 -> zlen (q_ f) <= max_ f).
Proof.
  induction 1 as [|ins outs f e b f' _ (IH1 & IH2 & IH3) E|ins outs f e f' _ (IH1 & IH2 & IH3) E
    |ins outs f e f' _ (IH1 & IH2 & IH3) E].
  - split_and!; [done|done|]. intros _. apply wrapU_range. lia.
  - unfold enq, has_space in E. destruct (Z.eqb_spec (max_ f) 0) as [E0|E0]; simpl in E.
    + injection E as <-. simpl. rewrite IH1, app_assoc. split_and!; [done|done|done].
    + destruct (Z.ltb_spec (zlen (q_ f)) (max_ f)); [|by destruct b].
      injection E as <-. simpl. rewrite IH1, app_assoc. split_and!; [done|done|].
      intros _. unfold zlen in *. rewrite length_app. simpl. lia.
  - unfold enq in E. destruct (has_space f); [done|]. by injection E as <-.
  - unfold deq in E. destruct (q_ f) as [|x q] eqn:Eq; [done|]. injection E as <- <-. simpl.
    rewrite IH1, <- app_assoc. split_and!; [done|done|]. intros Hm. specialize (IH3 Hm).
    unfold zlen in *. simpl in IH3. lia.
Qed.
End fifo.
Arguments fifo : clear implicits.

(** ** The thread pool *)

Section pool.
Context {J : Type}.

(** A job, or the null function pointer that tells a worker to exit. *)
Abbreviation pool_job := (option J).

Record ThrPool := Pool { tp_nthreads : Z; tp_blockadd : bool; tp_jobq : fifo pool_job }.

Definition new_ThrPool (sz : Z) (blocking : bool) : ThrPool := Pool sz blocking (new_fifo (100 * sz)).

Definition addJob (p : ThrPool) (j : J) : option (bool * ThrPool) :=
  match enq (tp_jobq p) (Some j) (tp_blockadd p) with
  | Some (ok, q) => Some (ok, Pool (tp_nthreads p) (tp_blockadd p) q)
  | None => None
  end.

(** The job taken, [None] inside when the worker must exit. *)
Definition takeJob (p : ThrPool) : option (pool_job * ThrPool) :=
  match deq (tp_jobq p) with
  | Some (j, q) => Some (j, Pool (tp_nthreads p) (tp_blockadd p) q)
  | None => None
  end.

(** Destruction: the destructor queues one null job per thread (each of its
    blocking [enq]s when there is space) and then waits for the workers, which
    take jobs and run them until they take a null one. *)
Record closing := Closing {
  cg_pool : ThrPool;
  cg_pills : nat;             (* null jobs still to be queued *)
  cg_live : nat;              (* workers that have not exited *)
  cg_done : list J            (* jobs run so far, oldest first *)
}.

Inductive closing_step : closing -> closing -> Prop :=
  | cs_pill p n live d q :
      enq (tp_jobq p) None true = Some (true, q) ->
      closing_step (Closing p (S n) live d)
        (Closing (Pool (tp_nthreads p) (tp_blockadd p) q) n live d)
  | cs_job p n live d j p' :
      takeJob p = Some (Some j, p') ->
      closing_step (Closing p n (S live) d) (Closing p' n (S live) (d ++ [j]))
  | cs_exit p n live d p' :
      takeJob p = Some (None, p') ->
      closing_step (Closing p n (S live) d) (Closing p' n live d).

(** The jobs that were queued before come first, then one null job for every
    live worker; no worker exits before the last job is taken. *)
Definition closing_inv (n : nat) (jobs : list J) (c : closing) : Prop :=
  0 <= max_ (tp_jobq (cg_pool c)) /\
  exists rest m, cg_done c ++ rest = jobs /\ (m + cg_pills c = cg_live c)%nat /\
    (cg_live c = n \/ rest = []) /\
    q_ (tp_jobq (cg_pool c)) = (Some <$> rest) ++ replicate m None.

Lemma closing_step_inv n0 jobs c c' :
  closing_step c c' -> closing_inv n0 jobs c -> closing_inv n0 jobs c'.
Proof.
  intros Hs (Hmax & rest & m & Hd & Hm & Hl & Hq).
  destruct Hs as [p n live d q E|p n live d j p' E|p n live d p' E]; simpl in *.
  - unfold enq in E. destruct (has_space (tp_jobq p)); [|done]. injection E as <-. split; [done|].
    exists rest, (S m). split_and!; [done|simpl; lia|done|]. simpl. rewrite Hq, <- app_assoc.
    by rewrite replicate_cons_app.
  - unfold takeJob, deq in E. rewrite Hq in E. destruct rest as [|j' rest]; simpl in E.
    + destruct m; simpl in E; [done|]. by injection E as ? <-.
    + injection E as <- <-. split; [done|]. exists rest, m. simpl. rewrite <- app_assoc.
      split_and!; [done|done| |done]. left. by destruct Hl.
  - unfold takeJob, deq in E. rewrite Hq in E. destruct rest as [|j' rest]; simpl in E; [|done].
    destruct m as [|m]; simpl in E; [done|]. injection E as <-. split; [done|]. exists [], m. simpl.
    split_and!; [done|lia|by right|done].
Qed.

(** Steps left: each null job is queued and taken, each job is taken. *)
Definition closing_measure (c : closing) : nat :=
  2 * cg_pills c + length (q_ (tp_jobq (cg_pool c))).

Lemma closing_step_measure c c' : closing_step c c' -> (closing_measure c' < closing_measure c)%nat.
Proof.
  unfold closing_measure. intros [p n live d q E|p n live d j p' E|p n live d p' E]; simpl.
  - unfold enq in E. destruct (has_space (tp_jobq p)); [|done]. injection E as <-. simpl.
    rewrite length_app. simpl. lia.
  - unfold takeJob, deq in E. destruct (q_ (tp_jobq p)); [done|]. injection E as -> <-. simpl. lia.
  - unfold takeJob, deq in E. destruct (q_ (tp_jobq p)); [done|]. injection E as -> <-. simpl. lia.
Qed.

Lemma closing_progress n0 jobs c :
  closing_inv n0 jobs c -> cg_live c <> 0%nat -> exists c', closing_step c c'.
Proof.
  intros (Hmax & rest & m & Hd & Hm & _ & Hq) Hl. destruct c as [p n live d]. simpl in *.
  destruct live as [|live]; [done|].
  destruct (q_ (tp_jobq p)) as [|j q] eqn:Eq.
  - destruct n as [|n].
    + destruct rest; [|done]. destruct m; [lia|done].
    + eexists. apply cs_pill. unfold enq, has_space. rewrite Eq. simpl.
      destruct (Z.eqb_spec (max_ (tp_jobq p)) 0) as [E0|E0]; simpl; [done|].
      destruct (Z.ltb_spec (zlen (@nil pool_job)) (max_ (tp_jobq p))); [done|].
      unfold zlen in *. simpl in *. lia.
  - destruct j as [j|].
    + eexists. apply cs_job. unfold takeJob, deq. by rewrite Eq.
    + eexists. apply cs_exit. unfold takeJob, deq. by rewrite Eq.
Qed.
End pool.
Arguments ThrPool : clear implicits.
Arguments closing : clear implicits.

(** * Properties *)

(** The queue is first-in first-out and never exceeds its limit: in any
    interleaving of producers and consumers, what came out followed by what is
    queued is what went in, in order, and a refused element is not queued. *)
Theorem fifo_order {T} limit (ins outs : list T) f :
  fifo_run limit ins outs f ->
  ins = outs ++ q_ f /\ (max_ f <> 0 -> zlen (q_ f) <= max_ f).
Proof. intros (H1 & _ & H2)%fifo_run_spec. done. Qed.


(** ** Witnesses *)

Lemma fifo_order_witness :
  exists f, fifo_run 2 [7; 8] [7] f /\ [7; 8] = [7] ++ q_ f.
Proof.
  assert (Hr : fifo_run 2 [7; 8] [7] (Fifo [8] 2)).
  { apply (fr_deq 2 [7; 8] [] (Fifo [7; 8] 2)); [|reflexivity].
    apply (fr_refused 2 [7; 8] [] (Fifo [7; 8] 2) 9); [|reflexivity].
    apply (fr_enq 2 [7] [] (Fifo [7] 2) 8 true); [|reflexivity].
    apply (fr_enq 2 [] [] (Fifo [] 2) 7 true); [|reflexivity]. apply fr_new. }
  exists (Fifo [8] 2). split; [exact Hr|]. exact (proj1 (fifo_order 2 _ _ _ Hr)).
Defined.

