(* ===== verification/PollMgr.v ===== *)
(** * The poll manager

    src/rpc/pollmgr.h and src/rpc/pollmgr.cc: [SelectAIO] and [EPollAIO], which
    keep the set of watched descriptors, and [PollMgr], whose thread waits for
    ready descriptors and runs their callbacks while other threads register and
    remove them. *)
From S2P Require Import Prelude.

Definition MAX_POLL_FDS : Z := 128.

Inductive poll_flag := CB_NONE | CB_RDONLY | CB_WRONLY | CB_RDWR.
Definition flag_bits (f : poll_flag) : Z :=
  match f with CB_NONE => 0 | CB_RDONLY => 0x1 | CB_WRONLY => 0x10 | CB_RDWR => 0x11 end.
Definition CB_MASK : Z := Z.lnot 0x11.

(** ** SelectAIO *)

Record SelectAIO := Select {
  sa_rfds : gset Z;
  sa_wfds : gset Z;
  sa_highfds : Z;
  sa_pipe : Z                    (* pipefd_[0] *)
}.

Definition new_SelectAIO (pipe : Z) : SelectAIO := Select {[pipe]} ∅ pipe pipe.

(** [FD_SET], [FD_CLR] and [FD_ISSET] are defined on [0 <= fd < FD_SETSIZE]. *)
Definition FD_SETSIZE : Z := 1024.
Definition fd_ok (fd : Z) : res unit := defined_if ((0 <=? fd) && (fd <? FD_SETSIZE)).

Definition sa_watch_fd (a : SelectAIO) (fd : Z) (flag : poll_flag) : res SelectAIO :=
  _ ← fd_ok fd;
  let high := if sa_highfds a <=? fd then fd else sa_highfds a in
  Ok (match flag with
      | CB_RDONLY => Select ({[fd]} ∪ sa_rfds a) (sa_wfds a) high (sa_pipe a)
      | CB_WRONLY => Select (sa_rfds a) ({[fd]} ∪ sa_wfds a) high (sa_pipe a)
      | _ => Select ({[fd]} ∪ sa_rfds a) ({[fd]} ∪ sa_wfds a) high (sa_pipe a)
      end).

Definition sa_is_watched (a : SelectAIO) (fd : Z) (flag : poll_flag) : res bool :=
  _ ← fd_ok fd;
  Ok (match flag with
      | CB_RDONLY => bool_decide (fd ∈ sa_rfds a)
      | CB_WRONLY => bool_decide (fd ∈ sa_wfds a)
      | _ => bool_decide (fd ∈ sa_rfds a) && bool_decide (fd ∈ sa_wfds a)
      end).

(** The loop that looks for the highest descriptor still set. *)
Definition find_high (r w : gset Z) (pipe high : Z) : Z :=
  fold_left (fun newh i => if bool_decide (i ∈ r) then i else if bool_decide (i ∈ w) then i else newh)
    (seqZ 0 (high + 1)) pipe.

Definition sa_unwatch_fd (a : SelectAIO) (fd : Z) (flag : poll_flag) : res (bool * SelectAIO) :=
  _ ← fd_ok fd;
  '(r, w) ← match flag with
            | CB_RDONLY => Ok (sa_rfds a ∖ {[fd]}, sa_wfds a)
            | CB_WRONLY => Ok (sa_rfds a, sa_wfds a ∖ {[fd]})
            | CB_RDWR => Ok (sa_rfds a ∖ {[fd]}, sa_wfds a ∖ {[fd]})
            | CB_NONE => Err Verify_failed
            end;
  let clear := bool_decide (fd ∉ r) && bool_decide (fd ∉ w) in
  let high := if clear && (fd =? sa_highfds a) then find_high r w (sa_pipe a) (sa_highfds a)
              else sa_highfds a in
  Ok (clear, Select r w high (sa_pipe a)).

(** [wait_ready]: [ready_r] and [ready_w] are what [select] left set. The
    descriptors are reported in increasing order. *)
Definition sa_wait_ready (a : SelectAIO) (ready_r ready_w : gset Z) : list Z * list Z :=
  (filter (fun fd => fd <> sa_pipe a /\ fd ∈ ready_r) (seqZ 0 (sa_highfds a + 1)),
   filter (fun fd => ~ (fd = sa_pipe a /\ fd ∈ ready_r) /\ fd ∈ ready_w) (seqZ 0 (sa_highfds a + 1))).

(** What [select (high + 1, ...)] leaves set when [R] and [W] are the
    descriptors that are ready: those that are watched and below [high + 1]. *)
Definition select_fds (watched : gset Z) (high : Z) (ready : gset Z) : gset Z :=
  filter (fun fd => fd <= high) (ready ∩ watched).
Definition sa_poll (a : SelectAIO) (R W : gset Z) : list Z * list Z :=
  sa_wait_ready a (select_fds (sa_rfds a) (sa_highfds a) R) (select_fds (sa_wfds a) (sa_highfds a) W).

(** ** EPollAIO *)

Definition EPOLLIN : Z := 0x1.
Definition EPOLLOUT : Z := 0x4.
Definition EPOLLET : Z := 0x80000000.

Inductive epoll_op := EPOLL_CTL_ADD | EPOLL_CTL_MOD | EPOLL_CTL_DEL.

Definition epoll_events (status : Z) : Z :=
  let ev := EPOLLET in
  let ev := if negb (Z.land status (flag_bits CB_RDONLY) =? 0) then Z.lor ev EPOLLIN else ev in
  if negb (Z.land status (flag_bits CB_WRONLY) =? 0) then Z.lor ev EPOLLOUT else ev.

(** The status array and the [epoll_ctl] call made ([fd_status] is 0 where the
    map has nothing); a descriptor that is not an index of the array is
    undefined behaviour. *)
Definition fd_status (m : gmap Z Z) (fd : Z) : Z := default 0 (m !! fd).

Definition ep_watch_fd (m : gmap Z Z) (fd : Z) (flag : poll_flag) : res (epoll_op * Z * gmap Z Z) :=
  _ ← VERIFY (fd <? MAX_POLL_FDS);
  _ ← defined_if (0 <=? fd);
  let op := if fd_status m fd =? 0 then EPOLL_CTL_ADD else EPOLL_CTL_MOD in
  let status := Z.lor (fd_status m fd) (flag_bits flag) in
  let events := epoll_events status in
  _ ← VERIFY (match flag with
              | CB_RDWR => events =? Z.lor (Z.lor EPOLLET EPOLLIN) EPOLLOUT
              | _ => true
              end);
  Ok (op, events, <[fd := status]> m).

Definition ep_unwatch_fd (m : gmap Z Z) (fd : Z) (flag : poll_flag)
    : res (bool * epoll_op * Z * gmap Z Z) :=
  _ ← VERIFY (fd <? MAX_POLL_FDS);
  _ ← defined_if (0 <=? fd);
  let status := Z.land (fd_status m fd) (Z.lnot (flag_bits flag)) in
  let op := if status =? 0 then EPOLL_CTL_DEL else EPOLL_CTL_MOD in
  _ ← VERIFY (match flag with CB_RDWR => status =? 0 | _ => true end);
  Ok (status =? 0, op, epoll_events status, <[fd := status]> m).

Definition ep_is_watched (m : gmap Z Z) (fd : Z) (flag : poll_flag) : res bool :=
  _ ← VERIFY (fd <? MAX_POLL_FDS);
  _ ← defined_if (0 <=? fd);
  Ok (Z.land (fd_status m fd) CB_MASK =? flag_bits flag).

Definition ep_wait_ready (ready : list (Z * Z)) : list Z * list Z :=
  ((filter (fun p => Z.land p.1 EPOLLIN <> 0) ready).*2,
   (filter (fun p => Z.land p.1 EPOLLOUT <> 0) ready).*2).

(** ** PollMgr *)

(** Where the poll thread is: at the top of its loop, about to copy the watched
    sets, in [select] with its copy, or running callbacks, with the callback it
    is in and those still to come (read callbacks are tagged [true]). *)
Inductive poll_phase :=
  | Ph_top
  | Ph_copy
  | Ph_wait (snap : SelectAIO)
  | Ph_run (cur : option Z) (todo : list (bool * Z)).

Record PollMgr := Poll {
  pm_aio : SelectAIO;
  pm_callbacks : gmap Z Z;       (* descriptor to callback object; absent: NULL *)
  pm_pending : bool;
  pm_phase : poll_phase;
  pm_removing : gset Z;          (* block_remove_fd waits for changedone_c_ *)
  pm_woken : gset Z              (* woken, has not cleared its callback yet *)
}.

Definition new_PollMgr (pipe : Z) : PollMgr := Poll (new_SelectAIO pipe) ∅ false Ph_top ∅ ∅.

Definition pm_set (p : PollMgr) (a : SelectAIO) (cb : gmap Z Z) : PollMgr :=
  Poll a cb (pm_pending p) (pm_phase p) (pm_removing p) (pm_woken p).

(** [callbacks_[fd]] is an access inside the array. *)
Definition cb_ok (fd : Z) : res unit := defined_if ((0 <=? fd) && (fd <? MAX_POLL_FDS)).

Definition add_callback (p : PollMgr) (fd : Z) (flag : poll_flag) (ch : Z) : res PollMgr :=
  _ ← VERIFY (fd <? MAX_POLL_FDS);
  a ← sa_watch_fd (pm_aio p) fd flag;
  _ ← cb_ok fd;
  _ ← VERIFY (match pm_callbacks p !! fd with None => true | Some c => c =? ch end);
  Ok (pm_set p a (<[fd := ch]> (pm_callbacks p))).

Definition del_callback (p : PollMgr) (fd : Z) (flag : poll_flag) : res PollMgr :=
  '(clear, a) ← sa_unwatch_fd (pm_aio p) fd flag;
  if clear : bool then
    _ ← cb_ok fd;
    Ok (pm_set p a (delete fd (pm_callbacks p)))
  else Ok (pm_set p a (pm_callbacks p)).

Definition has_callback (p : PollMgr) (fd : Z) (flag : poll_flag) (c : Z) : res bool :=
  _ ← cb_ok fd;
  match pm_callbacks p !! fd with
  | None => Ok false
  | Some c' => if negb (c' =? c) then Ok false else sa_is_watched (pm_aio p) fd flag
  end.

(** [block_remove_fd] up to its wait, and after it. *)
Definition block_remove_begin (p : PollMgr) (fd : Z) : res PollMgr :=
  '(_, a) ← sa_unwatch_fd (pm_aio p) fd CB_RDWR;
  Ok (Poll a (pm_callbacks p) true (pm_phase p) ({[fd]} ∪ pm_removing p) (pm_woken p)).
Definition block_remove_end (p : PollMgr) (fd : Z) : res PollMgr :=
  _ ← cb_ok fd;
  Ok (Poll (pm_aio p) (delete fd (pm_callbacks p)) (pm_pending p) (pm_phase p)
        (pm_removing p) (pm_woken p ∖ {[fd]})).

(** One round of [wait_loop]: under [m_], a pending change is acknowledged to
    everybody who waits; [wait_ready] copies the watched sets under
    [SelectAIO::m_] and calls [select]; then come the callbacks. *)
Definition set_phase (p : PollMgr) (ph : poll_phase) : PollMgr :=
  Poll (pm_aio p) (pm_callbacks p) (pm_pending p) ph (pm_removing p) (pm_woken p).

Definition loop_ack (p : PollMgr) : PollMgr :=
  if pm_pending p then
    Poll (pm_aio p) (pm_callbacks p) false Ph_copy ∅ (pm_removing p ∪ pm_woken p)
  else set_phase p Ph_copy.

Definition loop_copy (p : PollMgr) : PollMgr := set_phase p (Ph_wait (pm_aio p)).

Definition loop_ready (p : PollMgr) (snap : SelectAIO) (R W : gset Z) : PollMgr :=
  let '(rd, wr) := sa_poll snap R W in
  set_phase p (if bool_decide (rd = []) && bool_decide (wr = []) then Ph_top
               else Ph_run None ((pair true <$> rd) ++ (pair false <$> wr))).

(** The next callback is entered if there is one registered; after the last
    one the thread is back at the top. *)
Definition loop_call (p : PollMgr) (todo : list (bool * Z)) : res PollMgr :=
  match todo with
  | [] => Ok (set_phase p Ph_top)
  | (_, fd) :: rest =>
      _ ← cb_ok fd;
      Ok (set_phase p (match pm_callbacks p !! fd with
                       | Some _ => Ph_run (Some fd) rest
                       | None => Ph_run None rest
                       end))
  end.

(** A waiter may also leave [pthread_cond_wait] without a broadcast. *)
Definition wake_spuriously (p : PollMgr) (fd : Z) : PollMgr :=
  Poll (pm_aio p) (pm_callbacks p) (pm_pending p) (pm_phase p)
    (pm_removing p ∖ {[fd]}) ({[fd]} ∪ pm_woken p).

(** ** The watched sets *)

Inductive aio_op := Watch (fd : Z) (flag : poll_flag) | Unwatch (fd : Z) (flag : poll_flag).
Definition op_fd (o : aio_op) : Z := match o with Watch fd _ | Unwatch fd _ => fd end.
Definition aio_do (a : SelectAIO) (o : aio_op) : res SelectAIO :=
  match o with
  | Watch fd flag => sa_watch_fd a fd flag
  | Unwatch fd flag => '(_, a') ← sa_unwatch_fd a fd flag; Ok a'
  end.
Fixpoint aio_run (a : SelectAIO) (os : list aio_op) : res SelectAIO :=
  match os with
  | [] => Ok a
  | o :: os => a' ← aio_do a o; aio_run a' os
  end.

Definition sa_watched (a : SelectAIO) : gset Z := sa_rfds a ∪ sa_wfds a.

(** [highfds_] is the highest watched descriptor, and the pipe is watched for
    reading only. *)
Record sa_inv (a : SelectAIO) : Prop := {
  sai_pipe : sa_pipe a ∈ sa_rfds a /\ sa_pipe a ∉ sa_wfds a;
  sai_high : sa_highfds a ∈ sa_watched a;
  sai_below : forall fd, fd ∈ sa_watched a -> 0 <= fd <= sa_highfds a
}.

Lemma fd_ok_range (fd : Z) (u : unit) : fd_ok fd = Ok u -> 0 <= fd < FD_SETSIZE.
Proof. unfold fd_ok, defined_if. case_match; [|done]. intros. lia. Qed.

Lemma find_high_spec (r w : gset Z) (pipe high : Z) :
  (find_high r w pipe high = pipe \/ find_high r w pipe high ∈ r ∪ w) /\
  (forall fd, 0 <= fd <= high -> fd ∈ r ∪ w -> fd <= find_high r w pipe high).
Proof.
  unfold find_high. destruct (decide (high < 0)) as [H|H].
  { rewrite seqZ_nil by lia. split; [by left|]. intros; lia. }
  assert (exists n, high + 1 = Z.of_nat n) as [n Hn] by (exists (Z.to_nat (high + 1)); lia).
  setoid_rewrite (ltac:(lia) : forall fd, 0 <= fd <= high <-> 0 <= fd < Z.of_nat n).
  rewrite Hn. clear H Hn. induction n as [|n [IH1 IH2]].
  { split; [by left|]. intros; lia. }
  rewrite seqZ_S, fold_left_app. cbn [fold_left].
  assert (Hstep : forall fd, 0 <= fd < Z.of_nat (S n) -> fd = 0 + Z.of_nat n \/ 0 <= fd < Z.of_nat n) by lia.
  repeat case_bool_decide; split;
    try (right; set_solver); try exact IH1; intros fd Hfd Hin;
    destruct (Hstep fd Hfd) as [->|Hlt]; try lia; try (exfalso; set_solver); auto.
Qed.

Lemma sa_inv_new (pipe : Z) : 0 <= pipe -> sa_inv (new_SelectAIO pipe).
Proof. intros. split; unfold sa_watched; cbn; [set_solver|set_solver|intros; set_solver by lia]. Qed.

Lemma sa_watch_inv (a a' : SelectAIO) (fd : Z) (flag : poll_flag) :
  sa_inv a -> fd <> sa_pipe a -> sa_watch_fd a fd flag = Ok a' ->
  sa_inv a' /\ sa_pipe a' = sa_pipe a.
Proof.
  intros [[Hp1 Hp2] Hh Hb] Hne H. unfold sa_watch_fd in H. res_inv.
  apply fd_ok_range in Ha.
  split; [|by destruct flag].
  assert (Hwat : forall r w, r = sa_rfds a \/ r = {[fd]} ∪ sa_rfds a ->
             w = sa_wfds a \/ w = {[fd]} ∪ sa_wfds a -> fd ∈ r ∪ w ->
             sa_inv (Select r w (if sa_highfds a <=? fd then fd else sa_highfds a) (sa_pipe a))).
  { intros r w Hr Hw Hin. split; unfold sa_watched in *; cbn.
    - set_solver.
    - case_match; set_solver.
    - intros g Hg. assert (g = fd \/ g ∈ sa_rfds a ∪ sa_wfds a) as [->|Hg'] by set_solver.
      + case_match; lia.
      + specialize (Hb g Hg'). case_match; lia. }
  destruct flag; apply Hwat; set_solver.
Qed.

Lemma sa_unwatch_inv (a a' : SelectAIO) (fd : Z) (flag : poll_flag) (b : bool) :
  sa_inv a -> fd <> sa_pipe a -> sa_unwatch_fd a fd flag = Ok (b, a') ->
  sa_inv a' /\ sa_pipe a' = sa_pipe a.
Proof.
  intros [[Hp1 Hp2] Hh Hb] Hne H. unfold sa_unwatch_fd in H. res_inv.
  destruct a1 as [r w]. injection H as <- <-.
  assert (r ⊆ sa_rfds a /\ w ⊆ sa_wfds a /\ sa_pipe a ∈ r /\
          (forall g, g ∈ sa_watched a -> g <> fd -> g ∈ r ∪ w)) as (Hr & Hw & Hpr & Hkeep).
  { unfold sa_watched. destruct flag; simplify_eq/=; set_solver. }
  split; [|done]. unfold sa_watched in *.
  destruct (find_high_spec r w (sa_pipe a) (sa_highfds a)) as [F1 F2].
  split; unfold sa_watched; cbn.
  - set_solver.
  - destruct (_ && (fd =? _)) eqn:E; [destruct F1 as [->|F1]; set_solver|].
    apply andb_false_iff in E as [E|E]; [|apply Hkeep; [done|lia]].
    destruct (decide (sa_highfds a = fd)) as [->|]; [|by apply Hkeep].
    apply andb_false_iff in E as [E|E]; apply bool_decide_eq_false in E;
      apply dec_stable in E; set_solver.
  - intros g Hg. assert (Hg' : g ∈ sa_rfds a ∪ sa_wfds a) by set_solver.
    specialize (Hb g Hg'). split; [lia|].
    destruct (_ && (fd =? _)); [apply F2; [lia|done]|lia].
Qed.

Lemma aio_run_inv (os : list aio_op) : forall a a', sa_inv a ->
  Forall (fun o => op_fd o <> sa_pipe a) os -> aio_run a os = Ok a' ->
  sa_inv a' /\ sa_pipe a' = sa_pipe a.
Proof.
  induction os as [|o os IH]; intros a a' Hi Hf H; cbn [aio_run] in H; res_inv; [done|].
  inversion Hf as [|?? Ho Hos]; subst.
  assert (sa_inv a0 /\ sa_pipe a0 = sa_pipe a) as [Hi' Hp].
  { destruct o as [fd flag|fd flag]; cbn in Ha, Ho; [by eapply sa_watch_inv|].
    res_inv. destruct a1 as [b a1]. res_inv. by eapply sa_unwatch_inv. }
  rewrite <- Hp in *. by apply IH.
Qed.

Lemma sa_poll_elem (a : SelectAIO) (R W : gset Z) (fd : Z) : sa_inv a ->
  (fd ∈ (sa_poll a R W).1 <-> fd ∈ R /\ fd ∈ sa_rfds a /\ fd <> sa_pipe a) /\
  (fd ∈ (sa_poll a R W).2 <-> fd ∈ W /\ fd ∈ sa_wfds a).
Proof.
  intros [[Hp1 Hp2] Hh Hb]. unfold sa_poll, sa_wait_ready, select_fds; cbn [fst snd].
  rewrite !list_elem_of_filter, !elem_of_seqZ, !elem_of_filter, !elem_of_intersection.
  specialize (Hb fd). unfold sa_watched in Hb. rewrite elem_of_union in Hb.
  split; split.
  - naive_solver.
  - intros (? & ? & ?). destruct Hb; [auto|]. split_and!; auto; lia.
  - naive_solver.
  - intros (? & ?). destruct Hb; [auto|]. split_and!; auto; try lia. intros [-> _]. done.
Qed.

(** Whatever descriptors were watched and unwatched since the selector was
    made, [highfds_] is the highest descriptor still watched, and a round of
    [wait_ready] reports exactly the watched descriptors that are ready for
    reading (the selector's own pipe apart) and for writing: none is missed
    because of the bound given to [select], none is reported that was
    unwatched. *)
Theorem select_reports_ready (pipe : Z) (os : list aio_op) (a : SelectAIO) (R W : gset Z) :
  0 <= pipe -> Forall (fun o => op_fd o <> pipe) os ->
  aio_run (new_SelectAIO pipe) os = Ok a ->
  sa_highfds a ∈ sa_watched a /\
  (forall fd, fd ∈ sa_watched a -> 0 <= fd <= sa_highfds a) /\
  forall fd,
    (fd ∈ (sa_poll a R W).1 <-> fd ∈ R /\ fd ∈ sa_rfds a /\ fd <> pipe) /\
    (fd ∈ (sa_poll a R W).2 <-> fd ∈ W /\ fd ∈ sa_wfds a).
Proof.
  intros Hp Hf H.
  destruct (aio_run_inv os _ _ (sa_inv_new pipe Hp) Hf H) as [Hi Hpp].
  split_and!; [by apply sai_high|by apply sai_below|].
  intros fd. change pipe with (sa_pipe (new_SelectAIO pipe)). rewrite <- Hpp.
  by apply sa_poll_elem.
Qed.

Definition select_ops : list aio_op :=
  [Watch 5 CB_RDONLY; Watch 9 CB_RDWR; Watch 7 CB_WRONLY; Unwatch 9 CB_RDWR].

Lemma select_reports_ready_witness :
  exists a, aio_run (new_SelectAIO 3) select_ops = Ok a /\
    sa_highfds a ∈ sa_watched a /\ sa_highfds a = 7.
Proof.
  eexists. split; [vm_compute; reflexivity|]. split; [|reflexivity].
  refine (proj1 (select_reports_ready 3 select_ops _ ∅ ∅ _ _ _)).
  - lia.
  - by repeat constructor.
  - vm_compute. reflexivity.
Defined.

(** With the epoll implementation, [is_watched] denies every registration:
    [CB_MASK] is the complement of the flag bits, so a descriptor that has just
    been watched with a flag is reported as not watched with it. *)
Theorem epoll_is_watched_denies (fd : Z) (flag : poll_flag) (m' : gmap Z Z) (op : epoll_op) (ev : Z) :
  flag <> CB_NONE -> ep_watch_fd ∅ fd flag = Ok (op, ev, m') ->
  ep_is_watched m' fd flag = Ok false.
Proof.
  intros Hf H. unfold ep_watch_fd in H. res_inv.
  unfold ep_is_watched, VERIFY, defined_if in *. cbv zeta in *. simplify_eq.
  repeat match goal with H : ?b = true |- _ => rewrite H end. cbn [mbind res_bind].
  unfold fd_status. rewrite lookup_insert_eq, lookup_empty. by destruct flag.
Qed.

Lemma epoll_is_watched_denies_witness :
  exists m', ep_watch_fd ∅ 4 CB_RDONLY = Ok (EPOLL_CTL_ADD, Z.lor EPOLLET EPOLLIN, m') /\
    ep_is_watched m' 4 CB_RDONLY = Ok false.
Proof.
  eexists. split; [vm_compute; reflexivity|].
  eapply (epoll_is_watched_denies 4 CB_RDONLY); [done|vm_compute; reflexivity].
Defined.

(** ** The poll thread and the threads that register and remove *)

Inductive poll_label :=
  | L_add (fd : Z) | L_del (fd : Z) | L_remove (fd : Z) | L_removed (fd : Z)
  | L_loop | L_call (fd : Z) | L_spurious (fd : Z).

(** [spurious] says whether [pthread_cond_wait] may return without a broadcast. *)
Inductive poll_step (spurious : bool) : PollMgr -> poll_label -> PollMgr -> Prop :=
  | PS_add p fd flag ch p' :
      add_callback p fd flag ch = Ok p' -> poll_step spurious p (L_add fd) p'
  | PS_del p fd flag p' :
      del_callback p fd flag = Ok p' -> poll_step spurious p (L_del fd) p'
  | PS_remove p fd p' :
      block_remove_begin p fd = Ok p' -> poll_step spurious p (L_remove fd) p'
  | PS_removed p fd p' :
      fd ∈ pm_woken p -> block_remove_end p fd = Ok p' -> poll_step spurious p (L_removed fd) p'
  | PS_ack p : pm_phase p = Ph_top -> poll_step spurious p L_loop (loop_ack p)
  | PS_copy p : pm_phase p = Ph_copy -> poll_step spurious p L_loop (loop_copy p)
  | PS_ready p snap R W :
      pm_phase p = Ph_wait snap -> poll_step spurious p L_loop (loop_ready p snap R W)
  | PS_call p b fd todo p' :
      pm_phase p = Ph_run None ((b, fd) :: todo) -> loop_call p ((b, fd) :: todo) = Ok p' ->
      poll_step spurious p (L_call fd) p'
  | PS_round p p' :
      pm_phase p = Ph_run None [] -> loop_call p [] = Ok p' -> poll_step spurious p L_loop p'
  | PS_return p fd todo :
      pm_phase p = Ph_run (Some fd) todo ->
      poll_step spurious p L_loop (set_phase p (Ph_run None todo))
  | PS_spurious p fd :
      spurious = true -> fd ∈ pm_removing p ->
      poll_step spurious p (L_spurious fd) (wake_spuriously p fd).

Inductive poll_run (spurious : bool) : PollMgr -> list poll_label -> PollMgr -> Prop :=
  | PR_nil p : poll_run spurious p [] p
  | PR_cons p l p' ls p'' :
      poll_step spurious p l p' -> poll_run spurious p' ls p'' -> poll_run spurious p (l :: ls) p''.

(** The poll thread neither runs nor will run a callback of [fd] in this round. *)
Definition quiet (fd : Z) (ph : poll_phase) : Prop :=
  match ph with
  | Ph_top | Ph_copy => True
  | Ph_wait snap => fd ∉ sa_watched snap
  | Ph_run cur todo => cur <> Some fd /\ fd ∉ todo.*2
  end.

(** From the moment [block_remove_fd] has unwatched [fd]: it stays unwatched,
    and either its acknowledgement is still due or the poll thread is done
    with it. *)
Definition leaving (fd : Z) (p : PollMgr) : Prop :=
  fd ∉ sa_watched (pm_aio p) /\
  (fd ∈ pm_removing p /\ pm_pending p = true \/ quiet fd (pm_phase p)).

Lemma sa_watch_other (a a' : SelectAIO) (fd g : Z) (flag : poll_flag) :
  sa_watch_fd a g flag = Ok a' -> fd <> g -> fd ∉ sa_watched a -> fd ∉ sa_watched a'.
Proof.
  unfold sa_watch_fd, sa_watched. intros H. res_inv. destruct flag; cbn; set_solver.
Qed.

Lemma sa_unwatch_out (a a' : SelectAIO) (fd g : Z) (flag : poll_flag) (b : bool) :
  sa_unwatch_fd a g flag = Ok (b, a') ->
  fd ∉ sa_watched a \/ fd = g /\ flag = CB_RDWR -> fd ∉ sa_watched a'.
Proof.
  unfold sa_unwatch_fd, sa_watched. intros H. res_inv. destruct a1 as [r w].
  injection H as <- <-. cbn. destruct flag; simplify_eq/=; set_solver.
Qed.

Lemma loop_ready_quiet (p : PollMgr) (snap : SelectAIO) (R W : gset Z) (fd : Z) :
  fd ∉ sa_watched snap -> quiet fd (pm_phase (loop_ready p snap R W)).
Proof.
  unfold sa_watched, loop_ready, sa_poll, sa_wait_ready, select_fds. intros Hfd. cbn zeta iota.
  destruct (_ && _); cbn; [done|]. split; [done|].
  rewrite fmap_app, <- !list_fmap_compose, elem_of_app, !list_elem_of_fmap.
  intros [(g & -> & Hg)|(g & -> & Hg)];
    rewrite list_elem_of_filter, elem_of_filter in Hg; set_solver.
Qed.

(** A step of the poll thread that only changes its phase. *)
Lemma leaving_phase (fd : Z) (p : PollMgr) (ph : poll_phase) :
  leaving fd p -> (quiet fd (pm_phase p) -> quiet fd ph) -> leaving fd (set_phase p ph).
Proof. intros [Hw Hq] Himp. split; [done|]. cbn. naive_solver. Qed.

Lemma leaving_step (fd : Z) (p p' : PollMgr) (l : poll_label) :
  poll_step false p l p' -> l <> L_add fd -> leaving fd p -> leaving fd p'.
Proof.
  intros H Hl HL. pose proof HL as [Hw Hq]. inversion H; subst; clear H.
  - unfold add_callback in H0. res_inv. split; [|done].
    eapply sa_watch_other; [done| |done]. congruence.
  - unfold del_callback in H0. res_inv. destruct a as [clear a].
    destruct clear; res_inv; (split; [|done]); eapply sa_unwatch_out; eauto.
  - unfold block_remove_begin in H0. res_inv. destruct a as [b a]. res_inv.
    split; [eapply sa_unwatch_out; eauto|]. cbn. set_solver.
  - unfold block_remove_end in H1. res_inv. done.
  - unfold loop_ack. split; [by destruct (pm_pending p)|]. right. by destruct (pm_pending p).
  - by apply leaving_phase.
  - pose proof (loop_ready_quiet p snap R W fd) as HR. revert HR. unfold loop_ready.
    destruct (sa_poll snap R W) as [rd wr]. intros HR.
    apply leaving_phase; [done|]. rewrite H0. exact HR.
  - unfold loop_call in H1. res_inv. apply leaving_phase; [done|]. rewrite H0. cbn.
    destruct (pm_callbacks p !! fd0); cbn; set_solver.
  - unfold loop_call in H1. res_inv. by apply leaving_phase.
  - apply leaving_phase; [done|]. rewrite H0. cbn. naive_solver.
  - done.
Qed.

Lemma leaving_run (fd : Z) (p p' : PollMgr) (ls : list poll_label) :
  poll_run false p ls p' -> L_add fd ∉ ls -> leaving fd p -> leaving fd p'.
Proof.
  induction 1 as [|p l p1 ls p2 Hs _ IH]; [done|]. intros Hl HL.
  apply IH; [set_solver|]. eapply leaving_step; [done| |done]. set_solver.
Qed.

Lemma leaving_begin (fd : Z) (p p' : PollMgr) :
  block_remove_begin p fd = Ok p' -> leaving fd p'.
Proof.
  unfold block_remove_begin. intros H. res_inv. destruct a as [b a]. res_inv. split.
  - eapply sa_unwatch_out; eauto.
  - left. cbn. set_solver.
Qed.

Lemma quiet_no_call (fd : Z) (p p' : PollMgr) (l : poll_label) :
  quiet fd (pm_phase p) -> poll_step false p l p' -> l <> L_call fd.
Proof.
  intros Hq H ->. inversion H; subst. rewrite H1 in Hq. cbn in Hq. set_solver.
Qed.

(** C26. Once [block_remove_fd fd] has been released from its wait, no callback
    of [fd] is running, none is scheduled in the poll thread's current round,
    and the next step of the poll thread does not call one: this holds in
    every interleaving with other registrations and removals, at every later
    moment until [fd] is registered again. (A condition variable that wakes
    its waiters only when it is signalled is assumed.) *)
Theorem block_remove_guarantee (fd : Z) (p p1 p2 : PollMgr) (ls : list poll_label) :
  block_remove_begin p fd = Ok p1 -> poll_run false p1 ls p2 -> L_add fd ∉ ls ->
  fd ∉ pm_removing p2 ->
  fd ∉ sa_watched (pm_aio p2) /\ quiet fd (pm_phase p2) /\
  forall l p3, poll_step false p2 l p3 -> l <> L_call fd.
Proof.
  intros Hb Hr Hl Hrem.
  destruct (leaving_run fd p1 p2 ls Hr Hl (leaving_begin fd p p1 Hb)) as [Hw [[Hin _]|Hq]]; [done|].
  split_and!; [done..|]. intros l p3. by apply quiet_no_call.
Qed.

(** A poll manager whose thread is inside the read callback of descriptor 5. *)
Definition pm_busy : PollMgr :=
  Poll (Select {[3; 5]} ∅ 5 3) {[5 := 77]} false (Ph_run (Some 5) []) ∅ ∅.
Definition pm_step1 : PollMgr :=
  Poll (Select ({[3; 5]} ∖ {[5]}) (∅ ∖ {[5]}) 3 3) {[5 := 77]} true (Ph_run (Some 5) []) ({[5]} ∪ ∅) ∅.

Lemma block_remove_guarantee_witness :
  block_remove_begin pm_busy 5 = Ok pm_step1 /\
  exists p2, poll_run false pm_step1 [L_loop; L_loop; L_loop] p2 /\ quiet 5 (pm_phase p2).
Proof.
  split; [vm_compute; reflexivity|].
  set (q1 := set_phase pm_step1 (Ph_run None [])). set (q2 := set_phase q1 Ph_top).
  exists (loop_ack q2).
  assert (Hrun : poll_run false pm_step1 [L_loop; L_loop; L_loop] (loop_ack q2)).
  { eapply PR_cons; [by apply (PS_return false pm_step1 5 [])|].
    eapply PR_cons; [by apply (PS_round false q1 q2)|].
    eapply PR_cons; [by apply (PS_ack false q2)|]. apply PR_nil. }
  split; [exact Hrun|].
  refine (proj1 (proj2 (block_remove_guarantee 5 pm_busy pm_step1 _ _ _ Hrun _ _))).
  - vm_compute. reflexivity.
  - set_solver.
  - vm_compute. set_solver.
Defined.

(** The wait of [block_remove_fd] is not in a loop that checks a condition:
    if [pthread_cond_wait] returns without a broadcast, as POSIX permits, the
    call completes while the poll thread is still inside the callback of the
    descriptor it removed. *)
Theorem block_remove_spurious (fd : Z) (p p1 : PollMgr) (todo : list (bool * Z)) :
  0 <= fd < MAX_POLL_FDS ->
  pm_phase p = Ph_run (Some fd) todo -> block_remove_begin p fd = Ok p1 ->
  exists p2, poll_run true p1 [L_spurious fd; L_removed fd] p2 /\
    pm_callbacks p2 !! fd = None /\ pm_phase p2 = Ph_run (Some fd) todo.
Proof.
  intros Hfd Hph H. unfold block_remove_begin in H. res_inv. destruct a as [b a]. res_inv.
  set (p1 := Poll _ _ _ _ _ _).
  exists (Poll a (delete fd (pm_callbacks p)) true (pm_phase p)
           (pm_removing p1 ∖ {[fd]}) (({[fd]} ∪ pm_woken p) ∖ {[fd]})).
  split; [|cbn; split; [apply lookup_delete_eq|done]].
  eapply PR_cons; [apply PS_spurious; [done|cbn; set_solver]|].
  eapply PR_cons; [apply PS_removed; [cbn; set_solver|]|apply PR_nil].
  unfold block_remove_end, cb_ok, defined_if.
  replace (_ && _) with true by (unfold MAX_POLL_FDS in *; lia). reflexivity.
Qed.

Lemma block_remove_spurious_witness :
  exists p2, poll_run true pm_step1 [L_spurious 5; L_removed 5] p2 /\
    pm_callbacks p2 !! 5 = None /\ pm_phase p2 = Ph_run (Some 5) [].
Proof.
  apply (block_remove_spurious 5 pm_busy pm_step1 []).
  - unfold MAX_POLL_FDS. lia.
  - reflexivity.
  - vm_compute. reflexivity.
Defined.
