(* ===== verification/Handle.v ===== *)
(** * The cache of RPC connections

    src/handle.h and src/handle.cc: [handle_mgr] keeps one [hinfo] per
    [host:port] name, counted by the [handle] objects that use it; [safebind]
    binds it on first use. The heap and the set of live [rpcc] objects are
    explicit, so that an access to freed memory is a fault. *)
From S2P Require Import Prelude.

Abbreviation hptr := Z.
Abbreviation rpcc_id := Z.

Record hinfo := Hinfo {
  hi_cl : option rpcc_id;
  hi_refcnt : Z;
  hi_del : bool;
  hi_m : string
}.

Record handle_mgr := Hmgr {
  hm_map : gmap string hptr;
  hm_heap : gmap hptr hinfo;
  hm_rpccs : gset rpcc_id        (* rpcc objects made and not deleted *)
}.
Definition new_handle_mgr : handle_mgr := Hmgr ∅ ∅ ∅.

Definition load (s : handle_mgr) (h : hptr) : res hinfo :=
  match hm_heap s !! h with Some i => Ok i | None => Err Undefined end.
Definition store (s : handle_mgr) (h : hptr) (i : hinfo) : handle_mgr :=
  Hmgr (hm_map s) (<[h := i]> (hm_heap s)) (hm_rpccs s).

(** [p] is the address [new hinfo] returns. *)
Definition get_handle (s : handle_mgr) (m : string) (p : hptr) : res (option hptr * handle_mgr) :=
  match hm_map s !! m with
  | None =>
      Ok (Some p, Hmgr (<[m := p]> (hm_map s)) (<[p := Hinfo None 1 false m]> (hm_heap s)) (hm_rpccs s))
  | Some h =>
      i ← load s h;
      if negb (hi_del i) then
        n ← int_result (hi_refcnt i + 1);
        Ok (Some h, store s h (Hinfo (hi_cl i) n (hi_del i) (hi_m i)))
      else Ok (None, s)
  end.

(** [cancel] and [delete] of a client that was already deleted is undefined. *)
Definition delete_rpcc (s : handle_mgr) (cl : option rpcc_id) : res handle_mgr :=
  match cl with
  | None => Ok s
  | Some c => if decide (c ∈ hm_rpccs s) then Ok (Hmgr (hm_map s) (hm_heap s) (hm_rpccs s ∖ {[c]}))
              else Err Undefined
  end.

Definition delete_handle_wo (s : handle_mgr) (m : string) : res handle_mgr :=
  match hm_map s !! m with
  | None => Ok s
  | Some h =>
      i ← load s h;
      if hi_refcnt i =? 0 then
        s ← delete_rpcc s (hi_cl i);
        Ok (Hmgr (delete m (hm_map s)) (delete h (hm_heap s)) (hm_rpccs s))
      else Ok (store s h (Hinfo (hi_cl i) (hi_refcnt i) true (hi_m i)))
  end.

Definition delete_handle (s : handle_mgr) (m : string) : res handle_mgr := delete_handle_wo s m.

Definition done_handle (s : handle_mgr) (h : hptr) : res handle_mgr :=
  i ← load s h;
  n ← int_result (hi_refcnt i - 1);
  let s := store s h (Hinfo (hi_cl i) n (hi_del i) (hi_m i)) in
  if (n =? 0) && hi_del i then delete_handle_wo s (hi_m i) else Ok s.

(** [safebind] up to the call of [bind], which may block: either it returns
    already ([inl]) or it makes the client [c] and binds it ([inr]); and what
    it does with [bind]'s result. [cl_mutex] is held in between. *)
Definition safebind_begin (s : handle_mgr) (h : hptr) (c : rpcc_id)
    : res (option rpcc_id + handle_mgr) :=
  i ← load s h;
  Ok (if hi_del i then inl None
      else match hi_cl i with
           | Some cl => inl (Some cl)
           | None => inr (Hmgr (hm_map s) (hm_heap s) ({[c]} ∪ hm_rpccs s))
           end).

Definition safebind_end (s : handle_mgr) (h : hptr) (c : rpcc_id) (ret : Z)
    : res (option rpcc_id * handle_mgr) :=
  i ← load s h;
  if ret <? 0 then
    s ← delete_rpcc s (Some c);
    let i' := Hinfo (hi_cl i) (hi_refcnt i) true (hi_m i) in
    Ok (hi_cl i', store s h i')
  else
    let i' := Hinfo (Some c) (hi_refcnt i) (hi_del i) (hi_m i) in
    Ok (hi_cl i', store s h i').

(** ** Handles in use *)

(** The manager, the live [handle] objects that are idle, and those inside
    [safebind], each with the client it is binding. *)
Record handles := Handles {
  hs_mgr : handle_mgr;
  hs_live : list hptr;
  hs_binding : list (hptr * rpcc_id)
}.

Inductive handle_step : handles -> handles -> Prop :=
  | HS_get s l b m p h s' :
      hm_heap s !! p = None -> get_handle s m p = Ok (Some h, s') ->
      handle_step (Handles s l b) (Handles s' (h :: l) b)
  | HS_get_null s l b m p s' :
      hm_heap s !! p = None -> get_handle s m p = Ok (None, s') ->
      handle_step (Handles s l b) (Handles s' l b)
  | HS_done s l1 l2 b h s' :
      done_handle s h = Ok s' -> handle_step (Handles s (l1 ++ h :: l2) b) (Handles s' (l1 ++ l2) b)
  | HS_delete s l b m s' :
      delete_handle s m = Ok s' -> handle_step (Handles s l b) (Handles s' l b)
  | HS_bind s l1 l2 b h c s' :
      h ∉ b.*1 -> c ∉ hm_rpccs s -> safebind_begin s h c = Ok (inr s') ->
      handle_step (Handles s (l1 ++ h :: l2) b) (Handles s' (l1 ++ l2) ((h, c) :: b))
  | HS_bound s l b1 b2 h c ret r s' :
      safebind_end s h c ret = Ok (r, s') ->
      handle_step (Handles s l (b1 ++ (h, c) :: b2)) (Handles s' (h :: l) (b1 ++ b2)).

Inductive handle_reach : handles -> Prop :=
  | HR_new : handle_reach (Handles new_handle_mgr [] [])
  | HR_step t t' : handle_reach t -> handle_step t t' -> handle_reach t'.

(** ** Invariant *)

Definition users (l : list hptr) (b : list (hptr * rpcc_id)) (p : hptr) : Z :=
  Z.of_nat (count_occ Z.eq_dec (l ++ b.*1) p).

(** The client [c] belongs to the [hinfo] at [p]: bound, or being bound. *)
Definition owns (s : handle_mgr) (b : list (hptr * rpcc_id)) (p : hptr) (c : rpcc_id) : Prop :=
  (exists i, hm_heap s !! p = Some i /\ hi_cl i = Some c) \/ (p, c) ∈ b.

Record handles_inv (s : handle_mgr) (l : list hptr) (b : list (hptr * rpcc_id)) : Prop := {
  hv_map : forall m p, hm_map s !! m = Some p -> exists i, hm_heap s !! p = Some i /\ hi_m i = m;
  hv_heap : forall p i, hm_heap s !! p = Some i ->
    hm_map s !! hi_m i = Some p /\ hi_refcnt i = users l b p /\ is_signed 32 (hi_refcnt i);
  hv_users : forall p, 0 < users l b p -> is_Some (hm_heap s !! p);
  hv_own : forall p c, owns s b p c -> c ∈ hm_rpccs s;
  hv_own_c : forall p q c, owns s b p c -> owns s b q c -> p = q;
  hv_own_p : forall p c d, owns s b p c -> owns s b p d -> c = d;
  hv_binding : NoDup b.*1;
  hv_unbound : forall p c i, (p, c) ∈ b -> hm_heap s !! p = Some i -> hi_cl i = None
}.

Lemma users_app (l1 l2 : list hptr) (b : list (hptr * rpcc_id)) (p : hptr) :
  users (l1 ++ l2) b p = users l1 [] p + users l2 b p.
Proof. unfold users. rewrite <- app_assoc, app_nil_r, !count_occ_app. lia. Qed.

Lemma users_cons (h : hptr) (l : list hptr) (b : list (hptr * rpcc_id)) (p : hptr) :
  users (h :: l) b p = (if decide (h = p) then 1 else 0) + users l b p.
Proof. unfold users. cbn. destruct (Z.eq_dec h p); case_decide; try done; lia. Qed.

Lemma users_binding (l : list hptr) (b1 b2 : list (hptr * rpcc_id)) (h : hptr) (c : rpcc_id) (p : hptr) :
  users l (b1 ++ (h, c) :: b2) p = (if decide (h = p) then 1 else 0) + users l (b1 ++ b2) p.
Proof.
  unfold users. rewrite !fmap_app, !count_occ_app. cbn.
  destruct (Z.eq_dec h p); case_decide; try done; lia.
Qed.

Lemma users_nonneg (l : list hptr) (b : list (hptr * rpcc_id)) (p : hptr) : 0 <= users l b p.
Proof. unfold users. lia. Qed.

Lemma inv_store (s : handle_mgr) (l l' : list hptr) (b b' : list (hptr * rpcc_id)) (p : hptr) (i i' : hinfo) :
  handles_inv s l b -> hm_heap s !! p = Some i -> hi_m i' = hi_m i ->
  (forall q, q <> p -> users l' b' q = users l b q) ->
  hi_refcnt i' = users l' b' p -> is_signed 32 (hi_refcnt i') -> NoDup b'.*1 ->
  b' ⊆ b -> (forall c, (p, c) ∈ b' -> hi_cl i' = None) ->
  (forall q c, owns (store s p i') b' q c -> owns s b q c) ->
  handles_inv (store s p i') l' b'.
Proof.
  intros [Hm Hh Hu Ho Hc Hp Hb Hn] Hi Hmm Hq Hr Hs Hnd Hsub Hun Hown. split; eauto.
  - intros m q Hlk. destruct (Hm m q Hlk) as (j & Hj & Hjm). cbn.
    destruct (decide (q = p)) as [->|]; [|rewrite lookup_insert_ne by done; eauto].
    rewrite lookup_insert_eq. exists i'. split; congruence.
  - intros q j. cbn. destruct (decide (q = p)) as [->|]; intros Hlk.
    + rewrite lookup_insert_eq in Hlk. injection Hlk as <-. rewrite Hmm.
      split; [by apply (Hh p i)|]. done.
    + rewrite lookup_insert_ne in Hlk by done. rewrite Hq by done. by apply Hh.
  - intros q Hlt. cbn. destruct (decide (q = p)) as [->|].
    + rewrite lookup_insert_eq. eauto.
    + rewrite lookup_insert_ne by done. apply Hu. by rewrite <- Hq.
  - intros q c j Hin. cbn. intros [[<- <-]|[Hne Hj]]%lookup_insert_Some; eauto.
Qed.

Lemma owns_store_same (s : handle_mgr) (b : list (hptr * rpcc_id)) (p : hptr) (i i' : hinfo) :
  hm_heap s !! p = Some i -> hi_cl i' = hi_cl i ->
  forall q c, owns (store s p i') b q c -> owns s b q c.
Proof.
  intros Hi Hcl q c [(j & Hj & Hjc)|H]; [left|by right]. cbn in Hj.
  destruct (decide (q = p)) as [->|].
  - rewrite lookup_insert_eq in Hj. exists i. split; congruence.
  - rewrite lookup_insert_ne in Hj by done. eauto.
Qed.

Lemma inv_rpccs (s : handle_mgr) (l : list hptr) (b : list (hptr * rpcc_id)) (R : gset rpcc_id) :
  handles_inv s l b -> (forall q c, owns s b q c -> c ∈ R) ->
  handles_inv (Hmgr (hm_map s) (hm_heap s) R) l b.
Proof. intros [Hm Hh Hu Ho Hc Hp Hb Hn] HR. by split. Qed.

Lemma delete_rpcc_ok (s s' : handle_mgr) (cl : option rpcc_id) :
  delete_rpcc s cl = Ok s' ->
  s' = Hmgr (hm_map s) (hm_heap s) (hm_rpccs s ∖ match cl with Some c => {[c]} | None => ∅ end).
Proof.
  unfold delete_rpcc. destruct cl; [case_decide|]; intros; res_inv; [done..|].
  destruct s'. cbn. f_equal. set_solver.
Qed.

Lemma inv_free (s : handle_mgr) (l : list hptr) (b : list (hptr * rpcc_id)) (h : hptr) (i : hinfo) :
  handles_inv s l b -> hm_heap s !! h = Some i -> hi_refcnt i = 0 ->
  handles_inv (Hmgr (delete (hi_m i) (hm_map s)) (delete h (hm_heap s))
                 (hm_rpccs s ∖ match hi_cl i with Some c => {[c]} | None => ∅ end)) l b.
Proof.
  intros [Hm Hh Hu Ho Hc Hp Hb Hn] Hi H0.
  assert (Hown : forall q c, owns (Hmgr (delete (hi_m i) (hm_map s)) (delete h (hm_heap s)) ∅) b q c ->
             owns s b q c).
  { intros q c [(j & Hj & Hjc)|H]; [left|by right]. cbn in Hj.
    apply lookup_delete_Some in Hj as [_ Hj]. eauto. }
  destruct (Hh h i Hi) as (Hmap & Hr & _).
  split; eauto.
  - intros m p Hlk. cbn in Hlk |- *. apply lookup_delete_Some in Hlk as [Hne Hlk].
    destruct (Hm m p Hlk) as (j & Hj & <-). exists j. split; [|done].
    rewrite lookup_delete_ne; [done|]. intros <-. congruence.
  - intros p j. cbn. intros [Hne Hlk]%lookup_delete_Some.
    destruct (Hh p j Hlk) as (Hpm & Hpr). split; [|done].
    rewrite lookup_delete_ne; [done|]. intros Heq. rewrite Heq in Hmap. congruence.
  - intros p Hlt. cbn. destruct (decide (p = h)) as [->|]; [lia|].
    rewrite lookup_delete_ne by done. auto.
  - intros q c H. cbn. apply elem_of_difference. split; [by eapply Ho, Hown|].
    destruct (hi_cl i) as [d|] eqn:Ed; [|set_solver].
    intros ->%elem_of_singleton.
    assert (q = h) as -> by (eapply Hc; [by apply Hown|left; eauto]).
    destruct H as [(j & Hj & _)|H]; [cbn in Hj; by rewrite lookup_delete_eq in Hj|].
    enough (0 < users l b h) by lia. unfold users. apply (list_elem_of_fmap_2 fst) in H.
    pose proof (proj1 (count_occ_In Z.eq_dec (l ++ b.*1) h)) as Hin. cbn in H.
    assert (0 < count_occ Z.eq_dec (l ++ b.*1) h)%nat; [|lia].
    apply Hin. apply list_elem_of_In. set_solver.
  - intros p c j Hin. cbn. intros [_ Hj]%lookup_delete_Some. eauto.
Qed.

Lemma delete_handle_wo_inv (s s' : handle_mgr) (l : list hptr) (b : list (hptr * rpcc_id)) (m : string) :
  handles_inv s l b -> delete_handle_wo s m = Ok s' -> handles_inv s' l b.
Proof.
  intros Hi H. unfold delete_handle_wo in H.
  destruct (hm_map s !! m) as [h|] eqn:Em; [|by res_inv].
  destruct (hv_map _ _ _ Hi m h Em) as (i & Hh & Him).
  unfold load in H. rewrite Hh in H. cbn [mbind res_bind] in H.
  destruct (hv_heap _ _ _ Hi h i Hh) as (_ & Hr & Hs).
  destruct (hi_refcnt i =? 0) eqn:E0.
  - res_inv. apply delete_rpcc_ok in Ha as ->. cbn.
    apply inv_free; [done..|lia].
  - res_inv. eapply inv_store; cbn; eauto using hv_binding, hv_unbound.
    by eapply owns_store_same.
Qed.

Lemma load_ok (s : handle_mgr) (h : hptr) (i : hinfo) : load s h = Ok i -> hm_heap s !! h = Some i.
Proof. unfold load. case_match; intros; res_inv; done. Qed.

Lemma int_result_inv (z n : Z) : int_result z = Ok n -> n = z /\ is_signed 32 z.
Proof. unfold int_result. case_decide; intros; res_inv; done. Qed.

Lemma get_handle_inv (s s' : handle_mgr) (l : list hptr) (b : list (hptr * rpcc_id)) (m : string)
    (p : hptr) (r : option hptr) :
  handles_inv s l b -> hm_heap s !! p = None -> get_handle s m p = Ok (r, s') ->
  handles_inv s' (option_list r ++ l) b.
Proof.
  intros Hi Hp H. unfold get_handle in H. destruct (hm_map s !! m) as [h|] eqn:Em.
  - res_inv. apply load_ok in Ha. destruct (negb (hi_del a)) eqn:Ed; res_inv; [|done].
    apply int_result_inv in Ha0 as [-> Hs].
    destruct (hv_heap _ _ _ Hi _ _ Ha) as (_ & Hr & _).
    change (option_list (Some h) ++ l) with (h :: l).
    eapply inv_store; cbn; eauto using hv_binding, hv_unbound.
    + intros q Hq. rewrite users_cons. by rewrite decide_False by done.
    + rewrite users_cons, decide_True by done. lia.
    + by eapply owns_store_same.
  - res_inv. destruct Hi as [Hm Hh Hu Ho Hc Hpp Hb Hn].
    assert (Hzero : users l b p = 0).
    { pose proof (users_nonneg l b p). destruct (decide (0 < users l b p)) as [Hlt|]; [|lia].
      apply Hu in Hlt. rewrite Hp in Hlt. by destruct Hlt. }
    set (s' := Hmgr _ _ _).
    assert (Hown : forall q c, owns s' b q c -> owns s b q c).
    { intros q c [(j & Hj & Hjc)|H]; [left|by right]. cbn in Hj.
      apply lookup_insert_Some in Hj as [[<- <-]|[_ Hj]]; [done|eauto]. }
    change (option_list (Some p) ++ l) with (p :: l). split; eauto.
    + intros m' q. cbn. intros [[<- <-]|[Hne Hlk]]%lookup_insert_Some.
      * rewrite lookup_insert_eq. eauto.
      * destruct (Hm m' q Hlk) as (j & Hj & Hjm). exists j. split; [|done].
        rewrite lookup_insert_ne; [done|]. congruence.
    + intros q j. cbn. rewrite users_cons. intros [[<- <-]|[Hne Hlk]]%lookup_insert_Some; cbn.
      * rewrite lookup_insert_eq, decide_True by done.
        split_and!; [done|lia|unfold is_signed; lia].
      * rewrite decide_False by done. destruct (Hh q j Hlk) as [? ?]. split; [|done].
        rewrite lookup_insert_ne; [done|]. congruence.
    + intros q. rewrite users_cons. cbn. case_decide as Hd; intros Hlt.
      * subst. rewrite lookup_insert_eq. eauto.
      * rewrite lookup_insert_ne by done. apply Hu. lia.
    + intros q c j Hin. cbn. intros [[<- <-]|[Hne Hj]]%lookup_insert_Some; eauto.
Qed.

Lemma done_handle_inv (s s' : handle_mgr) (l1 l2 : list hptr) (b : list (hptr * rpcc_id)) (h : hptr) :
  handles_inv s (l1 ++ h :: l2) b -> done_handle s h = Ok s' -> handles_inv s' (l1 ++ l2) b.
Proof.
  intros Hi H. unfold done_handle in H. res_inv. apply load_ok in Ha.
  apply int_result_inv in Ha0 as [-> Hs].
  destruct (hv_heap _ _ _ Hi _ _ Ha) as (_ & Hr & _).
  set (s1 := store s h _) in H.
  assert (handles_inv s1 (l1 ++ l2) b) as Hi1.
  { eapply inv_store; cbn; eauto using hv_binding, hv_unbound.
    - intros q Hq. rewrite !users_app, users_cons, decide_False by done. lia.
    - rewrite Hr, !users_app, users_cons, decide_True by done. lia.
    - by eapply owns_store_same. }
  destruct (_ && _); [by eapply delete_handle_wo_inv|by res_inv].
Qed.

Lemma safebind_begin_inv (s s' : handle_mgr) (l1 l2 : list hptr) (b : list (hptr * rpcc_id))
    (h : hptr) (c : rpcc_id) :
  handles_inv s (l1 ++ h :: l2) b -> h ∉ b.*1 -> c ∉ hm_rpccs s ->
  safebind_begin s h c = Ok (inr s') -> handles_inv s' (l1 ++ l2) ((h, c) :: b).
Proof.
  intros [Hm Hh Hu Ho Hc Hp Hb Hn] Hnb Hnc H. unfold safebind_begin in H. res_inv.
  apply load_ok in Ha. destruct (hi_del a); [done|]. destruct (hi_cl a) eqn:Ecl; [done|].
  injection H as <-. set (s' := Hmgr _ _ _).
  assert (Hus : forall q, users (l1 ++ l2) ((h, c) :: b) q = users (l1 ++ h :: l2) b q).
  { intros q. pose proof (users_binding (l1 ++ l2) [] b h c q) as E. cbn [app] in E.
    rewrite E, !users_app, users_cons. lia. }
  assert (Hnone : forall d, ~ owns s b h d).
  { intros d [(j & Hj & Hjc)|Hin]; [congruence|]. apply Hnb. by apply (list_elem_of_fmap_2 fst) in Hin. }
  assert (Hown : forall q d, owns s' ((h, c) :: b) q d -> owns s b q d \/ (q = h /\ d = c)).
  { intros q d [Hl|Hin]; [left; by left|].
    apply elem_of_cons in Hin as [?|?]; [naive_solver|left; by right]. }
  split; cbn; eauto.
  - intros q j Hj. rewrite Hus. eauto.
  - intros q. rewrite Hus. eauto.
  - intros q d [H|[-> ->]]%Hown; [specialize (Ho q d H)|]; set_solver.
  - intros q r d [H|[-> ->]]%Hown [H'|[-> E]]%Hown; subst; eauto; exfalso; naive_solver.
  - intros q d e [H|[-> ->]]%Hown [H'|[E ->]]%Hown; subst; eauto; exfalso; naive_solver.
  - by constructor.
  - intros q d j [[= -> ->]|Hin]%elem_of_cons Hj; [congruence|eauto].
Qed.

Lemma safebind_end_inv (s s' : handle_mgr) (l : list hptr) (b1 b2 : list (hptr * rpcc_id))
    (h : hptr) (c : rpcc_id) (ret : Z) (r : option rpcc_id) :
  handles_inv s l (b1 ++ (h, c) :: b2) -> safebind_end s h c ret = Ok (r, s') ->
  handles_inv s' (h :: l) (b1 ++ b2).
Proof.
  intros Hi H. unfold safebind_end in H. res_inv. apply load_ok in Ha.
  destruct (hv_heap _ _ _ Hi _ _ Ha) as (_ & Hr & Hs).
  assert (Hown0 : owns s (b1 ++ (h, c) :: b2) h c) by (right; set_solver).
  assert (Hus : forall q, users (h :: l) (b1 ++ b2) q = users l (b1 ++ (h, c) :: b2) q).
  { intros q. rewrite users_binding, users_cons. lia. }
  assert (Hnd : NoDup (b1 ++ b2).*1).
  { pose proof (hv_binding _ _ _ Hi) as Hb. rewrite fmap_app in Hb |- *. cbn in Hb.
    by apply NoDup_Permutation_proper with (1 := Permutation_middle _ _ _) in Hb as
      []%NoDup_cons. }
  assert (Hout : forall d, (h, d) ∉ b1 ++ b2).
  { intros d Hd%(list_elem_of_fmap_2 fst). pose proof (hv_binding _ _ _ Hi) as Hb.
    rewrite fmap_app in Hb, Hd. cbn in Hb, Hd. apply NoDup_app in Hb as (_ & Hb1 & Hb2).
    apply NoDup_cons in Hb2 as [Hb2 _]. apply elem_of_app in Hd as [Hd|Hd]; [|done].
    apply (Hb1 h Hd). set_solver. }
  assert (Hcl : hi_cl a = None) by (eapply (hv_unbound _ _ _ Hi h c); [set_solver|done]).
  assert (Hgen : forall i', hi_m i' = hi_m a -> hi_refcnt i' = hi_refcnt a ->
             hi_cl i' = None \/ hi_cl i' = Some c ->
             handles_inv (store s h i') (h :: l) (b1 ++ b2) /\
             forall q d, owns (store s h i') (b1 ++ b2) q d -> owns s (b1 ++ (h, c) :: b2) q d).
  { intros i' Hm' Hr' Hc'.
    assert (Hinc : forall q d, owns (store s h i') (b1 ++ b2) q d -> owns s (b1 ++ (h, c) :: b2) q d).
    { intros q d [(j & Hj & Hjc)|Hin]; [|right; set_solver]. cbn in Hj.
      apply lookup_insert_Some in Hj as [[<- <-]|[_ Hj]]; [|left; eauto].
      destruct Hc' as [Hc'|Hc']; [congruence|].
      by assert (d = c) as -> by congruence. }
    split; [|done]. eapply inv_store; eauto; try congruence; [set_solver|].
    intros d Hd. by destruct (Hout d). }
  destruct (ret <? 0); res_inv; [|apply Hgen; cbn; eauto].
  apply delete_rpcc_ok in Ha0 as ->. cbn. rewrite Hcl.
  set (i' := Hinfo _ _ _ _).
  destruct (Hgen i') as [Hi' Hinc]; [done|done|by left|].
  apply (inv_rpccs (store s h i')); [done|]. cbn.
  intros q d Hq. apply elem_of_difference. split; [by apply (hv_own _ _ _ Hi' q d)|].
  intros ->%elem_of_singleton.
  assert (q = h) as -> by (eapply (hv_own_c _ _ _ Hi); [by apply Hinc|done]).
  destruct Hq as [(j & Hj & Hjc)|Hin]; [|by destruct (Hout c)].
  cbn in Hj. rewrite lookup_insert_eq in Hj. by injection Hj as <-.
Qed.

Lemma handle_reach_inv (t : handles) :
  handle_reach t -> handles_inv (hs_mgr t) (hs_live t) (hs_binding t).
Proof.
  induction 1 as [|t t' _ IH Hs].
  { split; cbn; unfold users, owns; cbn; try done; try (intros; lia);
      try (intros; set_solver); constructor. }
  inversion Hs; subst; cbn in *.
  - by eapply (get_handle_inv _ _ _ _ _ _ (Some h)).
  - by eapply (get_handle_inv _ _ _ _ _ _ None).
  - by eapply done_handle_inv.
  - by eapply delete_handle_wo_inv.
  - by eapply safebind_begin_inv.
  - by eapply safebind_end_inv.
Qed.

Lemma users_live (l : list hptr) (b : list (hptr * rpcc_id)) (h : hptr) :
  h ∈ l \/ h ∈ b.*1 -> 0 < users l b h.
Proof.
  intros H. unfold users. pose proof (proj1 (count_occ_In Z.eq_dec (l ++ b.*1) h)) as Hin.
  assert (0 < count_occ Z.eq_dec (l ++ b.*1) h)%nat; [|lia].
  apply Hin, list_elem_of_In. set_solver.
Qed.

Lemma load_live (s : handle_mgr) (l : list hptr) (b : list (hptr * rpcc_id)) (h : hptr) :
  handles_inv s l b -> h ∈ l \/ h ∈ b.*1 -> exists i, load s h = Ok i /\ hm_heap s !! h = Some i.
Proof.
  intros Hi Hl. destruct (hv_users _ _ _ Hi h (users_live l b h Hl)) as [i Hh].
  exists i. unfold load. by rewrite Hh.
Qed.

Lemma delete_rpcc_total (s : handle_mgr) (cl : option rpcc_id) :
  (forall c, cl = Some c -> c ∈ hm_rpccs s) -> exists s', delete_rpcc s cl = Ok s'.
Proof.
  intros H. unfold delete_rpcc. destruct cl as [c|]; [|eauto].
  rewrite decide_True by auto. eauto.
Qed.

Lemma delete_handle_total (s : handle_mgr) (l : list hptr) (b : list (hptr * rpcc_id)) (m : string) :
  handles_inv s l b -> exists s', delete_handle_wo s m = Ok s'.
Proof.
  intros Hi. unfold delete_handle_wo. destruct (hm_map s !! m) as [h|] eqn:Em; [|eauto].
  destruct (hv_map _ _ _ Hi m h Em) as (i & Hh & _).
  unfold load. rewrite Hh. cbn [mbind res_bind]. destruct (_ =? 0); [|eauto].
  destruct (delete_rpcc_total s (hi_cl i)) as [s' ->]; [|cbn; eauto].
  intros c Hc. apply (hv_own _ _ _ Hi h c). left. eauto.
Qed.

Lemma done_handle_total (s : handle_mgr) (l1 l2 : list hptr) (b : list (hptr * rpcc_id)) (h : hptr) :
  handles_inv s (l1 ++ h :: l2) b -> exists s', done_handle s h = Ok s'.
Proof.
  intros Hi. destruct (load_live _ _ _ h Hi) as (i & Hl & Hh); [set_solver|].
  destruct (hv_heap _ _ _ Hi h i Hh) as (_ & Hr & Hs).
  assert (Hlt : 0 < users (l1 ++ h :: l2) b h) by (apply users_live; set_solver).
  unfold done_handle. rewrite Hl. cbn [mbind res_bind].
  rewrite int_result_ok by (unfold is_signed in *; lia). cbn [mbind res_bind].
  destruct (_ && _); [|eauto]. eapply (delete_handle_total _ (l1 ++ l2) b).
  eapply inv_store; cbn; eauto using hv_binding, hv_unbound.
  - intros q Hq. rewrite !users_app, users_cons, decide_False by done. lia.
  - rewrite Hr, !users_app, users_cons, decide_True by done. lia.
  - unfold is_signed in *; lia.
  - by eapply owns_store_same.
Qed.


(** One handle on a server, inside [safebind]. *)
Definition hs_bound : handles :=
  Handles (Hmgr {["h:1" := 7]} {[7 := Hinfo None 1 false "h:1"]} {[40]}) [] [(7, 40)].

Lemma hs_bound_reach : handle_reach hs_bound.
Proof.
  eapply HR_step; [eapply HR_step; [apply HR_new|]|].
  - apply (HS_get new_handle_mgr [] [] "h:1" 7 7); vm_compute; reflexivity.
  - apply (HS_bind _ [] [] [] 7 40); [apply not_elem_of_nil|apply not_elem_of_empty|vm_compute; reflexivity].
Defined.


(** A successful bind is not for ever: after [delete_handle], a handle whose
    first [safebind] returned a client, and that is still in use, gets [NULL]
    from every later [safebind]. *)
Theorem safebind_after_delete (s s' : handle_mgr) (h : hptr) (c c' : rpcc_id) (i : hinfo) :
  hm_heap s !! h = Some i -> hm_map s !! hi_m i = Some h -> hi_refcnt i <> 0 ->
  safebind_begin s h c = Ok (inl (Some c')) -> delete_handle s (hi_m i) = Ok s' ->
  safebind_begin s' h c = Ok (inl None).
Proof.
  intros Hh Hm Hr _ H. unfold delete_handle, delete_handle_wo, load in H.
  rewrite Hm, Hh in H. cbn [mbind res_bind] in H.
  rewrite (proj2 (Z.eqb_neq _ _) Hr) in H. res_inv.
  unfold safebind_begin, load. cbn. by rewrite lookup_insert_eq.
Qed.

Lemma safebind_after_delete_witness :
  exists s', safebind_begin s' 7 0 = Ok (inl None).
Proof.
  eexists.
  apply (safebind_after_delete
    (Hmgr {["h:1" := 7]} {[7 := Hinfo (Some 40) 1 false "h:1"]} {[40]}) _ 7 0 40
    (Hinfo (Some 40) 1 false "h:1")); try (vm_compute; reflexivity). done.
Defined.
