(* ===== verification/LockServer.v ===== *)
(** * The blocking lock server

    [lock_server] of src/lock_server.cc and the protocol numbers of
    src/lock_protocol.h. Every handler runs under [server_mutex]; a handler that
    waits on a condition variable is a step that is not enabled until its
    condition holds. *)
From S2P Require Import Prelude.

(** ** Protocol *)

Inductive lock_status := L_OK | L_RETRY | L_RPCERR | L_NOENT | L_IOERR.

#[export] Instance lock_status_eq_dec : EqDecision lock_status.
Proof. solve_decision. Defined.

Definition lock_status_code (s : lock_status) : Z :=
  match s with L_OK => 0 | L_RETRY => 1 | L_RPCERR => 2 | L_NOENT => 3 | L_IOERR => 4 end.

Definition lock_acquire_proc : Z := 0x7001.
Definition lock_release_proc : Z := 0x7002.
Definition lock_stat_proc : Z := 0x7003.
Definition rlock_revoke_proc : Z := 0x8001.
Definition rlock_retry_proc : Z := 0x8002.

(** ** State and handlers *)

Record lock_server := LockServer {
  ls_nacquire : Z;
  ls_locks : gmap Z Z                (* lock id to the [client] field of [Lock] *)
}.

Definition new_lock_server : lock_server := LockServer 0 ∅.

Definition ls_stat (st : lock_server) (clt lid : Z) : lock_status * Z := (L_OK, ls_nacquire st).

Definition ls_set (st : lock_server) (lid clt : Z) : lock_server :=
  LockServer (ls_nacquire st) (<[lid := clt]> (ls_locks st)).

(** [None]: the caller waits on the lock's condition variable. *)
Definition ls_acquire (st : lock_server) (clt lid : Z) : option (lock_status * lock_server) :=
  match ls_locks st !! lid with
  | None => Some (L_OK, ls_set st lid clt)
  | Some client => if client >? 0 then None else Some (L_OK, ls_set st lid clt)
  end.

(** The broadcast succeeds. *)
Definition ls_release (st : lock_server) (clt lid : Z) : lock_status * lock_server :=
  match ls_locks st !! lid with
  | Some _ => (L_OK, ls_set st lid (-1))
  | None => (L_OK, st)
  end.

(** ** Traces *)

(** The acquisitions that were granted and the releases, in the order of the
    mutex. A client releases only what it holds. *)
Inductive ls_event := Granted (clt lid : Z) | Released (clt lid : Z).

Inductive ls_run : list ls_event -> lock_server -> Prop :=
  | lr_init : ls_run [] new_lock_server
  | lr_acquire tr st clt lid st' :
      ls_run tr st -> 0 < clt -> ls_acquire st clt lid = Some (L_OK, st') ->
      ls_run (Granted clt lid :: tr) st'
  | lr_release tr st clt lid st' :
      ls_run tr st -> ls_locks st !! lid = Some clt -> ls_release st clt lid = (L_OK, st') ->
      ls_run (Released clt lid :: tr) st'.

(** The holder of a lock according to the trace. *)
Fixpoint ls_holder (lid : Z) (tr : list ls_event) : option Z :=
  match tr with
  | [] => None
  | Granted clt l :: tr => if l =? lid then Some clt else ls_holder lid tr
  | Released clt l :: tr => if l =? lid then None else ls_holder lid tr
  end.

(** What the table says of a lock. *)
Definition ls_held (st : lock_server) (lid : Z) : option Z :=
  match ls_locks st !! lid with
  | Some c => if c >? 0 then Some c else None
  | None => None
  end.

Lemma ls_held_set st lid clt l :
  ls_held (ls_set st lid clt) l =
  if lid =? l then if clt >? 0 then Some clt else None else ls_held st l.
Proof.
  unfold ls_held, ls_set. simpl. destruct (Z.eqb_spec lid l) as [->|Hne].
  - by rewrite lookup_insert_eq.
  - by rewrite lookup_insert_ne.
Qed.

(** * Properties *)

(** The lock table follows the history: a lock is held by the client it
    was last granted to and not released by, and an acquisition is granted only
    when nobody holds the lock (the caller waits otherwise). *)
Theorem lock_server_exclusive tr st :
  ls_run tr st ->
  (forall lid, ls_held st lid = ls_holder lid tr) /\
  (forall clt lid, ls_holder lid tr = None <-> is_Some (ls_acquire st clt lid)).
Proof.
  intros Hrun.
  assert (Hheld : forall lid, ls_held st lid = ls_holder lid tr).
  { induction Hrun as [|tr st clt lid st' _ IH Hpos E|tr st clt lid st' _ IH Hl E]; intros l; simpl.
    - done.
    - assert (st' = ls_set st lid clt) as ->.
      { unfold ls_acquire in E. destruct (ls_locks st !! lid); [destruct (_ >? _)|]; congruence. }
      rewrite ls_held_set, IH. destruct (Z.gtb_spec clt 0); [done|lia].
    - unfold ls_release in E. rewrite Hl in E. injection E as <-.
      rewrite ls_held_set, IH. done. }
  split; [done|]. intros clt lid. rewrite <- Hheld. unfold ls_held, ls_acquire.
  destruct (ls_locks st !! lid) as [c|]; [destruct (c >? 0)|]; split; intros H; try done; try by eexists.
Qed.

Lemma lock_server_exclusive_witness :
  exists st, ls_run [Granted 7 1; Released 5 1; Granted 5 1] st /\ ls_acquire st 5 1 = None /\
    ls_held st 1 = Some 7.
Proof.
  assert (Hr : ls_run [Granted 7 1; Released 5 1; Granted 5 1]
    (ls_set (ls_set (ls_set new_lock_server 1 5) 1 (-1)) 1 7)).
  { apply (lr_acquire _ (ls_set (ls_set new_lock_server 1 5) 1 (-1))); [|lia|reflexivity].
    apply (lr_release _ (ls_set new_lock_server 1 5)); [|reflexivity|reflexivity].
    apply (lr_acquire _ new_lock_server); [constructor|lia|reflexivity]. }
  eexists. split; [exact Hr|]. split; [vm_compute; reflexivity|].
  apply (proj1 (lock_server_exclusive _ _ Hr)).
Defined.
