(* ===== verification/LockServerCache.v ===== *)
(** * The caching lock server

    [lock_server_cache] of src/lock_server_cache.h and src/lock_server_cache.cc:
    a lock is granted to a client, which keeps it until it is revoked. Each
    handler is what the code does under [server_mutex], together with the RPC it
    makes afterwards (the answer of that RPC is only logged). *)
From S2P Require Import Prelude LockServer.

Inductive cache_state := SV_FREE | SV_LOCKED | SV_LOCKED_AND_WAIT | SV_ORDERED.

#[export] Instance cache_state_eq_dec : EqDecision cache_state.
Proof. solve_decision. Defined.

Record CacheLock := Cache_lock {
  cl_client : string;
  cl_state : cache_state;
  cl_queue : gset string
}.

#[export] Instance CacheLock_eq_dec : EqDecision CacheLock.
Proof. solve_decision. Defined.

Definition new_cache_lock : CacheLock := Cache_lock "" SV_FREE ∅.

(** [*queue.begin()]: the least element, if there is one. *)
Definition string_min (x y : string) : string := if decide (x ≤ y)%string then x else y.
Definition set_begin (q : gset string) : option string :=
  match elements q with
  | [] => None
  | x :: l => Some (foldr string_min x l)
  end.

(** *** One lock *)

(** The status returned, the client to revoke the lock from, and the lock. *)
Definition lock_acquire (l : CacheLock) (id : string) : lock_status * option string * CacheLock :=
  match cl_state l with
  | SV_FREE => (L_OK, None, Cache_lock id SV_LOCKED (cl_queue l))
  | SV_LOCKED =>
      (L_RETRY, Some (cl_client l),
       Cache_lock (cl_client l) SV_LOCKED_AND_WAIT ({[id]} ∪ cl_queue l))
  | SV_LOCKED_AND_WAIT =>
      (L_RETRY, None, Cache_lock (cl_client l) SV_LOCKED_AND_WAIT ({[id]} ∪ cl_queue l))
  | SV_ORDERED =>
      if decide (id ∈ cl_queue l) then
        let q := cl_queue l ∖ {[id]} in
        if decide (q = ∅) then (L_OK, None, Cache_lock id SV_LOCKED q)
        else (L_OK, Some id, Cache_lock id SV_LOCKED_AND_WAIT q)
      else (L_RETRY, None, Cache_lock (cl_client l) SV_ORDERED ({[id]} ∪ cl_queue l))
  end.

(** The client to send a retry to, and the lock. The releasing client's name is
    only printed. *)
Definition lock_release (l : CacheLock) (id : string) : res (option string * CacheLock) :=
  match cl_state l with
  | SV_FREE => Ok (None, l)
  | SV_LOCKED => Ok (None, Cache_lock "" SV_FREE (cl_queue l))
  | SV_LOCKED_AND_WAIT =>
      match set_begin (cl_queue l) with
      | Some addr => Ok (Some addr, Cache_lock "" SV_ORDERED (cl_queue l))
      | None => Err Undefined
      end
  | SV_ORDERED => Ok (None, l)
  end.

(** *** The handlers *)

(** [nacquire] is not initialised by the constructor: it is whatever the memory
    held. *)
Record lock_server_cache := LockServerCache {
  lsc_nacquire : Z;
  lsc_locks : gmap Z CacheLock
}.

Definition new_lock_server_cache (junk : Z) : lock_server_cache := LockServerCache junk ∅.

Definition lsc_set (st : lock_server_cache) (lid : Z) (l : CacheLock) : lock_server_cache :=
  LockServerCache (lsc_nacquire st) (<[lid := l]> (lsc_locks st)).

Definition lsc_acquire (st : lock_server_cache) (lid : Z) (id : string)
    : lock_status * option string * lock_server_cache :=
  let '(ret, revoke, l) := lock_acquire (default new_cache_lock (lsc_locks st !! lid)) id in
  (ret, revoke, lsc_set st lid l).

Definition lsc_release (st : lock_server_cache) (lid : Z) (id : string)
    : res (lock_status * option string * lock_server_cache) :=
  match lsc_locks st !! lid with
  | None => Ok (L_OK, None, st)
  | Some l => '(inform, l) ← lock_release l id; Ok (L_OK, inform, lsc_set st lid l)
  end.

Definition lsc_stat (st : lock_server_cache) (lid : Z) : lock_status * Z :=
  (L_OK, lsc_nacquire st).

(** ** Invariant *)

(** A lock nobody waits for has an empty queue; one somebody waits for does
    not. A held lock has a client. *)
Definition lock_wf (l : CacheLock) : Prop :=
  match cl_state l with
  | SV_FREE | SV_LOCKED => cl_queue l = ∅
  | SV_LOCKED_AND_WAIT | SV_ORDERED => cl_queue l <> ∅
  end.

Lemma string_min_cases x y : string_min x y = x \/ string_min x y = y.
Proof. unfold string_min. case_decide; auto. Qed.

Lemma string_min_le x y : (string_min x y ≤ x)%string /\ (string_min x y ≤ y)%string.
Proof.
  unfold string_min. case_decide as E; [done|].
  destruct (total String.le x y); [done|]. by split.
Qed.

Lemma foldr_min_spec x l :
  foldr string_min x l ∈ x :: l /\ forall y, y ∈ x :: l -> (foldr string_min x l ≤ y)%string.
Proof.
  induction l as [|z l [IHin IHle]]; simpl.
  - split; [by left|]. intros y Hy. by apply list_elem_of_singleton in Hy as ->.
  - destruct (string_min_le z (foldr string_min x l)) as [H1 H2]. split.
    + destruct (string_min_cases z (foldr string_min x l)) as [-> | ->]; set_solver.
    + intros y Hy. assert (y = z \/ y ∈ x :: l) as [->|Hy'] by set_solver; [done|].
      etrans; [exact H2|]. by apply IHle.
Qed.

Lemma set_begin_least q :
  q <> ∅ -> exists a, set_begin q = Some a /\ a ∈ q /\ forall y, y ∈ q -> (a ≤ y)%string.
Proof.
  intros Hq. unfold set_begin. destruct (elements q) as [|x l] eqn:E.
  - by apply elements_empty_inv, leibniz_equiv in E.
  - destruct (foldr_min_spec x l) as [Hin Hle]. eexists. split; [done|].
    rewrite <- E in Hin. split; [by apply elem_of_elements|].
    intros y Hy%elem_of_elements. rewrite E in Hy. by apply Hle.
Qed.

Lemma lock_acquire_wf l id : lock_wf l -> lock_wf (lock_acquire l id).2.
Proof.
  unfold lock_wf, lock_acquire. destruct l as [c [] q]; simpl; intros Hq; try set_solver.
  repeat case_decide; simpl; set_solver.
Qed.

Lemma lock_release_wf l id :
  lock_wf l -> exists a l', lock_release l id = Ok (a, l') /\ lock_wf l'.
Proof.
  unfold lock_wf, lock_release. destruct l as [c [] q]; simpl; intros Hq; try by eauto.
  destruct (set_begin_least q Hq) as (a & -> & _). by eauto.
Qed.

Definition lsc_wf (st : lock_server_cache) : Prop := map_Forall (fun _ => lock_wf) (lsc_locks st).

(** Calls of the two handlers that change the table. *)
Inductive lsc_call := C_acquire (lid : Z) (id : string) | C_release (lid : Z) (id : string).

Definition lsc_exec (st : lock_server_cache) (c : lsc_call) : res lock_server_cache :=
  match c with
  | C_acquire lid id => Ok (lsc_acquire st lid id).2
  | C_release lid id => '(_, st) ← lsc_release st lid id; Ok st
  end.

Fixpoint lsc_execs (st : lock_server_cache) (cs : list lsc_call) : res lock_server_cache :=
  match cs with
  | [] => Ok st
  | c :: cs => st ← lsc_exec st c; lsc_execs st cs
  end.

Lemma lsc_exec_wf st c : lsc_wf st -> exists st', lsc_exec st c = Ok st' /\ lsc_wf st'.
Proof.
  intros Hw. destruct c as [lid id|lid id]; simpl.
  - unfold lsc_acquire.
    pose proof (lock_acquire_wf (default new_cache_lock (lsc_locks st !! lid)) id) as Ha.
    destruct (lock_acquire _ id) as [[ret rv] l]. eexists. split; [done|].
    apply map_Forall_insert_2; [|done]. apply Ha.
    destruct (lsc_locks st !! lid) eqn:E; [by apply (Hw lid)|done].
  - unfold lsc_release. destruct (lsc_locks st !! lid) as [l|] eqn:E; [|by eauto].
    destruct (lock_release_wf l id) as (a & l' & -> & Hl'); [by apply (Hw lid)|].
    eexists. split; [done|]. by apply map_Forall_insert_2.
Qed.

(** * Properties *)

(** Whatever acquire and release calls arrive in whatever order, also from
    clients that hold nothing, the server never takes the front of an empty
    queue, and in every lock table it reaches a lock has waiting clients exactly
    in the states LOCKED_AND_WAIT and ORDERED: the two cases the code reports as
    impossible (a queue at a FREE lock, or at a LOCKED one being released) do
    not occur. *)
Theorem lock_server_cache_wf junk cs :
  exists st, lsc_execs (new_lock_server_cache junk) cs = Ok st /\ lsc_wf st.
Proof.
  assert (Hgen : forall cs st, lsc_wf st -> exists st', lsc_execs st cs = Ok st' /\ lsc_wf st').
  { clear cs. induction cs as [|c cs IH]; intros st Hw; simpl; [by eauto|].
    destruct (lsc_exec_wf st c Hw) as (st1 & -> & Hw1). simpl. by apply IH. }
  apply Hgen. apply map_Forall_empty.
Qed.

(** When a waited-for lock is released it is reserved for the waiting
    clients, the retry goes to the least of them, and that client's next
    acquire is granted at once; it is told to give the lock back as soon as
    others are still waiting. *)
Theorem release_then_retry_grants l id :
  lock_wf l -> cl_state l = SV_LOCKED_AND_WAIT ->
  exists a l', lock_release l id = Ok (Some a, l') /\ a ∈ cl_queue l /\
    (forall b, b ∈ cl_queue l -> (a ≤ b)%string) /\
    exists rv l'', lock_acquire l' a = (L_OK, rv, l'') /\ cl_client l'' = a /\
      cl_queue l'' = cl_queue l ∖ {[a]} /\
      (rv = Some a /\ cl_state l'' = SV_LOCKED_AND_WAIT /\ cl_queue l'' <> ∅ \/
       rv = None /\ cl_state l'' = SV_LOCKED /\ cl_queue l'' = ∅).
Proof.
  intros Hw Hs. unfold lock_wf in Hw. rewrite Hs in Hw.
  destruct (set_begin_least _ Hw) as (a & Ea & Hin & Hle).
  unfold lock_release. rewrite Hs, Ea. do 2 eexists. split_and!; [done..|].
  unfold lock_acquire. cbn [cl_state cl_queue]. rewrite decide_True by done.
  case_decide; do 2 eexists; split_and!; try done; [right|left]; done.
Qed.

(** ** Witnesses *)

Definition waited_lock : CacheLock := Cache_lock "a" SV_LOCKED_AND_WAIT {["c"; "b"]}.

Lemma release_then_retry_grants_witness :
  exists a l', lock_release waited_lock "a" = Ok (Some a, l') /\ a ∈ cl_queue waited_lock.
Proof.
  destruct (release_then_retry_grants waited_lock "a") as (a & l' & E & Hin & _).
  - vm_compute. discriminate.
  - reflexivity.
  - by exists a, l'.
Defined.
