(* ===== verification/LockClientCache.v ===== *)
(** * The caching lock client

    [lock_client_cache] of src/lock_client_cache.h and src/lock_client_cache.cc.
    One definition per critical section of [mutex]: the functions release the
    mutex around RPCs and while they wait on a condition variable, so other
    threads of the client run between the pieces. *)
From S2P Require Import Prelude LockServer.

Inductive client_state := CC_NONE | CC_FREE | CC_LOCKED | CC_ACQUIRING | CC_RELEASING.

#[export] Instance client_state_eq_dec : EqDecision client_state.
Proof. solve_decision. Defined.

Record ClientCacheLock := Client_lock {
  cc_state : client_state;
  cc_owner : Z;                  (* thread *)
  cc_revoke : Z;
  cc_retry : Z
}.

#[export] Instance ClientCacheLock_eq_dec : EqDecision ClientCacheLock.
Proof. solve_decision. Defined.

Definition new_client_lock : ClientCacheLock := Client_lock CC_NONE (-1) 0 0.

Definition set_cc_state (l : ClientCacheLock) (s : client_state) : ClientCacheLock :=
  Client_lock s (cc_owner l) (cc_revoke l) (cc_retry l).
Definition set_cc_owner (l : ClientCacheLock) (self : Z) : ClientCacheLock :=
  Client_lock (cc_state l) self (cc_revoke l) (cc_retry l).
Definition set_cc_revoke (l : ClientCacheLock) (n : Z) : ClientCacheLock :=
  Client_lock (cc_state l) (cc_owner l) n (cc_retry l).
Definition set_cc_retry (l : ClientCacheLock) (n : Z) : ClientCacheLock :=
  Client_lock (cc_state l) (cc_owner l) (cc_revoke l) n.

(** ** One lock *)

(** One pass of the [do] loop of [acquire]: the thread goes on to the RPC, has
    the lock, or waits and passes again. *)
Inductive acquire_pass := Pass_rpc | Pass_got | Pass_wait | Pass_wait_release.

Definition acquire_try (l : ClientCacheLock) (self : Z) : acquire_pass * ClientCacheLock :=
  match cc_state l with
  | CC_NONE => (Pass_rpc, set_cc_state l CC_ACQUIRING)
  | CC_FREE => (Pass_got, set_cc_owner (set_cc_state l CC_LOCKED) self)
  | CC_ACQUIRING | CC_LOCKED => (Pass_wait, l)
  | CC_RELEASING => (Pass_wait_release, l)
  end.

(** After the acquire RPC: true when the loop ends with the lock. *)
Definition acquire_reply (l : ClientCacheLock) (self : Z) (ret : lock_status)
    : bool * ClientCacheLock :=
  if decide (ret = L_OK) then (true, set_cc_owner (set_cc_state l CC_LOCKED) self)
  else (false, l).

(** The end of the wait for [retry_cond], when it may end. *)
Definition acquire_retry (l : ClientCacheLock) : option ClientCacheLock :=
  if cc_retry l =? 0 then None else Some (set_cc_retry l 0).

(** [release] before the RPC: whether the lock goes back to the server. *)
Definition release_begin (l : ClientCacheLock) : bool * ClientCacheLock :=
  if negb (cc_revoke l =? 0) then (true, set_cc_revoke l (cc_revoke l - 1))
  else match cc_state l with
  | CC_LOCKED => (false, set_cc_state l CC_FREE)
  | CC_RELEASING => (true, l)
  | CC_NONE | CC_FREE | CC_ACQUIRING => (false, l)
  end.

(** [release] and [revoke_handler] after the RPC. *)
Definition release_end (l : ClientCacheLock) : ClientCacheLock := set_cc_state l CC_NONE.

(** [revoke_handler] before the RPC: whether the handler itself gives the lock
    back. *)
Definition revoke_begin (l : ClientCacheLock) : bool * ClientCacheLock :=
  match cc_state l with
  | CC_FREE => (true, set_cc_state l CC_RELEASING)
  | CC_LOCKED => (false, set_cc_state l CC_RELEASING)
  | CC_NONE | CC_ACQUIRING | CC_RELEASING => (false, set_cc_revoke l (cc_revoke l + 1))
  end.

Definition retry_set (l : ClientCacheLock) : ClientCacheLock := set_cc_retry l 1.

(** ** The table *)

Abbreviation lcc_locks := (gmap Z ClientCacheLock).

(** [acquire] creates the entry; the other entry points look it up, and return
    RETRY (or, for a retry, OK) when there is none. *)
Definition lcc_acquire_pass (locks : lcc_locks) (lid self : Z) : acquire_pass * lcc_locks :=
  let '(p, l) := acquire_try (default new_client_lock (locks !! lid)) self in
  (p, <[lid := l]> locks).

Definition lcc_release_begin (locks : lcc_locks) (lid : Z) : lock_status * bool * lcc_locks :=
  match locks !! lid with
  | None => (L_RETRY, false, locks)
  | Some l => let '(flag, l) := release_begin l in (L_OK, flag, <[lid := l]> locks)
  end.

Definition lcc_revoke_handler (locks : lcc_locks) (lid : Z) : lock_status * bool * lcc_locks :=
  match locks !! lid with
  | None => (L_RETRY, false, locks)
  | Some l => let '(flag, l) := revoke_begin l in (L_OK, flag, <[lid := l]> locks)
  end.

Definition lcc_retry_handler (locks : lcc_locks) (lid : Z) : lock_status * lcc_locks :=
  match locks !! lid with
  | None => (L_OK, locks)
  | Some l => (L_OK, <[lid := retry_set l]> locks)
  end.

(** ** The client's address *)

(** The port the callback server listens on, from the number drawn. *)
Definition rlock_port (rnd : Z) : Z := Z.lor (rnd mod 32000) (Z.shiftl 1 10).

(** It is an unprivileged 16-bit port, whatever number is drawn. *)
Lemma rlock_port_bounds rnd : 1024 <= rlock_port rnd < 32768.
Proof.
  unfold rlock_port. change (Z.shiftl 1 10) with 1024.
  pose proof (Z.mod_pos_bound rnd 32000 ltac:(lia)) as Hr. split.
  - assert (Z.lor (rnd mod 32000) 1024 = 1024 + Z.ldiff (rnd mod 32000) 1024) as ->.
    { rewrite Z.add_nocarry_lxor, Z.lxor_lor.
      - apply Z.bits_inj'. intros n Hn. rewrite !Z.lor_spec, Z.ldiff_spec.
        destruct (Z.testbit (rnd mod 32000) n), (Z.testbit 1024 n); done.
      - apply Z.bits_inj'. intros n Hn. rewrite Z.land_spec, Z.ldiff_spec, Z.bits_0.
        destruct (Z.testbit 1024 n); [by rewrite andb_false_r|done].
      - apply Z.bits_inj'. intros n Hn. rewrite Z.land_spec, Z.ldiff_spec, Z.bits_0.
        destruct (Z.testbit 1024 n); [by rewrite andb_false_r|done]. }
    assert (0 <= Z.ldiff (rnd mod 32000) 1024) by (apply Z.ldiff_nonneg; lia). lia.
  - destruct (decide (0 < Z.lor (rnd mod 32000) 1024)) as [Hpos|]; [|lia].
    change 32768 with (2 ^ 15). apply Z.log2_lt_pow2; [done|].
    rewrite Z.log2_lor by lia. apply Z.max_lub_lt; [|done].
    destruct (decide (rnd mod 32000 = 0)) as [->|]; [done|].
    apply Z.log2_lt_pow2; lia.
Qed.
