(* ===== verification/LockProtocol.v ===== *)
(** * The cached lock protocol

    One lock of the caching lock server and all its clients, composed: the
    server's handlers (LockServerCache), the clients' functions (LockClientCache)
    and the RPCs between them, each of which is delivered once (RpcServer) after
    any delay. The steps interleave the critical sections in every order; the
    properties are mutual exclusion between all threads of all clients, and that
    waiting clients are never forgotten. *)
From S2P Require Import Prelude LockServer LockServerCache LockClientCache.

(** ** State *)

(** The thread of a client that is in the RPC loop of [acquire]. *)
Inductive acq_pc :=
  | A_none
  | A_call                       (* about to call *)
  | A_sent                       (* the request is on its way *)
  | A_reply (ret : lock_status)  (* the answer is on its way *)
  | A_wait.                      (* waits for retry_cond *)

(** The thread that gives the lock back ([release] or [revoke_handler]). *)
Inductive rel_pc :=
  | R_none
  | R_flush                      (* about to run dorelease and to call *)
  | R_sent
  | R_reply.

#[export] Instance acq_pc_eq_dec : EqDecision acq_pc.
Proof. solve_decision. Defined.
#[export] Instance rel_pc_eq_dec : EqDecision rel_pc.
Proof. solve_decision. Defined.

Record client := Client {
  k_lock : ClientCacheLock;
  k_acq : acq_pc;
  k_rel : rel_pc;
  k_cs : bool;           (* a thread is between acquire and release *)
  k_revokes : Z;         (* revoke requests on their way to the client *)
  k_retries : Z          (* retry requests on their way to the client *)
}.

Definition idle_client : client := Client new_client_lock A_none R_none false 0 0.

Record proto := Proto { p_server : CacheLock; p_clients : string -> client }.

Definition upd (f : string -> client) (i : string) (c : client) : string -> client :=
  fun j => if decide (j = i) then c else f j.

Definition add_revoke (to : option string) (f : string -> client) : string -> client :=
  match to with
  | None => f
  | Some h => let c := f h in
      upd f h (Client (k_lock c) (k_acq c) (k_rel c) (k_cs c) (k_revokes c + 1) (k_retries c))
  end.

Definition add_retry (to : option string) (f : string -> client) : string -> client :=
  match to with
  | None => f
  | Some h => let c := f h in
      upd f h (Client (k_lock c) (k_acq c) (k_rel c) (k_cs c) (k_revokes c) (k_retries c + 1))
  end.

(** ** Steps *)

(** What a user thread of the client does: start an [acquire] (a pass that
    waits changes nothing), or [release] the lock it holds. *)
Inductive user_step : proto -> proto -> Prop :=
  | us_rpc s i self l :
      acquire_try (k_lock (p_clients s i)) self = (Pass_rpc, l) ->
      user_step s (Proto (p_server s) (upd (p_clients s) i
        (let c := p_clients s i in Client l A_call (k_rel c) (k_cs c) (k_revokes c) (k_retries c))))
  | us_got s i self l :
      acquire_try (k_lock (p_clients s i)) self = (Pass_got, l) ->
      user_step s (Proto (p_server s) (upd (p_clients s) i
        (let c := p_clients s i in Client l (k_acq c) (k_rel c) true (k_revokes c) (k_retries c))))
  | us_release s i flag l :
      k_cs (p_clients s i) = true -> release_begin (k_lock (p_clients s i)) = (flag, l) ->
      user_step s (Proto (p_server s) (upd (p_clients s) i
        (let c := p_clients s i in
         Client l (k_acq c) (if flag : bool then R_flush else k_rel c) false (k_revokes c) (k_retries c)))).

(** What happens by itself: calls go out, the server answers, answers and
    callbacks arrive. *)
Inductive net_step : proto -> proto -> Prop :=
  | ns_call s i :
      k_acq (p_clients s i) = A_call ->
      net_step s (Proto (p_server s) (upd (p_clients s) i
        (let c := p_clients s i in
         Client (k_lock c) A_sent (k_rel c) (k_cs c) (k_revokes c) (k_retries c))))
  | ns_server_acquire s i ret rv sv :
      k_acq (p_clients s i) = A_sent -> lock_acquire (p_server s) i = (ret, rv, sv) ->
      net_step s (Proto sv (add_revoke rv (upd (p_clients s) i
        (let c := p_clients s i in
         Client (k_lock c) (A_reply ret) (k_rel c) (k_cs c) (k_revokes c) (k_retries c)))))
  | ns_reply s i self ret ok l :
      k_acq (p_clients s i) = A_reply ret ->
      acquire_reply (k_lock (p_clients s i)) self ret = (ok, l) ->
      net_step s (Proto (p_server s) (upd (p_clients s) i
        (let c := p_clients s i in
         Client l (if ok : bool then A_none else A_wait) (k_rel c) (ok || k_cs c) (k_revokes c) (k_retries c))))
  | ns_retry s i l :
      k_acq (p_clients s i) = A_wait -> acquire_retry (k_lock (p_clients s i)) = Some l ->
      net_step s (Proto (p_server s) (upd (p_clients s) i
        (let c := p_clients s i in Client l A_call (k_rel c) (k_cs c) (k_revokes c) (k_retries c))))
  | ns_flush s i :
      k_rel (p_clients s i) = R_flush ->
      net_step s (Proto (p_server s) (upd (p_clients s) i
        (let c := p_clients s i in
         Client (k_lock c) (k_acq c) R_sent (k_cs c) (k_revokes c) (k_retries c))))
  | ns_server_release s i inform sv :
      k_rel (p_clients s i) = R_sent -> lock_release (p_server s) i = Ok (inform, sv) ->
      net_step s (Proto sv (add_retry inform (upd (p_clients s) i
        (let c := p_clients s i in
         Client (k_lock c) (k_acq c) R_reply (k_cs c) (k_revokes c) (k_retries c)))))
  | ns_release_end s i :
      k_rel (p_clients s i) = R_reply ->
      net_step s (Proto (p_server s) (upd (p_clients s) i
        (let c := p_clients s i in
         Client (release_end (k_lock c)) (k_acq c) R_none (k_cs c) (k_revokes c) (k_retries c))))
  | ns_revoke s i flag l :
      0 < k_revokes (p_clients s i) -> revoke_begin (k_lock (p_clients s i)) = (flag, l) ->
      net_step s (Proto (p_server s) (upd (p_clients s) i
        (let c := p_clients s i in
         Client l (k_acq c) (if flag : bool then R_flush else k_rel c) (k_cs c)
           (k_revokes c - 1) (k_retries c))))
  | ns_retry_msg s i :
      0 < k_retries (p_clients s i) ->
      net_step s (Proto (p_server s) (upd (p_clients s) i
        (let c := p_clients s i in
         Client (retry_set (k_lock c)) (k_acq c) (k_rel c) (k_cs c) (k_revokes c) (k_retries c - 1)))).

Definition proto_step (s s' : proto) : Prop := user_step s s' \/ net_step s s'.

Definition proto_init : proto := Proto new_cache_lock (fun _ => idle_client).

Definition proto_reachable (s : proto) : Prop := rtc proto_step proto_init s.

(** ** Invariant *)

(** The client the server has given the lock to. [w] counts the one revoke
    there is while others wait: it is on its way, has been counted, or is being
    served. *)
Inductive owner_ok (w : Z) : client -> Prop :=
  | ow_granted own rv rvm :
      0 <= rv -> 0 <= rvm -> rv + rvm = w ->
      owner_ok w (Client (Client_lock CC_ACQUIRING own rv 0) (A_reply L_OK) R_none false rvm 0)
  | ow_held own rv rvm :
      0 <= rv -> 0 <= rvm -> rv + rvm = w ->
      owner_ok w (Client (Client_lock CC_LOCKED own rv 0) A_none R_none true rvm 0)
  | ow_cached own :
      owner_ok w (Client (Client_lock CC_FREE own 0 0) A_none R_none false w 0)
  | ow_revoked own :
      w = 1 -> owner_ok w (Client (Client_lock CC_RELEASING own 0 0) A_none R_none true 0 0)
  | ow_releasing own st pc :
      w = 1 -> st = CC_LOCKED \/ st = CC_RELEASING -> pc = R_flush \/ pc = R_sent ->
      owner_ok w (Client (Client_lock st own 0 0) A_none pc false 0 0).

(** A client without the lock. [inq]: it is in the server's queue; [tok]: the
    server has reserved the lock for it. *)
Inductive other_ok (inq tok : Prop) : client -> Prop :=
  | ot_none own :
      ~ inq -> ~ tok ->
      other_ok inq tok (Client (Client_lock CC_NONE own 0 0) A_none R_none false 0 0)
  | ot_asking own pc :
      pc = A_call \/ pc = A_sent -> (inq <-> tok) ->
      other_ok inq tok (Client (Client_lock CC_ACQUIRING own 0 0) pc R_none false 0 0)
  | ot_waiting own pc rt rtm :
      pc = A_reply L_RETRY \/ pc = A_wait -> inq ->
      0 <= rt -> 0 <= rtm -> (tok /\ rt + rtm = 1 \/ ~ tok /\ rt + rtm = 0) ->
      other_ok inq tok (Client (Client_lock CC_ACQUIRING own 0 rt) pc R_none false 0 rtm)
  | ot_released own st :
      ~ inq -> ~ tok -> st = CC_LOCKED \/ st = CC_RELEASING ->
      other_ok inq tok (Client (Client_lock st own 0 0) A_none R_reply false 0 0).

Definition proto_inv (s : proto) : Prop :=
  let sv := p_server s in
  let owned w := cl_client sv ∉ cl_queue sv /\ owner_ok w (p_clients s (cl_client sv)) /\
    forall i, i <> cl_client sv -> other_ok (i ∈ cl_queue sv) False (p_clients s i) in
  lock_wf sv /\
  match cl_state sv with
  | SV_FREE => forall i, other_ok (i ∈ cl_queue sv) False (p_clients s i)
  | SV_LOCKED => owned 0
  | SV_LOCKED_AND_WAIT => owned 1
  | SV_ORDERED =>
      exists d, d ∈ cl_queue sv /\ forall i, other_ok (i ∈ cl_queue sv) (i = d) (p_clients s i)
  end.

Lemma proto_init_inv : proto_inv proto_init.
Proof.
  split; [done|]. simpl. intros i. apply ot_none; set_solver.
Qed.

Lemma upd_eq f i c : upd f i c i = c.
Proof. unfold upd. by rewrite decide_True. Qed.
Lemma upd_ne f i c j : j <> i -> upd f i c j = f j.
Proof. intros. unfold upd. by rewrite decide_False. Qed.
Create Rewrite HintDb lock_upd.
#[export] Hint Rewrite upd_eq : lock_upd.
#[export] Hint Rewrite upd_ne using (done || congruence) : lock_upd.

Lemma other_ok_iff inq tok inq' tok' c :
  other_ok inq tok c -> (inq <-> inq') -> (tok <-> tok') -> other_ok inq' tok' c.
Proof.
  intros H Hq Ht. destruct H; econstructor; try done; rewrite <- ?Hq, <- ?Ht; done.
Qed.

#[export] Instance other_ok_proper : Proper (iff ==> iff ==> eq ==> iff) other_ok.
Proof.
  intros q q' Hq t t' Ht c ? <-. split; intros H; eapply other_ok_iff; try done; by symmetry.
Qed.

(** A step of one client that does not involve the server. *)
Lemma local_step s i c :
  proto_inv s ->
  (forall w, w = 0 \/ w = 1 -> owner_ok w (p_clients s i) -> owner_ok w c) ->
  (forall inq tok, other_ok inq tok (p_clients s i) -> other_ok inq tok c) ->
  proto_inv (Proto (p_server s) (upd (p_clients s) i c)).
Proof.
  intros [Hw Hi] Ho Hn. split; [done|]. simpl.
  assert (Hall : forall j inq tok, other_ok inq tok (p_clients s j) ->
    other_ok inq tok (upd (p_clients s) i c j)).
  { intros j inq tok H. destruct (decide (j = i)) as [->|]; autorewrite with lock_upd; auto. }
  assert (Hown : forall w j, w = 0 \/ w = 1 -> owner_ok w (p_clients s j) ->
    owner_ok w (upd (p_clients s) i c j)).
  { intros w j Hww H. destruct (decide (j = i)) as [->|]; autorewrite with lock_upd; auto. }
  destruct (cl_state (p_server s)).
  - auto.
  - destruct Hi as (H1 & H2 & H3). auto.
  - destruct Hi as (H1 & H2 & H3). auto.
  - destruct Hi as (d & H1 & H2). eauto.
Qed.

(** Rewrites the client's record by its shape and computes the step. *)
Ltac shape H :=
  inversion H; subst; simplify_eq/=;
  repeat match goal with
  | H : _ \/ _ |- _ => destruct H; simplify_eq/=
  | H : _ /\ _ |- _ => destruct H; simplify_eq/=
  end; try done; try lia.

Ltac client_cases i :=
  match goal with
  | |- forall w, _ -> owner_ok w ?c -> _ =>
      let w := fresh "w" in let Hw := fresh "Hw" in let H := fresh "Hcl" in
      intros w Hw H; destruct c as [[] ? ? ? ? ?] eqn:?; simplify_eq/=; shape H
  | |- forall q t, other_ok q t ?c -> _ =>
      let H := fresh "Hcl" in
      intros ? ? H; destruct c as [[] ? ? ? ? ?] eqn:?; simplify_eq/=; shape H
  end.

Lemma user_step_inv s s' : user_step s s' -> proto_inv s -> proto_inv s'.
Proof.
  intros Hstep Hi. destruct Hstep as [s i self l E|s i self l E|s i flag l Hcs E];
    apply local_step; try done; unfold acquire_try, release_begin in *; client_cases i.
  - apply ot_asking; [by left|]. by split.
  - by apply (ow_held 0 self 0 0).
  - by apply (ow_held 1 self 0 1).
  - destruct (Z.eqb_spec cc_revoke 0) as [->|Er]; simplify_eq/=; [|lia].
    apply ow_cached.
  - destruct (Z.eqb_spec cc_revoke 0) as [->|Er]; simplify_eq/=.
    + apply ow_cached.
    + assert (cc_revoke = 1) as -> by lia. assert (k_revokes0 = 0) as -> by lia.
      apply ow_releasing; auto.
  - apply ow_releasing; auto.
Qed.

(** The server answers an acquire: only a client that has asked, and does not
    own the lock, has a request on its way. *)
Definition answered (c : client) (ret : lock_status) : client :=
  Client (k_lock c) (A_reply ret) (k_rel c) (k_cs c) (k_revokes c) (k_retries c).

Lemma asking_shape w c : owner_ok w c -> k_acq c <> A_sent.
Proof. intros []; simpl; try done. Qed.

Lemma asking_other inq tok c :
  other_ok inq tok c -> k_acq c = A_sent ->
  (inq <-> tok) /\ exists own, c = Client (Client_lock CC_ACQUIRING own 0 0) A_sent R_none false 0 0.
Proof. intros [] E; simplify_eq/=; try (by destruct_or!); eauto. Qed.

(** A request that has to wait: the client enters the queue, everything else
    stays. *)
Lemma enqueue_other (q : gset string) (tok : string -> Prop) f i :
  (forall j, other_ok (j ∈ q) (tok j) (f j)) -> i ∉ q -> k_acq (f i) = A_sent ->
  forall j, other_ok (j ∈ {[i]} ∪ q) (tok j) (upd f i (answered (f i) L_RETRY) j).
Proof.
  intros Hall Hi Ha j. destruct (decide (j = i)) as [->|Hne]; autorewrite with lock_upd.
  - destruct (asking_other _ _ _ (Hall i) Ha) as (Hqt & own & ->). unfold answered. simpl.
    apply ot_waiting; [by left|set_solver|done|done|]. right. tauto.
  - eapply other_ok_iff; [apply Hall|set_solver|done].
Qed.

Lemma server_acquire_inv s i ret rv sv :
  proto_inv s -> k_acq (p_clients s i) = A_sent -> lock_acquire (p_server s) i = (ret, rv, sv) ->
  proto_inv (Proto sv (add_revoke rv (upd (p_clients s) i (answered (p_clients s i) ret)))).
Proof.
  intros [Hw Hi] Ha E. assert (Hw' := lock_acquire_wf (p_server s) i Hw). rewrite E in Hw'.
  destruct s as [[o st q] f]. unfold lock_acquire in E. simpl in *.
  split; [exact Hw'|]. unfold lock_wf in Hw. simpl in *. destruct st; simpl in *.
  - (* FREE: granted *)
    simplify_eq/=. destruct (asking_other _ _ _ (Hi i) Ha) as (_ & own & Ec).
    split_and!; [set_solver| |].
    + autorewrite with lock_upd. rewrite Ec. unfold answered. simpl. by apply ow_granted.
    + intros j Hj. by autorewrite with lock_upd.
  - (* LOCKED: the owner is told to give the lock back *)
    simplify_eq/=. destruct Hi as (Ho & Hown & Hoth).
    assert (Hio : i <> o) by (intros ->; by apply asking_shape in Hown).
    assert (Hiq : i ∉ (∅ : gset string)) by set_solver.
    split_and!; [set_solver| |].
    + rewrite upd_eq, upd_ne by congruence. destruct Hown; simpl; try lia.
      * apply ow_granted; lia.
      * apply ow_held; lia.
      * apply (ow_cached 1).
    + intros j Hj. autorewrite with lock_upd.
      destruct (asking_other _ _ _ (Hoth i Hio) Ha) as (_ & own & Ec).
      destruct (decide (j = i)) as [->|Hne]; autorewrite with lock_upd.
      * rewrite Ec. unfold answered. simpl. apply ot_waiting; [by left|set_solver|done|done|tauto].
      * eapply other_ok_iff; [by apply Hoth|set_solver|done].
  - (* LOCKED_AND_WAIT: one more waits *)
    simplify_eq/=. destruct Hi as (Ho & Hown & Hoth).
    assert (Hio : i <> o) by (intros ->; by apply asking_shape in Hown).
    destruct (asking_other _ _ _ (Hoth i Hio) Ha) as (Hqt & own & Ec).
    split_and!; [set_solver|by autorewrite with lock_upd|]. intros j Hj.
    destruct (decide (j = i)) as [->|Hne]; autorewrite with lock_upd.
    + rewrite Ec. unfold answered. simpl. apply ot_waiting; [by left|set_solver|done|done|tauto].
    + eapply other_ok_iff; [by apply Hoth|set_solver|done].
  - (* ORDERED *)
    destruct Hi as (d & Hd & Hoth).
    destruct (asking_other _ _ _ (Hoth i) Ha) as (Hqt & own & Ec).
    destruct (decide (i ∈ q)) as [Hiq|Hiq].
    + apply Hqt in Hiq as Hid. subst d.
      assert (Hrest : forall j, j <> i -> other_ok (j ∈ q ∖ {[i]}) False (f j)).
      { intros j Hj. eapply other_ok_iff; [apply Hoth|set_solver|done]. }
      destruct (decide (q ∖ {[i]} = ∅)) as [Hq|Hq]; simplify_eq/=.
      * split_and!; [set_solver| |].
        -- autorewrite with lock_upd. rewrite Ec. by apply ow_granted.
        -- intros j Hj. autorewrite with lock_upd. by apply Hrest.
      * split_and!; [set_solver| |].
        -- autorewrite with lock_upd. rewrite Ec. by apply ow_granted.
        -- intros j Hj. autorewrite with lock_upd. by apply Hrest.
    + simplify_eq/=. exists d. split; [set_solver|]. by apply enqueue_other.
Qed.

(** The server answers a release: only the owner that was told to give the lock
    back has one on its way. *)
Lemma server_release_inv s i inform sv :
  proto_inv s -> k_rel (p_clients s i) = R_sent -> lock_release (p_server s) i = Ok (inform, sv) ->
  proto_inv (Proto sv (add_retry inform (upd (p_clients s) i
    (let c := p_clients s i in
     Client (k_lock c) (k_acq c) R_reply (k_cs c) (k_revokes c) (k_retries c))))).
Proof.
  intros [Hw Hi] Hr E.
  assert (Hno : forall inq tok c, other_ok inq tok c -> k_rel c <> R_sent) by (by intros ? ? ? []).
  destruct s as [[o st q] f]. unfold lock_wf in Hw. unfold lock_release in E. simpl in *.
  destruct st; simpl in *.
  - by destruct (Hno _ _ _ (Hi i)).
  - destruct Hi as (_ & Hown & Hoth). destruct (decide (i = o)) as [->|Hio].
    + destruct Hown; simplify_eq/=.
    + by destruct (Hno _ _ _ (Hoth i Hio)).
  - destruct Hi as (Ho & Hown & Hoth). destruct (decide (i = o)) as [->|Hio].
    2: by destruct (Hno _ _ _ (Hoth i Hio)).
    destruct (set_begin_least q Hw) as (a & Ea & Hin & _). rewrite Ea in E. simplify_eq/=.
    split; [done|]. simpl. exists a. split; [done|]. intros j.
    assert (Hao : a <> o) by set_solver.
    destruct (decide (j = a)) as [->|Hja]; autorewrite with lock_upd.
    + destruct (Hoth a Hao) as [| |own pc rt rtm Hpc _ Hrt Hrtm [[[] _]|[_ Hsum]]|];
        simpl; try tauto.
      apply ot_waiting; [done|done|done|lia|]. left. split; [done|lia].
    + destruct (decide (j = o)) as [->|Hjo]; autorewrite with lock_upd.
      * destruct Hown; simplify_eq/=. apply ot_released; [done|congruence|done].
      * eapply other_ok_iff; [by apply Hoth|done|]. split; [done|congruence].
  - destruct Hi as (d & _ & Hoth). by destruct (Hno _ _ _ (Hoth i)).
Qed.

Lemma net_step_inv s s' : net_step s s' -> proto_inv s -> proto_inv s'.
Proof.
  intros Hstep Hi.
  destruct Hstep as [s i E|s i ret rv sv E E'|s i self ret ok l E E'|s i l E E'|s i E
    |s i inform sv E E'|s i E|s i flag l E E'|s i E].
  2: by apply server_acquire_inv.
  5: by apply server_release_inv.
  all: apply local_step; try done; unfold acquire_reply, acquire_retry, revoke_begin, release_end,
    retry_set, set_cc_state, set_cc_owner, set_cc_revoke, set_cc_retry in *; client_cases i.
  - apply ot_asking; [by right|done].
  - apply ow_held; lia.
  - apply ow_held; lia.
  - apply ot_waiting; auto.
  - apply ot_waiting; auto.
  - destruct (Z.eqb_spec cc_retry 0) as [->|Hr]; simplify_eq/=.
    assert (k_retries0 = 0) as -> by lia. apply ot_asking; [by left|done].
  - destruct (Z.eqb_spec cc_retry 0) as [->|Hr]; simplify_eq/=. lia.
  - apply ow_releasing; auto.
  - apply ow_releasing; auto.
  - by apply ot_none.
  - by apply ot_none.
  - apply ow_granted; lia.
  - assert (cc_revoke = 0) as -> by lia. assert (k_revokes0 = 1) as -> by lia. by apply ow_revoked.
  - apply ow_releasing; auto.
  - assert (k_retries0 = 1) as -> by lia. apply ot_waiting; auto; lia.
  - assert (k_retries0 = 1) as -> by lia. apply ot_waiting; auto; lia.
Qed.

Lemma proto_step_inv p p' : proto_step p p' -> proto_inv p -> proto_inv p'.
Proof. intros [Hs|Hs]; [by apply user_step_inv|by apply net_step_inv]. Qed.

Lemma proto_reachable_inv s : proto_reachable s -> proto_inv s.
Proof.
  unfold proto_reachable. generalize proto_init_inv. generalize proto_init.
  intros s0 H0 Hrun. induction Hrun as [|s0 s1 s2 [Hs|Hs] _ IH]; [done|..]; apply IH.
  - by eapply user_step_inv.
  - by eapply net_step_inv.
Qed.

(** ** Consequences *)

(** A client that can be inside the critical section, or enter it without
    asking the server. *)
Definition holds (c : client) : Prop := k_cs c = true \/ cc_state (k_lock c) = CC_FREE.

(** A client whose cached data has not reached the server yet. *)
Definition unflushed (c : client) : Prop := holds c \/ k_rel c = R_flush.

Lemma other_not_unflushed inq tok c : other_ok inq tok c -> ~ unflushed c.
Proof. unfold unflushed, holds. intros []; simpl; naive_solver. Qed.

Lemma unflushed_owner s i :
  proto_inv s -> unflushed (p_clients s i) -> i = cl_client (p_server s).
Proof.
  intros [_ Hi] Hu. destruct (decide (i = cl_client (p_server s))) as [|Hne]; [done|].
  exfalso. destruct (cl_state (p_server s)).
  - by apply (other_not_unflushed _ _ _ (Hi i)).
  - destruct Hi as (_ & _ & Ho). by apply (other_not_unflushed _ _ _ (Ho i Hne)).
  - destruct Hi as (_ & _ & Ho). by apply (other_not_unflushed _ _ _ (Ho i Hne)).
  - destruct Hi as (d & _ & Ho). by apply (other_not_unflushed _ _ _ (Ho i)).
Qed.

(** While a thread is inside, its client has neither a free lock nor a grant on
    its way, so no second thread can enter. *)
Lemma inside_alone s i :
  proto_inv s -> k_cs (p_clients s i) = true ->
  cc_state (k_lock (p_clients s i)) <> CC_FREE /\ k_acq (p_clients s i) = A_none.
Proof.
  intros Hi Hcs. pose proof (unflushed_owner s i Hi ltac:(left; by left)) as Ho.
  assert (Hown : forall w, owner_ok w (p_clients s i) ->
    cc_state (k_lock (p_clients s i)) <> CC_FREE /\ k_acq (p_clients s i) = A_none).
  { intros w H. destruct H; simpl in *; done. }
  assert (Hoth : forall q t, ~ other_ok q t (p_clients s i)).
  { intros q t H. destruct H; simpl in *; done. }
  destruct Hi as [_ Hi]. destruct (cl_state (p_server s)).
  - by destruct (Hoth _ _ (Hi i)).
  - destruct Hi as (_ & H & _). rewrite <- Ho in H. by eapply Hown.
  - destruct Hi as (_ & H & _). rewrite <- Ho in H. by eapply Hown.
  - destruct Hi as (d & _ & H). by destruct (Hoth _ _ (H i)).
Qed.

Lemma waiting_in_queue s i :
  proto_inv s -> k_acq (p_clients s i) = A_wait -> i ∈ cl_queue (p_server s).
Proof.
  intros [_ Hi] Ha.
  assert (Hot : forall tok, other_ok (i ∈ cl_queue (p_server s)) tok (p_clients s i) ->
    i ∈ cl_queue (p_server s)).
  { intros tok Hok. destruct Hok; simplify_eq/=; naive_solver. }
  assert (Hown : forall w, owner_ok w (p_clients s i) -> False).
  { intros w Hok. destruct Hok; simplify_eq/=; naive_solver. }
  destruct (cl_state (p_server s)).
  - by eapply Hot.
  - destruct Hi as (_ & Ho & Hn).
    destruct (decide (i = cl_client (p_server s))) as [->|Hne]; [by apply Hown in Ho|eauto].
  - destruct Hi as (_ & Ho & Hn).
    destruct (decide (i = cl_client (p_server s))) as [->|Hne]; [by apply Hown in Ho|eauto].
  - destruct Hi as (d & _ & Hn). eauto.
Qed.

(** Two clients are never inside at once. *)
Lemma inside_one p i j :
  proto_inv p -> k_cs (p_clients p i) = true -> k_cs (p_clients p j) = true -> i = j.
Proof.
  intros Hp Hi Hj. rewrite (unflushed_owner p i), (unflushed_owner p j); try done; left; by left.
Qed.

(** The owner that was told to give the lock back can go on, unless a thread
    is using the lock. *)
Lemma owner_progress s o :
  proto_inv s -> owner_ok 1 (p_clients s o) -> k_cs (p_clients s o) = true \/ exists s', net_step s s'.
Proof.
  intros Hi Ho. destruct (p_clients s o) as [l acq rel cs rvm rtm] eqn:Ec.
  inversion Ho; subst; simpl; auto; right.
  - eexists. eapply (ns_reply s o 0); rewrite Ec; [done|]. simpl. unfold acquire_reply. done.
  - eexists. eapply (ns_revoke s o); rewrite Ec; simpl; [lia|]. unfold revoke_begin. done.
  - match goal with H : _ = R_flush \/ _ = R_sent |- _ => destruct H as [Hpc|Hpc] end.
    + eexists. apply (ns_flush s o). by rewrite Ec.
    + destruct (lock_release_wf (p_server s) o) as (a & sv & E & _); [by apply Hi|].
      eexists. eapply (ns_server_release s o); [by rewrite Ec|exact E].
Qed.

(** The client a released lock is reserved for can go on. *)
Lemma chosen_progress s d inq :
  inq -> other_ok inq (d = d) (p_clients s d) -> exists s', net_step s s'.
Proof.
  intros Hq Hd. destruct (p_clients s d) as [l acq rel cs rvm rtm] eqn:Ec.
  inversion Hd as [| own pc Hpc | own pc rt rtm' Hpc _ Hrt Hrtm Htok |]; subst; try done.
  - destruct Hpc as [-> | ->].
    + eexists. apply (ns_call s d). by rewrite Ec.
    + destruct (lock_acquire (p_server s) d) as [[ret rv] sv] eqn:E.
      eexists. eapply (ns_server_acquire s d); [by rewrite Ec|exact E].
  - destruct Htok as [[_ Hsum]|[[] _]]; [|done].
    destruct Hpc as [-> | ->].
    + eexists. eapply (ns_reply s d 0); rewrite Ec; [done|]. unfold acquire_reply. simpl. done.
    + destruct (decide (rt = 0)) as [->|Hr].
      * eexists. apply (ns_retry_msg s d). rewrite Ec. simpl. lia.
      * eexists. eapply (ns_retry s d); rewrite Ec; [done|]. unfold acquire_retry. simpl.
        by rewrite (proj2 (Z.eqb_neq rt 0)).
Qed.

(** ** What a step of the protocol does to the critical sections *)

Definition enters (p : proto) (i : string) (p' : proto) : Prop :=
  k_cs (p_clients p i) = false /\ k_cs (p_clients p' i) = true /\
  forall j, j <> i -> k_cs (p_clients p' j) = k_cs (p_clients p j).
Definition leaves (p : proto) (i : string) (p' : proto) : Prop :=
  k_cs (p_clients p i) = true /\ k_cs (p_clients p' i) = false /\
  forall j, j <> i -> k_cs (p_clients p' j) = k_cs (p_clients p j).
Definition cs_same (p p' : proto) : Prop :=
  forall j, k_cs (p_clients p' j) = k_cs (p_clients p j).

Lemma add_revoke_cs to f j : k_cs (add_revoke to f j) = k_cs (f j).
Proof.
  destruct to as [h|]; simpl; [|done]. destruct (decide (j = h)) as [->|]; by autorewrite with lock_upd.
Qed.
Lemma add_retry_cs to f j : k_cs (add_retry to f j) = k_cs (f j).
Proof.
  destruct to as [h|]; simpl; [|done]. destruct (decide (j = h)) as [->|]; by autorewrite with lock_upd.
Qed.

(** Every step concerns one client, so nothing is lost by telling the steps
    apart this way. *)
Lemma cs_cases p p' :
  proto_step p p' -> (exists i, enters p i p') \/ (exists i, leaves p i p') \/ cs_same p p'.
Proof.
  intros Hs.
  assert (Hone : exists i, forall j, j <> i -> k_cs (p_clients p' j) = k_cs (p_clients p j)).
  { destruct Hs as [[]|[]]; eexists; intros j Hj; simpl; rewrite ?add_revoke_cs, ?add_retry_cs;
      by rewrite upd_ne. }
  destruct Hone as [i Hi].
  destruct (k_cs (p_clients p i)) eqn:E, (k_cs (p_clients p' i)) eqn:E'.
  2: right; left; by exists i.
  2: left; by exists i.
  all: right; right; intros j; destruct (decide (j = i)) as [->|]; [congruence|auto].
Qed.

(** * Properties *)

(** C2. Mutual exclusion. In every state reachable by any interleaving of the
    threads, the server's handlers and delayed messages, at most one client has
    a thread between [acquire] and [release], or may enter without asking the
    server; and while it does, every other client has already run [dorelease],
    so no stale cached data is waiting to be written back. While one thread is
    inside, no other thread of its client can enter either: the lock is neither
    free in the client nor on its way to it. *)
Theorem lock_mutual_exclusion s i j :
  proto_reachable s -> holds (p_clients s i) -> unflushed (p_clients s j) ->
  i = j /\
  (k_cs (p_clients s i) = true ->
   cc_state (k_lock (p_clients s i)) <> CC_FREE /\ k_acq (p_clients s i) = A_none).
Proof.
  intros Hr%proto_reachable_inv Hi Hj. split; [|by apply inside_alone].
  rewrite (unflushed_owner s i Hr) by (by left). by rewrite (unflushed_owner s j Hr).
Qed.

(** C7. No lost wake-up. Whenever a client waits for a retry it is in the
    server's queue, and either some thread is using the lock or the system can
    take a step by itself: the revoke, the release, the retry or the renewed
    request that will let a waiting client in is under way. *)
Theorem lock_waiter_not_forgotten s i :
  proto_reachable s -> k_acq (p_clients s i) = A_wait ->
  i ∈ cl_queue (p_server s) /\
  ((exists o, k_cs (p_clients s o) = true) \/ exists s', net_step s s').
Proof.
  intros Hr%proto_reachable_inv Ha. pose proof (waiting_in_queue s i Hr Ha) as Hq.
  split; [done|]. pose proof Hr as [Hw Hi]. unfold lock_wf in Hw.
  destruct (cl_state (p_server s)).
  - set_solver.
  - set_solver.
  - destruct Hi as (_ & Ho & _).
    destruct (owner_progress s _ Hr Ho) as [Hcs|Hs]; [left; by eexists|by right].
  - right. destruct Hi as (d & Hd & Hn). exact (chosen_progress s d _ Hd (Hn d)).
Qed.

(** C9. Every revoke the server has sent while clients wait is accounted for
    exactly once at the owner (on its way, counted in [revoke], or the lock is
    already going back), and an owner nobody waits for has none: no revoke is
    lost, none is applied twice, and no revoke reaches a client that does not
    have the lock. *)
Theorem revoke_accounting s :
  proto_reachable s ->
  (forall i, i <> cl_client (p_server s) \/ cl_state (p_server s) ∈ [SV_FREE; SV_ORDERED] ->
     k_revokes (p_clients s i) = 0 /\ cc_revoke (k_lock (p_clients s i)) = 0) /\
  (let o := p_clients s (cl_client (p_server s)) in
   let pending := k_revokes o + cc_revoke (k_lock o) +
     (if decide (cc_state (k_lock o) = CC_RELEASING \/ k_rel o <> R_none) then 1 else 0) in
   match cl_state (p_server s) with
   | SV_LOCKED => pending = 0
   | SV_LOCKED_AND_WAIT => pending = 1
   | _ => True
   end).
Proof.
  intros [_ Hi]%proto_reachable_inv.
  assert (Hot : forall inq tok c, other_ok inq tok c ->
    k_revokes c = 0 /\ cc_revoke (k_lock c) = 0) by (by intros ? ? ? []).
  assert (Hown : forall w c, owner_ok w c -> k_revokes c + cc_revoke (k_lock c) +
     (if decide (cc_state (k_lock c) = CC_RELEASING \/ k_rel c <> R_none) then 1 else 0) = w).
  { intros w c [| | | |own st pc Hw Hst Hpc]; simpl.
    all: try lia. destruct Hst as [-> | ->], Hpc as [-> | ->]; simpl; lia. }
  split.
  - intros i Hor. destruct (cl_state (p_server s)).
    + by eapply Hot.
    + destruct Hi as (_ & _ & Ho). destruct Hor as [Hne|Hin]; [eapply Hot; by apply Ho|set_solver].
    + destruct Hi as (_ & _ & Ho). destruct Hor as [Hne|Hin]; [eapply Hot; by apply Ho|set_solver].
    + destruct Hi as (d & _ & Ho). by eapply Hot.
  - destruct (cl_state (p_server s)); try done; destruct Hi as (_ & Ho & _); by apply Hown.
Qed.

(** ** Witnesses *)

(** Client a holds the lock, client b waits, and the revoke is on its way. *)
Lemma contended :
  exists s, proto_reachable s /\ holds (p_clients s "a") /\ k_acq (p_clients s "b") = A_wait /\
    cl_state (p_server s) = SV_LOCKED_AND_WAIT /\ cl_client (p_server s) = "a" /\
    k_revokes (p_clients s "a") = 1.
Proof.
  eexists. split.
  { unfold proto_reachable.
    eapply rtc_l; [left; apply (us_rpc _ "a" 1); reflexivity|].
    eapply rtc_l; [right; apply (ns_call _ "a"); reflexivity|].
    eapply rtc_l; [right; apply (ns_server_acquire _ "a" L_OK None
      (Cache_lock "a" SV_LOCKED ∅)); reflexivity|].
    eapply rtc_l; [right; apply (ns_reply _ "a" 1 L_OK true (Client_lock CC_LOCKED 1 0 0)); reflexivity|].
    eapply rtc_l; [left; apply (us_rpc _ "b" 2); reflexivity|].
    eapply rtc_l; [right; apply (ns_call _ "b"); reflexivity|].
    eapply rtc_l; [right; apply (ns_server_acquire _ "b" L_RETRY (Some "a")
      (Cache_lock "a" SV_LOCKED_AND_WAIT ({["b"]} ∪ ∅))); reflexivity|].
    eapply rtc_l; [right; apply (ns_reply _ "b" 2 L_RETRY false (Client_lock CC_ACQUIRING (-1) 0 0));
      reflexivity|].
    apply rtc_refl. }
  repeat split; try reflexivity. left. reflexivity.
Qed.

Lemma lock_mutual_exclusion_witness :
  exists s, proto_reachable s /\ holds (p_clients s "a") /\ ~ unflushed (p_clients s "b").
Proof.
  destruct contended as (s & Hr & Ha & _). exists s. split; [exact Hr|]. split; [exact Ha|].
  intros Hb. discriminate (proj1 (lock_mutual_exclusion s "a" "b" Hr Ha Hb)).
Defined.

Lemma lock_waiter_not_forgotten_witness :
  exists s, k_acq (p_clients s "b") = A_wait /\ "b" ∈ cl_queue (p_server s).
Proof.
  destruct contended as (s & Hr & _ & Hb & _). exists s. split; [exact Hb|].
  exact (proj1 (lock_waiter_not_forgotten s "b" Hr Hb)).
Defined.

Lemma revoke_accounting_witness :
  exists s, proto_reachable s /\ k_revokes (p_clients s "a") = 1 /\
    k_revokes (p_clients s "b") = 0.
Proof.
  destruct contended as (s & Hr & _ & _ & _ & Hc & Hv). exists s. split; [exact Hr|].
  split; [exact Hv|]. apply (proj1 (revoke_accounting s Hr) "b"). left. rewrite Hc. discriminate.
Defined.
