(* ===== verification/ExtentServer.v ===== *)
(** * The extent server

    [extent_server] of src/extent_server.cc and the wire format of its
    attributes (src/extent_protocol.h). The handlers run under one mutex; the
    value of [time(NULL)] is an argument. The class [ExtentRpc] is what a client
    sees of the server through its RPC stubs, [ExtentRpcLaws] what it may rely
    on. *)
From S2P Require Import Prelude Marshall.

(** ** Protocol *)

Definition EXT_OK : Z := 0.
Definition EXT_RPCERR : Z := 1.
Definition EXT_NOENT : Z := 2.
Definition EXT_IOERR : Z := 3.

Record attr := Attr { a_atime : Z; a_mtime : Z; a_ctime : Z; a_size : Z }.

#[export] Instance attr_eq_dec : EqDecision attr.
Proof. solve_decision. Defined.

Section wire.
Context `{Allocator}.

Definition put_attr (a : attr) (m : marshall) : res marshall :=
  m ← put_uint (a_atime a) m;
  m ← put_uint (a_mtime a) m;
  m ← put_uint (a_ctime a) m;
  put_uint (a_size a) m.

Definition get_attr (a : attr) (u : unmarshall) : res (attr * unmarshall) :=
  '(atime, u) ← get_uint (a_atime a) u;
  '(mtime, u) ← get_uint (a_mtime a) u;
  '(ctime, u) ← get_uint (a_ctime a) u;
  '(size, u) ← get_uint (a_size a) u;
  Ok (Attr atime mtime ctime size, u).

Definition attr_valid (a : attr) : Prop :=
  is_unsigned 32 (a_atime a) /\ is_unsigned 32 (a_mtime a) /\
  is_unsigned 32 (a_ctime a) /\ is_unsigned 32 (a_size a).

Definition attr_codec : codec attr :=
  Codec put_attr get_attr (Attr 0 0 0 0) attr_valid
    (fun a => be 4 (a_atime a) ++ be 4 (a_mtime a) ++ be 4 (a_ctime a) ++ be 4 (a_size a)).

(** The attributes travel as a tuple of four [unsigned int]s. *)
Definition attr_tuple : codec (Z * (Z * (Z * Z))) :=
  pair_codec uint_codec (pair_codec uint_codec (pair_codec uint_codec uint_codec)).

Lemma get_attr_tuple a u :
  get_attr a u =
  ('((x, (y, (z, w))), u) ← c_get attr_tuple (a_atime a, (a_mtime a, (a_ctime a, a_size a))) u;
   Ok (Attr x y z w, u)).
Proof.
  unfold get_attr. cbn [c_get attr_tuple pair_codec uint_codec fst snd].
  repeat (match goal with |- context [get_uint ?d ?v] => destruct (get_uint d v) as [[? ?]|] end;
    cbn [mbind res_bind fst snd]; [|reflexivity]). reflexivity.
Qed.

#[export] Instance attr_codec_ok : CodecOk attr_codec.
Proof.
  assert (Ht : CodecOk attr_tuple) by apply _.
  split; intros a (H1 & H2 & H3 & H4).
  - exact (codec_put (c := attr_tuple) (a_atime a, (a_mtime a, (a_ctime a, a_size a)))
      (conj H1 (conj H2 (conj H3 H4)))).
  - intros u rest Hu Hok Hrem.
    destruct (codec_get (c := attr_tuple) (a_atime a, (a_mtime a, (a_ctime a, a_size a)))
      (conj H1 (conj H2 (conj H3 H4))) u rest Hu Hok Hrem) as (u' & E & Hrest).
    exists u'. split; [|exact Hrest]. cbn [c_get attr_codec c_init]. rewrite get_attr_tuple.
    cbn [a_atime a_mtime a_ctime a_size]. change (c_init attr_tuple) with (0, (0, (0, 0))) in E.
    rewrite E. by destruct a.
Qed.
End wire.

(** ** State and handlers *)

Record Extent := MkExtent { ex_name : list byte; ex_attr : attr }.
Abbreviation extent_server := (gmap Z Extent).

Definition extent_put (exts : extent_server) (now id : Z) (buf : list byte) : Z * extent_server :=
  let a := Attr (u32 now) (u32 now) (u32 now) (u32 (zlen buf)) in
  let a := match exts !! id with
           | Some e => Attr (a_atime (ex_attr e)) (a_mtime a) (a_ctime a) (a_size a)
           | None => a
           end in
  (EXT_OK, <[id := MkExtent buf a]> exts).

(** The third component is what the reference parameter holds afterwards; the
    stub passes an empty string. *)
Definition extent_get (exts : extent_server) (now id : Z) : Z * list byte * extent_server :=
  match exts !! id with
  | None => (EXT_NOENT, [], exts)
  | Some e =>
      let a := ex_attr e in
      (EXT_OK, ex_name e,
       <[id := MkExtent (ex_name e) (Attr (u32 now) (a_mtime a) (a_ctime a) (a_size a))]> exts)
  end.

Definition extent_getattr (exts : extent_server) (id : Z) (a : attr) : Z * attr :=
  match exts !! id with
  | None => (EXT_NOENT, a)
  | Some e => (EXT_OK, ex_attr e)
  end.

Definition extent_remove (exts : extent_server) (id : Z) : Z * extent_server :=
  match exts !! id with
  | None => (EXT_NOENT, exts)
  | Some _ => (EXT_OK, delete id exts)
  end.

Definition new_extent_server (now : Z) : extent_server := (extent_put ∅ now 1 []).2.

(** ** What a client relies on *)

Class ExtentRpc (St : Type) := {
  rpc_get : St -> Z -> Z -> Z * list byte * St;
  rpc_getattr : St -> Z -> attr -> Z * attr;
  rpc_put : St -> Z -> Z -> list byte -> Z * St;
  rpc_remove : St -> Z -> Z * St
}.

(** The server stores one byte string per identifier. *)
Class ExtentRpcLaws (St : Type) `{ExtentRpc St} := {
  store_ok : St -> Prop;
  contents : St -> gmap Z (list byte);
  law_get : forall st now id, store_ok st ->
    let '(ret, d, st') := rpc_get st now id in
    store_ok st' /\ contents st' = contents st /\
    (ret, d) = match contents st !! id with Some d => (EXT_OK, d) | None => (EXT_NOENT, []) end;
  law_getattr : forall st id a, store_ok st ->
    match contents st !! id with
    | Some d => exists a', rpc_getattr st id a = (EXT_OK, a') /\ a_size a' = u32 (zlen d)
    | None => rpc_getattr st id a = (EXT_NOENT, a)
    end;
  law_put : forall st now id d, store_ok st ->
    let '(ret, st') := rpc_put st now id d in
    store_ok st' /\ contents st' = <[id := d]> (contents st) /\ ret = EXT_OK;
  law_remove : forall st id, store_ok st ->
    let '(ret, st') := rpc_remove st id in
    store_ok st' /\ contents st' = delete id (contents st) /\
    ret = if decide (is_Some (contents st !! id)) then EXT_OK else EXT_NOENT
}.

(** The invariant of the server's table: the recorded size is the length of the
    data. *)
Definition extents_ok (exts : extent_server) : Prop :=
  map_Forall (fun _ e => a_size (ex_attr e) = u32 (zlen (ex_name e))) exts.

Definition data_of (exts : extent_server) : gmap Z (list byte) := ex_name <$> exts.

#[export] Instance extent_server_rpc : ExtentRpc extent_server := {
  rpc_get := extent_get;
  rpc_getattr := extent_getattr;
  rpc_put := extent_put;
  rpc_remove := extent_remove
}.

Lemma extent_put_spec exts now id buf :
  extents_ok exts ->
  extents_ok (extent_put exts now id buf).2 /\
  data_of (extent_put exts now id buf).2 = <[id := buf]> (data_of exts).
Proof.
  intros Hok. split.
  - apply map_Forall_insert_2; [|done]. simpl. by destruct (exts !! id).
  - unfold data_of, extent_put. cbn [snd]. by rewrite fmap_insert.
Qed.

Lemma extent_get_spec exts now id :
  extents_ok exts ->
  extents_ok (extent_get exts now id).2 /\ data_of (extent_get exts now id).2 = data_of exts /\
  (extent_get exts now id).1 =
    match data_of exts !! id with Some d => (EXT_OK, d) | None => (EXT_NOENT, []) end.
Proof.
  intros Hok. unfold extent_get, data_of. rewrite lookup_fmap.
  destruct (exts !! id) as [e|] eqn:E; simpl; [|done]. split_and!; [| |done].
  - apply map_Forall_insert_2; [|done]. simpl. by apply (Hok id).
  - rewrite fmap_insert. apply insert_id. by rewrite lookup_fmap, E.
Qed.

Lemma extent_remove_spec exts id :
  extents_ok exts ->
  extents_ok (extent_remove exts id).2 /\
  data_of (extent_remove exts id).2 = delete id (data_of exts) /\
  (extent_remove exts id).1 =
    if decide (is_Some (data_of exts !! id)) then EXT_OK else EXT_NOENT.
Proof.
  intros Hok. unfold extent_remove, data_of. rewrite lookup_fmap.
  destruct (exts !! id) as [e|] eqn:E; simpl; split_and!; try done.
  - by apply map_Forall_delete.
  - by rewrite fmap_delete.
  - rewrite delete_id; [done|]. by rewrite lookup_fmap, E.
Qed.

Lemma extent_getattr_spec exts id a :
  extents_ok exts ->
  match data_of exts !! id with
  | Some d => exists a', extent_getattr exts id a = (EXT_OK, a') /\ a_size a' = u32 (zlen d)
  | None => extent_getattr exts id a = (EXT_NOENT, a)
  end.
Proof.
  intros Hok. unfold extent_getattr, data_of. rewrite lookup_fmap.
  destruct (exts !! id) as [e|] eqn:E; simpl; [|done]. eexists. split; [done|]. by apply (Hok id).
Qed.

#[export] Instance extent_server_laws : ExtentRpcLaws extent_server.
Proof.
  apply (Build_ExtentRpcLaws _ _ extents_ok data_of).
  - intros st now id Hok. simpl. destruct (extent_get_spec st now id Hok) as (H1 & H2 & H3).
    by destruct (extent_get st now id) as [[ret d] st'].
  - intros st id a Hok. by apply extent_getattr_spec.
  - intros st now id d Hok. simpl. by destruct (extent_put_spec st now id d Hok).
  - intros st id Hok. simpl. destruct (extent_remove_spec st id Hok) as (H1 & H2 & H3).
    by destruct (extent_remove st id).
Defined.

Lemma new_extent_server_ok now : store_ok (new_extent_server now).
Proof.
  apply (extent_put_spec ∅ now 1 []). apply map_Forall_empty.
Qed.

(** * Properties *)

(** Requests and answers of a whole session. *)
Inductive ext_call := E_put (now id : Z) (d : list byte) | E_get (now id : Z)
  | E_getattr (id : Z) | E_remove (id : Z).

Definition ext_exec (exts : extent_server) (c : ext_call) : extent_server :=
  match c with
  | E_put now id d => (extent_put exts now id d).2
  | E_get now id => (extent_get exts now id).2
  | E_getattr id => exts
  | E_remove id => (extent_remove exts id).2
  end.

Definition spec_exec (m : gmap Z (list byte)) (c : ext_call) : gmap Z (list byte) :=
  match c with
  | E_put _ id d => <[id := d]> m
  | E_remove id => delete id m
  | _ => m
  end.

Lemma ext_execs_spec cs : forall exts, extents_ok exts ->
  extents_ok (foldl ext_exec exts cs) /\
  data_of (foldl ext_exec exts cs) = foldl spec_exec (data_of exts) cs.
Proof.
  induction cs as [|c cs IH]; intros exts Hok; simpl; [done|].
  assert (extents_ok (ext_exec exts c) /\ data_of (ext_exec exts c) = spec_exec (data_of exts) c)
    as [Hok' <-].
  { destruct c as [now id d|now id|id|id]; simpl.
    - by apply (extent_put_spec exts now id d).
    - by destruct (extent_get_spec exts now id Hok) as (? & ? & _).
    - done.
    - by destruct (extent_remove_spec exts id Hok) as (? & ? & _). }
  by apply IH.
Qed.

(** C30. After any sequence of requests to a new server, its answers are those of
    a map from identifiers to byte strings that starts with the empty root
    directory and is changed by put and remove alone: [get] returns the last
    bytes put (or NOENT), and [getattr] their length. *)
Theorem extent_server_refines now cs id t a :
  let exts := foldl ext_exec (new_extent_server now) cs in
  let m := foldl spec_exec {[1 := []]} cs in
  (extent_get exts t id).1 =
    match m !! id with Some d => (EXT_OK, d) | None => (EXT_NOENT, []) end /\
  match m !! id with
  | Some d => exists a', extent_getattr exts id a = (EXT_OK, a') /\ a_size a' = u32 (zlen d)
  | None => extent_getattr exts id a = (EXT_NOENT, a)
  end.
Proof.
  intros exts m. destruct (ext_execs_spec cs (new_extent_server now)) as [Hok Hd].
  { apply new_extent_server_ok. }
  assert (Hm : data_of exts = m).
  { unfold exts. rewrite Hd. reflexivity. }
  rewrite <- Hm. split.
  - by apply extent_get_spec.
  - by apply extent_getattr_spec.
Qed.
