(* ===== verification/ExtentClient.v ===== *)
(** * The caching extent client

    [extent_client] of src/extent_client.h and src/extent_client.cc: a
    write-back cache in front of the extent server, used under the lock of the
    extent and flushed before the lock goes back. The client is proved against
    the interface [ExtentRpcLaws]; RPCs complete. *)
From S2P Require Import Prelude ExtentServer.

(** ** State and operations *)

Record ExtentCache := Cached {
  e_data : list byte;
  e_dirty : bool;
  e_valid : bool;
  e_a : attr
}.

Abbreviation extent_cache := (gmap Z ExtentCache).

Section client.
Context {St : Type} `{ExtentRpc St}.

(** [cache[eid]] creates an entry with unspecified attributes; every path of the
    code assigns them all before it reads them. *)
Definition ec_get (cache : extent_cache) (st : St) (now eid : Z) (buf : list byte)
    : Z * list byte * extent_cache * St :=
  let fetch := match cache !! eid with
               | None => true
               | Some e => negb (e_valid e) && negb (e_dirty e)
               end in
  if fetch then
    let '(ret, buf, st) := rpc_get st now eid in
    if ret =? EXT_OK then
      let a := match cache !! eid with
               | None => Attr (u32 now) 0 0 (u32 (zlen buf))
               | Some e => Attr (u32 now) (a_mtime (e_a e)) (a_ctime (e_a e)) (a_size (e_a e))
               end in
      (ret, buf, <[eid := Cached buf false true a]> cache, st)
    else (ret, buf, cache, st)
  else match cache !! eid with
       | Some e => (EXT_OK, e_data e, cache, st)
       | None => (EXT_OK, buf, cache, st)
       end.

Definition ec_getattr (cache : extent_cache) (st : St) (eid : Z) (out : attr)
    : Z * attr * extent_cache :=
  let e := default (Cached [] false false (Attr 0 0 0 0)) (cache !! eid) in
  let a := e_a e in
  if (a_ctime a =? 0) || (a_mtime a =? 0) || (a_atime a =? 0) then
    let '(ret, temp) := rpc_getattr st eid (Attr 0 0 0 0) in
    if ret =? EXT_OK then
      let a := Attr (if a_atime a =? 0 then a_atime temp else a_atime a)
                    (if a_mtime a =? 0 then a_mtime temp else a_mtime a)
                    (if a_ctime a =? 0 then a_ctime temp else a_ctime a)
                    (if e_dirty e then a_size a else a_size temp) in
      (ret, a, <[eid := Cached (e_data e) (e_dirty e) (e_valid e) a]> cache)
    else (ret, out, <[eid := e]> cache)
  else (EXT_OK, a, <[eid := e]> cache).

Definition ec_put (cache : extent_cache) (now eid : Z) (buf : list byte) : Z * extent_cache :=
  let atime := match cache !! eid with Some e => a_atime (e_a e) | None => u32 now end in
  (EXT_OK, <[eid := Cached buf true true (Attr atime (u32 now) (u32 now) (u32 (zlen buf)))]> cache).

Definition ec_remove (cache : extent_cache) (eid : Z) : Z * extent_cache :=
  match cache !! eid with
  | None => (EXT_NOENT, <[eid := Cached [] false false (Attr 0 0 0 0)]> cache)
  | Some e => (EXT_OK, <[eid := Cached (e_data e) true false (e_a e)]> cache)
  end.

Definition ec_flush (cache : extent_cache) (st : St) (now eid : Z) : Z * extent_cache * St :=
  match cache !! eid with
  | None => (EXT_OK, cache, st)
  | Some e =>
      let '(ret, st) :=
        if e_dirty e then
          if e_valid e then rpc_put st now eid (e_data e) else rpc_remove st eid
        else (EXT_OK, st) in
      (ret, <[eid := Cached (e_data e) false false (Attr 0 0 0 0)]> cache, st)
  end.

(** ** The extents a client sees *)

Context `{!ExtentRpcLaws St}.

(** What an extent is, for the client that holds its lock: its own unwritten
    change if there is one, else what the server has. *)
Definition view (c : extent_cache) (st : St) (eid : Z) : option (list byte) :=
  match c !! eid with
  | Some e => if e_dirty e then if e_valid e then Some (e_data e) else None
              else contents st !! eid
  | None => contents st !! eid
  end.

Definition removed (c : extent_cache) (eid : Z) : Prop :=
  exists e, c !! eid = Some e /\ e_dirty e = true /\ e_valid e = false.

Definition attrs_set (a : attr) : Prop := a_mtime a <> 0 /\ a_ctime a <> 0.

(** An entry of the holder: clean data is the server's data, and a size served
    from the cache is the size of what the client sees. *)
Definition entry_ok (st : St) (eid : Z) (e : ExtentCache) : Prop :=
  (e_dirty e = false -> e_valid e = true -> contents st !! eid = Some (e_data e)) /\
  (e_dirty e = true -> e_valid e = true -> a_size (e_a e) = u32 (zlen (e_data e))) /\
  (e_dirty e = false -> attrs_set (e_a e) ->
     exists d, contents st !! eid = Some d /\ a_size (e_a e) = u32 (zlen d)).

(** An entry of a client that has given the lock back. *)
Definition entry_idle (e : ExtentCache) : Prop :=
  e_dirty e = false /\ e_valid e = false /\ e_a e = Attr 0 0 0 0.

Definition held_ok (c : extent_cache) (st : St) (eid : Z) : Prop :=
  forall e, c !! eid = Some e -> entry_ok st eid e.

Lemma entry_idle_ok st eid e : entry_idle e -> entry_ok st eid e.
Proof.
  intros (Hd & Hv & Ha). unfold entry_ok, attrs_set. rewrite Hd, Hv, Ha. split_and!; try done.
  by intros _ ([] & _).
Qed.

Lemma view_insert c st eid e x :
  view (<[eid := e]> c) st x =
  if decide (x = eid) then
    if e_dirty e then if e_valid e then Some (e_data e) else None else contents st !! eid
  else view c st x.
Proof.
  unfold view. case_decide as E.
  - subst. by rewrite lookup_insert_eq.
  - by rewrite lookup_insert_ne.
Qed.

(** What an operation of the holder of [eid] must do: keep the invariant, and
    leave the cache and the server as they are elsewhere. *)
Definition op_frame (c : extent_cache) (st : St) (eid : Z) (c' : extent_cache) (st' : St) : Prop :=
  store_ok st' /\ held_ok c' st' eid /\
  (forall x, x <> eid -> c' !! x = c !! x) /\
  (forall x, x <> eid -> contents st' !! x = contents st !! x).

(** The entry alone is rewritten and the server's contents stay. *)
Lemma op_frame_insert c st eid e st' :
  store_ok st' -> contents st' = contents st -> entry_ok st' eid e ->
  op_frame c st eid (<[eid := e]> c) st'.
Proof.
  intros Hok Hc He. split_and!; [done| | |].
  - intros e' Hl. rewrite lookup_insert_eq in Hl. by injection Hl as <-.
  - intros x Hx. by rewrite lookup_insert_ne.
  - intros x _. by rewrite Hc.
Qed.

Lemma op_frame_same c st eid st' :
  store_ok st' -> contents st' = contents st -> held_ok c st eid -> op_frame c st eid c st'.
Proof.
  intros Hok Hc Hh. split_and!; [done| |done|].
  - intros e He. unfold entry_ok. rewrite Hc. by apply Hh.
  - intros x _. by rewrite Hc.
Qed.

Definition answer (v : option (list byte)) : Z * list byte :=
  match v with Some d => (EXT_OK, d) | None => (EXT_NOENT, []) end.

(** Where [get] takes the data from. *)
Lemma ec_get_cached c st now eid buf e :
  c !! eid = Some e -> e_valid e = true \/ e_dirty e = true ->
  ec_get c st now eid buf = (EXT_OK, e_data e, c, st).
Proof.
  intros Ec Hor. unfold ec_get. rewrite Ec.
  replace (negb (e_valid e) && negb (e_dirty e)) with false; [done|].
  by destruct Hor as [-> | ->]; rewrite ?andb_false_r.
Qed.

(** A clean, invalid or missing entry is fetched: the attributes that are kept
    still describe the server's data. *)
Lemma fetched_ok c st eid st' d now :
  held_ok c st eid -> contents st' = contents st -> contents st !! eid = Some d ->
  (forall e, c !! eid = Some e -> e_dirty e = false) ->
  entry_ok st' eid (Cached d false true
    match c !! eid with
    | None => Attr (u32 now) 0 0 (u32 (zlen d))
    | Some e => Attr (u32 now) (a_mtime (e_a e)) (a_ctime (e_a e)) (a_size (e_a e))
    end).
Proof.
  intros Hh Hc Hd Hclean. unfold entry_ok, attrs_set. rewrite Hc. simpl. split_and!; [done|done|].
  intros _. destruct (c !! eid) as [e|] eqn:Ec; simpl; [|by intros [[] _]].
  destruct (Hh e Ec) as (_ & _ & H3). intros Ha. by apply H3; [apply Hclean|].
Qed.

Lemma ec_get_spec c st now eid buf ret d c' st' :
  store_ok st -> held_ok c st eid -> ~ removed c eid ->
  ec_get c st now eid buf = (ret, d, c', st') ->
  op_frame c st eid c' st' /\ contents st' = contents st /\ view c' st' eid = view c st eid /\
  (ret, d) = answer (view c st eid).
Proof.
  intros Hok Hh Hnr E.
  destruct (c !! eid) as [e|] eqn:Ec.
  destruct (decide (e_valid e = true \/ e_dirty e = true)) as [Hor|Hnor].
  { rewrite (ec_get_cached _ _ _ _ _ e Ec Hor) in E. injection E as <- <- <- <-.
    split_and!; [by apply op_frame_same|done|done|].
    unfold view. rewrite Ec. destruct (e_dirty e) eqn:Ed, (e_valid e) eqn:Ev.
    - done.
    - destruct Hnr. by exists e.
    - by rewrite (proj1 (Hh e Ec)).
    - by destruct Hor. }
  all: pose proof (law_get st now eid Hok) as Hg; unfold ec_get in E;
    destruct (rpc_get st now eid) as [[ret0 d0] st0]; destruct Hg as (Hok' & Hc & Hret).
  all: assert (Hclean : forall e, c !! eid = Some e -> e_dirty e = false).
  { intros e' He'. rewrite Ec in He'. injection He' as <-. destruct (e_dirty e); naive_solver. }
  2: { intros e' He'. congruence. }
  all: assert (Hv : view c st eid = contents st !! eid)
    by (unfold view; rewrite Ec; rewrite ?Hclean by done; done).
  all: match type of E with (if ?b then _ else _) = _ => assert (b = true) as Hb end.
  1: { rewrite Ec. destruct (e_valid e), (e_dirty e); naive_solver. }
  2: by rewrite Ec.
  all: rewrite Hb in E; rewrite Hv; unfold answer;
    destruct (contents st !! eid) as [d'|] eqn:El; injection Hret as -> ->; simpl in E;
    injection E as <- <- <- <-.
  all: split_and!; try done.
  - apply op_frame_insert; [done..|]. by apply (fetched_ok c st).
  - rewrite view_insert, decide_True by done. simpl. by rewrite Hc.
  - by apply op_frame_same.
  - unfold view. rewrite Ec, Hclean, Hc by done. done.
  - apply op_frame_insert; [done..|]. by apply (fetched_ok c st).
  - rewrite view_insert, decide_True by done. simpl. by rewrite Hc.
  - by apply op_frame_same.
  - unfold view. rewrite Ec, Hc. done.
Qed.

Lemma ec_put_spec c st now eid buf ret c' :
  store_ok st -> ec_put c now eid buf = (ret, c') ->
  op_frame c st eid c' st /\ view c' st eid = Some buf /\ ret = EXT_OK.
Proof.
  intros Hok [= <- <-]. split_and!; [|by rewrite view_insert, decide_True|done].
  apply op_frame_insert; [done..|]. unfold entry_ok. by simpl.
Qed.

Lemma ec_remove_spec c st eid ret c' :
  store_ok st -> held_ok c st eid -> ec_remove c eid = (ret, c') ->
  op_frame c st eid c' st /\
  match c !! eid with
  | Some _ => ret = EXT_OK /\ view c' st eid = None
  | None => ret = EXT_NOENT /\ view c' st eid = view c st eid
  end.
Proof.
  intros Hok Hh E. unfold ec_remove in E. destruct (c !! eid) as [e|] eqn:Ec; injection E as <- <-.
  - rewrite view_insert, decide_True by done. split; [|done].
    apply op_frame_insert; [done..|]. unfold entry_ok. by simpl.
  - rewrite view_insert, decide_True by done. split.
    + apply op_frame_insert; [done..|]. by apply entry_idle_ok.
    + split; [done|]. unfold view. by rewrite Ec.
Qed.

(** Flushing writes the change back: the server then has what the client saw. *)
Lemma ec_flush_spec c st now eid ret c' st' :
  store_ok st -> held_ok c st eid -> ec_flush c st now eid = (ret, c', st') ->
  op_frame c st eid c' st' /\ contents st' !! eid = view c st eid /\
  view c' st' eid = view c st eid /\ (forall e, c' !! eid = Some e -> entry_idle e).
Proof.
  intros Hok Hh E. unfold ec_flush in E. destruct (c !! eid) as [e|] eqn:Ec.
  2: { injection E as <- <- <-. unfold view. rewrite Ec. split_and!; try done; congruence. }
  assert (Hst : exists st0, store_ok st0 /\ contents st0 !! eid = view c st eid /\
    (forall x, x <> eid -> contents st0 !! x = contents st !! x) /\
    (ret, c', st') = (ret, <[eid := Cached (e_data e) false false (Attr 0 0 0 0)]> c, st0)).
  { unfold view. rewrite Ec. destruct (e_dirty e) eqn:Ed; [destruct (e_valid e) eqn:Ev|].
    - pose proof (law_put st now eid (e_data e) Hok) as Hp. destruct (rpc_put _ _ _ _) as [r st0].
      destruct Hp as (? & Hc & _). injection E as <- <- <-. exists st0. rewrite Hc.
      split_and!; [done|apply lookup_insert_eq| |done]. intros. by rewrite lookup_insert_ne.
    - pose proof (law_remove st eid Hok) as Hp. destruct (rpc_remove _ _) as [r st0].
      destruct Hp as (? & Hc & _). injection E as <- <- <-. exists st0. rewrite Hc.
      split_and!; [done|apply lookup_delete_eq| |done]. intros. by rewrite lookup_delete_ne.
    - injection E as <- <- <-. exists st. done. }
  destruct Hst as (st0 & Hok0 & Hl & Hoth & [= -> ->]).
  assert (Hidle : entry_idle (Cached (e_data e) false false (Attr 0 0 0 0))) by done.
  split_and!; [|done| |].
  - split_and!; [done| | |done].
    + intros e' He'. rewrite lookup_insert_eq in He'. injection He' as <-. by apply entry_idle_ok.
    + intros x Hx. by rewrite lookup_insert_ne.
  - rewrite view_insert, decide_True by done. simpl. done.
  - intros e' He'. rewrite lookup_insert_eq in He'. by injection He' as <-.
Qed.

Lemma ec_getattr_spec c st eid out ret a c' :
  store_ok st -> held_ok c st eid -> ~ removed c eid ->
  ec_getattr c st eid out = (ret, a, c') ->
  op_frame c st eid c' st /\ view c' st eid = view c st eid /\
  match view c st eid with
  | Some d => ret = EXT_OK /\ a_size a = u32 (zlen d) \/ ret = EXT_NOENT /\ contents st !! eid = None
  | None => ret = EXT_NOENT
  end.
Proof.
  intros Hok Hh Hnr E. unfold ec_getattr in E.
  set (e := default (Cached [] false false (Attr 0 0 0 0)) (c !! eid)) in E.
  assert (He : entry_ok st eid e /\ ~ (e_dirty e = true /\ e_valid e = false) /\
    view c st eid = if e_dirty e then Some (e_data e) else contents st !! eid).
  { unfold e, view. destruct (c !! eid) as [e0|] eqn:Ec; simpl.
    - split_and!; [by apply Hh| |].
      + intros [? ?]. apply Hnr. by exists e0.
      + destruct (e_dirty e0) eqn:Ed, (e_valid e0) eqn:Ev; try done. destruct Hnr. by exists e0.
    - split_and!; [by apply entry_idle_ok|by intros []|done]. }
  clearbody e. destruct He as ((H1 & H2 & H3) & Hn & Hv). rewrite Hv.
  assert (Hdv : e_dirty e = true -> e_valid e = true) by (destruct (e_valid e); naive_solver).
  assert (Hview : forall a', view (<[eid := Cached (e_data e) (e_dirty e) (e_valid e) a']> c) st eid =
    if e_dirty e then Some (e_data e) else contents st !! eid).
  { intros a'. rewrite view_insert, decide_True by done. simpl.
    destruct (e_dirty e); [by rewrite Hdv|done]. }
  assert (Hself : <[eid := e]> c = <[eid := Cached (e_data e) (e_dirty e) (e_valid e) (e_a e)]> c)
    by (by destruct e).
  assert (Hkeep : op_frame c st eid (<[eid := e]> c) st) by (by apply op_frame_insert).
  destruct (_ || _) eqn:Ez.
  - pose proof (law_getattr st eid (Attr 0 0 0 0) Hok) as Hg.
    destruct (contents st !! eid) as [d|] eqn:El.
    + destruct Hg as (temp & Et & Hs). rewrite Et in E. simpl in E. injection E as <- <- <-.
      split_and!; [|by apply Hview|].
      * apply op_frame_insert; [done..|]. unfold entry_ok. simpl. rewrite El. split_and!.
        -- exact H1.
        -- intros Hd Hvl. rewrite Hd. by apply H2.
        -- intros Hd _. rewrite Hd. by exists d.
      * destruct (e_dirty e) eqn:Ed; left; simpl; auto.
    + rewrite Hg in E. simpl in E. injection E as <- <- <-.
      rewrite Hself at 2. split_and!; [done|by apply Hview|]. destruct (e_dirty e); auto.
  - injection E as <- <- <-. rewrite Hself at 2. split_and!; [done|by apply Hview|].
    apply orb_false_iff in Ez as [[Hc%Z.eqb_neq Hm%Z.eqb_neq]%orb_false_iff _].
    destruct (e_dirty e) eqn:Ed; [left; auto|].
    destruct (H3 eq_refl) as (d & -> & Hs); [by split|]. by left.
Qed.

(** ** Several clients *)

(** Every client has a cache; [cl_holder] is the holder of an extent's lock. *)
Record cluster := Cluster {
  cl_store : St;
  cl_caches : string -> extent_cache;
  cl_holder : Z -> option string
}.

Definition cache_upd (f : string -> extent_cache) (i : string) (c : extent_cache) :=
  fun j => if decide (j = i) then c else f j.
Definition holder_upd (f : Z -> option string) (x : Z) (h : option string) :=
  fun y => if decide (y = x) then h else f y.

(** The operations of the lock holder, taking the lock, and giving it back
    after the flush that [dorelease] performs. *)
Inductive cl_label :=
  | K_get (x : Z) (ret : Z) (d : list byte)
  | K_getattr (x : Z) (ret : Z) (a : attr)
  | K_put (x : Z) (d : list byte)
  | K_remove (x : Z) (ret : Z)
  | K_lock | K_unlock.

Inductive cl_step : cluster -> cl_label -> cluster -> Prop :=
  | ks_get s i x now buf ret d c st :
      cl_holder s x = Some i -> ~ removed (cl_caches s i) x ->
      ec_get (cl_caches s i) (cl_store s) now x buf = (ret, d, c, st) ->
      cl_step s (K_get x ret d) (Cluster st (cache_upd (cl_caches s) i c) (cl_holder s))
  | ks_getattr s i x out ret a c :
      cl_holder s x = Some i -> ~ removed (cl_caches s i) x ->
      ec_getattr (cl_caches s i) (cl_store s) x out = (ret, a, c) ->
      cl_step s (K_getattr x ret a) (Cluster (cl_store s) (cache_upd (cl_caches s) i c) (cl_holder s))
  | ks_put s i x now d ret c :
      cl_holder s x = Some i -> ec_put (cl_caches s i) now x d = (ret, c) ->
      cl_step s (K_put x d) (Cluster (cl_store s) (cache_upd (cl_caches s) i c) (cl_holder s))
  | ks_remove s i x ret c :
      cl_holder s x = Some i -> ec_remove (cl_caches s i) x = (ret, c) ->
      cl_step s (K_remove x ret) (Cluster (cl_store s) (cache_upd (cl_caches s) i c) (cl_holder s))
  | ks_lock s i x :
      cl_holder s x = None ->
      cl_step s K_lock (Cluster (cl_store s) (cl_caches s) (holder_upd (cl_holder s) x (Some i)))
  | ks_unlock s i x now ret c st :
      cl_holder s x = Some i -> ec_flush (cl_caches s i) (cl_store s) now x = (ret, c, st) ->
      cl_step s K_unlock (Cluster st (cache_upd (cl_caches s) i c) (holder_upd (cl_holder s) x None)).

(** The one store the clients share. *)
Definition shared (s : cluster) (x : Z) : option (list byte) :=
  match cl_holder s x with
  | Some i => view (cl_caches s i) (cl_store s) x
  | None => contents (cl_store s) !! x
  end.

(** What each operation means on the shared store. *)
Definition store_step (v : Z -> option (list byte)) (l : cl_label) (v' : Z -> option (list byte)) : Prop :=
  match l with
  | K_get x ret d => (forall y, v' y = v y) /\ (ret, d) = answer (v x)
  | K_getattr x ret a =>
      (forall y, v' y = v y) /\
      (ret = EXT_OK -> exists d, v x = Some d /\ a_size a = u32 (zlen d)) /\
      (v x = None -> ret = EXT_NOENT)
  | K_put x d => forall y, v' y = if decide (y = x) then Some d else v y
  | K_remove x ret =>
      forall y, v' y = if decide (y = x /\ ret = EXT_OK) then None else v y
  | K_lock | K_unlock => forall y, v' y = v y
  end.

Record cluster_inv (s : cluster) : Prop := {
  ci_store : store_ok (cl_store s);
  ci_held : forall x i, cl_holder s x = Some i -> held_ok (cl_caches s i) (cl_store s) x;
  ci_idle : forall x i e, cl_holder s x <> Some i -> cl_caches s i !! x = Some e -> entry_idle e
}.

Definition cluster_reachable (st : St) (s : cluster) : Prop :=
  rtc (fun s s' => exists l, cl_step s l s') (Cluster st (fun _ => ∅) (fun _ => None)) s.

Lemma cache_upd_eq f i c : cache_upd f i c i = c.
Proof. unfold cache_upd. by rewrite decide_True. Qed.

(** The other extents do not notice an operation of the holder of [x]. *)
Lemma cache_upd_other s i x c' st' :
  op_frame (cl_caches s i) (cl_store s) x c' st' ->
  forall j y, y <> x \/ j <> i -> cache_upd (cl_caches s) i c' j !! y = cl_caches s j !! y.
Proof.
  intros (_ & _ & Hc & _) j y Hor. unfold cache_upd. case_decide as E; [|done]. subst.
  destruct Hor as [Hy|Hj]; [by apply Hc|done].
Qed.

Lemma held_ok_other s i x c' st' :
  op_frame (cl_caches s i) (cl_store s) x c' st' ->
  forall j y, y <> x -> held_ok (cl_caches s j) (cl_store s) y ->
  held_ok (cache_upd (cl_caches s) i c' j) st' y.
Proof.
  intros Hf j y Hy Hh e He. rewrite (cache_upd_other _ _ _ _ _ Hf) in He by auto.
  destruct Hf as (_ & _ & _ & Hcs). unfold entry_ok. rewrite Hcs by done. by apply Hh.
Qed.

Lemma op_step_inv s i x c' st' :
  cluster_inv s -> cl_holder s x = Some i -> op_frame (cl_caches s i) (cl_store s) x c' st' ->
  let s' := Cluster st' (cache_upd (cl_caches s) i c') (cl_holder s) in
  cluster_inv s' /\ shared s' x = view c' st' x /\ shared s x = view (cl_caches s i) (cl_store s) x /\
  forall y, y <> x -> shared s' y = shared s y.
Proof.
  intros [Hok Hheld Hidle] Hh Hf. split_and!.
  - split; simpl.
    + apply Hf.
    + intros y j Hj. destruct (decide (y = x)) as [->|Hy].
      * rewrite Hh in Hj. injection Hj as <-. rewrite cache_upd_eq. apply Hf.
      * eapply held_ok_other; eauto.
    + intros y j e Hj He. assert (y <> x \/ j <> i) as Hne.
      { destruct (decide (y = x)) as [->|]; [right|by left]. congruence. }
      rewrite (cache_upd_other _ _ _ _ _ Hf) in He by done. eauto.
  - unfold shared. simpl. rewrite Hh. by rewrite cache_upd_eq.
  - unfold shared. by rewrite Hh.
  - intros y Hy. unfold shared. simpl. destruct (cl_holder s y) as [j|].
    + unfold view. rewrite (cache_upd_other _ _ _ _ _ Hf) by auto.
      destruct Hf as (_ & _ & _ & Hcs). by rewrite Hcs.
    + destruct Hf as (_ & _ & _ & Hcs). by rewrite Hcs.
Qed.

Lemma lock_step_inv s i x :
  cluster_inv s -> cl_holder s x = None ->
  let s' := Cluster (cl_store s) (cl_caches s) (holder_upd (cl_holder s) x (Some i)) in
  cluster_inv s' /\ forall y, shared s' y = shared s y.
Proof.
  intros [Hok Hheld Hidle] Hx.
  assert (Hix : forall e, cl_caches s i !! x = Some e -> entry_idle e).
  { intros e. apply Hidle. by rewrite Hx. }
  split; [split; simpl; [done|..]|].
  - intros y j. unfold holder_upd. case_decide as E; [|by apply Hheld].
    intros [= <-]. subst. intros e He. by apply entry_idle_ok, Hix.
  - intros y j e. unfold holder_upd. case_decide as E; [|by apply Hidle].
    subst. intros _. apply Hidle. by rewrite Hx.
  - intros y. unfold shared, holder_upd. simpl. case_decide as E; [|done]. subst. rewrite Hx.
    unfold view. destruct (cl_caches s i !! x) as [e|] eqn:He; [|done].
    by destruct (Hix e eq_refl) as (-> & _).
Qed.

Lemma unlock_step_inv s i x now ret c st :
  cluster_inv s -> cl_holder s x = Some i ->
  ec_flush (cl_caches s i) (cl_store s) now x = (ret, c, st) ->
  let s' := Cluster st (cache_upd (cl_caches s) i c) (holder_upd (cl_holder s) x None) in
  cluster_inv s' /\ forall y, shared s' y = shared s y.
Proof.
  intros Hi Hx E. pose proof Hi as [Hok Hheld Hidle].
  destruct (ec_flush_spec _ _ _ _ _ _ _ Hok (Hheld x i Hx) E) as (Hf & Hc & Hv & Hid).
  destruct (op_step_inv s i x c st Hi Hx Hf) as ([H1 H2 H3] & _ & Hs & Hoth). simpl in *.
  split; [split; simpl; [done|..]|].
  - intros y j. unfold holder_upd. case_decide as E'; [done|]. by apply H2.
  - intros y j e. unfold holder_upd. case_decide as E'; [subst|by apply H3].
    intros _ He. destruct (decide (j = i)) as [->|Hj].
    + rewrite cache_upd_eq in He. by apply Hid.
    + apply (H3 x j); [congruence|done].
  - intros y. destruct (decide (y = x)) as [->|Hy].
    + rewrite Hs. unfold shared, holder_upd. simpl. by rewrite decide_True.
    + rewrite <- Hoth by done. unfold shared, holder_upd. simpl. by rewrite decide_False.
Qed.

Lemma cl_step_spec s l s' :
  cluster_inv s -> cl_step s l s' -> cluster_inv s' /\ store_step (shared s) l (shared s').
Proof.
  intros Hi Hs. pose proof (ci_store _ Hi) as Hok.
  destruct Hs as [s i x now buf ret d c st Hx Hr E|s i x out ret a c Hx Hr E|s i x now d ret c Hx E
    |s i x ret c Hx E|s i x Hx|s i x now ret c st Hx E]; simpl.
  - destruct (ec_get_spec _ _ _ _ _ _ _ _ _ Hok (ci_held _ Hi x i Hx) Hr E) as (Hf & _ & Hv & Ha).
    destruct (op_step_inv s i x c st Hi Hx Hf) as (Hi' & Hs' & Hs & Hoth). split; [done|].
    split; [|by rewrite Hs]. intros y. destruct (decide (y = x)) as [->|]; [|by apply Hoth]. congruence.
  - destruct (ec_getattr_spec _ _ _ _ _ _ _ Hok (ci_held _ Hi x i Hx) Hr E) as (Hf & Hv & Ha).
    destruct (op_step_inv s i x c (cl_store s) Hi Hx Hf) as (Hi' & Hs' & Hs & Hoth). split; [done|].
    rewrite Hs. split_and!.
    + intros y. destruct (decide (y = x)) as [->|]; [|by apply Hoth]. congruence.
    + intros ->. destruct (view (cl_caches s i) (cl_store s) x) as [d|]; [|done].
      exists d. by destruct Ha as [[_ ?]|[? _]].
    + intros Hn. by rewrite Hn in Ha.
  - destruct (ec_put_spec _ (cl_store s) _ _ _ _ _ Hok E) as (Hf & Hv & _).
    destruct (op_step_inv s i x c (cl_store s) Hi Hx Hf) as (Hi' & Hs' & Hs & Hoth). split; [done|].
    intros y. case_decide as Ey; [subst; congruence|by apply Hoth].
  - destruct (ec_remove_spec _ _ _ _ _ Hok (ci_held _ Hi x i Hx) E) as (Hf & Hv).
    destruct (op_step_inv s i x c (cl_store s) Hi Hx Hf) as (Hi' & Hs' & Hs & Hoth). split; [done|].
    intros y. destruct (decide (y = x)) as [->|Hy].
    + rewrite Hs', Hs. destruct (cl_caches s i !! x); destruct Hv as [-> ->].
      * by rewrite decide_True.
      * by rewrite decide_False by (intros [_ [=]]).
    + rewrite decide_False by naive_solver. by apply Hoth.
  - by apply lock_step_inv.
  - by eapply unlock_step_inv.
Qed.

Lemma cluster_reachable_inv st s : store_ok st -> cluster_reachable st s -> cluster_inv s.
Proof.
  intros Hok Hr. unfold cluster_reachable in Hr.
  assert (H0 : cluster_inv (Cluster st (fun _ => ∅) (fun _ => None))).
  { split; simpl; [done|done|]. intros x i e _. by rewrite lookup_empty. }
  induction Hr as [|s0 s1 s2 [l Hs] _ IH]; [done|]. apply IH. by eapply cl_step_spec.
Qed.
End client.
Arguments cluster : clear implicits.

(** * Properties *)

(** Cache coherence. Clients that use an extent only while they hold its
    lock, and flush it before they give the lock back, behave as if they all
    worked on one shared store: in every reachable state each of their
    operations is the corresponding operation of that store, and taking or
    giving back a lock does not change it. *)
Theorem cache_coherent {St} `{ExtentRpcLaws St} st s l s' :
  store_ok st -> cluster_reachable st s -> cl_step s l s' -> store_step (shared s) l (shared s').
Proof.
  intros Hok Hr Hs. apply (cluster_reachable_inv st) in Hr; [|done].
  by apply (cl_step_spec s l s').
Qed.

(** Write-back. After [flush] the server has exactly what the client saw of
    the extent (its last [put], or nothing after a [remove]), no other extent
    has changed, and the cache entry is clean, invalid and without attributes,
    so that the next access goes to the server. *)
Theorem flush_writes_back {St} `{ExtentRpcLaws St} c (st : St) now eid ret c' st' :
  store_ok st -> held_ok c st eid -> ec_flush c st now eid = (ret, c', st') ->
  contents st' !! eid = view c st eid /\
  (forall x, x <> eid -> contents st' !! x = contents st !! x) /\
  (forall e, c' !! eid = Some e -> entry_idle e).
Proof.
  intros Hok Hh E. destruct (ec_flush_spec _ _ _ _ _ _ _ Hok Hh E) as (Hf & Hc & _ & Hi).
  split_and!; [done|apply Hf|done].
Qed.

(** [remove] only works on extents the client happens to have in its cache:
    for any other it answers NOENT without asking the server, whatever the
    server has, and a following [flush] does not remove the extent either. *)
Theorem remove_uncached_lost {St} `{ExtentRpcLaws St} c (st : St) now eid d :
  store_ok st -> c !! eid = None -> contents st !! eid = Some d ->
  exists c1 ret c2 st2, ec_remove c eid = (EXT_NOENT, c1) /\ view c1 st eid = Some d /\
    ec_flush c1 st now eid = (ret, c2, st2) /\ contents st2 !! eid = Some d.
Proof.
  intros Hok Hc Hd. unfold ec_remove. rewrite Hc. do 4 eexists. split; [done|].
  split; [by rewrite view_insert, decide_True|].
  unfold ec_flush. rewrite lookup_insert_eq. simpl. done.
Qed.

(** After [remove] and before the flush, [get] still answers OK with the
    removed contents. *)
Theorem get_after_remove_stale {St} `{ExtentRpc St} c (st : St) now eid buf e :
  c !! eid = Some e ->
  exists c', ec_remove c eid = (EXT_OK, c') /\
    ec_get c' st now eid buf = (EXT_OK, e_data e, c', st).
Proof.
  intros Hc. unfold ec_remove. rewrite Hc. eexists. split; [done|].
  rewrite (ec_get_cached _ _ _ _ _ (Cached (e_data e) true false (e_a e)));
    [done|apply lookup_insert_eq|by right].
Qed.

(** ** Witnesses *)

Module ExtentExamples.
Definition hello : list byte := byte_of_Z <$> [104; 101; 108; 108; 111].
Definition server : extent_server := (extent_put (new_extent_server 100) 100 7 hello).2.
Definition cached7 : extent_cache := (ec_put ∅ 200 7 []).2.

Lemma server_ok : store_ok server.
Proof. apply (extent_put_spec _ 100 7 hello), new_extent_server_ok. Qed.

Definition start : cluster extent_server := Cluster server (fun _ => ∅) (fun _ => None).
Definition locked : cluster extent_server :=
  Cluster server (fun _ => ∅) (holder_upd (fun _ => None) 7 (Some "a")).

Lemma locked_reachable : cluster_reachable server locked.
Proof.
  apply rtc_once. exists K_lock. apply (ks_lock start "a" 7). reflexivity.
Qed.
End ExtentExamples.
Import ExtentExamples.

Lemma cache_coherent_witness :
  exists s', cl_step locked (K_get 7 EXT_OK hello) s' /\ shared locked 7 = Some hello /\
    store_step (shared locked) (K_get 7 EXT_OK hello) (shared s').
Proof.
  assert (Hs : cl_step locked (K_get 7 EXT_OK hello)
    (Cluster (ec_get ∅ server 300 7 []).2
      (cache_upd (fun _ => ∅) "a" (ec_get ∅ server 300 7 []).1.2) (cl_holder locked))).
  { apply (ks_get locked "a" 7 300 []); [reflexivity| |vm_compute; reflexivity].
    intros (e & He & _). simpl in He. rewrite lookup_empty in He. discriminate He. }
  eexists. split; [exact Hs|]. split; [vm_compute; reflexivity|].
  exact (cache_coherent server _ _ _ server_ok locked_reachable Hs).
Defined.

Lemma flush_writes_back_witness :
  exists ret c' st', ec_flush cached7 server 300 7 = (ret, c', st') /\
    contents st' !! 7 = Some [] /\ (forall x, x <> 7 -> contents st' !! x = contents server !! x).
Proof.
  assert (Hh : held_ok cached7 server 7).
  { intros e He. vm_compute in He. injection He as <-. unfold entry_ok. simpl.
    split_and!; intros; try discriminate; reflexivity. }
  pose proof (flush_writes_back cached7 server 300 7 _ _ _ server_ok Hh eq_refl) as (H1 & H2 & _).
  do 3 eexists. split; [reflexivity|]. split; [rewrite H1; vm_compute; reflexivity|exact H2].
Defined.

Lemma remove_uncached_lost_witness :
  exists c1 ret c2 st2, ec_remove ∅ 7 = (EXT_NOENT, c1) /\ view c1 server 7 = Some hello /\
    ec_flush c1 server 300 7 = (ret, c2, st2) /\ contents st2 !! 7 = Some hello.
Proof. apply (remove_uncached_lost ∅ server 300 7 hello server_ok); vm_compute; reflexivity. Defined.

Lemma get_after_remove_stale_witness :
  exists c', ec_remove cached7 7 = (EXT_OK, c') /\ ec_get c' server 300 7 [] = (EXT_OK, [], c', server).
Proof.
  apply (get_after_remove_stale cached7 server 300 7 []
    (Cached [] true true (Attr 200 200 200 0))). vm_compute. reflexivity.
Defined.
