(* ===== verification/CxxString.v ===== *)
(** * Strings and numbers of the C++ library

    What src/yfs_client.cc and src/fuse.cc use of [std::string] and of the
    stream operators: [find], [rfind], [substr], [find_first_of], printing and
    reading an [unsigned long long]. Positions are [size_t] values. *)
From S2P Require Import Prelude.

Definition npos : Z := 2 ^ 64 - 1.

Definition slash : byte := byte_of_Z 47.

(** ** Searching *)

(** [s.find(t)], counting from [pos]. *)
Fixpoint find_from (t s : list byte) (pos : Z) : option Z :=
  if decide (t `prefix_of` s) then Some pos
  else match s with
       | [] => None
       | _ :: s => find_from t s (pos + 1)
       end.
Definition str_find (s t : list byte) : option Z := find_from t s 0.

(** [s.find_first_of(c, pos)]. *)
Definition find_first_of (s : list byte) (c : byte) (pos : Z) : option Z :=
  if pos <=? zlen s then find_from [c] (drop (Z.to_nat pos) s) pos else None.

(** [s.rfind(c, pos)]: the last position not after [pos]. *)
Fixpoint rfind_to (c : byte) (s : list byte) (n : nat) : option Z :=
  match n with
  | O => None
  | S n' => if decide (s !! n' = Some c) then Some (Z.of_nat n') else rfind_to c s n'
  end.
Definition str_rfind (s : list byte) (c : byte) (pos : Z) : option Z :=
  rfind_to c s (Z.to_nat (Z.min (pos + 1) (zlen s))).

(** [s.substr(pos, n)]. *)
Definition substr (s : list byte) (pos n : Z) : res (list byte) :=
  if pos <=? zlen s then Ok (take (Z.to_nat (Z.min n (zlen s))) (drop (Z.to_nat pos) s))
  else Err Out_of_range.

(** ** Numbers *)

Definition digit (d : Z) : byte := byte_of_Z (48 + d).
Definition digit_val (b : byte) : option Z :=
  let v := Z_of_byte b in if (48 <=? v) && (v <=? 57) then Some (v - 48) else None.

(** Twenty digits are enough for a 64-bit number. *)
Fixpoint dec_aux (fuel : nat) (n : Z) (acc : list byte) : list byte :=
  match fuel with
  | O => acc
  | S fuel =>
      let acc := digit (n mod 10) :: acc in
      if n / 10 =? 0 then acc else dec_aux fuel (n / 10) acc
  end.
(** [ost << n]. *)
Definition print_ull (n : Z) : list byte := dec_aux 20 n [].

(** [ist >> n]: blanks, a sign, digits; without a digit the result is 0, out of
    range it is the largest value, and a minus sign negates modulo 2^64. *)
Definition is_blank (b : byte) : bool :=
  let v := Z_of_byte b in (v =? 32) || ((9 <=? v) && (v <=? 13)).
Fixpoint skip_blanks (s : list byte) : list byte :=
  match s with
  | [] => []
  | b :: s' => if is_blank b then skip_blanks s' else s
  end.
Fixpoint read_digits (v : Z) (s : list byte) : Z :=
  match s with
  | [] => v
  | b :: s => match digit_val b with Some d => read_digits (v * 10 + d) s | None => v end
  end.
Definition read_ull (s : list byte) : Z :=
  let s := skip_blanks s in
  let '(neg, s) := match s with
                   | b :: s' => if Z_of_byte b =? 45 then (true, s')
                                else if Z_of_byte b =? 43 then (false, s') else (false, s)
                   | [] => (false, s)
                   end in
  let v := read_digits 0 s in
  if 2 ^ 64 <=? v then 2 ^ 64 - 1 else if neg : bool then u64 (- v) else v.

(** ** Lemmas *)

Definition is_digit (b : byte) : Prop := is_Some (digit_val b).

Lemma digit_spec d : 0 <= d < 10 -> digit_val (digit d) = Some d.
Proof.
  intros Hd. unfold digit_val, digit. rewrite Z_of_byte_of_Z, wrapU_small by (split; lia).
  destruct (Z.leb_spec 48 (48 + d)), (Z.leb_spec (48 + d) 57); try lia. simpl. f_equal. lia.
Qed.

Lemma read_digits_cons v d s : 0 <= d < 10 -> read_digits v (digit d :: s) = read_digits (v * 10 + d) s.
Proof. intros. simpl. by rewrite digit_spec. Qed.

Lemma dec_aux_read fuel : forall n acc,
  0 <= n < 10 ^ Z.of_nat fuel -> (0 < fuel)%nat ->
  read_digits 0 (dec_aux fuel n acc) = read_digits n acc.
Proof.
  induction fuel as [|fuel IH]; intros n acc Hn Hf; [lia|]. cbn [dec_aux].
  pose proof (Z.mod_pos_bound n 10 ltac:(lia)). pose proof (Z_div_mod_eq_full n 10).
  destruct (Z.eqb_spec (n / 10) 0) as [E|E].
  - rewrite read_digits_cons by lia. f_equal. lia.
  - rewrite Nat2Z.inj_succ, Z.pow_succ_r in Hn by lia.
    assert (0 <= n / 10 < 10 ^ Z.of_nat fuel).
    { split; [apply Z.div_pos; lia|]. apply Z.div_lt_upper_bound; lia. }
    assert (0 < fuel)%nat.
    { destruct fuel; [|lia]. change (10 ^ Z.of_nat 0) with 1 in *. lia. }
    rewrite IH by done. rewrite read_digits_cons by lia. f_equal. lia.
Qed.

Lemma dec_aux_digits fuel : forall n acc, Forall is_digit acc -> Forall is_digit (dec_aux fuel n acc).
Proof.
  induction fuel as [|fuel IH]; intros n acc Hacc; [done|]. cbn [dec_aux].
  pose proof (Z.mod_pos_bound n 10 ltac:(lia)).
  assert (Hd : Forall is_digit (digit (n mod 10) :: acc)).
  { constructor; [|done]. exists (n mod 10). by apply digit_spec. }
  destruct (_ =? _); [done|by apply IH].
Qed.

Lemma dec_aux_length_le fuel : forall n acc, (length (dec_aux fuel n acc) <= fuel + length acc)%nat.
Proof.
  induction fuel as [|fuel IH]; intros n acc; cbn [dec_aux]; [lia|]. destruct (_ =? _); [simpl; lia|].
  specialize (IH (n / 10) (digit (n mod 10) :: acc)). simpl in *. lia.
Qed.

Lemma dec_aux_length fuel n acc : (0 < fuel)%nat -> (length acc < length (dec_aux fuel n acc))%nat.
Proof.
  revert n acc. induction fuel as [|fuel IH]; intros n acc Hf; [lia|]. cbn [dec_aux].
  destruct (_ =? _); [simpl; lia|]. destruct fuel; [simpl; lia|].
  specialize (IH (n / 10) (digit (n mod 10) :: acc) ltac:(lia)). simpl in *. lia.
Qed.

Lemma print_ull_digits n : Forall is_digit (print_ull n).
Proof. apply dec_aux_digits. constructor. Qed.

Lemma print_ull_nonempty n : print_ull n <> [].
Proof.
  intros E. pose proof (dec_aux_length 20 n [] ltac:(lia)) as H.
  unfold print_ull in E. rewrite E in H. simpl in H. lia.
Qed.

Lemma digit_plain b : is_digit b ->
  is_blank b = false /\ (Z_of_byte b =? 45) = false /\ (Z_of_byte b =? 43) = false /\ b <> slash.
Proof.
  intros [d Hd]. unfold digit_val, is_blank in *.
  destruct (Z.leb_spec 48 (Z_of_byte b)); [|done]. destruct (Z.leb_spec (Z_of_byte b) 57); [|done].
  split_and!.
  - destruct (Z.eqb_spec (Z_of_byte b) 32); [lia|]. destruct (Z.leb_spec (Z_of_byte b) 13); [lia|].
    by rewrite andb_false_r.
  - apply Z.eqb_neq. lia.
  - apply Z.eqb_neq. lia.
  - intros ->. vm_compute in H. done.
Qed.

(** Reading back what was printed. *)
Lemma read_print n : is_unsigned 64 n -> read_ull (print_ull n) = n.
Proof.
  intros Hn. pose proof (print_ull_digits n) as Hd. pose proof (print_ull_nonempty n) as Hne.
  assert (Hr : read_digits 0 (print_ull n) = n).
  { unfold print_ull. rewrite dec_aux_read; [done| |lia]. unfold is_unsigned in Hn.
    split; [lia|]. etrans; [apply Hn|]. vm_compute. done. }
  unfold read_ull. destruct (print_ull n) as [|b s] eqn:E; [done|].
  apply Forall_cons in Hd as [Hb _]. destruct (digit_plain b Hb) as (H1 & H2 & H3 & _).
  cbn [skip_blanks]. rewrite H1, H2, H3, Hr.
  destruct (Z.leb_spec (2 ^ 64) n); [unfold is_unsigned in Hn; lia|done].
Qed.

Lemma print_ull_no_slash n : slash ∉ print_ull n.
Proof.
  intros Hin. pose proof (print_ull_digits n) as Hd. rewrite Forall_forall in Hd.
  by destruct (digit_plain _ (Hd _ Hin)) as (_ & _ & _ & []).
Qed.

(** *** Searching for a pattern that starts with a slash *)

Lemma find_from_shift t s pos k : find_from t s (pos + k) = (fun x => x + k) <$> find_from t s pos.
Proof.
  revert pos. induction s as [|b s IH]; intros pos; simpl; case_decide; try done.
  rewrite <- IH. f_equal. lia.
Qed.

(** Nothing matches inside a token without slashes. *)
Lemma find_skip_token w t s pos :
  slash ∉ w -> find_from (slash :: t) (w ++ s) pos = find_from (slash :: t) s (pos + zlen w).
Proof.
  revert pos. induction w as [|b w IH]; intros pos Hw; [by rewrite Z.add_0_r|].
  apply not_elem_of_cons in Hw as [Hb Hw]. simpl. rewrite decide_False.
  - rewrite IH by done. f_equal. unfold zlen. simpl length. lia.
  - intros [k Hk]. simpl in Hk. injection Hk as Hk _. congruence.
Qed.

(** A token followed by a slash matches a token pattern only if they are
    equal. *)
Lemma token_prefix w w' s :
  slash ∉ w -> slash ∉ w' -> w ++ [slash] `prefix_of` w' ++ slash :: s -> w = w'.
Proof.
  revert w'. induction w as [|b w IH]; intros w' Hw Hw' [k Hk]; destruct w' as [|b' w']; simpl in *.
  - done.
  - injection Hk as Hk _. set_solver.
  - injection Hk as Hk _. set_solver.
  - injection Hk as -> Hk. f_equal. apply IH; [set_solver|set_solver|]. by exists k.
Qed.

Lemma rfind_to_app c (u v : list byte) n :
  (n <= length u)%nat -> rfind_to c (u ++ v) n = rfind_to c u n.
Proof.
  induction n as [|n IH]; intros Hn; [done|]. cbn [rfind_to].
  rewrite lookup_app_l by lia. by rewrite IH by lia.
Qed.

Lemma rfind_to_last c (u v : list byte) :
  c ∉ v -> rfind_to c (u ++ v) (length u + length v) = rfind_to c u (length u).
Proof.
  intros Hv. assert (Hstep : forall n, (n <= length v)%nat ->
    rfind_to c (u ++ v) (length u + n) = rfind_to c (u ++ v) (length u)).
  { induction n as [|n IH]; intros Hn; [by rewrite Nat.add_0_r|].
    rewrite Nat.add_succ_r. cbn [rfind_to]. rewrite decide_False; [apply IH; lia|].
    rewrite lookup_app_r by lia. replace (length u + n - length u)%nat with n by lia.
    intros E. apply Hv. by eapply list_elem_of_lookup_2. }
  rewrite Hstep by done. by apply rfind_to_app.
Qed.

Lemma substr_ok s pos n :
  0 <= pos -> 0 <= n -> pos + n <= zlen s ->
  substr s pos n = Ok (take (Z.to_nat n) (drop (Z.to_nat pos) s)).
Proof.
  intros. unfold substr. rewrite (proj2 (Z.leb_le pos (zlen s))) by lia. by rewrite Z.min_l by lia.
Qed.
