(* ===== verification/YfsClient.v ===== *)
(** * The file system client

    [yfs_client] of src/yfs_client.h and src/yfs_client.cc: files and
    directories as extents, every operation under the locks of the extents it
    touches. A directory is the string of its entries, [inum/name/] one after the
    other. The lock client is represented by the trace of its calls; numbers drawn
    and clock readings are arguments ([now k] is the [k]-th reading). *)
From S2P Require Import Prelude ExtentServer ExtentClient CxxString.

Definition YFS_OK : Z := 0.
Definition YFS_RPCERR : Z := 1.
Definition YFS_NOENT : Z := 2.
Definition YFS_IOERR : Z := 3.
Definition YFS_EXIST : Z := 4.

(** ** Inode numbers *)

(** [isfile << 31] is an [int], so it is sign extended before the mask. *)
Definition rand_inum (rnd : Z) (isfile : bool) : Z :=
  let ret := u64 (s32 (Z.lor (Z.land rnd 0x7fffffff) (Z.shiftl (if isfile then 1 else 0) 31))) in
  Z.land ret 0xffffffff.

Definition n2i (n : list byte) : Z := read_ull n.
Definition filename (inum : Z) : list byte := print_ull inum.

Definition isfile (inum : Z) : bool := negb (Z.land inum 0x80000000 =? 0).
Definition isdir (inum : Z) : bool := negb (isfile inum).

(** ** State *)

Inductive event := Acquired (x : Z) | Released (x : Z) | Accessed (x : Z).

Section yfs.
Context {St : Type} `{ExtentRpc St}.

Record yfs := Yfs {
  y_cache : extent_cache;
  y_store : St;
  y_trace : list event              (* oldest first *)
}.

Definition log (e : event) (y : yfs) : yfs := Yfs (y_cache y) (y_store y) (y_trace y ++ [e]).

(** [ScopedLockClient]: its constructor and its destructor. *)
Definition acquire (x : Z) (y : yfs) : yfs := log (Acquired x) y.
Definition release (x : Z) (y : yfs) : yfs := log (Released x) y.

(** [ExtentLockRelease::dorelease]. *)
Definition dorelease (now x : Z) (y : yfs) : yfs :=
  let '(_, c, st) := ec_flush (y_cache y) (y_store y) now x in Yfs c st (y_trace y).

(** The extent client's operations on this state. *)
Definition y_get (now x : Z) (buf : list byte) (y : yfs) : Z * list byte * yfs :=
  let '(ret, d, c, st) := ec_get (y_cache y) (y_store y) now x buf in
  (ret, d, log (Accessed x) (Yfs c st (y_trace y))).
Definition y_getattr (x : Z) (y : yfs) : Z * attr * yfs :=
  let '(ret, a, c) := ec_getattr (y_cache y) (y_store y) x (Attr 0 0 0 0) in
  (ret, a, log (Accessed x) (Yfs c (y_store y) (y_trace y))).
Definition y_put (now x : Z) (d : list byte) (y : yfs) : Z * yfs :=
  let '(ret, c) := ec_put (y_cache y) now x d in
  (ret, log (Accessed x) (Yfs c (y_store y) (y_trace y))).
Definition y_remove (x : Z) (y : yfs) : Z * yfs :=
  let '(ret, c) := ec_remove (y_cache y) x in
  (ret, log (Accessed x) (Yfs c (y_store y) (y_trace y))).

(** ** Attributes *)

Record fileinfo := Fileinfo { fi_size : Z; fi_atime : Z; fi_mtime : Z; fi_ctime : Z }.
Record dirinfo := Dirinfo { di_atime : Z; di_mtime : Z; di_ctime : Z }.

Definition getfile (inum : Z) (fin : fileinfo) (y : yfs) : Z * fileinfo * yfs :=
  let y := acquire inum y in
  let '(rs, a, y) := y_getattr inum y in
  if negb (rs =? EXT_OK) then (YFS_IOERR, fin, release inum y)
  else (YFS_OK, Fileinfo (a_size a) (a_atime a) (a_mtime a) (a_ctime a), release inum y).

Definition getdir (inum : Z) (din : dirinfo) (y : yfs) : Z * dirinfo * yfs :=
  let y := acquire inum y in
  let '(rs, a, y) := y_getattr inum y in
  if negb (rs =? EXT_OK) then (YFS_IOERR, din, release inum y)
  else (YFS_OK, Dirinfo (a_atime a) (a_mtime a) (a_ctime a), release inum y).

(** ** Directories *)

(** [t = "/" + name + "/"]. *)
Definition pattern (name : list byte) : list byte := slash :: name ++ [slash].

(** The start of the entry whose first slash is at [found]. *)
Definition entry_left (b : list byte) (found : Z) : Z :=
  match str_rfind b slash (u64 (found - 1)) with
  | None => 0
  | Some slash_at => slash_at + 1
  end.

(** The status, the new inode number if one was assigned, and the state. *)
Definition create (now : nat -> Z) (rnd parent : Z) (name : list byte) (isfile : bool) (y : yfs)
    : Z * option Z * yfs :=
  if isdir parent then
    let y := acquire parent y in
    let '(rs, b, y) := y_get (now 0%nat) parent [] y in
    if negb (rs =? YFS_OK) then (rs, None, release parent y)
    else
      let t := pattern name in
      match str_find b t with
      | Some _ => (YFS_EXIST, None, release parent y)
      | None =>
          let num := rand_inum rnd isfile in
          let ino := Z.land num 0xffffffff in
          let b := b ++ filename num ++ t in
          let y := acquire num y in
          let '(rs, y) := y_put (now 1%nat) num [] y in
          if negb (rs =? YFS_OK) then (rs, Some ino, release parent (release num y))
          else
            let '(rs, y) := y_put (now 2%nat) parent b y in
            if negb (rs =? YFS_OK) then (rs, Some ino, release parent (release num y))
            else (YFS_OK, Some ino, release parent (release num y))
      end
  else (YFS_NOENT, None, y).

(** [name] is [None] for a null pointer; the inode number is [None] when the
    reference parameter is left alone. *)
Definition lookup (now parent : Z) (name : option (list byte)) (y : yfs)
    : res (bool * option Z * yfs) :=
  if isdir parent then
    match name with
    | None | Some [] => Ok (true, None, y)
    | Some name =>
        let y := acquire parent y in
        let '(rs, b, y) := y_get now parent [] y in
        if negb (rs =? YFS_OK) then Ok (false, None, release parent y)
        else match str_find b (pattern name) with
        | Some found =>
            _ ← VERIFY (found >? 0);
            let left := entry_left b found in
            _ ← VERIFY (found >? left);
            s ← substr b left (found - left);
            Ok (true, Some (n2i s), release parent y)
        | None => Ok (false, None, release parent y)
        end
    end
  else Ok (false, None, y).

(** A null [name] is reported and then used. *)
Definition unlink (now : nat -> Z) (parent : Z) (name : option (list byte)) (y : yfs)
    : res (Z * yfs) :=
  if isdir parent then
    let y := acquire parent y in
    let '(rs, b, y) := y_get (now 0%nat) parent [] y in
    if negb (rs =? YFS_OK) then Ok (YFS_NOENT, release parent y)
    else match name with
    | None => Err Undefined
    | Some name =>
        let t := pattern name in
        match str_find b t with
        | Some found =>
            let left := entry_left b found in
            _ ← VERIFY (found >? left);
            s ← substr b left (found - left);
            let ino := n2i s in
            let y := acquire ino y in
            let '(rs, y) := y_remove ino y in
            if negb (rs =? EXT_OK) then Ok (YFS_NOENT, release parent (release ino y))
            else
              head ← (if negb (left =? 0) then substr b 0 left else Ok []);
              tail ← (if found + zlen t <? zlen b
                      then substr b (found + zlen t) (zlen b - found - zlen t) else Ok []);
              let '(rs, y) := y_put (now 1%nat) parent (head ++ tail) y in
              if negb (rs =? YFS_OK) then Ok (YFS_NOENT, release parent (release ino y))
              else Ok (YFS_OK, release parent (release ino y))
        | None => Ok (YFS_NOENT, release parent y)
        end
    end
  else Ok (YFS_NOENT, y).

(** ** Files *)

(** [off] is an [off_t], [size] a [size_t]; their sum is a [size_t]. *)
Definition read (now ino size off : Z) (y : yfs) : res (Z * list byte * yfs) :=
  let y := acquire ino y in
  let '(rs, buf, y) := y_get now ino [] y in
  if negb (rs =? YFS_OK) then Ok (rs, [], release ino y)
  else if u64 (off + size) >? zlen buf then
    let n := u64 (u64 (off + size) - zlen buf) in
    let reside := s32 n in
    if reside <? 0 then Err Bad_alloc
    else
      _ ← defined_if (n <=? reside);           (* bzero clears n bytes *)
      s ← substr buf (u64 off) (u64 (zlen buf - u64 off));
      Ok (YFS_OK, s ++ replicate (Z.to_nat reside) Byte.x00, release ino y)
  else
    s ← substr buf (u64 off) size;
    Ok (YFS_OK, s, release ino y).

(** What [write] makes of the old contents. *)
Definition write_after (ori data : list byte) (uoff : Z) : res (list byte) :=
  let size := zlen data in
  if (uoff <=? zlen ori) || (uoff =? 0) then
    head ← substr ori 0 uoff;
    if u64 (uoff + size) <? zlen ori then
      tail ← substr ori (u64 (uoff + size)) (zlen ori - uoff - size);
      Ok (head ++ data ++ tail)
    else Ok (head ++ data)
  else
    let gap := uoff - zlen ori in
    Ok (ori ++ replicate (Z.to_nat gap) Byte.x00 ++ data).

Definition write (now : nat -> Z) (ino : Z) (data : list byte) (off : Z) (y : yfs) : res (Z * yfs) :=
  if off <? 0 then Ok (YFS_NOENT, y)
  else
    let uoff := u32 off in
    let y := acquire ino y in
    let '(rs, ori, y) := y_get (now 0%nat) ino [] y in
    if negb (rs =? YFS_OK) then Ok (rs, release ino y)
    else
      after ← write_after ori data uoff;
      let '(rs, y) := y_put (now 1%nat) ino after y in
      Ok (rs, release ino y).

(** What [setattr] makes of the old contents. *)
Definition resize (buf : list byte) (st_size : Z) : res (list byte) :=
  let sz := u32 (zlen buf) in
  if sz <? st_size then
    let appendSz := s32 (st_size - sz) in
    if appendSz <? 0 then Err Bad_alloc
    else Ok (buf ++ replicate (Z.to_nat appendSz) Byte.x00)
  else substr buf 0 (u64 st_size).

Definition setattr (now : nat -> Z) (fileno st_size : Z) (y : yfs) : res (Z * yfs) :=
  let y := acquire fileno y in
  let '(rs, buf, y) := y_get (now 0%nat) fileno [] y in
  if negb (rs =? YFS_OK) then Ok (rs, release fileno y)
  else
    buf ← resize buf st_size;
    let '(rs, y) := y_put (now 1%nat) fileno buf y in
    Ok (rs, release fileno y).

Definition getdata (now ino : Z) (y : yfs) : Z * list byte * yfs :=
  let y := acquire ino y in
  let '(rs, buf, y) := y_get now ino [] y in
  (rs, buf, release ino y).
End yfs.
Arguments yfs : clear implicits.
#[global] Arguments filename : simpl never.
#[global] Arguments print_ull : simpl never.

(** ** The contents of a directory *)

Definition enc_entry (e : Z * list byte) : list byte := filename e.1 ++ slash :: e.2 ++ [slash].
Definition enc_dir (es : list (Z * list byte)) : list byte := concat (enc_entry <$> es).

Definition name_ok (n : list byte) : Prop := n <> [] /\ slash ∉ n.
Definition dir_ok (es : list (Z * list byte)) : Prop :=
  Forall (fun e => is_unsigned 64 e.1 /\ name_ok e.2) es.

(** No entry's inode number is written like this name. *)
Definition not_an_inum (name : list byte) (es : list (Z * list byte)) : Prop :=
  Forall (fun e => filename e.1 <> name) es.

Lemma enc_dir_cons e es : enc_dir (e :: es) = filename e.1 ++ slash :: e.2 ++ slash :: enc_dir es.
Proof.
  unfold enc_dir, enc_entry. cbn [fmap list_fmap concat]. rewrite <- app_assoc. cbn [app].
  by rewrite <- app_assoc.
Qed.

Lemma enc_dir_app es es' : enc_dir (es ++ es') = enc_dir es ++ enc_dir es'.
Proof. unfold enc_dir. by rewrite fmap_app, concat_app. Qed.

Lemma filename_slash i : slash ∉ filename i.
Proof. apply print_ull_no_slash. Qed.

Lemma filename_pos i : 0 < zlen (filename i).
Proof.
  pose proof (print_ull_nonempty i). unfold filename, zlen. destruct (print_ull i); [done|simpl; lia].
Qed.

(** One step of the search at a slash. *)
Lemma find_at_slash name s pos :
  find_from (pattern name) (slash :: s) pos =
  if decide (name ++ [slash] `prefix_of` s) then Some pos
  else find_from (pattern name) s (pos + 1).
Proof.
  unfold pattern. cbn [find_from]. destruct (decide (name ++ [slash] `prefix_of` s)) as [Hp|Hp].
  - rewrite decide_True; [done|]. by apply prefix_cons.
  - rewrite decide_False; [done|]. intros Hq. by apply prefix_cons_inv_2 in Hq.
Qed.

(** The search finds the first entry with that name, or nothing. *)
Lemma find_dir name es : forall pos,
  dir_ok es -> slash ∉ name -> not_an_inum name es ->
  (exists pre i post, es = pre ++ (i, name) :: post /\ name ∉ pre.*2 /\
     find_from (pattern name) (enc_dir es) pos =
       Some (pos + zlen (enc_dir pre) + zlen (filename i))) \/
  (name ∉ es.*2 /\ find_from (pattern name) (enc_dir es) pos = None).
Proof.
  induction es as [|[i n] es IH]; intros pos Hd Hn Hi.
  { right. split; [by apply not_elem_of_nil|]. unfold pattern.
    change (enc_dir []) with (@nil byte). cbn [find_from].
    rewrite decide_False; [done|]. apply prefix_nil_not. }
  apply Forall_cons in Hd as [[Hi64 [Hne Hns]] Hd]. apply Forall_cons in Hi as [Hin Hi]. simpl in *.
  rewrite enc_dir_cons. simpl. unfold pattern at 1 2.
  rewrite find_skip_token by apply filename_slash. fold (pattern name).
  rewrite find_at_slash. case_decide as Hp.
  { apply token_prefix in Hp as <-; [|done..]. left. exists [], i, es.
    split; [done|]. split; [by apply not_elem_of_nil|]. f_equal. unfold zlen. simpl. lia. }
  unfold pattern at 1 2. rewrite find_skip_token by done. fold (pattern name).
  rewrite find_at_slash. rewrite decide_False.
  2: { intros Hq. destruct es as [|[i' n'] es].
       - destruct Hq as [k Hk]. unfold enc_dir in Hk. simpl in Hk. by destruct name.
       - apply Forall_cons in Hi as [Hi' _]. rewrite enc_dir_cons in Hq.
         apply token_prefix in Hq; [|done|apply filename_slash]. by apply Hi'. }
  assert (Hnn : n <> name).
  { intros ->. apply Hp. exists (enc_dir es). by rewrite <- app_assoc. }
  destruct (IH (pos + zlen (filename i) + 1 + zlen n + 1) Hd Hn Hi)
    as [(pre & j & post & -> & Hpre & ->)|[Hno ->]].
  - left. exists ((i, n) :: pre), j, post. split; [done|]. split; [set_solver|].
    f_equal. rewrite enc_dir_cons. unfold zlen. simpl.
    rewrite !length_app. simpl. rewrite length_app. simpl. lia.
  - right. split; [set_solver|done].
Qed.

(** Where the entry starts. *)
Lemma entry_left_dir pre i name post :
  dir_ok pre -> zlen (enc_dir (pre ++ (i, name) :: post)) < 2 ^ 64 ->
  entry_left (enc_dir (pre ++ (i, name) :: post)) (zlen (enc_dir pre) + zlen (filename i)) =
  zlen (enc_dir pre).
Proof.
  intros Hd Hlen. unfold entry_left, str_rfind. pose proof (filename_pos i) as Hf.
  rewrite enc_dir_app, enc_dir_cons in *. simpl in *.
  set (w := slash :: name ++ slash :: enc_dir post) in *.
  set (u := enc_dir pre) in *. set (f := filename i) in *.
  assert (Hl : zlen (u ++ f ++ w) = zlen u + zlen f + zlen w)
    by (unfold zlen; rewrite !length_app; lia).
  assert (0 <= zlen u /\ 0 <= zlen w) by (unfold zlen; lia).
  rewrite wrapU_small by (unfold is_unsigned; lia).
  replace (Z.to_nat (Z.min (zlen u + zlen f - 1 + 1) (zlen (u ++ f ++ w))))
    with (length u + length f)%nat by (rewrite Hl; unfold zlen in *; lia).
  rewrite app_assoc, rfind_to_app by (rewrite length_app; lia).
  rewrite rfind_to_last by apply filename_slash.
  destruct pre as [|e pre _] using rev_ind; [done|].
  assert (Hu : exists v, u = v ++ [slash]).
  { subst u. rewrite enc_dir_app, enc_dir_cons. simpl.
    exists (enc_dir pre ++ filename e.1 ++ slash :: e.2).
    unfold enc_dir at 2. simpl. rewrite <- !app_assoc. done. }
  destruct Hu as [v Hv]. clearbody u. subst u. rewrite length_app, Nat.add_1_r. cbn [rfind_to].
  rewrite decide_True; [|by rewrite lookup_app_r, Nat.sub_diag by lia].
  unfold zlen. rewrite length_app. simpl. lia.
Qed.

(** The inode number is cut out of the entry. *)
Lemma entry_inum pre i name post :
  substr (enc_dir (pre ++ (i, name) :: post)) (zlen (enc_dir pre)) (zlen (filename i)) =
  Ok (filename i).
Proof.
  rewrite enc_dir_app, enc_dir_cons. simpl. rewrite substr_ok.
  - unfold zlen. rewrite !Nat2Z.id, drop_app_length, take_app_length. done.
  - unfold zlen. lia.
  - unfold zlen. lia.
  - unfold zlen. rewrite !length_app. lia.
Qed.

(** ** The state seen through the cache *)

Section laws.
Context {St : Type} `{ExtentRpcLaws St}.
Implicit Types (y : yfs St).

Definition yfs_ok y : Prop :=
  store_ok (y_store y) /\ forall x, held_ok (y_cache y) (y_store y) x.
Definition file y (x : Z) : option (list byte) := view (y_cache y) (y_store y) x.
Definition gone y (x : Z) : Prop := removed (y_cache y) x.

(** [y'] is a state after an operation that changed at most extent [x]. *)
Definition changed_only y (x : Z) y' : Prop :=
  yfs_ok y' /\ (forall z, z <> x -> file y' z = file y z) /\
  (forall z, z <> x -> gone y' z -> gone y z).

Lemma op_frame_changed y x c' st' tr :
  yfs_ok y -> op_frame (y_cache y) (y_store y) x c' st' -> changed_only y x (Yfs c' st' tr).
Proof.
  intros [Hok Hh] (Hok' & Hx & Hc & Hs). split_and!.
  - split; [done|]. intros z. destruct (decide (z = x)) as [->|Hz]; [done|]. simpl.
    intros e He. rewrite Hc in He by done. unfold entry_ok. rewrite Hs by done. by apply Hh.
  - intros z Hz. unfold file, view. simpl. by rewrite Hc, Hs.
  - intros z Hz (e & He & ?). simpl in He. rewrite Hc in He by done. by exists e.
Qed.

Lemma y_get_spec now x buf y ret d y' :
  yfs_ok y -> ~ gone y x -> y_get now x buf y = (ret, d, y') ->
  yfs_ok y' /\ (forall z, file y' z = file y z) /\ (forall z, gone y' z -> gone y z) /\
  (ret, d) = answer (file y x) /\ y_trace y' = y_trace y ++ [Accessed x] /\
  (forall z, z <> x -> y_cache y' !! z = y_cache y !! z).
Proof.
  intros Hok Hg E. unfold y_get in E.
  destruct (ec_get (y_cache y) (y_store y) now x buf) as [[[r0 d0] c'] st'] eqn:Ee.
  injection E as <- <- <-. destruct Hok as [Hs Hh].
  destruct (ec_get_spec _ _ _ _ _ _ _ _ _ Hs (Hh x) Hg Ee) as (Hf & _ & Hv & Ha).
  destruct (op_frame_changed y x c' st' (y_trace y ++ [Accessed x]) ltac:(by split) Hf) as (H1 & H2 & H3).
  split_and!; [done| | |done|done|apply Hf].
  - intros z. destruct (decide (z = x)) as [->|Hz]; [done|by apply H2].
  - intros z Hz. destruct (decide (z = x)) as [->|Hzx]; [|by apply H3].
    destruct Hz as (e & He & Hd & Hvl). simpl in He. unfold ec_get in Ee.
    destruct (match y_cache y !! x with Some _ => _ | None => _ end).
    + destruct (rpc_get (y_store y) now x) as [[r1 d1] st1].
      destruct (r1 =? EXT_OK); injection Ee as <- <- <- <-; [|by exists e].
      rewrite lookup_insert_eq in He. by injection He as <-.
    + destruct (y_cache y !! x) as [e0|] eqn:Ec; injection Ee as <- <- <- <-.
      * exists e. by rewrite Ec in He |- *.
      * by rewrite Ec in He.
Qed.

Lemma y_put_spec now x d y ret y' :
  yfs_ok y -> y_put now x d y = (ret, y') ->
  changed_only y x y' /\ file y' x = Some d /\ ~ gone y' x /\ ret = YFS_OK /\
  y_trace y' = y_trace y ++ [Accessed x].
Proof.
  intros Hok E. unfold y_put in E. destruct (ec_put (y_cache y) now x d) as [r c'] eqn:Ee.
  injection E as <- <-.
  destruct (ec_put_spec _ (y_store y) _ _ _ _ _ (proj1 Hok) Ee) as (Hf & Hv & ->).
  split_and!; [by apply op_frame_changed|done| |done|done].
  intros (e & He & Hd & Hvl). unfold ec_put in Ee. injection Ee as <-. simpl in He.
  rewrite lookup_insert_eq in He. by injection He as <-.
Qed.

Lemma y_remove_spec x y ret y' :
  yfs_ok y -> y_remove x y = (ret, y') ->
  changed_only y x y' /\ y_trace y' = y_trace y ++ [Accessed x] /\
  match y_cache y !! x with
  | Some _ => ret = EXT_OK /\ file y' x = None
  | None => ret = EXT_NOENT /\ file y' x = file y x
  end.
Proof.
  intros Hok E. unfold y_remove in E. destruct (ec_remove (y_cache y) x) as [r c'] eqn:Ee.
  injection E as <- <-. destruct Hok as [Hs Hh].
  destruct (ec_remove_spec _ _ _ _ _ Hs (Hh x) Ee) as (Hf & Hv).
  split_and!; [by apply op_frame_changed|done|done].
Qed.

Lemma y_getattr_spec x y ret a y' :
  yfs_ok y -> ~ gone y x -> y_getattr x y = (ret, a, y') ->
  yfs_ok y' /\ (forall z, file y' z = file y z) /\ y_trace y' = y_trace y ++ [Accessed x] /\
  match file y x with
  | Some d => ret = EXT_OK /\ a_size a = u32 (zlen d) \/
              ret = EXT_NOENT /\ contents (y_store y) !! x = None
  | None => ret = EXT_NOENT
  end.
Proof.
  intros Hok Hg E. unfold y_getattr in E.
  destruct (ec_getattr (y_cache y) (y_store y) x (Attr 0 0 0 0)) as [[r a0] c'] eqn:Ee.
  injection E as <- <- <-. destruct Hok as [Hs Hh].
  destruct (ec_getattr_spec _ _ _ _ _ _ _ Hs (Hh x) Hg Ee) as (Hf & Hv & Ha).
  destruct (op_frame_changed y x c' (y_store y) (y_trace y ++ [Accessed x]) ltac:(by split) Hf)
    as (H1 & H2 & _).
  split_and!; [done| |done|done].
  intros z. destruct (decide (z = x)) as [->|Hz]; [done|by apply H2].
Qed.

(** ** Contents of files *)

(** Bytes [o] onwards replaced by [data], the file extended with zeros if it is
    too short. *)
Definition written (ori data : list byte) (o : nat) : list byte :=
  take o ori ++ replicate (o - length ori) Byte.x00 ++ data ++ drop (o + length data) ori.

Lemma write_after_spec ori data uoff :
  0 <= uoff < 2 ^ 32 -> zlen ori < 2 ^ 63 -> zlen data < 2 ^ 62 ->
  write_after ori data uoff = Ok (written ori data (Z.to_nat uoff)).
Proof.
  intros Ho Hl Hd. unfold write_after, written. assert (0 <= zlen data) by (unfold zlen; lia).
  rewrite (wrapU_small 64) by (unfold is_unsigned; lia).
  destruct (Z.leb_spec uoff (zlen ori)) as [Hle|Hgt]; cbn [orb].
  - rewrite (substr_ok ori 0 uoff) by lia. cbn [mbind res_bind]. change (Z.to_nat 0) with 0%nat. rewrite drop_0.
    replace (Z.to_nat uoff - length ori)%nat with 0%nat by (unfold zlen in *; lia). simpl.
    destruct (Z.ltb_spec (uoff + zlen data) (zlen ori)) as [Hlt|Hge].
    + rewrite substr_ok by (unfold zlen in *; lia). cbn [mbind res_bind].
      replace (Z.to_nat (uoff + zlen data)) with (Z.to_nat uoff + length data)%nat
        by (unfold zlen in *; lia).
      rewrite (take_ge (drop _ ori)); [done|]. rewrite length_drop. unfold zlen in *. lia.
    + rewrite drop_ge by (unfold zlen in *; lia). by rewrite app_nil_r.
  - destruct (Z.eqb_spec uoff 0); [unfold zlen in *; lia|]. simpl.
    rewrite take_ge by (unfold zlen in *; lia). rewrite (drop_ge ori) by (unfold zlen in *; lia).
    rewrite app_nil_r. do 3 f_equal. f_equal. unfold zlen. lia.
Qed.

(** [size] bytes from [o], zeros after the end of the file. *)
Definition read_at (buf : list byte) (o size : nat) : list byte :=
  take size (drop o buf) ++ replicate (size - (length buf - o)) Byte.x00.

Lemma read_written ori data o :
  read_at (written ori data o) o (length data) = data.
Proof.
  unfold read_at, written.
  assert (Hz : length (take o ori ++ replicate (o - length ori) Byte.x00) = o)
    by (rewrite length_app, length_take, length_replicate; lia).
  rewrite app_assoc. generalize dependent (take o ori ++ replicate (o - length ori) Byte.x00).
  generalize (drop (o + length data) ori). intros w u Hu.
  assert (drop o (u ++ data ++ w) = data ++ w) as -> by (rewrite <- Hu; apply drop_app_length).
  rewrite take_app_length. rewrite !length_app, Hu.
  replace (length data - _)%nat with 0%nat by lia. apply app_nil_r.
Qed.

Lemma resize_spec buf n :
  0 <= n -> n <= INT_MAX -> zlen buf < 2 ^ 32 ->
  resize buf n = Ok (take (Z.to_nat n) buf ++ replicate (Z.to_nat n - length buf) Byte.x00).
Proof.
  intros Hn Hmax Hl. unfold INT_MAX in Hmax. unfold resize. assert (0 <= zlen buf) by (unfold zlen; lia).
  rewrite (wrapU_small 32) by (unfold is_unsigned; lia).
  destruct (Z.ltb_spec (zlen buf) n) as [Hlt|Hge].
  - rewrite wrapS_small by (unfold is_signed; lia).
    destruct (Z.ltb_spec (n - zlen buf) 0); [lia|].
    rewrite take_ge by (unfold zlen in *; lia). do 3 f_equal. unfold zlen. lia.
  - rewrite (wrapU_small 64) by (unfold is_unsigned; lia). rewrite substr_ok by lia.
    replace (Z.to_nat n - length buf)%nat with 0%nat by (unfold zlen in *; lia).
    simpl. by rewrite app_nil_r.
Qed.

(** ** The operations *)

(** Reading first and logging afterwards change nothing more. *)
Lemma changed_after_get y x y1 y2 e :
  (forall z, file y1 z = file y z) -> (forall z, gone y1 z -> gone y z) ->
  changed_only y1 x y2 -> changed_only y x (log e y2).
Proof.
  intros Hf Hg (H1 & H2 & H3). split; [exact H1|]. split.
  - intros z Hz. rewrite <- Hf. by apply H2.
  - intros z Hz Hgz. apply Hg. by apply H3.
Qed.

(** Reading an extent that exists, under its lock. *)
Lemma y_get_some now x y d :
  yfs_ok y -> ~ gone y x -> file y x = Some d ->
  exists y', y_get now x [] (acquire x y) = (YFS_OK, d, y') /\
    yfs_ok y' /\ (forall z, file y' z = file y z) /\ (forall z, gone y' z -> gone y z) /\
    y_trace y' = y_trace y ++ [Acquired x; Accessed x] /\
    (forall z, z <> x -> y_cache y' !! z = y_cache y !! z).
Proof.
  intros Hok Hg Hf. destruct (y_get now x [] (acquire x y)) as [[ret d'] y'] eqn:E.
  destruct (y_get_spec now x [] (acquire x y) ret d' y' Hok Hg E) as (H1 & H2 & H3 & H4 & H5 & H6).
  change (file (acquire x y) x) with (file y x) in H4. rewrite Hf in H4.
  injection H4 as -> ->. exists y'. split_and!; try done. rewrite H5. simpl. by rewrite <- app_assoc.
Qed.

Lemma write_ok now ino data off y ori :
  yfs_ok y -> ~ gone y ino -> file y ino = Some ori ->
  0 <= off -> zlen ori < 2 ^ 63 -> zlen data < 2 ^ 62 ->
  exists y', write now ino data off y = Ok (YFS_OK, y') /\ changed_only y ino y' /\
    file y' ino = Some (written ori data (Z.to_nat (u32 off))) /\ ~ gone y' ino /\
    y_trace y' = y_trace y ++ [Acquired ino; Accessed ino; Accessed ino; Released ino].
Proof.
  intros Hok Hg Hf Hoff Hl Hd. unfold write. destruct (Z.ltb_spec off 0); [lia|].
  destruct (y_get_some (now 0%nat) ino y ori Hok Hg Hf) as (y1 & -> & Hok1 & Hf1 & Hg1 & Ht1 & _).
  cbn [negb Z.eqb YFS_OK]. rewrite write_after_spec by (try done; by apply wrapU_range).
  cbn [mbind res_bind]. destruct (y_put (now 1%nat) ino _ y1) as [ret y2] eqn:Ep.
  destruct (y_put_spec _ _ _ _ _ _ Hok1 Ep) as (Hc2 & Hfx & Hgx & -> & Ht2).
  eexists. split; [done|]. split_and!; [|exact Hfx|exact Hgx|].
  - by apply (changed_after_get y ino y1).
  - simpl. rewrite Ht2, Ht1, <- !app_assoc. done.
Qed.

Lemma read_ok now ino size off y buf :
  yfs_ok y -> ~ gone y ino -> file y ino = Some buf ->
  0 <= off <= zlen buf -> 0 <= size -> off + size <= zlen buf + INT_MAX -> zlen buf < 2 ^ 62 ->
  exists y', read now ino size off y =
      Ok (YFS_OK, read_at buf (Z.to_nat off) (Z.to_nat size), y') /\
    yfs_ok y' /\ (forall z, file y' z = file y z) /\
    y_trace y' = y_trace y ++ [Acquired ino; Accessed ino; Released ino].
Proof.
  intros Hok Hg Hf Hoff Hs Hsum Hl. unfold INT_MAX in Hsum. unfold read.
  destruct (y_get_some now ino y buf Hok Hg Hf) as (y1 & -> & Hok1 & Hf1 & _ & Ht1 & _).
  cbn [negb Z.eqb YFS_OK]. rewrite !(wrapU_small 64 (off + size)) by (unfold is_unsigned; lia).
  rewrite (wrapU_small 64 off) by (unfold is_unsigned; lia).
  assert (Ht : y_trace (release ino y1) = y_trace y ++ [Acquired ino; Accessed ino; Released ino])
    by (simpl; by rewrite Ht1, <- app_assoc).
  unfold read_at. destruct (Z.gtb_spec (off + size) (zlen buf)) as [Hgt|Hle].
  - rewrite (wrapU_small 64 (off + size - zlen buf)) by (unfold is_unsigned; lia).
    rewrite wrapS_small by (unfold is_signed; lia).
    destruct (Z.ltb_spec (off + size - zlen buf) 0); [lia|].
    rewrite (proj2 (Z.leb_le _ _)) by lia. cbn [defined_if mbind res_bind].
    rewrite (wrapU_small 64) by (unfold is_unsigned; lia).
    rewrite substr_ok by lia. cbn [mbind res_bind]. exists (release ino y1). split; [|exact (conj Hok1 (conj Hf1 Ht))].
    do 3 f_equal. f_equal; [|f_equal; unfold zlen in *; lia].
    rewrite !take_ge; [done|..]; rewrite length_drop; unfold zlen in *; lia.
  - rewrite substr_ok by lia. cbn [mbind res_bind]. exists (release ino y1). split; [|exact (conj Hok1 (conj Hf1 Ht))].
    replace (Z.to_nat size - (length buf - Z.to_nat off))%nat with 0%nat by (unfold zlen in *; lia).
    simpl. by rewrite app_nil_r.
Qed.

Lemma setattr_ok now ino n y buf :
  yfs_ok y -> ~ gone y ino -> file y ino = Some buf ->
  0 <= n <= INT_MAX -> zlen buf < 2 ^ 32 ->
  exists y', setattr now ino n y = Ok (YFS_OK, y') /\ changed_only y ino y' /\
    file y' ino = Some (take (Z.to_nat n) buf ++ replicate (Z.to_nat n - length buf) Byte.x00) /\
    y_trace y' = y_trace y ++ [Acquired ino; Accessed ino; Accessed ino; Released ino].
Proof.
  intros Hok Hg Hf [Hn Hm] Hl. unfold setattr.
  destruct (y_get_some (now 0%nat) ino y buf Hok Hg Hf) as (y1 & -> & Hok1 & Hf1 & Hg1 & Ht1 & _).
  cbn [negb Z.eqb YFS_OK]. rewrite resize_spec by done. cbn [mbind res_bind].
  destruct (y_put (now 1%nat) ino _ y1) as [ret y2] eqn:Ep.
  destruct (y_put_spec _ _ _ _ _ _ Hok1 Ep) as (Hc2 & Hfx & Hgx & -> & Ht2).
  eexists. split; [done|]. split_and!; [|exact Hfx|].
  - by apply (changed_after_get y ino y1).
  - simpl. rewrite Ht2, Ht1, <- !app_assoc. done.
Qed.

Lemma lookup_ok now parent name y es :
  yfs_ok y -> ~ gone y parent -> isdir parent = true -> file y parent = Some (enc_dir es) ->
  dir_ok es -> name_ok name -> not_an_inum name es -> zlen (enc_dir es) < 2 ^ 64 ->
  exists y', yfs_ok y' /\ (forall z, file y' z = file y z) /\
    y_trace y' = y_trace y ++ [Acquired parent; Accessed parent; Released parent] /\
    ((exists pre i post, es = pre ++ (i, name) :: post /\ name ∉ pre.*2 /\
        lookup now parent (Some name) y = Ok (true, Some i, y')) \/
     (name ∉ es.*2 /\ lookup now parent (Some name) y = Ok (false, None, y'))).
Proof.
  intros Hok Hg Hdir Hf Hd [Hne Hns] Hni Hl. unfold lookup. rewrite Hdir.
  destruct name as [|b0 name0] eqn:En; [done|]. rewrite <- En in *. clear Hne.
  destruct (y_get_some now parent y _ Hok Hg Hf) as (y1 & -> & Hok1 & Hf1 & _ & Ht1 & _).
  cbn [negb Z.eqb YFS_OK]. exists (release parent y1).
  split_and!; [exact Hok1|exact Hf1|simpl; by rewrite Ht1, <- app_assoc|].
  unfold str_find. destruct (find_dir name es 0 Hd Hns Hni) as [(pre & i & post & -> & Hpre & ->)|[Hno ->]];
    [left|by right].
  exists pre, i, post. split; [done|]. split; [done|].
  apply Forall_app in Hd as [Hdp Hdi]. apply Forall_cons in Hdi as [[Hi64 _] _].
  pose proof (filename_pos i). assert (0 <= zlen (enc_dir pre)) by (unfold zlen; lia).
  rewrite Z.add_0_l, entry_left_dir by done.
  destruct (Z.gtb_spec (zlen (enc_dir pre) + zlen (filename i)) 0); [|lia].
  destruct (Z.gtb_spec (zlen (enc_dir pre) + zlen (filename i)) (zlen (enc_dir pre))); [|lia].
  cbn [VERIFY mbind res_bind].
  replace (zlen (enc_dir pre) + zlen (filename i) - zlen (enc_dir pre)) with (zlen (filename i)) by lia.
  rewrite entry_inum. cbn [mbind res_bind]. unfold n2i, filename. by rewrite read_print.
Qed.

Lemma create_ok now rnd parent name isf y es :
  let num := rand_inum rnd isf in
  yfs_ok y -> ~ gone y parent -> isdir parent = true -> file y parent = Some (enc_dir es) ->
  dir_ok es -> name_ok name -> not_an_inum name es -> name ∉ es.*2 -> num <> parent ->
  exists y', create now rnd parent name isf y = (YFS_OK, Some (Z.land num 0xffffffff), y') /\
    yfs_ok y' /\ file y' parent = Some (enc_dir (es ++ [(num, name)])) /\ file y' num = Some [] /\
    (forall z, z <> parent -> z <> num -> file y' z = file y z) /\ ~ gone y' parent /\
    y_trace y' = y_trace y ++ [Acquired parent; Accessed parent; Acquired num; Accessed num;
      Accessed parent; Released num; Released parent].
Proof.
  intros num Hok Hg Hdir Hf Hd [Hne Hns] Hni Hno Hnum. unfold create. rewrite Hdir.
  destruct (y_get_some (now 0%nat) parent y _ Hok Hg Hf) as (y1 & -> & Hok1 & Hf1 & Hg1 & Ht1 & _).
  cbn [negb Z.eqb YFS_OK]. unfold str_find.
  destruct (find_dir name es 0 Hd Hns Hni) as [(pre & i & post & -> & _)|[_ ->]].
  { destruct Hno. rewrite fmap_app, fmap_cons. apply elem_of_app. right. left. }
  fold num. destruct (y_put (now 1%nat) num [] (acquire num y1)) as [r2 y2] eqn:E2.
  destruct (y_put_spec _ _ _ (acquire num y1) _ _ Hok1 E2) as ((Hok2 & Hf2 & Hg2) & Hfx & Hgx & -> & Ht2).
  cbn [negb Z.eqb YFS_OK].
  destruct (y_put (now 2%nat) parent _ y2) as [r3 y3] eqn:E3.
  destruct (y_put_spec _ _ _ _ _ _ Hok2 E3) as ((Hok3 & Hf3 & Hg3) & Hfx3 & Hgx3 & -> & Ht3).
  cbn [negb Z.eqb YFS_OK]. eexists. split; [done|]. split_and!; [exact Hok3| | | |exact Hgx3|].
  - change (file (release parent (release num y3)) parent) with (file y3 parent).
    rewrite Hfx3, enc_dir_app, enc_dir_cons. unfold pattern. done.
  - change (file (release parent (release num y3)) num) with (file y3 num).
    by rewrite Hf3, Hfx.
  - intros z Hzp Hzn. change (file (release parent (release num y3)) z) with (file y3 z).
    rewrite Hf3 by done. rewrite Hf2 by done. apply Hf1.
  - simpl. rewrite Ht3, Ht2. simpl. rewrite Ht1, <- !app_assoc. done.
Qed.

(** What [unlink] cuts out and what it keeps. *)
Lemma unlink_pieces pre i name post :
  let b := enc_dir (pre ++ (i, name) :: post) in
  let left := zlen (enc_dir pre) in
  let found := left + zlen (filename i) in
  (if negb (left =? 0) then substr b 0 left else Ok []) = Ok (enc_dir pre) /\
  (if found + zlen (pattern name) <? zlen b
   then substr b (found + zlen (pattern name)) (zlen b - found - zlen (pattern name)) else Ok []) =
  Ok (enc_dir post).
Proof.
  intros b left found.
  assert (Hb : b = enc_dir pre ++ filename i ++ pattern name ++ enc_dir post).
  { unfold b. rewrite enc_dir_app, enc_dir_cons. unfold pattern. simpl. by rewrite <- app_assoc. }
  assert (Hl : zlen b = found + zlen (pattern name) + zlen (enc_dir post)).
  { rewrite Hb. unfold found, left, zlen. rewrite !length_app. lia. }
  assert (0 <= left /\ 0 <= zlen (filename i) /\ 0 <= zlen (pattern name) /\ 0 <= zlen (enc_dir post))
    by (unfold left, zlen; lia).
  split.
  - destruct (Z.eqb_spec left 0) as [E|E]; cbn [negb].
    + unfold left, zlen in E. destruct (enc_dir pre); [done|simpl in E; lia].
    + rewrite substr_ok by (unfold found in *; lia). change (Z.to_nat 0) with 0%nat. rewrite drop_0, Hb.
      unfold left, zlen. by rewrite Nat2Z.id, take_app_length.
  - destruct (Z.ltb_spec (found + zlen (pattern name)) (zlen b)) as [Hlt|Hge].
    + rewrite substr_ok by lia.
      replace (zlen b - found - zlen (pattern name)) with (zlen (enc_dir post)) by lia.
      replace (Z.to_nat (found + zlen (pattern name)))
        with (length (enc_dir pre ++ filename i ++ pattern name))
        by (unfold found, left, zlen; rewrite !length_app; lia).
      rewrite Hb. replace (enc_dir pre ++ filename i ++ pattern name ++ enc_dir post)
        with ((enc_dir pre ++ filename i ++ pattern name) ++ enc_dir post) by (by rewrite <- !app_assoc).
      rewrite drop_app_length. unfold zlen. rewrite Nat2Z.id. by rewrite take_ge.
    + assert (zlen (enc_dir post) = 0) as E by lia. unfold zlen in E.
      destruct (enc_dir post); [done|simpl in E; lia].
Qed.

(** [unlink] up to the removal of the extent. *)
Lemma unlink_remove now parent pre i name post y :
  let es := pre ++ (i, name) :: post in
  yfs_ok y -> ~ gone y parent -> isdir parent = true -> file y parent = Some (enc_dir es) ->
  dir_ok es -> name_ok name -> not_an_inum name es -> name ∉ pre.*2 -> i <> parent ->
  zlen (enc_dir es) < 2 ^ 64 ->
  exists y1 y2 rs, y_remove i (acquire i y1) = (rs, y2) /\
    yfs_ok y1 /\ (forall z, file y1 z = file y z) /\ y_cache y1 !! i = y_cache y !! i /\
    y_trace y1 = y_trace y ++ [Acquired parent; Accessed parent] /\
    unlink now parent (Some name) y =
      if negb (rs =? EXT_OK) then Ok (YFS_NOENT, release parent (release i y2))
      else let '(rs, y) := y_put (now 1%nat) parent (enc_dir (pre ++ post)) y2 in
           if negb (rs =? YFS_OK) then Ok (YFS_NOENT, release parent (release i y))
           else Ok (YFS_OK, release parent (release i y)).
Proof.
  intros es Hok Hg Hdir Hf Hd [Hne Hns] Hni Hpre Hip Hl. unfold unlink. rewrite Hdir.
  destruct (y_get_some (now 0%nat) parent y _ Hok Hg Hf) as (y1 & -> & Hok1 & Hf1 & Hg1 & Ht1 & Hc1).
  cbn [negb Z.eqb YFS_OK]. destruct (y_remove i (acquire i y1)) as [rs y2] eqn:Er.
  exists y1, y2, rs. split_and!; [done..|by apply Hc1|done|].
  assert (Hfind : str_find (enc_dir es) (pattern name) = Some (zlen (enc_dir pre) + zlen (filename i))).
  { unfold str_find. destruct (find_dir name es 0 Hd Hns Hni) as [(pre' & i' & post' & He & Hp' & ->)|[Hno _]].
    - f_equal. rewrite Z.add_0_l. unfold es in He.
      assert (pre = pre' /\ i = i') as [-> ->]; [|done].
      clear - He Hpre Hp'. revert pre' Hp' He. induction pre as [|[j n] pre IH]; intros [|[j' n'] pre'] Hp' He.
      + by injection He as -> _.
      + injection He as -> -> _. simpl in Hp'. by apply not_elem_of_cons in Hp' as [[] _].
      + injection He as -> -> _. simpl in Hpre. by apply not_elem_of_cons in Hpre as [[] _].
      + injection He as -> -> He. simpl in *. apply not_elem_of_cons in Hpre as [_ Hpre].
        apply not_elem_of_cons in Hp' as [_ Hp']. by destruct (IH Hpre pre' Hp' He) as [-> ->].
    - destruct Hno. unfold es. rewrite fmap_app, fmap_cons. apply elem_of_app. right. left. }
  rewrite Hfind. apply Forall_app in Hd as Hdd. destruct Hdd as [Hdp Hdi].
  apply Forall_cons in Hdi as [[Hi64 _] _].
  pose proof (filename_pos i). assert (0 <= zlen (enc_dir pre)) by (unfold zlen; lia).
  unfold es. rewrite entry_left_dir by done.
  destruct (Z.gtb_spec (zlen (enc_dir pre) + zlen (filename i)) (zlen (enc_dir pre))); [|lia].
  cbn [VERIFY mbind res_bind].
  replace (zlen (enc_dir pre) + zlen (filename i) - zlen (enc_dir pre)) with (zlen (filename i)) by lia.
  rewrite entry_inum. cbn [mbind res_bind].
  assert (n2i (filename i) = i) as -> by (by apply read_print). rewrite Er.
  destruct (negb (rs =? EXT_OK)); [done|].
  destruct (unlink_pieces pre i name post) as [-> ->]. cbn [mbind res_bind].
  rewrite <- enc_dir_app. done.
Qed.
End laws.

(** ** Locking *)

(** Locks are taken once, given back in reverse order, and an extent is accessed
    only under its lock; at the end nothing is held. *)
Fixpoint lock_trace_ok (held : list Z) (tr : list event) : Prop :=
  match tr with
  | [] => held = []
  | Acquired x :: tr => x ∉ held /\ lock_trace_ok (x :: held) tr
  | Accessed x :: tr => x ∈ held /\ lock_trace_ok held tr
  | Released x :: tr => head held = Some x /\ lock_trace_ok (tail held) tr
  end.

Definition acquired (tr : list event) : list Z :=
  omap (fun e => match e with Acquired x => Some x | _ => None end) tr.

(** The calls an operation added to the trace follow the discipline, if the
    extents it locks are different ones. *)
Definition disciplined {St} (y y' : yfs St) : Prop :=
  exists tr, y_trace y' = y_trace y ++ tr /\ (NoDup (acquired tr) -> lock_trace_ok [] tr).

Section traces.
Context {St : Type} `{ExtentRpc St}.
Implicit Types (y : yfs St).

Lemma y_get_trace now x buf y : y_trace (y_get now x buf y).2 = y_trace y ++ [Accessed x].
Proof. unfold y_get. by destruct (ec_get _ _ _ _ _) as [[[? ?] ?] ?]. Qed.
Lemma y_getattr_trace x y : y_trace (y_getattr x y).2 = y_trace y ++ [Accessed x].
Proof. unfold y_getattr. by destruct (ec_getattr _ _ _ _) as [[? ?] ?]. Qed.
Lemma y_put_trace now x d y : y_trace (y_put now x d y).2 = y_trace y ++ [Accessed x].
Proof. unfold y_put. by destruct (ec_put _ _ _ _) as [? ?]. Qed.
Lemma y_remove_trace x y : y_trace (y_remove x y).2 = y_trace y ++ [Accessed x].
Proof. unfold y_remove. by destruct (ec_remove _ _) as [? ?]. Qed.

Lemma disciplined_refl y : disciplined y y.
Proof. exists []. by rewrite app_nil_r. Qed.
End traces.

(** Follows the trace of an operation through its calls. *)
Ltac follow_trace :=
  repeat match goal with
  | |- context [y_get ?n ?x ?b ?y] =>
      let H := fresh "Ht" in pose proof (y_get_trace n x b y) as H;
      destruct (y_get n x b y) as [[? ?] ?]; simpl in H
  | |- context [y_getattr ?x ?y] =>
      let H := fresh "Ht" in pose proof (y_getattr_trace x y) as H;
      destruct (y_getattr x y) as [[? ?] ?]; simpl in H
  | |- context [y_put ?n ?x ?d ?y] =>
      let H := fresh "Ht" in pose proof (y_put_trace n x d y) as H;
      destruct (y_put n x d y) as [? ?]; simpl in H
  | |- context [y_remove ?x ?y] =>
      let H := fresh "Ht" in pose proof (y_remove_trace x y) as H;
      destruct (y_remove x y) as [? ?]; simpl in H
  end.

(** Closes a [disciplined] goal once the trace equations are known. *)
Ltac close_trace :=
  unfold disciplined, release, acquire, log; cbn [y_trace];
  repeat match goal with H : y_trace _ = _ |- _ => rewrite H; clear H end;
  rewrite <- ?app_assoc; cbn [app]; eexists; split; [reflexivity|];
  intros Hnd; cbn in Hnd; cbn;
  rewrite ?NoDup_cons, ?not_elem_of_cons in Hnd; set_solver.

Section discipline.
Context {St : Type} `{ExtentRpc St}.
Implicit Types (y : yfs St).

Lemma getfile_disciplined x f y : disciplined y (getfile x f y).2.
Proof.
  unfold getfile. follow_trace. destruct (negb _); simpl; close_trace.
Qed.
Lemma getdir_disciplined x f y : disciplined y (getdir x f y).2.
Proof.
  unfold getdir. follow_trace. destruct (negb _); simpl; close_trace.
Qed.
Lemma getdata_disciplined now x y : disciplined y (getdata now x y).2.
Proof. unfold getdata. follow_trace. simpl. close_trace. Qed.

Lemma read_disciplined now x size off y r d y' :
  read now x size off y = Ok (r, d, y') -> disciplined y y'.
Proof.
  unfold read. follow_trace. intros E. destruct (negb _); [injection E as <- <- <-; close_trace|].
  destruct (_ >? _); [destruct (_ <? 0); [done|]|]; res_inv; close_trace.
Qed.

Lemma write_disciplined now x data off y r y' :
  write now x data off y = Ok (r, y') -> disciplined y y'.
Proof.
  unfold write. destruct (off <? 0); [intros [= <- <-]; apply disciplined_refl|].
  follow_trace. intros E. destruct (negb _); [injection E as <- <-; close_trace|].
  apply res_bind_Ok_inv in E as (b & _ & E). revert E. follow_trace. intros E.
  injection E as <- <-. close_trace.
Qed.

Lemma setattr_disciplined now x n y r y' :
  setattr now x n y = Ok (r, y') -> disciplined y y'.
Proof.
  unfold setattr. follow_trace. intros E. destruct (negb _); [injection E as <- <-; close_trace|].
  apply res_bind_Ok_inv in E as (b & _ & E). revert E. follow_trace. intros E.
  injection E as <- <-. close_trace.
Qed.

Lemma create_disciplined now rnd parent name isf y : disciplined y (create now rnd parent name isf y).2.
Proof.
  unfold create. destruct (isdir parent); [|apply disciplined_refl].
  follow_trace. destruct (negb _); [simpl; close_trace|].
  destruct (str_find _ _); [simpl; close_trace|]. follow_trace.
  destruct (negb _); [simpl; close_trace|]. follow_trace.
  destruct (negb _); simpl; close_trace.
Qed.

Lemma lookup_disciplined now parent name y f i y' :
  lookup now parent name y = Ok (f, i, y') -> disciplined y y'.
Proof.
  unfold lookup. destruct (isdir parent); [|intros [= <- <- <-]; apply disciplined_refl].
  destruct name as [[|b name]|]; try (intros [= <- <- <-]; apply disciplined_refl).
  follow_trace. intros E. destruct (negb _); [injection E as <- <- <-; close_trace|].
  destruct (str_find _ _); res_inv; close_trace.
Qed.

Lemma unlink_disciplined now parent name y r y' :
  unlink now parent name y = Ok (r, y') -> disciplined y y'.
Proof.
  unfold unlink. destruct (isdir parent); [|intros [= <- <-]; apply disciplined_refl].
  follow_trace. intros E. destruct (negb _); [injection E as <- <-; close_trace|].
  destruct name as [name|]; [|done].
  destruct (str_find _ _); [|injection E as <- <-; close_trace].
  apply res_bind_Ok_inv in E as (u & _ & E). apply res_bind_Ok_inv in E as (s & _ & E).
  revert E. follow_trace. intros E. destruct (negb _); [injection E as <- <-; close_trace|].
  apply res_bind_Ok_inv in E as (h & _ & E). apply res_bind_Ok_inv in E as (t & _ & E).
  revert E. follow_trace. intros E. destruct (negb _); injection E as <- <-; close_trace.
Qed.
End discipline.

(** ** Inode numbers *)

Lemma rand_inum_value rnd f :
  rand_inum rnd f = Z.lor (Z.land rnd 0x7fffffff) (if f then 2 ^ 31 else 0) /\
  0 <= rand_inum rnd f < 2 ^ 32.
Proof.
  assert (Hr : 0 <= Z.land rnd 0x7fffffff < 2 ^ 31).
  { change 0x7fffffff with (Z.ones 31). rewrite Z.land_ones by lia. apply Z.mod_pos_bound. lia. }
  assert (Hlor : Z.lor (Z.land rnd 0x7fffffff) (Z.shiftl (if f then 1 else 0) 31) =
    Z.land rnd 0x7fffffff + (if f then 2 ^ 31 else 0)).
  { rewrite Z.lor_comm, (lor_disjoint 31); [|lia|by destruct f|lia].
    destruct f; [change (Z.shiftl 1 31) with (2 ^ 31)|change (Z.shiftl 0 31) with 0]; lia. }
  assert (Hv : rand_inum rnd f = Z.land rnd 0x7fffffff + (if f then 2 ^ 31 else 0)).
  { unfold rand_inum. rewrite Hlor. change 0xffffffff with (Z.ones 32). rewrite Z.land_ones by lia.
    unfold wrapU. rewrite <- Znumtheory.Zmod_div_mod by (try lia; by exists (2 ^ 32)).
    fold (wrapU 32 (wrapS 32 (Z.land rnd 2147483647 + (if f then 2 ^ 31 else 0)))).
    rewrite wrapU_wrapS. apply wrapU_small. unfold is_unsigned. destruct f; lia. }
  split; [|rewrite Hv; destruct f; lia]. rewrite Hv, <- Hlor. by destruct f.
Qed.

(** * Properties *)

(** A fresh inode number is a 32-bit number whose type bit says what was
    asked for: [isfile] and [isdir] recognise it. *)
Theorem rand_inum_typed rnd f :
  isfile (rand_inum rnd f) = f /\ isdir (rand_inum rnd f) = negb f /\
  0 <= rand_inum rnd f < 2 ^ 32 /\ Z.land (rand_inum rnd f) 0xffffffff = rand_inum rnd f.
Proof.
  destruct (rand_inum_value rnd f) as [Hv Hr].
  assert (Hf : isfile (rand_inum rnd f) = f).
  { unfold isfile. rewrite Hv, Z.land_lor_distr_l, <- Z.land_assoc.
    change (Z.land 0x7fffffff 0x80000000) with 0. rewrite Z.land_0_r. by destruct f. }
  split_and!; [done|unfold isdir; by rewrite Hf|lia|lia|].
  change 0xffffffff with (Z.ones 32). rewrite Z.land_ones by lia. apply Z.mod_small. lia.
Qed.

(** [n2i] reads back what [filename] printed, for every inode number. *)
Theorem n2i_filename i : is_unsigned 64 i -> n2i (filename i) = i.
Proof. apply read_print. Qed.

(** Lookup finds the first entry of that name and returns its inode number,
    and answers false when there is none; it changes no file. The directory's
    entries must have slash-free names, and the name must not be spelled like an
    inode number of the directory. *)
Theorem lookup_spec {St} `{ExtentRpcLaws St} now parent name (y : yfs St) es :
  yfs_ok y -> ~ gone y parent -> isdir parent = true -> file y parent = Some (enc_dir es) ->
  dir_ok es -> name_ok name -> not_an_inum name es -> zlen (enc_dir es) < 2 ^ 64 ->
  exists y', (forall z, file y' z = file y z) /\
    ((exists pre i post, es = pre ++ (i, name) :: post /\ name ∉ pre.*2 /\
        lookup now parent (Some name) y = Ok (true, Some i, y')) \/
     (name ∉ es.*2 /\ lookup now parent (Some name) y = Ok (false, None, y'))).
Proof.
  intros Hok Hg Hdir Hf Hd Hn Hni Hl.
  destruct (lookup_ok now parent name y es Hok Hg Hdir Hf Hd Hn Hni Hl) as (y' & _ & H1 & _ & H2).
  by exists y'.
Qed.


(** Unlinking a name whose extent is in the client's cache removes exactly
    that entry from the directory and the extent of that inode, and nothing
    else. *)
Theorem unlink_spec {St} `{ExtentRpcLaws St} now parent pre i name post (y : yfs St) :
  let es := pre ++ (i, name) :: post in
  yfs_ok y -> ~ gone y parent -> isdir parent = true -> file y parent = Some (enc_dir es) ->
  dir_ok es -> name_ok name -> not_an_inum name es -> name ∉ pre.*2 -> i <> parent ->
  zlen (enc_dir es) < 2 ^ 64 -> is_Some (y_cache y !! i) ->
  exists y', unlink now parent (Some name) y = Ok (YFS_OK, y') /\
    file y' parent = Some (enc_dir (pre ++ post)) /\ file y' i = None /\
    (forall z, z <> parent -> z <> i -> file y' z = file y z).
Proof.
  intros es Hok Hg Hdir Hf Hd Hn Hni Hp Hip Hl [e He].
  destruct (unlink_remove now parent pre i name post y Hok Hg Hdir Hf Hd Hn Hni Hp Hip Hl)
    as (y1 & y2 & rs & Er & Hok1 & Hf1 & Hc1 & _ & ->).
  destruct (y_remove_spec i (acquire i y1) rs y2 Hok1 Er) as ((Hok2 & Hf2 & Hg2) & _ & Hrm).
  simpl in Hrm. rewrite Hc1, He in Hrm. destruct Hrm as [-> Hfi]. cbn [negb Z.eqb EXT_OK].
  destruct (y_put (now 1%nat) parent _ y2) as [r3 y3] eqn:E3.
  destruct (y_put_spec _ _ _ _ _ _ Hok2 E3) as ((Hok3 & Hf3 & Hg3) & Hfx3 & Hgx3 & -> & _).
  cbn [negb Z.eqb YFS_OK]. eexists. split; [done|]. split; [exact Hfx3|]. split.
  - change (file y3 i = None). by rewrite Hf3.
  - intros z Hzp Hzi. change (file y3 z = file y z). rewrite Hf3, Hf2 by done. apply Hf1.
Qed.

(** A file whose extent this client has not used yet cannot be unlinked: the
    operation answers NOENT and leaves the directory and the file in place. *)
Theorem unlink_uncached_fails {St} `{ExtentRpcLaws St} now parent pre i name post (y : yfs St) :
  let es := pre ++ (i, name) :: post in
  yfs_ok y -> ~ gone y parent -> isdir parent = true -> file y parent = Some (enc_dir es) ->
  dir_ok es -> name_ok name -> not_an_inum name es -> name ∉ pre.*2 -> i <> parent ->
  zlen (enc_dir es) < 2 ^ 64 -> y_cache y !! i = None ->
  exists y', unlink now parent (Some name) y = Ok (YFS_NOENT, y') /\ forall z, file y' z = file y z.
Proof.
  intros es Hok Hg Hdir Hf Hd Hn Hni Hp Hip Hl He.
  destruct (unlink_remove now parent pre i name post y Hok Hg Hdir Hf Hd Hn Hni Hp Hip Hl)
    as (y1 & y2 & rs & Er & Hok1 & Hf1 & Hc1 & _ & ->).
  destruct (y_remove_spec i (acquire i y1) rs y2 Hok1 Er) as ((Hok2 & Hf2 & Hg2) & _ & Hrm).
  simpl in Hrm. rewrite Hc1, He in Hrm. destruct Hrm as [-> Hfi]. cbn [negb Z.eqb EXT_NOENT].
  eexists. split; [done|]. intros z. change (file y2 z = file y z). rewrite <- Hf1.
  destruct (decide (z = i)) as [->|Hz]; [exact Hfi|by apply Hf2].
Qed.

(** C10. Write then read. A write within 32-bit offsets, also one past the end of
    the file, succeeds, changes only that file, keeps the bytes before and after
    the written range (zeros fill a gap), and reading the range back returns the
    bytes written. *)
Theorem write_then_read {St} `{ExtentRpcLaws St} now now' ino data off (y : yfs St) ori :
  yfs_ok y -> ~ gone y ino -> file y ino = Some ori ->
  0 <= off < 2 ^ 32 -> zlen ori < 2 ^ 60 -> zlen data <= INT_MAX ->
  exists y1 y2, write now ino data off y = Ok (YFS_OK, y1) /\
    file y1 ino = Some (written ori data (Z.to_nat off)) /\
    (forall z, z <> ino -> file y1 z = file y z) /\
    read now' ino (zlen data) off y1 = Ok (YFS_OK, data, y2).
Proof.
  intros Hok Hg Hf Hoff Hl Hd. unfold INT_MAX in Hd.
  destruct (write_ok now ino data off y ori Hok Hg Hf ltac:(lia) ltac:(lia) ltac:(lia))
    as (y1 & E1 & (Hok1 & Hf1 & _) & Hfx & Hgx & _).
  rewrite wrapU_small in Hfx by (unfold is_unsigned; lia).
  assert (Hlen : zlen (written ori data (Z.to_nat off)) <= zlen ori + off + zlen data /\
    off <= zlen (written ori data (Z.to_nat off)) /\ 0 <= zlen data).
  { unfold written, zlen. rewrite !length_app, length_take, length_replicate, length_drop. lia. }
  destruct (read_ok now' ino (zlen data) off y1 _ Hok1 Hgx Hfx) as (y2 & E2 & _);
    [lia|lia|unfold INT_MAX; lia|lia|].
  exists y1, y2. split_and!; try done. rewrite E2. do 3 f_equal.
  unfold zlen. rewrite Nat2Z.id. apply read_written.
Qed.

(** Offsets are cut to 32 bits: a write at or beyond 4 GiB succeeds and
    overwrites the beginning of the file. *)
Theorem write_offset_truncated {St} `{ExtentRpcLaws St} now ino data off (y : yfs St) ori :
  yfs_ok y -> ~ gone y ino -> file y ino = Some ori ->
  2 ^ 32 <= off < 2 ^ 63 -> zlen ori < 2 ^ 60 -> zlen data <= INT_MAX ->
  exists y', write now ino data off y = Ok (YFS_OK, y') /\
    file y' ino = Some (written ori data (Z.to_nat (off mod 2 ^ 32))).
Proof.
  intros Hok Hg Hf Hoff Hl Hd. unfold INT_MAX in Hd.
  destruct (write_ok now ino data off y ori Hok Hg Hf ltac:(lia) ltac:(lia) ltac:(lia))
    as (y1 & E1 & _ & Hfx & _). by exists y1.
Qed.

(** Reading. From an offset inside the file, [read] returns exactly the
    number of bytes asked for, the file's bytes followed by zeros past its end;
    from an offset behind the end it throws [std::out_of_range]. *)
Theorem read_past_end {St} `{ExtentRpcLaws St} now ino size off (y : yfs St) buf :
  yfs_ok y -> ~ gone y ino -> file y ino = Some buf ->
  0 <= off -> 0 <= size -> off + size <= zlen buf + INT_MAX -> zlen buf < 2 ^ 60 ->
  (off <= zlen buf -> exists y', read now ino size off y =
     Ok (YFS_OK, read_at buf (Z.to_nat off) (Z.to_nat size), y') /\
     length (read_at buf (Z.to_nat off) (Z.to_nat size)) = Z.to_nat size) /\
  (zlen buf < off -> read now ino size off y = Err Out_of_range).
Proof.
  intros Hok Hg Hf Hoff Hs Hsum Hl. split.
  - intros Hle. destruct (read_ok now ino size off y buf Hok Hg Hf) as (y' & E & _); [lia..|].
    exists y'. split; [done|]. unfold read_at. rewrite length_app, length_take, length_drop,
      length_replicate. lia.
  - intros Hgt. unfold INT_MAX in Hsum. unfold read.
    destruct (y_get_some now ino y buf Hok Hg Hf) as (y1 & -> & _). cbn [negb Z.eqb YFS_OK].
    assert (0 <= zlen buf) by (unfold zlen; lia).
    rewrite !(wrapU_small 64 (off + size)) by (unfold is_unsigned; lia).
    rewrite (wrapU_small 64 off) by (unfold is_unsigned; lia).
    destruct (Z.gtb_spec (off + size) (zlen buf)); [|lia].
    rewrite (wrapU_small 64 (off + size - zlen buf)) by (unfold is_unsigned; lia).
    rewrite wrapS_small by (unfold is_signed; lia).
    destruct (Z.ltb_spec (off + size - zlen buf) 0); [lia|].
    rewrite (proj2 (Z.leb_le _ _)) by lia. cbn [defined_if mbind res_bind].
    unfold substr. rewrite (proj2 (Z.leb_gt off (zlen buf))) by lia. done.
Qed.

(** [setattr] makes the file exactly as long as asked, cutting it or filling
    it with zeros, and changes no other file. *)
Theorem setattr_resizes {St} `{ExtentRpcLaws St} now ino n (y : yfs St) buf :
  yfs_ok y -> ~ gone y ino -> file y ino = Some buf -> 0 <= n <= INT_MAX -> zlen buf < 2 ^ 32 ->
  exists y' new, setattr now ino n y = Ok (YFS_OK, y') /\ file y' ino = Some new /\
    zlen new = n /\ take (Z.to_nat n) buf `prefix_of` new /\
    (forall k b, new !! k = Some b -> (length buf <= k)%nat -> b = Byte.x00) /\
    (forall z, z <> ino -> file y' z = file y z).
Proof.
  intros Hok Hg Hf Hn Hl.
  destruct (setattr_ok now ino n y buf Hok Hg Hf Hn Hl) as (y' & E & (_ & Ho & _) & Hx & _).
  exists y'. eexists. split_and!; [done|done| |by apply prefix_app_r| |done].
  - unfold zlen. rewrite length_app, length_take, length_replicate. lia.
  - intros k b Hk Hlen. rewrite lookup_app_r in Hk by (rewrite length_take; lia).
    by apply lookup_replicate in Hk as [-> _].
Qed.

(** C20. Lock discipline. On every path of every operation, error paths
    included, each extent is accessed only under its lock, locks are given back
    in reverse order and none stays held; the only further condition is that the
    two inodes [create] and [unlink] lock are different. *)
Theorem yfs_lock_discipline {St} `{ExtentRpc St} (y : yfs St) :
  (forall x f, disciplined y (getfile x f y).2) /\
  (forall x f, disciplined y (getdir x f y).2) /\
  (forall now x, disciplined y (getdata now x y).2) /\
  (forall now rnd parent name isf, disciplined y (create now rnd parent name isf y).2) /\
  (forall now parent name f i y', lookup now parent name y = Ok (f, i, y') -> disciplined y y') /\
  (forall now parent name r y', unlink now parent name y = Ok (r, y') -> disciplined y y') /\
  (forall now x size off r d y', read now x size off y = Ok (r, d, y') -> disciplined y y') /\
  (forall now x data off r y', write now x data off y = Ok (r, y') -> disciplined y y') /\
  (forall now x n r y', setattr now x n y = Ok (r, y') -> disciplined y y').
Proof.
  split_and!.
  - intros. apply getfile_disciplined.
  - intros. apply getdir_disciplined.
  - intros. apply getdata_disciplined.
  - intros. apply create_disciplined.
  - intros *. apply lookup_disciplined.
  - intros *. apply unlink_disciplined.
  - intros *. apply read_disciplined.
  - intros *. apply write_disciplined.
  - intros *. apply setattr_disciplined.
Qed.

(** ** Witnesses *)

Module YfsExamples.
Definition str (l : list Z) : list byte := byte_of_Z <$> l.
Definition name_a : list byte := str [97].
Definition name_b : list byte := str [98].
Definition name_c : list byte := str [99].
Definition ino_a : Z := 0x80000005.
Definition ino_b : Z := 0x80000006.
Definition two_entries : list (Z * list byte) := [(ino_a, name_a); (ino_b, name_b)].
Definition hello : list byte := str [104; 101; 108; 108; 111].
Definition store : extent_server :=
  (extent_put (extent_put (new_extent_server 100) 100 1 (enc_dir two_entries)).2 100 ino_a hello).2.
Definition clock : nat -> Z := fun _ => 200.
Definition fs : yfs extent_server := Yfs ∅ store [].
(** The same after the attributes of file a were asked for. *)
Definition fs_a : yfs extent_server := (y_getattr ino_a fs).2.

Lemma fs_ok : yfs_ok fs.
Proof.
  split.
  - apply (extent_put_spec _ 100 ino_a hello), (extent_put_spec _ 100 1), new_extent_server_ok.
  - intros x e He. simpl in He. rewrite lookup_empty in He. discriminate He.
Qed.
Lemma fs_not_gone x : ~ gone fs x.
Proof. intros (e & He & _). simpl in He. rewrite lookup_empty in He. discriminate He. Qed.
Lemma fs_a_ok : yfs_ok fs_a.
Proof.
  unfold fs_a. destruct (y_getattr ino_a fs) as [[r a] y'] eqn:E.
  by destruct (y_getattr_spec ino_a fs r a y' fs_ok (fs_not_gone _) E).
Qed.
Lemma fs_a_not_gone : ~ gone fs_a 1.
Proof.
  intros (e & He & _). assert (E : y_cache fs_a !! 1 = None) by (vm_compute; reflexivity).
  congruence.
Qed.
Lemma two_entries_ok : dir_ok two_entries.
Proof.
  repeat constructor; try (vm_compute; done).
  - apply not_elem_of_cons. split; [vm_compute; done|apply not_elem_of_nil].
  - apply not_elem_of_cons. split; [vm_compute; done|apply not_elem_of_nil].
Qed.
Lemma name_ok_1 b : b <> slash -> name_ok [b].
Proof. intros Hb. split; [done|]. apply not_elem_of_cons. split; [done|apply not_elem_of_nil]. Qed.
End YfsExamples.
Import YfsExamples.

Lemma n2i_filename_witness : n2i (filename 18446744073709551615) = 18446744073709551615.
Proof. apply (n2i_filename 18446744073709551615). split; vm_compute; done. Defined.

Lemma lookup_spec_witness :
  exists y', (forall z, file y' z = file fs z) /\
    ((exists pre i post, two_entries = pre ++ (i, name_b) :: post /\ name_b ∉ pre.*2 /\
        lookup 300 1 (Some name_b) fs = Ok (true, Some i, y')) \/
     (name_b ∉ two_entries.*2 /\ lookup 300 1 (Some name_b) fs = Ok (false, None, y'))).
Proof.
  apply (lookup_spec 300 1 name_b fs two_entries fs_ok (fs_not_gone 1)).
  - vm_compute. reflexivity.
  - vm_compute. reflexivity.
  - apply two_entries_ok.
  - apply name_ok_1. vm_compute. done.
  - repeat constructor; vm_compute; done.
  - vm_compute. done.
Defined.


Lemma unlink_spec_witness :
  exists y', unlink clock 1 (Some name_a) fs_a = Ok (YFS_OK, y') /\
    file y' 1 = Some (enc_dir [(ino_b, name_b)]) /\ file y' ino_a = None.
Proof.
  destruct (unlink_spec clock 1 [] ino_a name_a [(ino_b, name_b)] fs_a fs_a_ok fs_a_not_gone)
    as (y' & E & H1 & H2 & _).
  - vm_compute. reflexivity.
  - vm_compute. reflexivity.
  - apply two_entries_ok.
  - apply name_ok_1. vm_compute. done.
  - repeat constructor; vm_compute; done.
  - apply not_elem_of_nil.
  - vm_compute. done.
  - vm_compute. done.
  - vm_compute. by eexists.
  - exists y'. split; [exact E|]. split; [exact H1|exact H2].
Defined.

Lemma unlink_uncached_fails_witness :
  exists y', unlink clock 1 (Some name_a) fs = Ok (YFS_NOENT, y') /\ forall z, file y' z = file fs z.
Proof.
  apply (unlink_uncached_fails clock 1 [] ino_a name_a [(ino_b, name_b)] fs fs_ok (fs_not_gone 1)).
  - vm_compute. reflexivity.
  - vm_compute. reflexivity.
  - apply two_entries_ok.
  - apply name_ok_1. vm_compute. done.
  - repeat constructor; vm_compute; done.
  - apply not_elem_of_nil.
  - vm_compute. done.
  - vm_compute. done.
  - vm_compute. reflexivity.
Defined.

Lemma write_then_read_witness :
  exists y1 y2, write clock ino_a name_b 7 fs = Ok (YFS_OK, y1) /\
    read 300 ino_a 1 7 y1 = Ok (YFS_OK, name_b, y2).
Proof.
  destruct (write_then_read clock 300 ino_a name_b 7 fs hello fs_ok (fs_not_gone _))
    as (y1 & y2 & E1 & _ & _ & E2).
  - vm_compute. reflexivity.
  - lia.
  - vm_compute. done.
  - vm_compute. done.
  - exists y1, y2. split; [exact E1|exact E2].
Defined.

Lemma write_offset_truncated_witness :
  exists y', write clock ino_a name_b (2 ^ 32) fs = Ok (YFS_OK, y') /\
    file y' ino_a = Some (written hello name_b 0).
Proof.
  apply (write_offset_truncated clock ino_a name_b (2 ^ 32) fs hello fs_ok (fs_not_gone _)).
  - vm_compute. reflexivity.
  - lia.
  - vm_compute. done.
  - vm_compute. done.
Defined.

Lemma read_past_end_witness :
  (exists y', read 300 ino_a 4 3 fs = Ok (YFS_OK, read_at hello 3 4, y') /\
     length (read_at hello 3 4) = 4%nat) /\
  read 300 ino_a 1 6 fs = Err Out_of_range.
Proof.
  split.
  - apply (read_past_end 300 ino_a 4 3 fs hello fs_ok (fs_not_gone _)); vm_compute; done.
  - apply (read_past_end 300 ino_a 1 6 fs hello fs_ok (fs_not_gone _)); vm_compute; done.
Defined.

Lemma setattr_resizes_witness :
  exists y' new, setattr clock ino_a 2 fs = Ok (YFS_OK, y') /\ file y' ino_a = Some new /\ zlen new = 2.
Proof.
  destruct (setattr_resizes clock ino_a 2 fs hello fs_ok (fs_not_gone _))
    as (y' & new & E & H1 & H2 & _).
  - vm_compute. reflexivity.
  - vm_compute. done.
  - vm_compute. done.
  - exists y', new. split; [exact E|]. split; [exact H1|exact H2].
Defined.

(** A name spelled like the inode number of an entry is found in the
    directory although no file has it, with an inode number read from another
    entry's name; and an empty name is found in every directory, without an
    inode number. *)
Theorem lookup_confuses_inums :
  ~ (filename ino_b ∈ two_entries.*2) /\
  (exists y', lookup 300 1 (Some (filename ino_b)) fs = Ok (true, Some 0, y')) /\
  lookup 300 1 (Some []) fs = Ok (true, None, fs).
Proof.
  split_and!.
  - intros Hin. apply elem_of_cons in Hin as [E|Hin]; [vm_compute in E; done|].
    apply list_elem_of_singleton in Hin. vm_compute in Hin. done.
  - eexists. vm_compute. reflexivity.
  - reflexivity.
Qed.

Lemma yfs_lock_discipline_witness :
  exists y', read 300 ino_a 4 3 fs = Ok (YFS_OK, read_at hello 3 4, y') /\ disciplined fs y'.
Proof.
  set (r := read 300 ino_a 4 3 fs).
  set (y' := match r with Ok (_, _, y') => y' | Err _ => fs end).
  assert (E : read 300 ino_a 4 3 fs = Ok (YFS_OK, read_at hello 3 4, y')) by (vm_compute; reflexivity).
  exists y'. split; [exact E|].
  destruct (yfs_lock_discipline fs) as (_ & _ & _ & _ & _ & _ & Hr & _). exact (Hr _ _ _ _ _ _ _ E).
Defined.
