(* ===== verification/Fuse.v ===== *)
(** * The FUSE front end

    src/fuse.cc: each request of the kernel is turned into calls of the
    [yfs_client] and answered. The result of a handler is the list of replies it
    sends, which should have exactly one element. How libfuse lays out a
    directory entry is a parameter. *)
From S2P Require Import Prelude ExtentServer ExtentClient CxxString YfsClient.

Definition ENOENT : Z := 2.
Definition EEXIST : Z := 17.
Definition ENOTDIR : Z := 20.
Definition ENOSYS : Z := 38.
Definition FUSE_SET_ATTR_SIZE : Z := 8.

Record stat := Stat {
  st_ino : Z; st_mode : Z; st_nlink : Z;
  st_atime : Z; st_mtime : Z; st_ctime : Z; st_size : Z
}.

(** [struct fuse_entry_param]; the timeouts and the generation are always 0. *)
Record entry_param := Entry { en_ino : Z; en_attr : stat }.

Inductive reply :=
  | Reply_err (errno : Z)
  | Reply_attr (st : stat)
  | Reply_entry (e : entry_param)
  | Reply_create (e : entry_param)
  | Reply_buf (b : list byte)
  | Reply_write (n : Z)
  | Reply_open
  | Reply_statfs (namemax bsize : Z).

Section fuse.
Context {St : Type} `{ExtentRpc St}.

(** ** Attributes *)

(** The modes are [S_IFREG | 0666] and [S_IFDIR | 0777]. *)
Definition fuse_getattr (inum : Z) (y : yfs St) : Z * stat * yfs St :=
  let st0 := Stat inum 0 0 0 0 0 0 in
  if isfile inum then
    let '(ret, info, y) := getfile inum (Fileinfo 0 0 0 0) y in
    if negb (ret =? YFS_OK) then (ret, st0, y)
    else (YFS_OK, Stat inum (Z.lor 0x8000 0x1b6) 1 (fi_atime info) (fi_mtime info)
                    (fi_ctime info) (fi_size info), y)
  else
    let '(ret, info, y) := getdir inum (Dirinfo 0 0 0) y in
    if negb (ret =? YFS_OK) then (ret, st0, y)
    else (YFS_OK, Stat inum (Z.lor 0x4000 0x1ff) 2 (di_atime info) (di_mtime info)
                    (di_ctime info) 0, y).

Definition fuseserver_getattr (ino : Z) (y : yfs St) : list reply * yfs St :=
  let '(ret, st, y) := fuse_getattr ino y in
  if negb (ret =? YFS_OK) then ([Reply_err ENOENT], y) else ([Reply_attr st], y).

(** [size] is [attr->st_size]. *)
Definition fuseserver_setattr (now : nat -> Z) (ino size to_set : Z) (y : yfs St)
    : res (list reply * yfs St) :=
  if negb (Z.land FUSE_SET_ATTR_SIZE to_set =? 0) then
    '(rs, y) ← setattr now ino size y;
    let '(_, st, y) := fuse_getattr ino y in
    Ok (if rs =? YFS_OK then [Reply_attr st] else [Reply_err ENOSYS], y)
  else Ok ([Reply_err ENOSYS], y).

(** ** Files *)

Definition fuseserver_read (now ino size off : Z) (y : yfs St) : res (list reply * yfs St) :=
  '(rs, buf, y) ← read now ino size off y;
  Ok (if rs =? YFS_OK then [Reply_buf buf] else [Reply_err ENOSYS], y).

Definition fuseserver_write (now : nat -> Z) (ino : Z) (buf : list byte) (off : Z) (y : yfs St)
    : res (list reply * yfs St) :=
  '(rs, y) ← write now ino buf off y;
  Ok (if rs =? YFS_OK then [Reply_write (zlen buf)] else [Reply_err ENOSYS], y).

Definition fuseserver_createhelper (now : nat -> Z) (rnd parent : Z) (name : list byte)
    (e : entry_param) (y : yfs St) : Z * entry_param * yfs St :=
  let '(rs, ino, y) := create now rnd parent name true y in
  let e := Entry (default (en_ino e) ino) (en_attr e) in
  if negb (rs =? YFS_OK) then (rs, e, y)
  else let '(rs, st, y) := fuse_getattr (en_ino e) y in (rs, Entry (en_ino e) st, y).

Definition create_error (ret : Z) : reply :=
  if ret =? YFS_EXIST then Reply_err EEXIST else Reply_err ENOENT.

Definition fuseserver_create (now : nat -> Z) (rnd parent : Z) (name : list byte)
    (e : entry_param) (y : yfs St) : list reply * yfs St :=
  let '(ret, e, y) := fuseserver_createhelper now rnd parent name e y in
  (if ret =? YFS_OK then [Reply_create e] else [create_error ret], y).

Definition fuseserver_mknod (now : nat -> Z) (rnd parent : Z) (name : list byte)
    (e : entry_param) (y : yfs St) : list reply * yfs St :=
  let '(ret, e, y) := fuseserver_createhelper now rnd parent name e y in
  (if ret =? YFS_OK then [Reply_entry e] else [create_error ret], y).

(** [e] is the uninitialised local variable. *)
Definition fuseserver_lookup (now parent : Z) (name : option (list byte)) (e : entry_param)
    (y : yfs St) : res (list reply * yfs St) :=
  '(found, ino, y) ← lookup now parent name y;
  if found : bool then
    let ino := default (en_ino e) ino in
    let '(_, st, y) := fuse_getattr ino y in Ok ([Reply_entry (Entry ino st)], y)
  else Ok ([Reply_err ENOENT], y).

Definition fuseserver_open : list reply := [Reply_open].

Definition fuseserver_mkdir (now : nat -> Z) (rnd parent : Z) (name : list byte)
    (e : entry_param) (y : yfs St) : list reply * yfs St :=
  let '(rs, ino, y) := create now rnd parent name false y in
  if rs =? YFS_OK then
    let ino := default (en_ino e) ino in
    let '(_, st, y) := fuse_getattr ino y in ([Reply_entry (Entry ino st)], y)
  else ([Reply_err ENOSYS], y).

Definition fuseserver_unlink (now : nat -> Z) (parent : Z) (name : option (list byte)) (y : yfs St)
    : res (list reply * yfs St) :=
  '(rs, y) ← unlink now parent name y;
  Ok (if rs =? YFS_OK then [Reply_err 0] else [Reply_err ENOSYS], y).

Definition fuseserver_statfs : list reply := [Reply_statfs 255 512].
End fuse.

(** ** Listing a directory *)

(** The loop of [fuseserver_readdir]: the entries it adds, [None] when the fuel
    runs out. *)
Fixpoint parse_dir (fuel : nat) (buf : list byte) (left : Z) : option (res (list (Z * list byte))) :=
  match fuel with
  | O => None
  | S fuel =>
      match find_first_of buf slash left with
      | None => Some (Ok [])
      | Some mid =>
          match find_first_of buf slash (mid + 1) with
          | None => Some (Ok [])
          | Some last =>
              match substr buf left (mid - left), substr buf (mid + 1) (last - mid - 1) with
              | Ok s, Ok name =>
                  (fun r => '(es : list (Z * list byte)) ← r; Ok ((n2i s, name) :: es))
                    <$> parse_dir fuel buf (last + 1)
              | Err f, _ | _, Err f => Some (Err f)
              end
          end
      end
  end.

(** Every round consumes at least two slashes. *)
Definition dir_fuel (buf : list byte) : nat := S (length buf).

(** [reply_buf_limited]; the comparison is between [size_t]s. *)
Definition reply_buf_limited (buf : list byte) (off maxsize : Z) : reply :=
  if u64 off <? zlen buf
  then Reply_buf (take (Z.to_nat (Z.min (zlen buf - u64 off) maxsize)) (drop (Z.to_nat (u64 off)) buf))
  else Reply_buf [].

(** What libfuse promises of the two functions [dirbuf_add] calls: the record of
    an entry fills exactly the size announced for a name of that length. *)
Class FuseDirent := {
  fuse_dirent_size : Z -> Z;
  fuse_add_dirent : list byte -> Z -> Z -> list byte;     (* name, inode number, next offset *)
  fuse_add_dirent_size name ino off : zlen (fuse_add_dirent name ino off) = fuse_dirent_size (zlen name)
}.

(** [name.c_str()] read as a C string: up to the first null byte. *)
Fixpoint c_str (s : list byte) : list byte :=
  match s with
  | [] => []
  | b :: s => if decide (b = Byte.x00) then [] else b :: c_str s
  end.

Section readdir.
Context {St : Type} `{ExtentRpc St} `{FuseDirent}.

(** [dirbuf_add]: the block grows by the size of the record, which is written
    behind what was there; the offset it carries is the new size. *)
Definition dirbuf_add (b : list byte) (name : list byte) (ino : Z) : list byte :=
  let size := zlen b + fuse_dirent_size (zlen name) in
  b ++ fuse_add_dirent name ino size.

Fixpoint dirbuf_add_all (b : list byte) (es : list (Z * list byte)) : list byte :=
  match es with
  | [] => b
  | (ino, name) :: es => dirbuf_add_all (dirbuf_add b (c_str name) ino) es
  end.

Definition fuseserver_readdir (now ino size off : Z) (y : yfs St)
    : option (res (list reply * yfs St)) :=
  if negb (isdir ino) then Some (Ok ([Reply_err ENOTDIR], y))
  else
    let '(rs, buf, y) := getdata now ino y in
    if negb (rs =? EXT_OK) then
      Some (Ok ([Reply_err ENOTDIR; reply_buf_limited [] off size], y))
    else
      (fun r => es ← r; Ok ([reply_buf_limited (dirbuf_add_all [] es) off size], y))
        <$> parse_dir (dir_fuel buf) buf 0.

(** The records of the entries [es] in a buffer whose part before them has the
    size [pos]: each carries the offset of its end. *)
Fixpoint dirents (pos : Z) (es : list (Z * list byte)) : list byte :=
  match es with
  | [] => []
  | (ino, name) :: es =>
      let next := pos + fuse_dirent_size (zlen name) in
      fuse_add_dirent name ino next ++ dirents next es
  end.
End readdir.

(** ** Lemmas *)

Lemma find_from_bounds t s : forall pos k,
  t <> [] -> find_from t s pos = Some k -> pos <= k < pos + zlen s.
Proof.
  induction s as [|b s IH]; intros pos k Ht E; cbn [find_from] in E.
  - case_decide as Hp; [|done]. destruct t; [done|]. by apply prefix_nil_not in Hp.
  - unfold zlen in *. cbn [length]. case_decide; [injection E as <-; lia|].
    apply IH in E; [lia|done].
Qed.

Lemma find_first_of_bounds s c pos k :
  0 <= pos -> find_first_of s c pos = Some k -> pos <= k < zlen s.
Proof.
  intros Hpos E. unfold find_first_of in E. destruct (Z.leb_spec pos (zlen s)); [|done].
  apply find_from_bounds in E; [|done]. unfold zlen in *. rewrite length_drop in E. lia.
Qed.

(** The loop ends on every string. *)
Lemma parse_dir_ends buf fuel : forall left,
  0 <= left -> (0 < fuel)%nat -> zlen buf - left < Z.of_nat fuel ->
  exists es, parse_dir fuel buf left = Some (Ok es).
Proof.
  induction fuel as [|fuel IH]; intros left Hl Hf Hm; [lia|]. cbn [parse_dir].
  destruct (find_first_of buf slash left) as [mid|] eqn:E1; [|by eexists].
  apply find_first_of_bounds in E1; [|done].
  destruct (find_first_of buf slash (mid + 1)) as [last|] eqn:E2; [|by eexists].
  apply find_first_of_bounds in E2; [|lia].
  rewrite !substr_ok by lia.
  destruct (IH (last + 1)) as [es ->]; [lia|lia|lia|]. by eexists.
Qed.

Lemma find_first_token pre w s :
  slash ∉ w -> find_first_of (pre ++ w ++ slash :: s) slash (zlen pre) = Some (zlen pre + zlen w).
Proof.
  intros Hw. unfold find_first_of. rewrite (proj2 (Z.leb_le _ _)) by (unfold zlen; rewrite length_app; lia).
  unfold zlen at 1. rewrite Nat2Z.id, drop_app_length, find_skip_token by done. cbn [find_from].
  rewrite decide_True; [done|]. by exists s.
Qed.

Lemma find_first_end pre : find_first_of pre slash (zlen pre) = None.
Proof.
  unfold find_first_of. rewrite (proj2 (Z.leb_le _ _)) by lia. unfold zlen at 1.
  rewrite Nat2Z.id, drop_ge by lia. cbn [find_from]. rewrite decide_False; [done|]. apply prefix_nil_not.
Qed.

Lemma substr_token pre w s :
  substr (pre ++ w ++ s) (zlen pre) (zlen w) = Ok w.
Proof.
  rewrite substr_ok by (unfold zlen; rewrite ?length_app; lia).
  unfold zlen. by rewrite !Nat2Z.id, drop_app_length, take_app_length.
Qed.

Lemma parse_dir_entries es : forall pre fuel,
  dir_ok es -> (length es < fuel)%nat ->
  parse_dir fuel (pre ++ enc_dir es) (zlen pre) = Some (Ok es).
Proof.
  induction es as [|[i n] es IH]; intros pre fuel Hd Hf; destruct fuel as [|fuel]; try (simpl in Hf; lia).
  { change (enc_dir []) with (@nil byte). rewrite app_nil_r. cbn [parse_dir]. by rewrite find_first_end. }
  apply Forall_cons in Hd as [[Hi [_ Hn]] Hd]. cbn [parse_dir fst snd] in *.
  rewrite enc_dir_cons. cbn [fst snd]. rewrite find_first_token by apply filename_slash.
  set (f := filename i). set (rest := slash :: enc_dir es).
  assert (E1 : pre ++ f ++ slash :: n ++ rest = (pre ++ f ++ [slash]) ++ n ++ rest)
    by (rewrite <- !app_assoc; done).
  assert (E2 : pre ++ f ++ slash :: n ++ rest = ((pre ++ f ++ [slash]) ++ n ++ [slash]) ++ enc_dir es).
  { rewrite E1. unfold rest. rewrite <- !app_assoc. done. }
  assert (L1 : zlen pre + zlen f + 1 = zlen (pre ++ f ++ [slash]))
    by (unfold zlen; rewrite !length_app; simpl; lia).
  rewrite L1. rewrite E1 at 1. unfold rest at 1. rewrite find_first_token by done.
  replace (zlen pre + zlen f - zlen pre) with (zlen f) by lia.
  rewrite substr_token. rewrite E1.
  replace (zlen (pre ++ f ++ [slash]) + zlen n - (zlen pre + zlen f) - 1) with (zlen n) by lia.
  rewrite substr_token. rewrite <- E1, E2.
  replace (zlen (pre ++ f ++ [slash]) + zlen n + 1)
    with (zlen ((pre ++ f ++ [slash]) ++ n ++ [slash]))
    by (unfold zlen; rewrite !length_app; simpl; lia).
  rewrite IH by (try done; simpl in Hf; lia). cbn [fmap option_fmap option_map mbind res_bind].
  unfold f, n2i, filename. by rewrite read_print.
Qed.

Lemma enc_dir_length es : (length es <= length (enc_dir es))%nat.
Proof.
  induction es as [|e es IH]; [done|]. rewrite enc_dir_cons, length_app. cbn [length].
  rewrite length_app. cbn [length]. lia.
Qed.

Lemma c_str_id s : Byte.x00 ∉ s -> c_str s = s.
Proof.
  induction s as [|b s IH]; intros Hs; [done|]. cbn [c_str].
  rewrite decide_False by set_solver. rewrite IH by set_solver. done.
Qed.

Lemma dirbuf_add_all_dirents `{FuseDirent} es : forall b,
  Forall (fun e => Byte.x00 ∉ e.2) es -> dirbuf_add_all b es = b ++ dirents (zlen b) es.
Proof.
  induction es as [|[ino name] es IH]; intros b Hn; cbn [dirbuf_add_all dirents]; [by rewrite app_nil_r|].
  apply Forall_cons in Hn as [Hn Hns]. cbn [snd] in Hn. rewrite c_str_id by done.
  rewrite IH by done. unfold dirbuf_add. set (next := zlen b + fuse_dirent_size (zlen name)).
  pose proof (fuse_add_dirent_size name ino next) as Hl.
  assert (zlen (b ++ fuse_add_dirent name ino next) = next) as ->.
  { transitivity (zlen b + zlen (fuse_add_dirent name ino next)); [|by rewrite Hl].
    unfold zlen. rewrite length_app. lia. }
  by rewrite <- app_assoc.
Qed.

Lemma dirents_app `{FuseDirent} es1 : forall pos es2,
  dirents pos (es1 ++ es2) = dirents pos es1 ++ dirents (pos + zlen (dirents pos es1)) es2.
Proof.
  induction es1 as [|[ino name] es1 IH]; intros pos es2; cbn [app dirents].
  { unfold zlen. simpl. by rewrite Z.add_0_r. }
  rewrite IH, <- app_assoc. do 2 f_equal.
  pose proof (fuse_add_dirent_size name ino (pos + fuse_dirent_size (zlen name))) as Hl.
  unfold zlen in *. rewrite length_app. f_equal. lia.
Qed.

Lemma dirents_drop `{FuseDirent} es1 es2 :
  drop (Z.to_nat (zlen (dirents 0 es1))) (dirents 0 (es1 ++ es2)) = dirents (zlen (dirents 0 es1)) es2.
Proof. rewrite dirents_app. unfold zlen at 1. rewrite Nat2Z.id, drop_app_length. done. Qed.

(** * Properties *)

(** Listing a directory terminates on every byte string the extent may hold:
    the loop never runs out of the fuel [length + 1] and never leaves the string,
    whatever is stored there. *)
Theorem parse_dir_total buf : exists es, parse_dir (dir_fuel buf) buf 0 = Some (Ok es).
Proof. apply parse_dir_ends; unfold dir_fuel, zlen; lia. Qed.

(** C32. Listing a well-formed directory sends one reply: the part
    [off .. off + size) of the sequence of its entries' records, in the order of
    the directory, each carrying the offset of its end; and changes no file. A
    request that continues at the offset carried by the last entry seen gets
    exactly the records of the entries after it. *)
Theorem readdir_lists_entries {St} `{ExtentRpcLaws St} `{FuseDirent} now ino size off (y : yfs St) es :
  yfs_ok y -> ~ gone y ino -> isdir ino = true -> file y ino = Some (enc_dir es) -> dir_ok es ->
  Forall (fun e => Byte.x00 ∉ e.2) es -> 0 <= off < 2 ^ 64 -> 0 <= size ->
  (exists y', fuseserver_readdir now ino size off y =
    Some (Ok ([Reply_buf (take (Z.to_nat size) (drop (Z.to_nat off) (dirents 0 es)))], y')) /\
    forall z, file y' z = file y z) /\
  forall seen rest, es = seen ++ rest -> off = zlen (dirents 0 seen) ->
    drop (Z.to_nat off) (dirents 0 es) = dirents off rest.
Proof.
  intros Hok Hg Hdir Hf Hd Hnul Hoff Hs. split; [|intros ? ? -> ->; apply dirents_drop].
  unfold fuseserver_readdir. rewrite Hdir. cbn [negb].
  unfold getdata. destruct (y_get_some now ino y _ Hok Hg Hf) as (y1 & -> & _ & Hf1 & _).
  cbn [negb Z.eqb YFS_OK EXT_OK].
  assert (parse_dir (dir_fuel (enc_dir es)) (enc_dir es) 0 = Some (Ok es)) as ->.
  { apply (parse_dir_entries es []); [done|]. unfold dir_fuel. pose proof (enc_dir_length es). lia. }
  cbn [fmap option_fmap option_map mbind res_bind]. exists (release ino y1). split; [|exact Hf1].
  do 3 f_equal. unfold reply_buf_limited. rewrite wrapU_small by done.
  rewrite (dirbuf_add_all_dirents es [] Hnul). change (zlen (@nil byte)) with 0. cbn [app].
  set (b := dirents 0 es). f_equal.
  destruct (Z.ltb_spec off (zlen b)) as [Hlt|Hge]; f_equal.
  - destruct (decide (size <= zlen b - off)).
    + by rewrite Z.min_r by lia.
    + rewrite !take_ge; [done|..]; rewrite length_drop; unfold zlen in *; lia.
  - rewrite drop_ge by (unfold zlen in *; lia). by rewrite take_nil.
Qed.

(** Every request is answered exactly once by every handler that changes or
    reads a file or looks up a name, on success and on failure. *)
Theorem one_reply_per_request {St} `{ExtentRpc St} (y : yfs St) :
  (forall ino, length (fuseserver_getattr ino y).1 = 1%nat) /\
  (forall now ino size to_set r, fuseserver_setattr now ino size to_set y = Ok r -> length r.1 = 1%nat) /\
  (forall now ino size off r, fuseserver_read now ino size off y = Ok r -> length r.1 = 1%nat) /\
  (forall now ino buf off r, fuseserver_write now ino buf off y = Ok r -> length r.1 = 1%nat) /\
  (forall now rnd parent name e, length (fuseserver_create now rnd parent name e y).1 = 1%nat) /\
  (forall now rnd parent name e, length (fuseserver_mknod now rnd parent name e y).1 = 1%nat) /\
  (forall now parent name e r, fuseserver_lookup now parent name e y = Ok r -> length r.1 = 1%nat) /\
  (forall now rnd parent name e, length (fuseserver_mkdir now rnd parent name e y).1 = 1%nat) /\
  (forall now parent name r, fuseserver_unlink now parent name y = Ok r -> length r.1 = 1%nat).
Proof.
  split_and!; intros.
  - unfold fuseserver_getattr. destruct (fuse_getattr ino y) as [[ret st] y']. by destruct (negb _).
  - unfold fuseserver_setattr in *. destruct (negb _); [|by simplify_eq].
    destruct (setattr now ino size y) as [[rs y1]|]; [|done]. cbn [mbind res_bind] in *.
    destruct (fuse_getattr ino y1) as [[? ?] ?]. simplify_eq. by destruct (rs =? YFS_OK).
  - unfold fuseserver_read in *. destruct (read now ino size off y) as [[[rs b] y1]|]; [|done].
    cbn [mbind res_bind] in *. simplify_eq. by destruct (rs =? YFS_OK).
  - unfold fuseserver_write in *. destruct (write now ino buf off y) as [[rs y1]|]; [|done].
    cbn [mbind res_bind] in *. simplify_eq. by destruct (rs =? YFS_OK).
  - unfold fuseserver_create. destruct (fuseserver_createhelper _ _ _ _ _ _) as [[ret ?] ?].
    by destruct (ret =? YFS_OK).
  - unfold fuseserver_mknod. destruct (fuseserver_createhelper _ _ _ _ _ _) as [[ret ?] ?].
    by destruct (ret =? YFS_OK).
  - unfold fuseserver_lookup in *. destruct (lookup now parent name y) as [[[[] i] y1]|]; [| |done];
      cbn [mbind res_bind] in *; [|by simplify_eq].
    destruct (fuse_getattr _ y1) as [[? ?] ?]. by simplify_eq.
  - unfold fuseserver_mkdir. destruct (create _ _ _ _ _ _) as [[rs ?] y1].
    destruct (rs =? YFS_OK); [|done]. by destruct (fuse_getattr _ y1) as [[? ?] ?].
  - unfold fuseserver_unlink in *. destruct (unlink now parent name y) as [[rs y1]|]; [|done].
    cbn [mbind res_bind] in *. simplify_eq. by destruct (rs =? YFS_OK).
Qed.

(** Listing a directory whose extent does not exist answers the same request
    twice: the error reply does not end the handler. *)
Theorem readdir_error_replies_twice {St} `{ExtentRpcLaws St} `{FuseDirent} now ino size off (y : yfs St) :
  yfs_ok y -> ~ gone y ino -> isdir ino = true -> file y ino = None ->
  exists y', fuseserver_readdir now ino size off y =
    Some (Ok ([Reply_err ENOTDIR; Reply_buf []], y')).
Proof.
  intros Hok Hg Hdir Hf. unfold fuseserver_readdir. rewrite Hdir. cbn [negb]. unfold getdata.
  destruct (y_get now ino [] (acquire ino y)) as [[ret d] y1] eqn:E.
  destruct (y_get_spec now ino [] (acquire ino y) ret d y1 Hok Hg E) as (_ & _ & _ & Ha & _).
  change (file (acquire ino y) ino) with (file y ino) in Ha. rewrite Hf in Ha. injection Ha as -> ->.
  cbn [negb Z.eqb EXT_OK EXT_NOENT]. eexists. unfold reply_buf_limited.
  destruct (Z.ltb_spec (u64 off) (zlen (@nil byte))) as [Hlt|]; [|done].
  pose proof (wrapU_range 64 ltac:(lia) off) as Hr. unfold is_unsigned, zlen in *. simpl in Hlt. lia.
Qed.

(** The attributes of a file are those of its extent: a regular file's reply
    carries its type, one link and the length of its contents. *)
Theorem getattr_reports_size {St} `{ExtentRpcLaws St} ino (y : yfs St) d :
  yfs_ok y -> ~ gone y ino -> isfile ino = true -> file y ino = Some d ->
  contents (y_store y) !! ino <> None -> zlen d < 2 ^ 32 ->
  exists st y', fuseserver_getattr ino y = ([Reply_attr st], y') /\
    st_ino st = ino /\ st_mode st = 33206 /\ st_nlink st = 1 /\ st_size st = zlen d.
Proof.
  intros Hok Hg Hfile Hf Hc Hl. unfold fuseserver_getattr, fuse_getattr. rewrite Hfile.
  unfold getfile. destruct (y_getattr ino (acquire ino y)) as [[ret a] y1] eqn:E.
  destruct (y_getattr_spec ino (acquire ino y) ret a y1 Hok Hg E) as (_ & _ & _ & Ha).
  change (file (acquire ino y) ino) with (file y ino) in Ha. rewrite Hf in Ha.
  destruct Ha as [[-> Hs]|[_ Hn]]; [|by destruct Hc]. cbn [negb Z.eqb EXT_OK YFS_OK].
  do 2 eexists. split; [done|]. cbn [st_ino st_mode st_nlink st_size fi_size].
  rewrite Hs, wrapU_small by (unfold is_unsigned, zlen in *; lia). done.
Qed.

(** ** Witnesses *)
Import YfsExamples.

(** A layout with a fixed part and the name. *)
Definition plain_dirent (name : list byte) (ino off : Z) : list byte :=
  be 8 ino ++ be 8 off ++ be 4 (zlen name) ++ name.

#[local] Instance plain_layout : FuseDirent.
Proof.
  refine {| fuse_dirent_size n := 20 + n; fuse_add_dirent := plain_dirent |}.
  intros. unfold plain_dirent. len.
Defined.

Lemma readdir_lists_entries_witness :
  exists y', fuseserver_readdir 300 1 20 21 fs =
    Some (Ok ([Reply_buf (take 20 (drop 21 (dirents 0 two_entries)))], y')) /\
    forall z, file y' z = file fs z.
Proof.
  refine (proj1 (readdir_lists_entries 300 1 20 21 fs two_entries fs_ok (fs_not_gone 1) _ _ _ _ _ _)).
  - vm_compute. reflexivity.
  - vm_compute. reflexivity.
  - apply two_entries_ok.
  - repeat constructor; vm_compute; intros H; inversion H as [|? ? ? H']; inversion H'.
  - lia.
  - lia.
Defined.

Lemma one_reply_per_request_witness :
  exists r, fuseserver_read 300 ino_a 4 3 fs = Ok r /\ length r.1 = 1%nat.
Proof.
  set (r := match fuseserver_read 300 ino_a 4 3 fs with Ok r => r | Err _ => ([], fs) end).
  assert (E : fuseserver_read 300 ino_a 4 3 fs = Ok r) by (vm_compute; reflexivity).
  exists r. split; [exact E|].
  destruct (one_reply_per_request fs) as (_ & _ & Hr & _). exact (Hr _ _ _ _ _ E).
Defined.

Lemma readdir_error_replies_twice_witness :
  exists y', fuseserver_readdir 300 2 20 0 fs =
    Some (Ok ([Reply_err ENOTDIR; Reply_buf []], y')).
Proof.
  apply (readdir_error_replies_twice 300 2 20 0 fs fs_ok (fs_not_gone 2));
    vm_compute; reflexivity.
Defined.

Lemma getattr_reports_size_witness :
  exists st y', fuseserver_getattr ino_a fs = ([Reply_attr st], y') /\
    st_ino st = ino_a /\ st_mode st = 33206 /\ st_nlink st = 1 /\ st_size st = zlen hello.
Proof.
  apply (getattr_reports_size ino_a fs hello fs_ok (fs_not_gone _)).
  - vm_compute. reflexivity.
  - vm_compute. reflexivity.
  - vm_compute. discriminate.
  - vm_compute. reflexivity.
Defined.
