(* ===== verification/Address.v ===== *)
(** * Addresses

    [make_sockaddr] of src/rpc/rpc.cc, which turns the strings the programs are
    started with, and the identifiers lock clients give to the lock server, into
    socket addresses; and the identifier the constructor of [lock_client_cache]
    builds. The resolver ([inet_addr], [gethostbyname]) is a parameter. A string
    is the bytes before its terminating zero. *)
From S2P Require Import Prelude CxxString LockClientCache.

Definition colon : byte := byte_of_Z 58.
Definition localhost : list byte := byte_of_Z <$> [49; 50; 55; 46; 48; 46; 48; 46; 49].
Definition INADDR_NONE : Z := 0xffffffff.
Definition HOST_SZ : nat := 200.

(** [atoi]: blanks, a sign, digits. The conversion of a number that is not an
    [int] is undefined. *)
Definition atoi (s : list byte) : res Z :=
  let s := skip_blanks s in
  let '(neg, s) := match s with
                   | b :: s' => if Z_of_byte b =? 45 then (true, s')
                                else if Z_of_byte b =? 43 then (false, s') else (false, s)
                   | [] => (false, s)
                   end in
  let v := read_digits 0 s in
  int_result (if neg : bool then - v else v).

(** [htons] on a little-endian machine, and its inverse. *)
Definition htons (x : Z) : Z :=
  Z.lor (Z.shiftl (Z.land (u16 x) 255) 8) (Z.shiftr (u16 x) 8).
Definition ntohs : Z -> Z := htons.

(** The string that starts a block. *)
Fixpoint c_string (b : list byte) : list byte :=
  match b with
  | [] => []
  | x :: b => if decide (x = Byte.x00) then [] else x :: c_string b
  end.

Section host_buffer.
Context `{Allocator}.

(** The buffer [host] and the port, which starts behind the colon. *)
Definition split_host (hostandport : list byte) : res (list byte * list byte) :=
  let host := malloc HOST_SZ in
  match find_from [colon] hostandport 0 with
  | None =>
      host ← memcpy host 0 (localhost ++ [Byte.x00]);
      Ok (host, hostandport)
  | Some n =>
      host ← memcpy host 0 (take (Z.to_nat n) hostandport);
      host ← poke host n Byte.x00;
      Ok (host, drop (Z.to_nat (n + 1)) hostandport)
  end.

Lemma c_string_app s rest : Byte.x00 ∉ s -> c_string (s ++ Byte.x00 :: rest) = s.
Proof.
  induction s as [|x s IH]; intros Hn; [done|]. cbn [app c_string].
  rewrite decide_False by (intros ->; apply Hn; left). f_equal. apply IH. set_solver.
Qed.

Lemma find_colon s : forall pos,
  match find_from [colon] s pos with
  | None => colon ∉ s
  | Some n => exists u v, s = u ++ colon :: v /\ colon ∉ u /\ n = pos + zlen u
  end.
Proof.
  induction s as [|b s IH]; intros pos; cbn [find_from].
  - rewrite decide_False; [set_solver|]. apply prefix_nil_not.
  - destruct (decide ([colon] `prefix_of` b :: s)) as [Hp|Hp].
    + destruct Hp as [v Hv]. simplify_eq/=. exists [], v. split; [done|].
      split; [set_solver|]. unfold zlen. simpl. lia.
    + assert (Hb : b <> colon).
      { intros ->. apply Hp. by exists s. }
      specialize (IH (pos + 1)). destruct (find_from [colon] s (pos + 1)) as [n|].
      * destruct IH as (u & v & -> & Hu & ->). exists (b :: u), v. split; [done|].
        split; [set_solver|]. unfold zlen. simpl. lia.
      * set_solver.
Qed.

Lemma find_colon_at u v : colon ∉ u -> find_from [colon] (u ++ colon :: v) 0 = Some (zlen u).
Proof.
  intros Hu. pose proof (find_colon (u ++ colon :: v) 0) as Hf.
  destruct (find_from [colon] (u ++ colon :: v) 0) as [n|]; [|set_solver].
  destruct Hf as (u' & v' & E & Hu' & ->). f_equal.
  assert (u = u') as ->; [|lia]. clear -E Hu Hu'. revert u' E Hu'.
  induction u as [|a u IH]; intros [|a' u'] E Hu'; simplify_eq/=; [done|set_solver|set_solver|].
  f_equal. apply IH; set_solver.
Qed.

(** The host's name and its zero fit into the buffer. *)
Lemma split_host_ok u v :
  colon ∉ u -> Byte.x00 ∉ u -> zlen u < Z.of_nat HOST_SZ ->
  exists host, split_host (u ++ colon :: v) = Ok (host, v) /\ c_string host = u.
Proof.
  intros Hu Hz Hlen. unfold split_host. rewrite find_colon_at by done.
  assert (Hn : Z.to_nat (zlen u) = length u) by (unfold zlen; lia).
  rewrite Hn, take_app_length. unfold memcpy.
  rewrite decide_True by (unfold zlen in *; rewrite length_malloc; lia).
  cbn [mbind res_bind]. rewrite Z.add_0_l, Hn. change (Z.to_nat 0) with 0%nat.
  rewrite take_0. cbn [app]. set (tl := drop (length u) (malloc HOST_SZ)).
  assert (Htl : length tl = (HOST_SZ - length u)%nat) by (unfold tl; by rewrite length_drop, length_malloc).
  assert (Hb : 0 <= zlen u < zlen (u ++ tl)) by (unfold zlen in *; rewrite length_app; lia).
  rewrite poke_ok by exact Hb. cbn [mbind res_bind].
  eexists. split.
  - f_equal. f_equal. rewrite <- (app_nil_l v) at 2. change (u ++ colon :: v) with (u ++ [colon] ++ v).
    rewrite app_assoc. apply drop_app_length'. rewrite length_app. unfold zlen. simpl. lia.
  - rewrite Hn. clearbody tl. destruct tl as [|b tl]; [cbn [length] in Htl; unfold zlen in *; lia|].
    rewrite insert_app_r_alt, Nat.sub_diag by lia. by apply c_string_app.
Qed.

Lemma split_host_overflow u v :
  colon ∉ u -> Z.of_nat HOST_SZ <= zlen u -> split_host (u ++ colon :: v) = Err Undefined.
Proof.
  intros Hu Hlen. unfold split_host. rewrite find_colon_at by done.
  assert (Hn : Z.to_nat (zlen u) = length u) by (unfold zlen; lia).
  rewrite Hn, take_app_length. unfold memcpy. case_decide as Hd; [|done]. cbn [mbind res_bind].
  unfold poke. rewrite decide_False; [done|].
  change (Z.to_nat 0) with 0%nat. rewrite take_0. cbn [app]. rewrite Z.add_0_l, Hn.
  unfold zlen in *. rewrite length_app, length_drop, length_malloc. lia.
Qed.
End host_buffer.

Section resolver.
(** [inet_addr(host)], and [h_length] and [h_addr] of [gethostbyname(host)]. *)
Context `{Allocator} (inet_addr : list byte -> Z) (gethostbyname : list byte -> option (Z * Z)).

(** The address and the port, both in network order; [None]: [exit(1)]. *)
Definition make_sockaddr2 (host port : list byte) : res (option (Z * Z)) :=
  let a := inet_addr host in
  let found := if negb (a =? INADDR_NONE) then Some a
               else match gethostbyname host with
                    | None => None
                    | Some (len, addr) => if negb (len =? 4) then None else Some addr
                    end in
  match found with
  | None => Ok None
  | Some addr => p ← atoi port; Ok (Some (addr, htons p))
  end.

Definition make_sockaddr (hostandport : list byte) : res (option (Z * Z)) :=
  '(host, port) ← split_host hostandport;
  make_sockaddr2 (c_string host) port.
End resolver.

(** ** The lock client's identifier *)

(** What the constructor of [lock_client_cache] prints for the number drawn. *)
Definition client_id (rnd : Z) : list byte := localhost ++ [colon] ++ print_ull (rlock_port rnd).

Lemma atoi_print n : is_signed 32 n -> 0 <= n -> atoi (print_ull n) = Ok n.
Proof.
  intros Hn Hpos. pose proof (print_ull_digits n) as Hd. pose proof (print_ull_nonempty n) as Hne.
  assert (Hr : read_digits 0 (print_ull n) = n).
  { unfold print_ull. rewrite dec_aux_read; [done| |lia]. unfold is_signed in Hn.
    split; [lia|]. etrans; [apply Hn|]. vm_compute. done. }
  unfold atoi. destruct (print_ull n) as [|b s] eqn:E; [done|].
  apply Forall_cons in Hd as [Hb _]. destruct (digit_plain b Hb) as (H1 & H2 & H3 & _).
  cbn [skip_blanks]. rewrite H1, H2, H3, Hr. by apply int_result_ok.
Qed.

Lemma htons_spec x : 0 <= x < 2 ^ 16 -> htons x = x mod 256 * 256 + x / 256.
Proof.
  intros Hx. unfold htons. rewrite wrapU_small by (unfold is_unsigned; lia).
  change 255 with (Z.ones 8). rewrite Z.land_ones, Z.shiftl_mul_pow2, Z.shiftr_div_pow2 by lia.
  change (2 ^ 8) with 256. apply (lor_disjoint 8); [lia| |].
  - change (2 ^ 8) with 256. apply Z.mod_mul. lia.
  - split; [apply Z.div_pos; lia|]. apply Z.div_lt_upper_bound; lia.
Qed.

Lemma ntohs_htons x : 0 <= x < 2 ^ 16 -> ntohs (htons x) = x.
Proof.
  intros Hx. pose proof (Z.mod_pos_bound x 256 ltac:(lia)).
  assert (0 <= x / 256 < 256) by (split; [apply Z.div_pos; lia|apply Z.div_lt_upper_bound; lia]).
  unfold ntohs. rewrite (htons_spec x) by done. rewrite htons_spec by nia.
  rewrite (Z.add_comm (x mod 256 * 256)), Z.mod_add, Z.div_add by lia.
  rewrite (Z.mod_small (x / 256)), (Z.div_small (x / 256)) by lia.
  pose proof (Z.div_mod x 256 ltac:(lia)). lia.
Qed.

(** * Properties *)

(** C38. The host buffer. A host name of fewer than 200 bytes is copied, terminated
    and resolved unharmed, and the port is what follows the first colon; one of
    200 bytes or more, which nothing checks for, is written beyond the end of the
    200-byte buffer on the stack. *)
Theorem make_sockaddr_bounds `{Allocator} inet_addr gethostbyname host port :
  colon ∉ host -> Byte.x00 ∉ host ->
  make_sockaddr inet_addr gethostbyname (host ++ colon :: port) =
    if zlen host <? 200 then make_sockaddr2 inet_addr gethostbyname host port else Err Undefined.
Proof.
  intros Hc Hz. unfold make_sockaddr. destruct (Z.ltb_spec (zlen host) 200) as [Hlt|Hge].
  - destruct (split_host_ok host port Hc Hz Hlt) as (b & -> & Hb). cbn [mbind res_bind]. by rewrite Hb.
  - by rewrite split_host_overflow.
Qed.

(** The way back to a lock client. The identifier a caching lock client sends
    with its requests, which the lock server resolves to call it back, resolves
    to the loopback address and to exactly the port its callback server listens
    on, whatever port was drawn. *)
Theorem callback_address_roundtrip `{Allocator} inet_addr gethostbyname rnd :
  inet_addr localhost <> INADDR_NONE ->
  exists p, make_sockaddr inet_addr gethostbyname (client_id rnd) = Ok (Some (inet_addr localhost, p)) /\
    ntohs p = rlock_port rnd.
Proof.
  intros Ha. pose proof (rlock_port_bounds rnd) as Hp. exists (htons (rlock_port rnd)).
  split; [|by apply ntohs_htons; lia]. unfold client_id, make_sockaddr.
  destruct (split_host_ok localhost (print_ull (rlock_port rnd))) as (b & E & Hb);
    [vm_compute; set_solver|vm_compute; set_solver|done|].
  cbn [app]. rewrite E. cbn [mbind res_bind]. rewrite Hb. unfold make_sockaddr2.
  rewrite (proj2 (Z.eqb_neq _ _) Ha). cbn [negb]. rewrite atoi_print by (unfold is_signed; lia). done.
Qed.

(** ** Witnesses *)

Module AddressExamples.
Definition loopback (host : list byte) : Z := if decide (host = localhost) then 0x0100007f else INADDR_NONE.
Definition nobody (host : list byte) : option (Z * Z) := None.
Definition long_host : list byte := replicate 200 (byte_of_Z 97).
End AddressExamples.
Import AddressExamples.
#[local] Existing Instance zero_allocator.

Lemma make_sockaddr_bounds_witness :
  make_sockaddr loopback nobody (localhost ++ colon :: print_ull 3772) =
    Ok (Some (0x0100007f, htons 3772)) /\
  make_sockaddr loopback nobody (long_host ++ colon :: print_ull 3772) = Err Undefined.
Proof.
  split.
  - refine (eq_trans (make_sockaddr_bounds loopback nobody localhost (print_ull 3772) _ _) _);
      [by vm_compute; set_solver|by vm_compute; set_solver|vm_compute; reflexivity].
  - refine (eq_trans (make_sockaddr_bounds loopback nobody long_host (print_ull 3772) _ _) _).
    1-2: unfold long_host; intros [E _]%elem_of_replicate; discriminate E.
    vm_compute. reflexivity.
Defined.

Lemma callback_address_roundtrip_witness :
  exists p, make_sockaddr loopback nobody (client_id 12345) = Ok (Some (0x0100007f, p)) /\
    ntohs p = 13369.
Proof. apply (callback_address_roundtrip loopback nobody 12345). vm_compute. discriminate. Defined.
