(* ===== verification/Service.v ===== *)
(** * The servers behind their RPC stubs

    The programs src/extent_smain.cc and src/lock_smain.cc register the methods
    of [extent_server] and [lock_server_cache] with an [rpcs]; the constructor of
    [lock_client_cache] registers the callbacks; [extent_client], [lock_client]
    and [lock_client_cache] reach them with [rpcc::call]. A call is followed along
    its whole path: arguments marshalled, request unpacked by [dispatch], handler
    found in the table by its number, arguments decoded, method run, reply packed,
    unpacked and decoded by the stub. The stubs are shown to be the methods, and
    a stub whose argument types do not match the registered method to end the
    server. *)
From Stdlib Require Import String.
From S2P Require Import Prelude Marshall RpcUtil RpcClient Connection RpcServer.
From S2P Require Import LockServer LockServerCache LockClientCache ExtentServer.

(** ** One call along the wire *)

Section wire.
Context `{Allocator} {S : Type}.

(** [connection::send] stores the size in the first four bytes. *)
Definition on_wire (b : list byte) : list byte := with_size_field (be 4 (zlen b)) b.

Definition wire_call {A R} (c : codec A) (cr : codec R) (st : rpcs S) (h : req_header) (a : A)
    (s : S) : res (Z * R * S) :=
  m ← build_request c h a;
  let pkt := on_wire (marshall_cstr m) in
  '(h, req) ← unpack_req_header (new_unmarshall pkt (zlen pkt));
  match rs_procs st !! h_proc h with
  | None => Err Verify_failed
  | Some f =>
      '(rep, s) ← dispatch_run (Job 0 h f req) s;
      let pkt := on_wire rep in
      '(rh, u) ← unpack_reply_header (new_unmarshall pkt (zlen pkt));
      '(ret, r) ← call_m cr (c_init cr) (r_ret rh) (take_in u);
      Ok (ret, r, s)
  end.

(** The arguments and the result fit into messages. *)
Definition fits {A} (c : codec A) (a : A) : Prop :=
  c_valid c a /\ RPC_HEADER_SZ + zlen (c_enc c a) < MAX_MSG.

(** Calls of [proc] are served by a handler that behaves as [f]. *)
Definition serves (st : rpcs S) (proc : Z) (f : handler S) : Prop :=
  exists g : handler S, rs_procs st !! proc = Some g /\ forall args ret s, g args ret s = f args ret s.

Lemma dispatch_run_ext h (f g : handler S) req s :
  (forall args ret s, g args ret s = f args ret s) ->
  dispatch_run (Job 0 h g req) s = dispatch_run (Job 0 h f req) s.
Proof. intros Hf. unfold dispatch_run. cbn [jb_f jb_req jb_h]. by rewrite Hf. Qed.

Lemma wire_call_ok {A R} (c : codec A) (cr : codec R) `{!CodecOk c, !CodecOk cr} st h a s
    (meth : A -> R -> S -> res (Z * R * S)) ret r s' :
  serves st (h_proc h) (reg_1 c cr meth) -> valid_req_header h ->
  fits c a -> fits cr r -> 0 <= ret <= INT_MAX ->
  meth a (c_init cr) s = Ok (ret, r, s') ->
  wire_call c cr st h a s = Ok (ret, r, s').
Proof.
  intros (f & Hp & Hf) Hh [Ha Hra] [Hr Hrr] Hret Hm.
  destruct (call_path c cr meth 0 h a s ret r s' (fun b => be 4 (zlen b)) (fun b => be 4 (zlen b)))
    as (m & req & rep & u & E & [Eu _] & Er & Eur & Ec); try done.
  unfold wire_call. rewrite E. cbn [mbind res_bind]. unfold on_wire. rewrite Eu. cbn [mbind res_bind].
  rewrite Hp, (dispatch_run_ext h (reg_1 c cr meth)), Er by done. cbn [mbind res_bind]. rewrite Eur. cbn [mbind res_bind r_ret]. by rewrite Ec.
Qed.

(** A handler that finds its arguments wrong ends the server. *)
Lemma bad_args_abort {A R} (c : codec A) (cr : codec R) h (f : handler S) req a u s
    (meth : A -> R -> S -> res (Z * R * S)) :
  (forall args ret s, f args ret s = reg_1 c cr meth args ret s) ->
  c_get c (c_init c) req = Ok (a, u) -> okdone u = false ->
  dispatch_run (Job 0 h f req) s = Err Verify_failed.
Proof.
  intros Hf E Hno. unfold dispatch_run. cbn [jb_f jb_req jb_h]. rewrite Hf. unfold reg_1, fn_tail.
  rewrite E. cbn [mbind res_bind]. by rewrite Hno.
Qed.

(** The cursor behind the header of a request. *)
Definition behind_header (pkt : list byte) : unmarshall := Unmarshall pkt (zlen pkt) RPC_HEADER_SZ true.

Lemma behind_header_ok szf h body :
  let pkt := szf ++ enc_req_header h ++ body in
  length szf = 4%nat -> zlen pkt <= INT_MAX ->
  wf_unmarshall (behind_header pkt) /\ u_ok (behind_header pkt) = true /\ remaining (behind_header pkt) = body.
Proof.
  intros pkt Hszf Hmax. set (pre := szf ++ enc_req_header h).
  assert (Hpkt : pkt = pre ++ body) by (unfold pkt, pre; by rewrite <- app_assoc).
  assert (Hpre : length pre = 24%nat) by (unfold pre, enc_req_header; len).
  split_and!; [|done|].
  - unfold wf_unmarshall, behind_header. simpl. change RPC_HEADER_SZ with 24. split; [|done].
    rewrite Hpkt. unfold zlen. rewrite length_app. lia.
  - unfold remaining, behind_header. cbn [u_ind u_sz u_buf]. unfold zlen. rewrite Nat2Z.id, take_ge by lia.
    change (Z.to_nat RPC_HEADER_SZ) with 24%nat. rewrite Hpkt, <- Hpre. apply drop_app_length.
Qed.

Lemma wire_call_abort {A R} (c : codec A) (cr : codec R) `{!CodecOk c} st h (f : handler S) a s :
  rs_procs st !! h_proc h = Some f -> valid_req_header h -> fits c a ->
  (forall szf, length szf = 4%nat ->
     dispatch_run (Job 0 h f (behind_header (szf ++ enc_req_header h ++ c_enc c a))) s = Err Verify_failed) ->
  wire_call c cr st h a s = Err Verify_failed.
Proof.
  intros Hf Hh [Ha Hroom] Hd. unfold wire_call.
  destruct (build_request_spec c h a Ha Hroom) as (m & junk & -> & _ & Lj & C). cbn [mbind res_bind].
  unfold on_wire, with_size_field.
  set (szf := be 4 (zlen (marshall_cstr m))). assert (Hszf : length szf = 4%nat) by done. clearbody szf.
  rewrite C, drop_app_length' by done. change RPC_HEADER_SZ with 24 in Hroom. unfold MAX_MSG in Hroom.
  rewrite unpack_req_header_spec; [|done|done|unfold INT_MAX, enc_req_header; len].
  cbn [mbind res_bind]. rewrite Hf. unfold behind_header in Hd. by rewrite Hd.
Qed.

(** A request with more bytes than the registered method takes. *)
Lemma extra_bytes_abort {A R} (c : codec A) (cr : codec R) `{!CodecOk c} h (f : handler S) szf a extra s
    (meth : A -> R -> S -> res (Z * R * S)) :
  (forall args ret s, f args ret s = reg_1 c cr meth args ret s) ->
  c_valid c a -> length szf = 4%nat -> extra <> [] ->
  let pkt := szf ++ enc_req_header h ++ c_enc c a ++ extra in
  zlen pkt <= INT_MAX ->
  dispatch_run (Job 0 h f (behind_header pkt)) s = Err Verify_failed.
Proof.
  intros Hf Ha Hszf Hx pkt Hmax.
  destruct (behind_header_ok szf h (c_enc c a ++ extra) Hszf Hmax) as (Hw & Hok & Hrem).
  destruct (codec_get a Ha _ extra Hw Hok Hrem) as (u & E & _ & R0 & O & _ & _).
  apply (bad_args_abort c cr h f _ a u s meth); [done|done|].
  unfold okdone. rewrite O. simpl. apply Z.eqb_neq. intros Hi. apply Hx. rewrite <- R0.
  unfold remaining. rewrite Hi. apply drop_ge. rewrite length_take. lia.
Qed.
End wire.

Lemma reg1_ok {S} (st : rpcs S) proc h :
  rs_procs st !! s32 proc = None -> reg1 st proc h = Ok (set_procs st (<[s32 proc := h]> (rs_procs st))).
Proof. intros Hp. unfold reg1. by rewrite bool_decide_true. Qed.

Lemma serves_here {S} (st : rpcs S) proc (f g : handler S) :
  (forall args ret s, f args ret s = g args ret s) ->
  serves (set_procs st (<[proc := f]> (rs_procs st))) proc g.
Proof. intros Hf. exists f. split; [apply lookup_insert_eq|done]. Qed.

Lemma serves_earlier {S} (st : rpcs S) proc proc' (f g : handler S) :
  proc <> proc' -> serves st proc g ->
  serves (set_procs st (<[proc' := f]> (rs_procs st))) proc g.
Proof. intros Hne (g' & Hl & Hg). exists g'. split; [|done]. simpl. by rewrite lookup_insert_ne. Qed.

Ltac registered :=
  repeat (rewrite reg1_ok by (simpl; repeat (rewrite lookup_insert_ne by done); apply lookup_empty);
    cbn [mbind res_bind]).

Ltac served := repeat first [apply serves_here; done | apply serves_earlier; [done|]].

(** ** The extent server's program *)

Definition extent_put_proc : Z := 0x6001.
Definition extent_get_proc : Z := 0x6002.
Definition extent_getattr_proc : Z := 0x6003.
Definition extent_remove_proc : Z := 0x6004.

(** The process: its clock and its [extent_server]. *)
Record extent_host := ExtentHost { eh_now : Z; eh_exts : extent_server }.
Definition eh_set (s : extent_host) (exts : extent_server) : extent_host := ExtentHost (eh_now s) exts.

(** The methods with the signatures they are registered with; [r] is the
    handler's variable for the result. *)
Definition m_get (id : Z) (r : list byte) (s : extent_host) : res (Z * list byte * extent_host) :=
  let '(ret, buf, exts) := extent_get (eh_exts s) (eh_now s) id in
  Ok (ret, if ret =? EXT_OK then buf else r, eh_set s exts).
Definition m_getattr (id : Z) (r : attr) (s : extent_host) : res (Z * attr * extent_host) :=
  let '(ret, a) := extent_getattr (eh_exts s) id r in Ok (ret, a, s).
Definition m_put (id : Z) (buf : list byte) (r : Z) (s : extent_host) : res (Z * Z * extent_host) :=
  let '(ret, exts) := extent_put (eh_exts s) (eh_now s) id buf in Ok (ret, r, eh_set s exts).
Definition m_remove (id r : Z) (s : extent_host) : res (Z * Z * extent_host) :=
  let '(ret, exts) := extent_remove (eh_exts s) id in Ok (ret, r, eh_set s exts).

Section programs.
Context `{Allocator}.

Definition extent_smain (nonce count : Z) : res (rpcs extent_host) :=
  st ← new_rpcs nonce count;
  st ← reg1 st extent_get_proc (reg_1 ull_codec string_codec m_get);
  st ← reg1 st extent_getattr_proc (reg_1 ull_codec attr_codec m_getattr);
  st ← reg1 st extent_put_proc (reg_2 ull_codec string_codec int_codec m_put);
  reg1 st extent_remove_proc (reg_1 ull_codec int_codec m_remove).

(** The calls [extent_client] makes. *)
Definition stub_get (st : rpcs extent_host) (h : req_header) (eid : Z) (s : extent_host) :=
  wire_call ull_codec string_codec st h eid s.
Definition stub_getattr (st : rpcs extent_host) (h : req_header) (eid : Z) (s : extent_host) :=
  wire_call ull_codec attr_codec st h eid s.
Definition stub_put (st : rpcs extent_host) (h : req_header) (eid : Z) (buf : list byte) (s : extent_host) :=
  wire_call (pair_codec ull_codec string_codec) int_codec st h (eid, buf) s.
Definition stub_remove (st : rpcs extent_host) (h : req_header) (eid : Z) (s : extent_host) :=
  wire_call ull_codec int_codec st h eid s.

(** ** The lock server's program *)

(** The process: its [lock_server_cache] and the callbacks it has made, each with
    the client's address, the procedure and the lock. *)
Record lock_host := LockHost { lh_locks : lock_server_cache; lh_calls : list (string * Z * Z) }.

Definition callback (to : option string) (proc lid : Z) : list (string * Z * Z) :=
  match to with Some c => [(c, proc, lid)] | None => [] end.

Definition m_stat (lid r : Z) (s : lock_host) : res (Z * Z * lock_host) :=
  let '(ret, n) := lsc_stat (lh_locks s) lid in Ok (lock_status_code ret, n, s).
Definition m_acquire (lid : Z) (id : list byte) (r : Z) (s : lock_host) : res (Z * Z * lock_host) :=
  let '(ret, revoke, st) := lsc_acquire (lh_locks s) lid (string_of_list_byte id) in
  Ok (lock_status_code ret, r, LockHost st (lh_calls s ++ callback revoke rlock_revoke_proc lid)).
Definition m_release (lid : Z) (id : list byte) (r : Z) (s : lock_host) : res (Z * Z * lock_host) :=
  '(ret, inform, st) ← lsc_release (lh_locks s) lid (string_of_list_byte id);
  Ok (lock_status_code ret, r, LockHost st (lh_calls s ++ callback inform rlock_retry_proc lid)).

Definition lock_smain (nonce count : Z) : res (rpcs lock_host) :=
  st ← new_rpcs nonce count;
  st ← reg1 st lock_stat_proc (reg_1 ull_codec int_codec m_stat);
  st ← reg1 st lock_acquire_proc (reg_2 ull_codec string_codec int_codec m_acquire);
  reg1 st lock_release_proc (reg_2 ull_codec string_codec int_codec m_release).

(** The calls of [lock_client_cache], with the client's address. *)
Definition stub_cache_acquire (st : rpcs lock_host) (h : req_header) (lid : Z) (id : string) (s : lock_host) :=
  wire_call (pair_codec ull_codec string_codec) int_codec st h (lid, list_byte_of_string id) s.
Definition stub_cache_release (st : rpcs lock_host) (h : req_header) (lid : Z) (id : string) (s : lock_host) :=
  wire_call (pair_codec ull_codec string_codec) int_codec st h (lid, list_byte_of_string id) s.

(** [lock_client], with any server: the identifier of its [rpcc] and the lock. *)
Definition lock_client_stat {S} (st : rpcs S) (h : req_header) (id lid : Z) (s : S) : res (Z * S) :=
  '(ret, r, s) ← wire_call (pair_codec int_codec ull_codec) int_codec st h (id, lid) s;
  _ ← VERIFY (ret =? lock_status_code L_OK);
  Ok (r, s).
Definition lock_client_acquire {S} (st : rpcs S) (h : req_header) (id lid : Z) (s : S) : res (Z * S) :=
  '(ret, r, s) ← wire_call (pair_codec int_codec ull_codec) int_codec st h (id, lid) s; Ok (ret, s).
Definition lock_client_release {S} (st : rpcs S) (h : req_header) (id lid : Z) (s : S) : res (Z * S) :=
  '(ret, r, s) ← wire_call (pair_codec int_codec ull_codec) int_codec st h (id, lid) s; Ok (ret, s).

(** ** The client's callback server *)

(** The process: the client's locks, and those the callbacks go on to give
    back. *)
Record client_host := ClientHost { ch_locks : lcc_locks; ch_release : list Z }.

Definition m_revoke (lid r : Z) (s : client_host) : res (Z * Z * client_host) :=
  let '(ret, flag, locks) := lcc_revoke_handler (ch_locks s) lid in
  Ok (lock_status_code ret, r, ClientHost locks (ch_release s ++ if flag : bool then [lid] else [])).
Definition m_retry (lid r : Z) (s : client_host) : res (Z * Z * client_host) :=
  let '(ret, locks) := lcc_retry_handler (ch_locks s) lid in
  Ok (lock_status_code ret, r, ClientHost locks (ch_release s)).

Definition new_rlsrpc (nonce : Z) : res (rpcs client_host) :=
  st ← new_rpcs nonce 0;
  st ← reg1 st rlock_revoke_proc (reg_1 ull_codec int_codec m_revoke);
  reg1 st rlock_retry_proc (reg_1 ull_codec int_codec m_retry).

(** The calls of [lock_server_cache] to its clients. *)
Definition stub_callback (st : rpcs client_host) (h : req_header) (lid : Z) (s : client_host) :=
  wire_call ull_codec int_codec st h lid s.

(** ** The tables *)

Lemma extent_smain_serves nonce count :
  exists st, extent_smain nonce count = Ok st /\
    serves st extent_get_proc (reg_1 ull_codec string_codec m_get) /\
    serves st extent_getattr_proc (reg_1 ull_codec attr_codec m_getattr) /\
    serves st extent_put_proc (reg_1 (pair_codec ull_codec string_codec) int_codec (fun p => m_put p.1 p.2)) /\
    serves st extent_remove_proc (reg_1 ull_codec int_codec m_remove).
Proof.
  unfold extent_smain, new_rpcs. registered. eexists. split; [done|]. split_and!; served.
  apply serves_here. apply reg_2_tuple.
Qed.

Lemma lock_smain_serves nonce count :
  exists st, lock_smain nonce count = Ok st /\
    serves st lock_stat_proc (reg_1 ull_codec int_codec m_stat) /\
    serves st lock_acquire_proc
      (reg_1 (pair_codec ull_codec string_codec) int_codec (fun p => m_acquire p.1 p.2)) /\
    serves st lock_release_proc
      (reg_1 (pair_codec ull_codec string_codec) int_codec (fun p => m_release p.1 p.2)).
Proof.
  unfold lock_smain, new_rpcs. registered. eexists. split; [done|]. split_and!; served;
    apply serves_here; apply reg_2_tuple.
Qed.

Lemma new_rlsrpc_serves nonce :
  exists st, new_rlsrpc nonce = Ok st /\
    serves st rlock_revoke_proc (reg_1 ull_codec int_codec m_revoke) /\
    serves st rlock_retry_proc (reg_1 ull_codec int_codec m_retry).
Proof. unfold new_rlsrpc, new_rpcs. registered. eexists. split; [done|]. split_and!; served. Qed.
End programs.

(** Values of fixed size fit. *)
Section fits.
Context `{Allocator}.
Lemma fits_ull x : is_unsigned 64 x -> fits ull_codec x.
Proof. by split. Qed.
Lemma fits_int x : is_signed 32 x -> fits int_codec x.
Proof. by split. Qed.
Lemma fits_attr a : attr_valid a -> fits attr_codec a.
Proof. by split. Qed.
Lemma fits_nil : fits string_codec [].
Proof. by split. Qed.
Lemma ext_status_range ret : ret = EXT_OK \/ ret = EXT_NOENT -> 0 <= ret <= INT_MAX.
Proof. by intros [-> | ->]. Qed.
End fits.

(** ** Types of what the extent server stores *)

Definition extents_typed (exts : extent_server) : Prop :=
  map_Forall (fun id e => is_unsigned 64 id /\ attr_valid (ex_attr e)) exts.

Lemma u32_typed z : is_unsigned 32 (u32 z).
Proof. apply wrapU_range. lia. Qed.

Lemma extent_put_typed exts now id buf :
  extents_typed exts -> is_unsigned 64 id -> extents_typed (extent_put exts now id buf).2.
Proof.
  intros Ht Hid. apply map_Forall_insert_2; [|done]. split; [done|].
  destruct (exts !! id) as [e|] eqn:E; unfold attr_valid; simpl; auto using u32_typed.
  destruct (Ht id e E) as [_ (? & _)]. auto using u32_typed.
Qed.

Lemma extent_get_typed exts now id : extents_typed exts -> extents_typed (extent_get exts now id).2.
Proof.
  intros Ht. unfold extent_get. destruct (exts !! id) as [e|] eqn:E; simpl; [|done].
  destruct (Ht id e E) as [Hid (_ & ? & ? & ?)].
  apply map_Forall_insert_2; [|done]. split; [done|]. unfold attr_valid. simpl. auto using u32_typed.
Qed.

Lemma extent_remove_typed exts id : extents_typed exts -> extents_typed (extent_remove exts id).2.
Proof.
  intros Ht. unfold extent_remove. destruct (exts !! id) as [e|]; simpl; [|done].
  by apply map_Forall_delete.
Qed.

Definition call_typed (c : ext_call) : Prop :=
  match c with E_put _ id _ | E_get _ id | E_getattr id | E_remove id => is_unsigned 64 id end.

Lemma ext_execs_typed cs : forall exts, extents_typed exts -> Forall call_typed cs ->
  extents_typed (foldl ext_exec exts cs).
Proof.
  induction cs as [|c cs IH]; intros exts Ht Hc; simpl; [done|].
  apply Forall_cons in Hc as [Hc Hcs]. apply IH; [|done].
  destruct c; cbn [ext_exec call_typed] in *;
    auto using extent_put_typed, extent_get_typed, extent_remove_typed.
Qed.

(** * Properties *)


(** C15. The stubs are the methods. The program extent_smain registers all four
    methods, and a call of [extent_client]'s stubs through marshalling, dispatch
    by procedure number, decoding, the method, and the reply's way back gives
    exactly the status, result and server state of calling the method directly,
    for every extent whose contents fit into a message. *)
Theorem extent_stubs_direct `{Allocator} nonce count :
  exists st, extent_smain nonce count = Ok st /\
  forall s h eid,
    extents_typed (eh_exts s) -> map_Forall (fun _ e => fits string_codec (ex_name e)) (eh_exts s) ->
    is_unsigned 64 eid -> valid_req_header h ->
    (h_proc h = extent_get_proc -> stub_get st h eid s =
       let '(ret, buf, exts) := extent_get (eh_exts s) (eh_now s) eid in Ok (ret, buf, eh_set s exts)) /\
    (h_proc h = extent_getattr_proc -> stub_getattr st h eid s =
       let '(ret, a) := extent_getattr (eh_exts s) eid (Attr 0 0 0 0) in Ok (ret, a, s)) /\
    (forall buf, h_proc h = extent_put_proc -> fits (pair_codec ull_codec string_codec) (eid, buf) ->
       stub_put st h eid buf s =
         let '(ret, exts) := extent_put (eh_exts s) (eh_now s) eid buf in Ok (ret, 0, eh_set s exts)) /\
    (h_proc h = extent_remove_proc -> stub_remove st h eid s =
       let '(ret, exts) := extent_remove (eh_exts s) eid in Ok (ret, 0, eh_set s exts)).
Proof.
  destruct (extent_smain_serves nonce count) as (st & E & H1 & H2 & H3 & H4).
  exists st. split; [done|]. intros s h eid Ht Hfit Hid Hh.
  assert (Hu : fits ull_codec eid) by (by apply fits_ull).
  assert (Hz : fits int_codec 0) by (by apply fits_int).
  split_and!.
  - intros Hp. unfold stub_get. rewrite <- Hp in H1. unfold extent_get.
    destruct (eh_exts s !! eid) as [e|] eqn:El;
      (eapply (wire_call_ok ull_codec string_codec);
        [exact H1|exact Hh|exact Hu| |apply ext_status_range; auto
        |unfold m_get, extent_get; by rewrite El]).
    + by apply (Hfit eid).
    + apply fits_nil.
  - intros Hp. unfold stub_getattr. rewrite <- Hp in H2. unfold extent_getattr.
    destruct (eh_exts s !! eid) as [e|] eqn:El;
      (eapply (wire_call_ok ull_codec attr_codec);
        [exact H2|exact Hh|exact Hu|apply fits_attr|apply ext_status_range; auto
        |unfold m_getattr, extent_getattr; by rewrite El]); [|done].
    by destruct (Ht eid e El) as [_ ?].
  - intros buf Hp Hb. unfold stub_put. rewrite <- Hp in H3.
    by eapply (wire_call_ok (pair_codec ull_codec string_codec) int_codec);
      [exact H3|exact Hh|exact Hb|exact Hz|apply ext_status_range; auto|].
  - intros Hp. unfold stub_remove. rewrite <- Hp in H4. unfold extent_remove.
    destruct (eh_exts s !! eid) as [e|] eqn:El;
      (eapply (wire_call_ok ull_codec int_codec);
        [exact H4|exact Hh|exact Hu|exact Hz|apply ext_status_range; auto
        |unfold m_remove, extent_remove; by rewrite El]).
Qed.

(** C16. The lock protocol's stubs are the methods, both ways: the acquire and
    release calls of [lock_client_cache] through lock_smain's table give the
    status, the new lock table and the callbacks of [lock_server_cache], and the
    revoke and retry calls of the server through the table a client registers
    give those of the client's handlers. *)
Theorem lock_stubs_direct `{Allocator} nonce count :
  exists st, lock_smain nonce count = Ok st /\
  (forall s h lid id, valid_req_header h ->
    fits (pair_codec ull_codec string_codec) (lid, list_byte_of_string id) ->
    (h_proc h = lock_acquire_proc -> stub_cache_acquire st h lid id s =
       let '(ret, revoke, locks) := lsc_acquire (lh_locks s) lid id in
       Ok (lock_status_code ret, 0,
           LockHost locks (lh_calls s ++ callback revoke rlock_revoke_proc lid))) /\
    (forall ret inform locks, h_proc h = lock_release_proc ->
       lsc_release (lh_locks s) lid id = Ok (ret, inform, locks) ->
       stub_cache_release st h lid id s =
       Ok (lock_status_code ret, 0,
           LockHost locks (lh_calls s ++ callback inform rlock_retry_proc lid)))) /\
  exists rst, new_rlsrpc nonce = Ok rst /\
  forall s h lid, valid_req_header h -> is_unsigned 64 lid ->
    (h_proc h = rlock_revoke_proc -> stub_callback rst h lid s =
       let '(ret, flag, locks) := lcc_revoke_handler (ch_locks s) lid in
       Ok (lock_status_code ret, 0, ClientHost locks (ch_release s ++ if flag : bool then [lid] else []))) /\
    (h_proc h = rlock_retry_proc -> stub_callback rst h lid s =
       let '(ret, locks) := lcc_retry_handler (ch_locks s) lid in
       Ok (lock_status_code ret, 0, ClientHost locks (ch_release s))).
Proof.
  assert (Hz : fits int_codec 0) by (by apply fits_int).
  assert (Hst : forall ret, 0 <= lock_status_code ret <= INT_MAX) by (by intros []).
  destruct (lock_smain_serves nonce count) as (st & E & _ & H2 & H3).
  exists st. split; [done|]. split.
  { intros s h lid id Hh Hf. split.
    - intros Hp. rewrite <- Hp in H2. destruct (lsc_acquire (lh_locks s) lid id) as [[ret rv] l] eqn:El.
      eapply (wire_call_ok (pair_codec ull_codec string_codec) int_codec);
        [exact H2|exact Hh|exact Hf|exact Hz|apply Hst|].
      unfold m_acquire. cbn [fst snd]. by rewrite string_of_list_byte_of_string, El.
    - intros ret inform locks Hp El. rewrite <- Hp in H3.
      eapply (wire_call_ok (pair_codec ull_codec string_codec) int_codec);
        [exact H3|exact Hh|exact Hf|exact Hz|apply Hst|].
      unfold m_release. cbn [fst snd]. by rewrite string_of_list_byte_of_string, El. }
  destruct (new_rlsrpc_serves nonce) as (rst & Er & Hv & Ht). exists rst. split; [done|].
  intros s h lid Hh Hl. assert (Hu : fits ull_codec lid) by (by apply fits_ull). split; intros Hp.
  - rewrite <- Hp in Hv. destruct (lcc_revoke_handler (ch_locks s) lid) as [[ret fl] l] eqn:El.
    eapply (wire_call_ok ull_codec int_codec); [exact Hv|exact Hh|exact Hu|exact Hz|apply Hst|].
    unfold m_revoke. by rewrite El.
  - rewrite <- Hp in Ht. destruct (lcc_retry_handler (ch_locks s) lid) as [ret l] eqn:El.
    eapply (wire_call_ok ull_codec int_codec); [exact Ht|exact Hh|exact Hu|exact Hz|apply Hst|].
    unfold m_retry. by rewrite El.
Qed.

(** The blocking client's stubs return the status of any method registered with
    their argument types, such as [lock_server]'s; [stat] insists on OK. *)
Theorem lock_client_stubs `{Allocator} {S} (st : rpcs S) h id lid s
    (meth : Z -> Z -> Z -> S -> res (Z * Z * S)) ret r s' :
  serves st (h_proc h) (reg_1 (pair_codec int_codec ull_codec) int_codec (fun p => meth p.1 p.2)) ->
  valid_req_header h -> is_signed 32 id -> is_unsigned 64 lid -> is_signed 32 r ->
  0 <= ret <= INT_MAX -> meth id lid 0 s = Ok (ret, r, s') ->
  lock_client_acquire st h id lid s = Ok (ret, s') /\
  lock_client_release st h id lid s = Ok (ret, s') /\
  lock_client_stat st h id lid s = if ret =? lock_status_code L_OK then Ok (r, s') else Err Verify_failed.
Proof.
  intros Hs Hh Hid Hl Hr Hret Hm.
  assert (E : wire_call (pair_codec int_codec ull_codec) int_codec st h (id, lid) s = Ok (ret, r, s')).
  { eapply (wire_call_ok (pair_codec int_codec ull_codec) int_codec); [exact Hs|exact Hh| | |exact Hret|exact Hm].
    - by split.
    - by apply fits_int. }
  unfold lock_client_acquire, lock_client_release, lock_client_stat. rewrite E. cbn [mbind res_bind].
  split_and!; [done|done|]. by destruct (ret =? lock_status_code L_OK).
Qed.

(** The bytes of an [int] and an [unsigned long long], read from the front as an
    [unsigned long long]. *)
Lemma int_ull_bytes (id lid : Z) :
  is_signed 32 id -> is_unsigned 64 lid ->
  exists x, is_unsigned 64 x /\ be 4 id ++ be 8 lid = be 8 x ++ be 4 lid.
Proof.
  intros Hid Hl. change (0 <= lid < 2 ^ 64) in Hl.
  set (hi := u32 id). set (lo := Z.shiftr lid 32).
  assert (Hhi : 0 <= hi < 2 ^ 32) by (apply (wrapU_range 32); lia).
  assert (Hlo : 0 <= lo < 2 ^ 32).
  { unfold lo. rewrite Z.shiftr_div_pow2 by lia.
    split; [apply Z.div_pos; lia | apply Z.div_lt_upper_bound; lia]. }
  exists (hi * 2 ^ 32 + lo). split; [unfold is_unsigned; nia|].
  rewrite be_8, (be_8 (hi * 2 ^ 32 + lo)), <- app_assoc. f_equal.
  - rewrite Z.shiftr_div_pow2, Z.div_add_l, (Z.div_small lo), Z.add_0_r by lia.
    unfold hi. by rewrite be_4_u32.
  - fold lo. f_equal. rewrite <- (be_4_u32 lo), <- (be_4_u32 (hi * 2 ^ 32 + lo)). f_equal. unfold wrapU.
    by rewrite Z.add_comm, Z.mod_add by lia.
Qed.

(** A program whose stub and server disagree about the arguments. [lock_client]
    sends an [int] and the lock to stat, but lock_smain registers the [stat] of
    [lock_server_cache], which takes the lock alone: whatever client and lock,
    the handler's arguments do not end where the request ends, [dispatch] fails
    its VERIFY, and the lock server is gone. (src/lock_demo.cc makes exactly
    this call.) *)
Theorem lock_demo_ends_server `{Allocator} nonce count h id lid s :
  valid_req_header h -> h_proc h = lock_stat_proc -> is_signed 32 id -> is_unsigned 64 lid ->
  exists st, lock_smain nonce count = Ok st /\ lock_client_stat st h id lid s = Err Verify_failed.
Proof.
  intros Hh Hp Hid Hl. destruct (lock_smain_serves nonce count) as (st & E & (f & Hf & Hfe) & _ & _).
  exists st. split; [done|]. unfold lock_client_stat. rewrite <- Hp in Hf.
  rewrite (wire_call_abort (pair_codec int_codec ull_codec) int_codec st h f (id, lid)); try done.
  intros szf Hszf. cbn [c_enc pair_codec int_codec ull_codec fst snd].
  destruct (int_ull_bytes id lid Hid Hl) as (x & Hx & ->).
  apply (extra_bytes_abort ull_codec int_codec h f szf x (be 4 lid) s m_stat); try done.
  cbn [c_enc ull_codec]. unfold enc_req_header, INT_MAX. len.
Qed.

(** ** Witnesses *)

Module ServiceExamples.
Definition hello : list byte := byte_of_Z <$> [104; 101; 108; 108; 111].
Definition host : extent_host := ExtentHost 500 (extent_put (new_extent_server 100) 100 7 hello).2.
Definition header (proc : Z) : req_header := ReqHeader 1 proc 5 77 0.
Definition calls : list ext_call := [E_put 100 7 hello; E_get (2 ^ 40) 7; E_remove 1].
End ServiceExamples.
Import ServiceExamples.
#[local] Existing Instance zero_allocator.


Lemma lock_client_stubs_witness :
  exists st : rpcs Z, lock_client_stat st (header 9) 5 1 40 = Ok (41, 40).
Proof.
  set (meth := fun clt lid r s : Z => Ok (0, 41, s) : res (Z * Z * Z)).
  set (st := Rpcs 77 ∅ ∅ 0 0 ∅ {[9 := reg_1 (pair_codec int_codec ull_codec) int_codec
    (fun p => meth p.1 p.2)]} true ∅ : rpcs Z). exists st.
  refine (proj2 (proj2 (lock_client_stubs st (header 9) 5 1 40 meth 0 41 40 _ _ _ _ _ _ _))).
  - eexists. split; [apply lookup_singleton_eq|reflexivity].
  - vm_compute. split_and!; congruence.
  - vm_compute. split_and!; congruence.
  - vm_compute. split_and!; congruence.
  - vm_compute. split_and!; congruence.
  - vm_compute. split_and!; congruence.
  - reflexivity.
Defined.

Lemma lock_demo_ends_server_witness :
  exists st, lock_smain 77 0 = Ok st /\
    lock_client_stat st (header lock_stat_proc) 5 1 (LockHost (new_lock_server_cache 0) []) = Err Verify_failed.
Proof.
  apply (lock_demo_ends_server 77 0 (header lock_stat_proc) 5 1);
    [|reflexivity|..]; vm_compute; split_and!; congruence.
Defined.

(** A get of extent 7 through the wire. *)
Lemma extent_stubs_direct_witness :
  exists st, extent_smain 77 0 = Ok st /\
    exists s', stub_get st (header extent_get_proc) 7 host = Ok (EXT_OK, hello, s').
Proof.
  destruct (extent_stubs_direct 77 0) as (st & E & Hst). exists st. split; [exact E|]. eexists.
  refine (eq_trans (proj1 (Hst host (header extent_get_proc) 7 _ _ _ _) eq_refl) eq_refl).
  - apply extent_put_typed; [|done]. apply extent_put_typed; [|done]. apply map_Forall_empty.
  - apply map_Forall_insert_2; [split; [vm_compute; congruence|reflexivity]|].
    apply map_Forall_insert_2; [apply fits_nil|]. apply map_Forall_empty.
  - vm_compute. split; congruence.
  - vm_compute. split_and!; congruence.
Defined.

(** An acquire of lock 7 by the client at 127.0.0.1:2000. *)
Lemma lock_stubs_direct_witness :
  exists st, lock_smain 77 0 = Ok st /\
    exists s', stub_cache_acquire st (header lock_acquire_proc) 7 "127.0.0.1:2000"
      (LockHost (new_lock_server_cache 0) []) = Ok (lock_status_code L_OK, 0, s').
Proof.
  destruct (lock_stubs_direct 77 0) as (st & E & Hst & _). exists st. split; [exact E|]. eexists.
  refine (eq_trans (proj1 (Hst _ (header lock_acquire_proc) 7 "127.0.0.1:2000" _ _) eq_refl) eq_refl).
  - vm_compute. split_and!; congruence.
  - split; [vm_compute; split_and!; congruence|reflexivity].
Defined.
