(* ===== verification/RpcSystem.v ===== *)
(** * RPC clients, a network and a server together

    src/rpc/rpc.cc as a whole: any number of [rpcc] endpoints and one [rpcs],
    joined by a network that may lose, delay, reorder and duplicate packets. A
    state is the endpoints of RpcClient, the server of RpcServer with its jobs,
    and the packets ever sent; the steps are the critical sections of [call1],
    [got_pdu], [cancel] and [dispatch] in any order. The specification is a
    machine without packets, in which a call is issued and later performed, once,
    on the server's state. Clients without a nonce ask for no guarantee and are
    not part of the system. *)
From S2P Require Import Prelude Marshall ReplyWindow RpcUtil RpcClient Connection RpcServer.
From S2P Require Import Service.

(** ** What the server offers *)

Section service.
Context {S : Type}.

(** A registered method. Methods of several arguments are methods of their tuple. *)
Record method := Method {
  me_arg : Type;
  me_res : Type;
  me_c : codec me_arg;
  me_cr : codec me_res;
  me_fn : me_arg -> me_res -> S -> res (Z * me_res * S)
}.

Definition serve (m : method) : handler S := reg_1 (me_c m) (me_cr m) (me_fn m).

(** The operators of its types are correct, and what the method returns are
    values of its result type that fit into a message. *)
Record method_ok (m : method) : Prop := {
  mo_c : CodecOk (me_c m);
  mo_cr : CodecOk (me_cr m);
  mo_fn : forall a s ret r s', fits (me_c m) a ->
    me_fn m a (c_init (me_cr m)) s = Ok (ret, r, s') ->
    fits (me_cr m) r /\ ret <= INT_MAX
}.

#[local] Notation service := (gmap Z method).

(** The methods are registered. *)
Definition offers (srv : service) (st : rpcs S) : Prop :=
  forall p m, srv !! p = Some m -> serves st p (serve m).
Definition service_ok (srv : service) : Prop :=
  map_Forall (fun p m => is_signed 32 p /\ method_ok m) srv.

(** Method [p] at the arguments with encoding [args]. *)
Definition performs (srv : service) (p : Z) (args : list byte) (s : S)
    (ret : Z) (rs : list byte) (s' : S) : Prop :=
  exists m a r, srv !! p = Some m /\ fits (me_c m) a /\ c_enc (me_c m) a = args /\
    me_fn m a (c_init (me_cr m)) s = Ok (ret, r, s') /\ 0 <= ret /\
    fits (me_cr m) r /\ c_enc (me_cr m) r = rs.

(** ** The specification: calls without a network *)

Inductive acall :=
  | Issued (p : Z) (args : list byte)
  | Performed (p : Z) (args : list byte) (ret : Z) (rs : list byte).

Definition acall_request (c : acall) : Z * list byte :=
  match c with Issued p args | Performed p args _ _ => (p, args) end.

(** Calls are known by the client's nonce and the xid. *)
Record spec := Spec { sp_app : S; sp_calls : gmap (Z * Z) acall }.

Inductive spec_step (srv : service) : spec -> spec -> Prop :=
  | sp_issue sp k p args :
      sp_calls sp !! k = None ->
      spec_step srv sp (Spec (sp_app sp) (<[k := Issued p args]> (sp_calls sp)))
  | sp_perform sp k p args ret rs app :
      sp_calls sp !! k = Some (Issued p args) ->
      performs srv p args (sp_app sp) ret rs app ->
      spec_step srv sp (Spec app (<[k := Performed p args ret rs]> (sp_calls sp))).
End service.
Arguments method : clear implicits.
Arguments spec : clear implicits.
Notation service S := (gmap Z (method S)).

(** ** The system *)

(** What [call1] sent under an xid: the procedure, the encoded arguments and
    the packet. *)
Record sent := Sent { sn_proc : Z; sn_args : list byte; sn_pkt : list byte }.

Record endpoint := Endpoint { ep_rpcc : rpcc; ep_sent : gmap Z sent }.

Section net.
Context `{Allocator} {S : Type} (srv : service S).

Record net := Net { nw_clients : gmap Z endpoint; nw_server : sys S }.

(** The critical sections of a client in which no packet is made or received. *)
Inductive local_step : rpcc -> rpcc -> Prop :=
  | ls_transmit st req : local_step st (call1_transmit st req).1
  | ls_unlink st x st' ca :
      is_unsigned 32 x -> call1_unlink st x = Ok (st', ca) -> local_step st st'
  | ls_keep_dup st ca xr req : local_step st (call1_keep_dup st ca xr req)
  | ls_bind st ret r : local_step st (bind_finish st ret r)
  | ls_cancel st : local_step st (cancel st)
  | ls_reachable st r : local_step st (set_reachable st r).

Definition set_endpoint (w : net) (n : Z) (ep : endpoint) : net :=
  Net (<[n := ep]> (nw_clients w)) (nw_server w).
Definition set_server (w : net) (s : sys S) : net := Net (nw_clients w) s.

(** The answers of [dispatch] that stand for no execution. *)
Definition refusal (ret : Z) : Prop := ret = oldsrv_failure \/ ret = atmostonce_failure.

Inductive net_step : net -> net -> Prop :=
  | n_connect w rnd loss :
      u32 rnd <> 0 -> nw_clients w !! u32 rnd = None ->
      net_step w (set_endpoint w (u32 rnd) (Endpoint (new_rpcc true rnd loss) ∅))
  (* [call] marshalls its arguments and [call1] makes the packet *)
  | n_call w n ep p m a req rep st x xr req' :
      nw_clients w !! n = Some ep -> srv !! p = Some m -> fits (me_c m) a ->
      call_1 (me_c m) a = Ok req -> xid_ (ep_rpcc ep) < XID_LIMIT ->
      call1_begin (ep_rpcc ep) p req rep = Ok (Begun st x xr req') ->
      net_step w (set_endpoint w n (Endpoint st
        (<[x := Sent p (c_enc (me_c m) a) (marshall_cstr req')]> (ep_sent ep))))
  | n_local w n ep st :
      nw_clients w !! n = Some ep -> local_step (ep_rpcc ep) st ->
      net_step w (set_endpoint w n (Endpoint st (ep_sent ep)))
  (* a packet ever sent arrives, over any connection and however often *)
  | n_request w n ep x sn c st dj :
      nw_clients w !! n = Some ep -> ep_sent ep !! x = Some sn ->
      let s := nw_server w in
      let pkt := on_wire (sn_pkt sn) in
      got_pdu (sy_rs s) c pkt (zlen pkt) true true = Ok (st, Some dj, true) ->
      net_step w (set_server w
        (Sys st (sy_app s) (dj :: sy_queue s) (sy_run s) (sy_rep s) (sy_exec s) (sy_sent s)))
  | n_begin w q1 dj q2 st b :
      let s := nw_server w in
      sy_queue s = q1 ++ dj :: q2 -> dispatch_begin (sy_rs s) dj = Ok (st, b) ->
      net_step w (set_server w (after_begin s st (q1 ++ q2) b))
  | n_run w r1 j r2 b app :
      let s := nw_server w in
      sy_run s = r1 ++ j :: r2 -> dispatch_run j (sy_app s) = Ok (b, app) ->
      net_step w (set_server w
        (Sys (sy_rs s) app (sy_queue s) (r1 ++ r2) ((j, b) :: sy_rep s)
           ((job_key j, b) :: sy_exec s) (sy_sent s)))
  | n_answer w p1 j b p2 st c :
      let s := nw_server w in
      sy_rep s = p1 ++ (j, b) :: p2 -> dispatch_reply (sy_rs s) j b = Ok (st, c) ->
      net_step w (set_server w
        (Sys st (sy_app s) (sy_queue s) (sy_run s) (p1 ++ p2) (sy_exec s)
           ((job_key j, b) :: sy_sent s)))
  | n_conns w hp :
      let s := nw_server w in
      net_step w (set_server w
        (Sys (set_heap (sy_rs s) hp) (sy_app s) (sy_queue s) (sy_run s) (sy_rep s)
           (sy_exec s) (sy_sent s)))
  (* a reply ever sent arrives, however often *)
  | n_reply w n ep x b st :
      nw_clients w !! n = Some ep -> ((n, x), b) ∈ sy_sent (nw_server w) ->
      let pkt := on_wire b in
      rpcc_got_pdu (ep_rpcc ep) pkt (zlen pkt) = Ok st ->
      net_step w (set_endpoint w n (Endpoint st (ep_sent ep)))
  | n_refuse w n ep x sn ret rep st :
      nw_clients w !! n = Some ep -> ep_sent ep !! x = Some sn -> refusal ret ->
      pack_reply_header new_marshall (ReplyHeader x ret) = Ok rep ->
      let pkt := on_wire (marshall_cstr rep) in
      rpcc_got_pdu (ep_rpcc ep) pkt (zlen pkt) = Ok st ->
      net_step w (set_endpoint w n (Endpoint st (ep_sent ep))).

(** A server that offers [srv] and nobody else yet. *)
Definition net_init (app : S) (w : net) : Prop :=
  nw_clients w = ∅ /\ sys_init (nw_server w) /\ sy_queue (nw_server w) = [] /\
  sy_app (nw_server w) = app /\ offers srv (sy_rs (nw_server w)).

Definition net_reachable (app : S) (w : net) : Prop :=
  exists w0, net_init app w0 /\ rtc net_step w0 w.

(** The value [call_m] takes out of a finished call. *)
Definition returns (p ret : Z) (rs : list byte) (un : unmarshall) : Prop :=
  exists m r, srv !! p = Some m /\ fits (me_cr m) r /\ c_enc (me_cr m) r = rs /\
    call_m (me_cr m) (c_init (me_cr m)) ret un = Ok (ret, r).

(** The request a client made under an xid. *)
Definition issued (w : net) (n x : Z) : option sent :=
  nw_clients w !! n ≫= fun ep => ep_sent ep !! x.

(** How a state of the system shows a state of the specification. *)
Record implements (w : net) (sp : spec S) : Prop := {
  (* the same server state *)
  im_app : sp_app sp = sy_app (nw_server w);
  (* the calls issued are the ones the clients made *)
  im_issued : forall n x, acall_request <$> sp_calls sp !! (n, x) =
    (fun sn => (sn_proc sn, sn_args sn)) <$> issued w n x;
  (* the calls performed are the ones a handler was run for *)
  im_performed : forall n x, n <> 0 ->
    (n, x) ∈ (sy_exec (nw_server w)).*1 <->
    exists p args ret rs, sp_calls sp !! (n, x) = Some (Performed p args ret rs);
  (* a call that ended without an error returned what was performed *)
  im_returned : forall n ep x ca, nw_clients w !! n = Some ep ->
    calls (ep_rpcc ep) !! x = Some ca -> ca_done ca = true -> 0 <= ca_intret ca ->
    exists p args rs, sp_calls sp !! (n, x) = Some (Performed p args (ca_intret ca) rs) /\
      returns p (ca_intret ca) rs (ca_un ca)
}.
End net.
Arguments net : clear implicits.

(** ** The invariant *)

Section proof.
Context `{Allocator} {S : Type} (srv : service S).
Hypothesis srv_ok : service_ok srv.
Implicit Types (w : net S) (sp : spec S).

Lemma srv_method p m : srv !! p = Some m -> is_signed 32 p /\ method_ok m.
Proof. apply srv_ok. Qed.

(** The packet of a call, as the server reads it. *)
Definition carries (n x p : Z) (args pkt : list byte) : Prop :=
  exists m a h u u', srv !! p = Some m /\ fits (me_c m) a /\ c_enc (me_c m) a = args /\
    unpack_req_header (new_unmarshall (on_wire pkt) (zlen (on_wire pkt))) = Ok (h, u) /\
    h_xid h = x /\ h_clt_nonce h = n /\ h_proc h = p /\
    c_get (me_c m) (c_init (me_c m)) u = Ok (a, u') /\ okdone u' = true.

(** A job that will run the method of a call on its arguments. *)
Definition job_for (n x p : Z) (args : list byte) (j : job S) : Prop :=
  exists m a u', srv !! p = Some m /\ fits (me_c m) a /\ c_enc (me_c m) a = args /\
    (forall args ret s, jb_f j args ret s = serve m args ret s) /\ h_xid (jb_h j) = x /\ h_clt_nonce (jb_h j) = n /\
    c_get (me_c m) (c_init (me_c m)) (jb_req j) = Ok (a, u') /\ okdone u' = true.

(** The packet that answers a call. *)
Definition answers (x p ret : Z) (rs b : list byte) : Prop :=
  0 <= ret <= INT_MAX /\ exists m r rep, srv !! p = Some m /\ fits (me_cr m) r /\
    c_enc (me_cr m) r = rs /\ build_reply (me_cr m) (ReplyHeader x ret) r = Ok rep /\
    b = marshall_cstr rep.

Record client_ok (n : Z) (ep : endpoint) : Prop := {
  co_nonce : n <> 0 /\ is_unsigned 32 n /\ clt_nonce (ep_rpcc ep) = n;
  co_srv : is_unsigned 32 (srv_nonce (ep_rpcc ep));
  co_rpcc : exists R, rpcc_inv R (ep_rpcc ep);
  co_sent : forall x sn, ep_sent ep !! x = Some sn ->
    1 <= x < xid_ (ep_rpcc ep) /\ carries n x (sn_proc sn) (sn_args sn) (sn_pkt sn)
}.

Record net_inv w : Prop := {
  ni_sys : sys_reachable (nw_server w);
  ni_procs : offers srv (sy_rs (nw_server w));
  ni_client : map_Forall client_ok (nw_clients w);
  ni_queue : forall dj, dj ∈ sy_queue (nw_server w) -> exists n x sn,
    issued w n x = Some sn /\ dj_buf dj = on_wire (sn_pkt sn) /\
    dj_sz dj = zlen (on_wire (sn_pkt sn));
  ni_run : forall j, j ∈ sy_run (nw_server w) -> exists n x sn,
    issued w n x = Some sn /\ job_for n x (sn_proc sn) (sn_args sn) j
}.

Record sim w sp : Prop := {
  sm_inv : net_inv w;
  sm_imp : implements srv w sp;
  sm_exec : forall n x b, n <> 0 -> ((n, x), b) ∈ sy_exec (nw_server w) ->
    exists p args ret rs, sp_calls sp !! (n, x) = Some (Performed p args ret rs) /\
      answers x p ret rs b
}.

(** *** Packets *)

Lemma issued_carries w n x sn :
  net_inv w -> issued w n x = Some sn ->
  carries n x (sn_proc sn) (sn_args sn) (sn_pkt sn) /\ n <> 0 /\ 1 <= x < XID_LIMIT.
Proof.
  intros Hi (ep & Hep & Hx)%bind_Some. pose proof (ni_client _ Hi _ _ Hep) as Hc.
  destruct (co_sent _ _ Hc _ _ Hx) as [Hr Hca]. destruct (co_rpcc _ _ Hc) as [R Hinv].
  pose proof (inv_xid _ _ Hinv). split_and!; [done|apply (co_nonce _ _ Hc)|lia|lia].
Qed.

(** [call1] makes a packet that carries the call. *)
Lemma call_carries n ep p m a req rep st x xr req' :
  client_ok n ep -> srv !! p = Some m -> fits (me_c m) a -> call_1 (me_c m) a = Ok req ->
  xid_ (ep_rpcc ep) < XID_LIMIT ->
  call1_begin (ep_rpcc ep) p req rep = Ok (Begun st x xr req') ->
  x = xid_ (ep_rpcc ep) /\ carries n x p (c_enc (me_c m) a) (marshall_cstr req').
Proof.
  intros [(Hn & Hun & En) Hsrv (R & Hinv) _] Hm [Ha Hroom] Hreq Hlim E.
  destruct (srv_method _ _ Hm) as [Hp [Hc _ _]]. unfold call1_begin in E.
  destruct (_ || _); [done|]. destruct (destroy_wait _); [done|]. cbv zeta in E.
  destruct (window_front_below R _ Hinv) as (f & Ef & Hf & Hfx). rewrite Ef in E.
  cbn [mbind res_bind] in E. apply res_bind_Ok_inv in E as (req1 & E1 & E).
  injection E as _ <- _ <-. split; [done|].
  destruct (request_parse (me_c m) (mk_req_header (xid_ (ep_rpcc ep)) p (clt_nonce (ep_rpcc ep))
    (srv_nonce (ep_rpcc ep)) f) a (be 4 (zlen (marshall_cstr req1))) Ha (mk_req_header_valid _ _ _ _ _)
    eq_refl Hroom) as (req2 & E2 & Eu & u' & Eg & Hd).
  unfold build_request in E2. unfold call_1 in Hreq. rewrite Hreq in E2. cbn [mbind res_bind] in E2.
  rewrite E1 in E2. injection E2 as <-.
  eexists m, a, _, _, u'. split_and!; [done..|exact Eu| | | |exact Eg|done];
    pose proof (inv_xid _ _ Hinv); unfold mk_req_header; cbn [h_xid h_clt_nonce h_proc].
  - rewrite s32_xid; lia.
  - rewrite wrapU_wrapS, En. by apply wrapU_small.
  - by apply wrapS_small; [lia|].
Qed.

Lemma begin_job (st st' : rpcs S) n x p args pkt dj j :
  offers srv st -> carries n x p args pkt -> dj_buf dj = on_wire pkt ->
  dj_sz dj = zlen (on_wire pkt) -> dispatch_begin st dj = Ok (st', B_new j) ->
  job_for n x p args j.
Proof.
  intros Hp (m & a & h & u & u' & Hm & Hf & He & Eu & Hx & Hn & Hpr & Eg & Hd) Eb Es
    [Eh Ef]%dispatch_begin_new.
  rewrite Eb, Es, Eu in Eh. injection Eh as -> ->. exists m, a, u'. split_and!; try done.
  destruct (Hp _ _ Hm) as (g & Eg' & Hg). rewrite Hpr, Eg' in Ef. by injection Ef as <-.
Qed.

(** Running the handler performs the call and packs its answer. *)
Lemma run_performs n x p args j s b s' :
  job_for n x p args j -> dispatch_run j s = Ok (b, s') ->
  exists ret rs, performs srv p args s ret rs s' /\ answers x p ret rs b.
Proof.
  intros (m & a & u' & Hm & Hf & He & Ej & Hx & _ & Eg & Hd) E.
  destruct (srv_method _ _ Hm) as [_ [_ _ Hfn]].
  unfold dispatch_run in E. rewrite Ej in E. unfold serve, reg_1 in E. rewrite Eg in E.
  cbn [mbind res_bind] in E. unfold fn_tail in E. rewrite Hd in E. cbn [negb] in E.
  apply res_bind_Ok_inv in E as ([[ret mr] s1] & E1 & E).
  apply res_bind_Ok_inv in E1 as ([[ret' r] s2] & Em & E1).
  apply res_bind_Ok_inv in E1 as (mr' & Ep & [= -> -> ->]).
  apply res_bind_Ok_inv in E as ([] & _ & E).
  apply res_bind_Ok_inv in E as ([] & Hge%VERIFY_Ok%Z.geb_le & E).
  apply res_bind_Ok_inv in E as (rep & Er & [= <- <-]).
  destruct (Hfn _ _ _ _ _ Hf Em) as [Hfr Hmax].
  exists ret, (c_enc (me_cr m) r). split; [by exists m, a, r|]. split; [done|].
  exists m, r, rep. rewrite Hx in Er. split_and!; [done..| |done].
  unfold build_reply. by rewrite Ep.
Qed.

(** The answer as the client reads it. *)
Lemma answers_read x p ret rs b :
  1 <= x < XID_LIMIT -> answers x p ret rs b ->
  exists u, unpack_reply_header (new_unmarshall (on_wire b) (zlen (on_wire b))) =
      Ok (ReplyHeader x ret, u) /\ u_ok u = true /\ 0 <= ret /\ returns srv p ret rs (take_in u).
Proof.
  unfold XID_LIMIT. intros Hx (Hret & m & r & rep & Hm & [Hr Hroom] & Hrs & Eb & ->).
  destruct (srv_method _ _ Hm) as [_ [_ Hcr _]]. unfold INT_MAX in Hret.
  destruct (reply_parse (me_cr m) (ReplyHeader x ret) r (be 4 (zlen (marshall_cstr rep))) Hr)
    as (rep' & E' & Eu & u' & Eg & Hd); [split; unfold is_signed; simpl; lia|done|done|].
  rewrite Eb in E'. injection E' as <-. eexists. split; [exact Eu|]. split; [done|]. split; [lia|].
  exists m, r. split_and!; [done..|]. unfold call_m. destruct (Z.ltb_spec ret 0); [lia|].
  unfold on_wire in Eg |- *. rewrite Eg. cbn [mbind res_bind]. by rewrite Hd.
Qed.

(** A reply without results. *)
Definition void_codec : codec unit :=
  Codec (fun _ m => Ok m) (fun _ u => Ok (tt, u)) tt (fun _ => True) (fun _ => []).

#[local] Instance void_codec_ok : CodecOk void_codec.
Proof. split; [intros [] _; by apply appends_nil|intros [] _; apply consumes_ret]. Qed.

Lemma refusal_read x ret rep :
  1 <= x < XID_LIMIT -> refusal ret ->
  pack_reply_header new_marshall (ReplyHeader x ret) = Ok rep ->
  exists u, unpack_reply_header (new_unmarshall (on_wire (marshall_cstr rep))
    (zlen (on_wire (marshall_cstr rep)))) = Ok (ReplyHeader x ret, u) /\ u_ok u = true.
Proof.
  unfold XID_LIMIT. intros Hx Hret E.
  destruct (reply_parse void_codec (ReplyHeader x ret) tt (be 4 (zlen (marshall_cstr rep))))
    as (rep' & E' & Eu & _); [done| |done|done|].
  { unfold refusal, oldsrv_failure, atmostonce_failure in Hret. split; unfold is_signed; simpl; lia. }
  unfold build_reply in E'. cbn [c_put void_codec mbind res_bind] in E'. rewrite E in E'.
  injection E' as <-. by eexists.
Qed.

(** *** What the clients' steps change *)

Definition client_frame (st st' : rpcc) : Prop :=
  clt_nonce st' = clt_nonce st /\ xid_ st' = xid_ st /\
  (is_unsigned 32 (srv_nonce st) -> is_unsigned 32 (srv_nonce st')).

Lemma local_step_spec R st st' :
  local_step st st' -> rpcc_inv R st ->
  (exists R', rpcc_inv R' st') /\ client_frame st st' /\
  forall x ca, calls st' !! x = Some ca -> ca_done ca = true -> 0 <= ca_intret ca ->
    calls st !! x = Some ca.
Proof.
  intros Hs Hi. destruct Hs as [st req|st x st' ca Hx E|st ca xr req|st ret r|st|st r].
  - split; [exists R|]; unfold call1_transmit; repeat case_match; try done; destruct Hi; by split.
  - split; [eexists; by apply (call1_unlink_inv _ _ _ _ _ Hi Hx E)|].
    unfold call1_unlink in E. destruct (calls st !! s32 x); [|done]. res_inv. split; [done|].
    cbn [calls set_calls]. by intros y ca' [_ ?]%lookup_delete_Some.
  - split; [exists R|]; unfold call1_keep_dup; destruct (_ && _); try done; destruct Hi; by split.
  - split; [exists R|]; unfold bind_finish; destruct (_ =? _); try done; [destruct Hi; by split|].
    split; [|done]. split_and!; [done..|]. intros _. by apply wrapU_range.
  - split; [exists R; by apply cancel_inv|]. split; [done|]. cbn [calls cancel].
    intros x ca. rewrite lookup_fmap. intros (ca' & _ & ->)%fmap_Some_1 _. cbn [ca_intret].
    unfold cancel_failure. lia.
  - split; [exists R; destruct Hi; by split|done].
Qed.

Lemma got_pdu_frame st b sz h u st' :
  unpack_reply_header (new_unmarshall b sz) = Ok (h, u) -> rpcc_got_pdu st b sz = Ok st' ->
  client_frame st st' /\
  forall x ca, calls st' !! x = Some ca -> calls st !! x = Some ca \/
    x = r_xid h /\ ca_intret ca = r_ret h /\ ca_un ca = take_in u.
Proof.
  unfold rpcc_got_pdu. intros -> E. cbn [mbind res_bind] in E.
  destruct (negb (u_ok u)); [injection E as <-; split; [done|by left]|].
  apply res_bind_Ok_inv in E as (wd & _ & E). destruct (calls st !! r_xid h) as [c|] eqn:Ec.
  - destruct (ca_done c); injection E as <-; split; try done; [by left|].
    intros x ca Hx. cbn [calls set_calls] in Hx.
    apply lookup_insert_Some in Hx as [[<- <-]|[_ Hx]]; [by right|by left].
  - injection E as <-. split; [done|by left].
Qed.

(** *** Steps of one client *)

Lemma issued_endpoint w n ep n' x :
  issued (set_endpoint w n ep) n' x = if decide (n' = n) then ep_sent ep !! x else issued w n' x.
Proof.
  unfold issued. cbn [nw_clients set_endpoint]. case_decide as E.
  - subst n'. by rewrite lookup_insert_eq.
  - by rewrite lookup_insert_ne.
Qed.

Lemma net_inv_endpoint w n ep :
  net_inv w -> client_ok n ep ->
  (forall x sn, issued w n x = Some sn -> ep_sent ep !! x = Some sn) ->
  net_inv (set_endpoint w n ep).
Proof.
  intros [H1 H2 H3 H4 H5] Hc Hmore.
  assert (Hm : forall n' x sn, issued w n' x = Some sn -> issued (set_endpoint w n ep) n' x = Some sn).
  { intros n' x sn Hx. rewrite issued_endpoint. case_decide; [subst; auto|done]. }
  split; [done|done| | |].
  - by apply map_Forall_insert_2.
  - intros dj (n' & x & sn & Hx & ?)%H4. exists n', x, sn. auto.
  - intros j (n' & x & sn & Hx & ?)%H5. exists n', x, sn. auto.
Qed.

Definition performed_as sp (n x : Z) (ca : caller) : Prop :=
  exists p args rs, sp_calls sp !! (n, x) = Some (Performed p args (ca_intret ca) rs) /\
    returns srv p (ca_intret ca) rs (ca_un ca).

Lemma sim_endpoint w sp n ep st :
  sim w sp -> nw_clients w !! n = Some ep -> client_frame (ep_rpcc ep) st ->
  (exists R, rpcc_inv R st) ->
  (forall x ca, calls st !! x = Some ca -> ca_done ca = true -> 0 <= ca_intret ca ->
     calls (ep_rpcc ep) !! x = Some ca \/ performed_as sp n x ca) ->
  sim (set_endpoint w n (Endpoint st (ep_sent ep))) sp.
Proof.
  intros [Hi Him Hex] Hep (Fn & Fx & Fs) HR Hcalls.
  assert (Hc : client_ok n (Endpoint st (ep_sent ep))).
  { destruct (ni_client _ Hi _ _ Hep) as [Hn Hs _ Hsn]. split; cbn [ep_rpcc ep_sent].
    - by rewrite Fn.
    - auto.
    - done.
    - by rewrite Fx. }
  assert (Hiss : forall n' x, issued (set_endpoint w n (Endpoint st (ep_sent ep))) n' x = issued w n' x).
  { intros n' x. rewrite issued_endpoint. case_decide; [|done]. subst. unfold issued. by rewrite Hep. }
  split; [|destruct Him as [Ha Hd Hp Hr]; split|done].
  - apply net_inv_endpoint; [done..|]. intros x sn. rewrite <- Hiss, issued_endpoint.
    by rewrite decide_True.
  - done.
  - intros n' x. by rewrite Hd, Hiss.
  - done.
  - intros n' ep' x ca Hl. cbn [nw_clients set_endpoint] in Hl.
    apply lookup_insert_Some in Hl as [[<- <-]|[_ Hl]]; [|by apply Hr].
    intros Hca Hd' Hpos. destruct (Hcalls x ca Hca Hd' Hpos) as [Hold|Hnew]; [by eapply Hr|done].
Qed.

Lemma step_local w sp n ep st :
  sim w sp -> nw_clients w !! n = Some ep -> local_step (ep_rpcc ep) st ->
  sim (set_endpoint w n (Endpoint st (ep_sent ep))) sp.
Proof.
  intros Hs Hep Hl. destruct (co_rpcc _ _ (ni_client _ (sm_inv _ _ Hs) _ _ Hep)) as [R Hinv].
  destruct (local_step_spec R _ _ Hl Hinv) as (HR & Hf & Hc).
  apply sim_endpoint; [done..|]. intros x ca Hx Hd Hpos. left. by apply Hc.
Qed.

(** A reply header for [x] that, unless it reports an error, was performed. *)
Lemma step_got_pdu w sp n ep x b ret u st :
  sim w sp -> nw_clients w !! n = Some ep -> is_Some (issued w n x) ->
  unpack_reply_header (new_unmarshall b (zlen b)) = Ok (ReplyHeader x ret, u) ->
  (0 <= ret -> exists p args rs, sp_calls sp !! (n, x) = Some (Performed p args ret rs) /\
     returns srv p ret rs (take_in u)) ->
  rpcc_got_pdu (ep_rpcc ep) b (zlen b) = Ok st ->
  sim (set_endpoint w n (Endpoint st (ep_sent ep))) sp.
Proof.
  intros Hs Hep [sn Hsn] Eu Hret E. pose proof (ni_client _ (sm_inv _ _ Hs) _ _ Hep) as Hc.
  unfold issued in Hsn. rewrite Hep in Hsn. cbn [mbind option_bind] in Hsn.
  destruct (co_rpcc _ _ Hc) as [R Hinv]. destruct (co_sent _ _ Hc _ _ Hsn) as [Hx _].
  destruct (got_pdu_frame _ _ _ _ _ _ Eu E) as [Hf Hcalls].
  apply sim_endpoint; [done..| |].
  - eapply got_pdu_inv; [exact Hinv| |exact E]. intros h rep Eh _. rewrite Eu in Eh.
    by injection Eh as <- _.
  - intros y ca Hy _ Hpos. destruct (Hcalls y ca Hy) as [?|(-> & Ei & Eun)]; [by left|right].
    cbn [r_ret r_xid] in *. unfold performed_as. rewrite Ei, Eun. apply Hret. by rewrite <- Ei.
Qed.

Lemma step_reply w sp n ep x b st :
  sim w sp -> nw_clients w !! n = Some ep -> ((n, x), b) ∈ sy_sent (nw_server w) ->
  rpcc_got_pdu (ep_rpcc ep) (on_wire b) (zlen (on_wire b)) = Ok st ->
  sim (set_endpoint w n (Endpoint st (ep_sent ep))) sp.
Proof.
  intros Hs Hep Hin E. pose proof (ni_client _ (sm_inv _ _ Hs) _ _ Hep) as Hc.
  destruct (co_nonce _ _ Hc) as (Hn & _).
  apply (si_sent _ (sys_reachable_inv _ (ni_sys _ (sm_inv _ _ Hs)))) in Hin; [|done].
  destruct (sm_exec _ _ Hs _ _ _ Hn Hin) as (p & args & ret & rs & Hsp & Hans).
  pose proof (im_issued _ _ _ (sm_imp _ _ Hs) n x) as Hiss.
  rewrite Hsp in Hiss. destruct (issued w n x) as [sn|] eqn:Ei; [|done].
  destruct (issued_carries _ _ _ _ (sm_inv _ _ Hs) Ei) as (_ & _ & Hx).
  destruct (answers_read _ _ _ _ _ Hx Hans) as (u & Eu & _ & _ & Hr).
  eapply step_got_pdu; [done|done|by exists sn|exact Eu| |exact E]. intros _. by exists p, args, rs.
Qed.

Lemma step_refuse w sp n ep x sn ret rep st :
  sim w sp -> nw_clients w !! n = Some ep -> ep_sent ep !! x = Some sn -> refusal ret ->
  pack_reply_header new_marshall (ReplyHeader x ret) = Ok rep ->
  rpcc_got_pdu (ep_rpcc ep) (on_wire (marshall_cstr rep)) (zlen (on_wire (marshall_cstr rep))) = Ok st ->
  sim (set_endpoint w n (Endpoint st (ep_sent ep))) sp.
Proof.
  intros Hs Hep Hsn Href Erep E.
  assert (Ei : issued w n x = Some sn) by (unfold issued; by rewrite Hep).
  destruct (issued_carries _ _ _ _ (sm_inv _ _ Hs) Ei) as (_ & _ & Hx).
  destruct (refusal_read _ _ _ Hx Href Erep) as (u & Eu & _).
  eapply step_got_pdu; [done|done|by exists sn|exact Eu| |exact E].
  unfold refusal, oldsrv_failure, atmostonce_failure in Href. lia.
Qed.

Lemma step_connect w sp rnd loss :
  sim w sp -> u32 rnd <> 0 -> nw_clients w !! u32 rnd = None ->
  sim (set_endpoint w (u32 rnd) (Endpoint (new_rpcc true rnd loss) ∅)) sp.
Proof.
  intros [Hi Him Hex] Hn Hnone. set (n := u32 rnd) in *.
  assert (Hnew : forall x, issued w n x = None) by (intros x; unfold issued; by rewrite Hnone).
  split; [|destruct Him as [Ha Hd Hp Hr]; split|done].
  - apply net_inv_endpoint; [done| |]; [|intros x sn; by rewrite Hnew].
    split; cbn [ep_rpcc ep_sent new_rpcc clt_nonce srv_nonce].
    + split_and!; [done|by apply wrapU_range|done].
    + unfold is_unsigned. lia.
    + exists ∅. apply rpcc_inv_init.
    + intros x sn. by rewrite lookup_empty.
  - done.
  - intros n' x. rewrite Hd, issued_endpoint.
    case_decide; [subst n'; cbn [ep_sent]; by rewrite lookup_empty, Hnew|done].
  - done.
  - intros n' ep' x ca Hl. cbn [nw_clients set_endpoint] in Hl.
    apply lookup_insert_Some in Hl as [[<- <-]|[_ Hl]]; [|by apply Hr].
    cbn [ep_rpcc new_rpcc calls]. by rewrite lookup_empty.
Qed.

(** A new call is issued in the specification. *)
Lemma step_call w sp n ep p m a req rep st x xr req' :
  sim w sp -> nw_clients w !! n = Some ep -> srv !! p = Some m -> fits (me_c m) a ->
  call_1 (me_c m) a = Ok req -> xid_ (ep_rpcc ep) < XID_LIMIT ->
  call1_begin (ep_rpcc ep) p req rep = Ok (Begun st x xr req') ->
  sp_calls sp !! (n, x) = None /\
  sim (set_endpoint w n (Endpoint st
        (<[x := Sent p (c_enc (me_c m) a) (marshall_cstr req')]> (ep_sent ep))))
    (Spec (sp_app sp) (<[(n, x) := Issued p (c_enc (me_c m) a)]> (sp_calls sp))).
Proof.
  intros [Hi Him Hex] Hep Hm Hf Hreq Hlim E. pose proof (ni_client _ Hi _ _ Hep) as Hc.
  destruct (call_carries _ _ _ _ _ _ _ _ _ _ _ Hc Hm Hf Hreq Hlim E) as [Hx Hcar].
  destruct (co_rpcc _ _ Hc) as [R Hinv]. pose proof (call1_begin_inv _ _ _ _ _ _ _ _ _ Hinv Hlim E) as Hinv'.
  set (sn := Sent p (c_enc (me_c m) a) (marshall_cstr req')) in *.
  assert (Hfresh : ep_sent ep !! x = None).
  { destruct (ep_sent ep !! x) as [sn'|] eqn:Es; [|done].
    destruct (co_sent _ _ Hc _ _ Es) as [? _]. lia. }
  assert (Hst : clt_nonce st = clt_nonce (ep_rpcc ep) /\ srv_nonce st = srv_nonce (ep_rpcc ep) /\
    xid_ st = x + 1 /\ calls st = <[x := Caller x rep 0 false]> (calls (ep_rpcc ep))).
  { unfold call1_begin in E. destruct (_ || _); [done|]. destruct (destroy_wait _); [done|].
    cbv zeta in E. res_inv. pose proof (inv_xid _ _ Hinv) as Hb. cbn [clt_nonce srv_nonce xid_ calls].
    rewrite s32_xid by lia. split_and!; try done. apply wrapU_small.
    unfold is_unsigned, XID_LIMIT in *. lia. }
  destruct Hst as (Sn & Ss & Sx & Sc).
  assert (Hnone : sp_calls sp !! (n, x) = None).
  { pose proof (im_issued _ _ _ Him n x) as Hd. unfold issued in Hd. rewrite Hep in Hd. cbn [mbind option_bind] in Hd.
    rewrite Hfresh in Hd. by destruct (sp_calls sp !! (n, x)). }
  split; [done|]. split; [|destruct Him as [Ha Hd Hp Hr]; split|].
  - apply net_inv_endpoint; [done| |].
    + destruct Hc as [Hn Hs _ Hsn]. split; cbn [ep_rpcc ep_sent].
      * by rewrite Sn.
      * by rewrite Ss.
      * by exists R.
      * intros y sn' Hy. rewrite Sx. apply lookup_insert_Some in Hy as [[<- <-]|[_ Hy]].
        -- pose proof (inv_xid _ _ Hinv). split; [lia|done].
        -- destruct (Hsn _ _ Hy) as [? ?]. split; [lia|done].
    + intros y sn'. unfold issued. rewrite Hep. cbn [mbind option_bind ep_sent]. intros Hy.
      rewrite lookup_insert_ne; [done|]. congruence.
  - done.
  - intros n' y. cbn [sp_calls]. rewrite issued_endpoint. cbn [ep_sent]. case_decide as En.
    + subst n'. destruct (decide (y = x)) as [->|Hy]; [by rewrite !lookup_insert_eq|].
      rewrite !lookup_insert_ne by congruence. rewrite Hd. unfold issued. by rewrite Hep.
    + rewrite lookup_insert_ne by congruence. apply Hd.
  - intros n' y Hn'. rewrite (Hp n' y Hn'). cbn [sp_calls]. destruct (decide ((n', y) = (n, x))) as [->|Hk].
    + rewrite lookup_insert_eq, Hnone. by split; intros (? & ? & ? & ? & ?).
    + by rewrite lookup_insert_ne.
  - intros n' ep' y ca Hl Hca Hdone Hpos. cbn [nw_clients set_endpoint sp_calls] in *.
    assert (Hold : performed_as sp n' y ca).
    { apply lookup_insert_Some in Hl as [[<- <-]|[_ Hl]]; [|by eapply Hr].
      cbn [ep_rpcc] in Hca. rewrite Sc in Hca.
      apply lookup_insert_Some in Hca as [[_ <-]|[_ Hca]]; [done|by eapply Hr]. }
    destruct Hold as (p' & args & rs & Hl' & Hret). exists p', args, rs. split; [|done].
    rewrite lookup_insert_ne; [done|]. congruence.
  - intros n' y b Hn' Hin. cbn [sp_calls]. destruct (Hex n' y b Hn' Hin) as (p' & args & ret & rs & Hl & Hans).
    exists p', args, ret, rs. split; [|done]. rewrite lookup_insert_ne; [done|]. congruence.
Qed.

(** *** Steps of the server *)

Lemma sys_reachable_step (s s' : sys S) : sys_reachable s -> sys_step s s' -> sys_reachable s'.
Proof. intros (s0 & H0 & Hr) Hs. exists s0. split; [done|]. by eapply rtc_r. Qed.

Lemma net_inv_server w s' :
  net_inv w -> sys_step (nw_server w) s' -> rs_procs (sy_rs s') = rs_procs (sy_rs (nw_server w)) ->
  (forall dj, dj ∈ sy_queue s' -> dj ∈ sy_queue (nw_server w) \/ exists n x sn,
     issued w n x = Some sn /\ dj_buf dj = on_wire (sn_pkt sn) /\ dj_sz dj = zlen (on_wire (sn_pkt sn))) ->
  (forall j, j ∈ sy_run s' -> j ∈ sy_run (nw_server w) \/ exists n x sn,
     issued w n x = Some sn /\ job_for n x (sn_proc sn) (sn_args sn) j) ->
  net_inv (set_server w s').
Proof.
  intros [H1 H2 H3 H4 H5] Hs Hp Hq Hr. split; [| |done| |].
  - by eapply sys_reachable_step.
  - intros p m Hm. destruct (H2 p m Hm) as (g & Eg & Hg). exists g. split; [|done]. by rewrite <- Eg, <- Hp.
  - intros dj [Hin|Hin]%Hq; [by apply H4|done].
  - intros j [Hin|Hin]%Hr; [by apply H5|done].
Qed.

(** Steps in which no handler runs. *)
Lemma sim_server w sp s' :
  sim w sp -> net_inv (set_server w s') -> sy_app s' = sy_app (nw_server w) ->
  sy_exec s' = sy_exec (nw_server w) -> sim (set_server w s') sp.
Proof.
  intros [_ [Ha Hd Hp Hr] Hex] Hi Eapp Eex. split; [done| |].
  - split; cbn [nw_server set_server]; rewrite ?Eapp, ?Eex; done.
  - cbn [nw_server set_server]. by rewrite Eex.
Qed.

Lemma step_request w sp n ep x sn c st dj :
  sim w sp -> nw_clients w !! n = Some ep -> ep_sent ep !! x = Some sn ->
  let s := nw_server w in
  got_pdu (sy_rs s) c (on_wire (sn_pkt sn)) (zlen (on_wire (sn_pkt sn))) true true =
    Ok (st, Some dj, true) ->
  sim (set_server w
    (Sys st (sy_app s) (dj :: sy_queue s) (sy_run s) (sy_rep s) (sy_exec s) (sy_sent s))) sp.
Proof.
  intros Hs Hep Hsn s E. apply sim_server; [done| |done|done].
  apply net_inv_server; [apply Hs|by eapply ss_arrive|by eapply got_pdu_procs| |by left].
  intros dj' [->|Hin]%elem_of_cons; [right|by left]. exists n, x, sn.
  split; [unfold issued; by rewrite Hep|]. unfold got_pdu in E. destruct (negb _); [done|].
  apply res_bind_Ok_inv in E as (hp & _ & E). by injection E as _ <-.
Qed.

Lemma step_begin' w sp q1 dj q2 st b :
  let s := nw_server w in
  sim w sp -> sy_queue s = q1 ++ dj :: q2 -> dispatch_begin (sy_rs s) dj = Ok (st, b) ->
  sim (set_server w (after_begin s st (q1 ++ q2) b)) sp.
Proof.
  intros s Hs Eq E. subst s. apply sim_server; [done| |by destruct b|by destruct b].
  pose proof (sm_inv _ _ Hs) as Hi. apply net_inv_server; [done|by eapply ss_begin| | |].
  - transitivity (rs_procs st); [by destruct b|by eapply dispatch_begin_procs].
  - intros dj' Hin. left. assert (dj' ∈ q1 ++ q2) by (by destruct b). rewrite Eq. set_solver.
  - intros j Hin. destruct b as [| |j'| |h b sz|]; try by left.
    cbn [after_begin sy_run] in Hin. apply elem_of_cons in Hin as [->|Hin]; [right|by left].
    destruct (ni_queue _ Hi dj) as (n & x & sn & Hx & Eb & Es); [rewrite Eq; set_solver|].
    exists n, x, sn. split; [done|]. destruct (issued_carries _ _ _ _ Hi Hx) as [Hc _].
    eapply begin_job; [apply (ni_procs _ Hi)|done..|exact E].
Qed.

Lemma step_answer w sp p1 j b p2 st c :
  let s := nw_server w in
  sim w sp -> sy_rep s = p1 ++ (j, b) :: p2 -> dispatch_reply (sy_rs s) j b = Ok (st, c) ->
  sim (set_server w (Sys st (sy_app s) (sy_queue s) (sy_run s) (p1 ++ p2) (sy_exec s)
         ((job_key j, b) :: sy_sent s))) sp.
Proof.
  intros s Hs Ep E. apply sim_server; [done| |done|done].
  apply net_inv_server; [apply Hs|by eapply ss_reply|by eapply dispatch_reply_procs|by left|by left].
Qed.

(** A handler run performs its call in the specification: the call was not
    performed before, because no key is executed twice. *)
Lemma step_run w sp r1 j r2 b app :
  let s := nw_server w in
  sim w sp -> sy_run s = r1 ++ j :: r2 -> dispatch_run j (sy_app s) = Ok (b, app) ->
  exists sp', spec_step srv sp sp' /\
    sim (set_server w (Sys (sy_rs s) app (sy_queue s) (r1 ++ r2) ((j, b) :: sy_rep s)
           ((job_key j, b) :: sy_exec s) (sy_sent s))) sp'.
Proof.
  intros s Hs Er E. pose proof Hs as [Hi [Ha Hd Hp Hr] Hex].
  destruct (ni_run _ Hi j) as (n & x & sn & Hx & Hj); [fold s; rewrite Er; set_solver|].
  destruct (issued_carries _ _ _ _ Hi Hx) as (_ & Hn & Hxr).
  destruct (run_performs _ _ _ _ _ _ _ _ Hj E) as (ret & rs & Hperf & Hans).
  assert (Hkey : job_key j = (n, x)).
  { destruct Hj as (m & a & u & _ & _ & _ & _ & Ex & En & _). unfold job_key. rewrite Ex, En.
    unfold XID_LIMIT in Hxr. rewrite wrapU_small; [done|]. unfold is_unsigned. lia. }
  assert (Hnew : (n, x) ∉ (sy_exec s).*1).
  { pose proof (si_exec_once _ (sys_reachable_inv _ (ni_sys _ Hi))) as Hnd. fold s in Hnd.
    rewrite Er, amo_keys_app in Hnd. apply NoDup_app in Hnd as (_ & Hnd & _).
    intros Hin. apply (Hnd (n, x)); apply elem_of_amo_keys; (split; [done|]); [|done].
    rewrite <- Hkey. apply list_elem_of_fmap. exists j. set_solver. }
  assert (Hsp : sp_calls sp !! (n, x) = Some (Issued (sn_proc sn) (sn_args sn))).
  { pose proof (Hd n x) as Hd'. rewrite Hx in Hd'.
    destruct (sp_calls sp !! (n, x)) as [[p args|p args ret' rs']|] eqn:El; [|exfalso|done].
    - by injection Hd' as -> ->.
    - apply Hnew, (Hp n x Hn). by eauto 6. }
  exists (Spec app (<[(n, x) := Performed (sn_proc sn) (sn_args sn) ret rs]> (sp_calls sp))).
  split; [apply sp_perform; [done|by rewrite Ha]|]. split; [|split|].
  - apply net_inv_server; [done|by eapply ss_run|done|by left|].
    intros j' Hin. left. fold s. rewrite Er. cbn [sy_run] in Hin. set_solver.
  - done.
  - intros n' y. cbn [sp_calls]. destruct (decide ((n', y) = (n, x))) as [[= -> ->]|Hk].
    + change (issued (set_server w _) n x) with (issued w n x). by rewrite lookup_insert_eq, Hx.
    + rewrite lookup_insert_ne by done. apply Hd.
  - intros n' y Hn'. cbn [sp_calls nw_server set_server sy_exec]. rewrite Hkey, fmap_cons, elem_of_cons.
    destruct (decide ((n', y) = (n, x))) as [->|Hk].
    + rewrite lookup_insert_eq. split; [by eauto 6|by left].
    + rewrite lookup_insert_ne by done. rewrite <- (Hp n' y Hn'). split; [by intros [?|?]|by right].
  - intros n' ep y ca Hl Hca Hdone Hpos. destruct (Hr n' ep y ca Hl Hca Hdone Hpos) as (p & args & rs' & Hl' & ?).
    exists p, args, rs'. split; [|done]. cbn [sp_calls]. rewrite lookup_insert_ne; [done|]. congruence.
  - intros n' y b' Hn'. cbn [sp_calls nw_server set_server sy_exec]. rewrite Hkey.
    intros [[= -> -> ->]|Hin]%elem_of_cons.
    + rewrite lookup_insert_eq. by eauto 6.
    + rewrite lookup_insert_ne; [by apply Hex|]. intros [= <- <-]. apply Hnew.
      apply list_elem_of_fmap. by exists ((n, x), b').
Qed.

(** *** The simulation *)

Lemma net_simulation w w' sp :
  net_step srv w w' -> sim w sp -> exists sp', rtc (spec_step srv) sp sp' /\ sim w' sp'.
Proof.
  intros Hstep Hs. destruct Hstep.
  - exists sp. split; [done|]. by apply step_connect.
  - destruct (step_call w sp n ep p m a req rep st x xr req') as [Hnone Hs']; [done..|].
    eexists. split; [|exact Hs']. apply rtc_once. by apply sp_issue.
  - exists sp. split; [done|]. by apply step_local.
  - exists sp. split; [done|]. by eapply step_request.
  - exists sp. split; [done|]. by eapply step_begin'.
  - destruct (step_run w sp r1 j r2 b app) as (sp' & Hsp & Hs'); [done..|].
    exists sp'. split; [by apply rtc_once|done].
  - exists sp. split; [done|]. by eapply step_answer.
  - exists sp. split; [done|]. apply sim_server; [done| |done|done].
    apply net_inv_server; [apply Hs|apply ss_conns|done|by left|by left].
  - exists sp. split; [done|]. by eapply step_reply.
  - exists sp. split; [done|]. by eapply step_refuse.
Qed.

Lemma sim_init app w : net_init srv app w -> sim w (Spec app ∅).
Proof.
  intros (Hc & Hs & Hq & Happ & Hp). pose proof Hs as (_ & Hrun & _ & Hex & _).
  assert (Hiss : forall n x, issued w n x = None) by (intros; unfold issued; by rewrite Hc, lookup_empty).
  split; [split|split|].
  - by exists (nw_server w).
  - done.
  - rewrite Hc. apply map_Forall_empty.
  - rewrite Hq. by intros dj ?%elem_of_nil.
  - rewrite Hrun. by intros j ?%elem_of_nil.
  - done.
  - intros n x. cbn [sp_calls]. by rewrite Hiss, lookup_empty.
  - intros n x _. cbn [sp_calls]. rewrite Hex, lookup_empty. split; [by intros ?%elem_of_nil|by intros (? & ? & ? & ? & ?)].
  - intros n ep x ca. by rewrite Hc, lookup_empty.
  - rewrite Hex. by intros n x b _ ?%elem_of_nil.
Qed.

Lemma net_reachable_sim app w :
  net_reachable srv app w -> exists sp, rtc (spec_step srv) (Spec app ∅) sp /\ sim w sp.
Proof.
  intros (w0 & H0%sim_init & Hr). revert H0. generalize (Spec app ∅). 
  induction Hr as [w|w w1 w2 Hstep _ IH]; intros sp Hs; [by exists sp|].
  destruct (net_simulation _ _ _ Hstep Hs) as (sp1 & R1 & Hs1).
  destruct (IH sp1 Hs1) as (sp2 & R2 & Hs2). exists sp2. split; [by etrans|done].
Qed.
End proof.

(** * Properties *)

(** C3. The RPC system implements calls. Whatever the network loses,
    delays, reorders or duplicates, and however the critical sections of the
    clients and the server interleave, every reachable state shows a state that
    the machine without a network reaches: its calls are the ones the clients
    made, with the arguments they marshalled; each was performed at most once, on
    the state the earlier ones left; the server's state is the result; and a call
    that ended without an error code was performed and hands out exactly the
    return code and the value of its execution. *)
Theorem rpc_implements_calls `{Allocator} {S} (srv : service S) app w :
  service_ok srv -> net_reachable srv app w ->
  exists sp, rtc (spec_step srv) (Spec app ∅) sp /\ implements srv w sp.
Proof.
  intros Hok Hw. destruct (net_reachable_sim srv Hok app w Hw) as (sp & Hr & Hs).
  exists sp. split; [done|apply Hs].
Qed.

(** ** Witness *)

(** Client 5 of the server of ServerExamples calls procedure 7 with 40; its
    packet arrives twice and the reply once. *)
Module NetExamples.
Import ServerExamples.
#[local] Existing Instance zero_allocator.

Definition add_method : method Z := Method Z Z int_codec int_codec add_meth.
Definition srv : service Z := {[7 := add_method]}.

Lemma srv_ok : service_ok srv.
Proof.
  apply map_Forall_singleton. split; [unfold is_signed; lia|]. split; [apply _..|].
  intros a s ret r s' _ E. unfold add_method in E. cbn [me_fn me_cr me_res] in E.
  injection E as <- <- <-. split; [|done].
  split; [apply wrapS_range; lia|]. vm_compute. reflexivity.
Qed.

Definition bound : rpcc := bind_finish (new_rpcc true 5 0) 0 77.
Definition args : marshall := get new_marshall (call_1 int_codec 40).
Definition begun : rpcc * marshall :=
  match call1_begin bound 7 args unmarshall_empty with
  | Ok (Begun st _ _ req) => (st, req)
  | _ => (bound, args)
  end.
Definition sn : sent := Sent 7 (be 4 40) (marshall_cstr begun.2).
Definition waiting : endpoint := Endpoint begun.1 {[1 := sn]}.
Definition finished : rpcc := get bound (rpcc_got_pdu begun.1 (on_wire reply0) (zlen (on_wire reply0))).
Definition state (ep : endpoint) (s : sys Z) : net Z := Net {[5 := ep]} s.

Lemma client_steps (s : sys Z) : rtc (net_step srv) (Net ∅ s) (state waiting s).
Proof.
  eapply rtc_l; [apply (n_connect srv (Net ∅ s) 5 0); [done|apply lookup_empty]|].
  change (set_endpoint _ _ _) with (state (Endpoint (new_rpcc true 5 0) ∅) s).
  eapply rtc_l.
  { apply (n_local srv (state (Endpoint (new_rpcc true 5 0) ∅) s) 5 _ bound (lookup_singleton_eq _ _)).
    apply ls_bind. }
  change (set_endpoint _ _ _) with (state (Endpoint bound ∅) s).
  apply rtc_once.
  apply (n_call srv (state (Endpoint bound ∅) s) 5 (Endpoint bound ∅) 7 add_method 40 args
    unmarshall_empty begun.1 1 0 begun.2); [apply lookup_singleton_eq|done| |done|done|].
  - split; vm_compute; [intuition discriminate|done].
  - vm_compute. reflexivity.
Qed.

Lemma server_steps (f : handler Z) :
  dispatch_run (job0 f) 0 = Ok (reply0, 40) ->
  rtc (net_step srv) (state waiting (sys0 f)) (state waiting (sys6 f)).
Proof.
  intros Hrun. assert (Hep : forall s, nw_clients (state waiting s) !! 5 = Some waiting)
    by (intros; apply lookup_singleton_eq).
  eapply rtc_l.
  { apply (n_request srv (state waiting (sys0 f)) 5 waiting 1 sn 3 (arrived (server0 f)) dj0 (Hep _) eq_refl).
    vm_compute. reflexivity. }
  eapply rtc_l.
  { apply (n_request srv (state waiting _) 5 waiting 1 sn 3 (arrived (arrived (server0 f))) dj0 (Hep _) eq_refl).
    vm_compute. reflexivity. }
  eapply rtc_l.
  { apply (n_begin srv (state waiting (sys2 f)) [] dj0 [dj0] (begun1 f).1 (begun1 f).2);
    [reflexivity|vm_compute; reflexivity]. }
  eapply rtc_l.
  { apply (n_run srv (state waiting (sys3 f)) [] (job0 f) [] reply0 40);
    [vm_compute; reflexivity|exact Hrun]. }
  eapply rtc_l.
  { apply (n_answer srv (state waiting (sys4 f)) [] (job0 f) reply0 [] (replied f).1 (replied f).2);
    [reflexivity|vm_compute; reflexivity]. }
  apply rtc_once.
  apply (n_begin srv (state waiting (sys5 f)) [] dj0 [] (begun2 f).1 (begun2 f).2);
    [reflexivity|vm_compute; reflexivity].
Qed.

Definition last_state : net Z := state (Endpoint finished {[1 := sn]}) (sys6 add_handler).

Lemma last_state_reachable : net_reachable srv 0 last_state.
Proof.
  exists (Net ∅ (sys0 add_handler)). split.
  { split; [done|]. split; [by repeat split|]. split_and!; [done..|].
    intros p m Hm. unfold srv in Hm. apply lookup_singleton_Some in Hm as [<- <-]. by exists add_handler. }
  etrans; [apply client_steps|]. etrans; [apply server_steps, job0_runs|]. apply rtc_once.
  apply (n_reply srv (state waiting (sys6 add_handler)) 5 waiting 1 reply0 finished).
  - apply lookup_singleton_eq.
  - assert (E : sy_sent (sys6 add_handler) = [(5, 1, reply0); (5, 1, reply0)])
      by (vm_compute; reflexivity).
    cbn [nw_server state]. rewrite E. left.
  - vm_compute. reflexivity.
Qed.

(** The call is over, and the stub hands out 40. *)
Lemma finished_done :
  (ca ← calls finished !! 1; Some (ca_done ca, call_m int_codec 0 (ca_intret ca) (ca_un ca))) =
  Some (true, Ok (0, 40)).
Proof. vm_compute. reflexivity. Qed.
End NetExamples.
#[local] Existing Instance zero_allocator.

Lemma rpc_implements_calls_witness :
  (ca ← calls NetExamples.finished !! 1;
   Some (ca_done ca, call_m int_codec 0 (ca_intret ca) (ca_un ca))) =
    Some (true, Ok (0, 40)) /\
  exists sp, rtc (spec_step NetExamples.srv) (Spec 0 ∅) sp /\
    implements NetExamples.srv NetExamples.last_state sp.
Proof.
  split; [exact NetExamples.finished_done|].
  apply (rpc_implements_calls NetExamples.srv 0 NetExamples.last_state NetExamples.srv_ok
    NetExamples.last_state_reachable).
Defined.
