(* ===== verification/RpcServing.v ===== *)
(** * A server that keeps serving

    The steps of [rpcs::got_pdu] and [rpcs::dispatch] (RpcServer) from a state in
    which the connections of the clients are up and every client's first request
    is known: no VERIFY fails, no connection goes away while it is used, a request
    is taken, recognised as a duplicate in progress, or answered again, and none
    is refused. *)
From S2P Require Import Prelude Marshall ReplyWindow RpcUtil RpcClient Connection RpcServer.
From S2P Require Import Service RpcSystem.

(** ** A server whose connections are up *)

Section server.
Context `{Allocator} {S : Type}.
Implicit Types (s : sys S) (st : rpcs S).

(** The connection of each client, by its nonce. *)
Context (conn : gmap Z Z).

(** Requests being dispatched hold a reference to their connection. *)
Definition job_conns s : list Z :=
  (dj_conn <$> sy_queue s) ++ (jb_conn <$> sy_run s) ++ ((fun p => jb_conn p.1) <$> sy_rep s).
Definition uses (l : list Z) (c : Z) : Z := zlen (filter (fun d => d = c) l).

Definition heap_live (hp : gmap Z connection) (l : list Z) : Prop :=
  forall n c, conn !! n = Some c ->
    exists cn, hp !! c = Some cn /\ cn_dead cn = false /\ uses l c < cn_refno cn.

#[global] Instance uses_proper : Proper (Permutation ==> eq ==> eq) uses.
Proof. intros l l' Hl c _ <-. unfold uses, zlen. by rewrite Hl. Qed.

#[global] Instance heap_live_proper : Proper (eq ==> Permutation ==> iff) heap_live.
Proof.
  intros hp _ <- l l' Hl. unfold heap_live.
  split; intros Hh n c Hc; destruct (Hh n c Hc) as (cn & ?); exists cn; [rewrite <- Hl|rewrite Hl]; done.
Qed.

Lemma uses_cons c l d : uses (c :: l) d = (if decide (c = d) then 1 else 0) + uses l d.
Proof. unfold uses, zlen. rewrite filter_cons. case_decide; simpl length; lia. Qed.

Lemma uses_nonneg l c : 0 <= uses l c.
Proof. unfold uses, zlen. lia. Qed.

Lemma heap_live_drop hp c l : heap_live hp (c :: l) -> heap_live hp l.
Proof.
  intros Hh n d Hd. destruct (Hh n d Hd) as (cn & ? & ? & Hu). exists cn. split_and!; [done..|].
  rewrite uses_cons in Hu. case_decide; lia.
Qed.

Lemma incref_live hp l n c :
  heap_live hp l -> conn !! n = Some c ->
  exists hp', conn_incref hp c = Ok hp' /\ heap_live hp' (c :: l).
Proof.
  intros Hh Hc. destruct (Hh n c Hc) as (cn & Hcn & Hd & Hu). unfold conn_incref. rewrite Hcn.
  eexists. split; [reflexivity|]. intros n' d Hd'. rewrite uses_cons. case_decide as E.
  - subst d. rewrite lookup_insert_eq. eexists. split_and!; [done..|]. cbn. lia.
  - rewrite lookup_insert_ne by done. destruct (Hh n' d Hd') as (dn & ?). by exists dn.
Qed.

Lemma decref_live hp l n c :
  heap_live hp (c :: l) -> conn !! n = Some c ->
  exists hp', conn_decref hp c = Ok hp' /\ heap_live hp' l.
Proof.
  intros Hh Hc. destruct (Hh n c Hc) as (cn & Hcn & Hd & Hu).
  rewrite uses_cons, decide_True in Hu by done. pose proof (uses_nonneg l c) as Hnn.
  unfold conn_decref. rewrite Hcn. unfold decref. cbn [cn_refno set_refno cn_dead].
  replace (cn_refno cn - 1 >=? 0) with true by lia. cbn [VERIFY mbind res_bind].
  replace (cn_refno cn - 1 =? 0) with false by lia. cbn [andb mbind res_bind].
  eexists. split; [reflexivity|]. intros n' d Hd'. destruct (decide (c = d)) as [<-|E].
  - rewrite lookup_insert_eq. eexists. split_and!; [done..|]. cbn. lia.
  - rewrite lookup_insert_ne by done. destruct (Hh n' d Hd') as (dn & H1 & H2 & H3).
    exists dn. rewrite uses_cons, decide_False in H3 by done. done.
Qed.

Lemma save_conn_live st l n c :
  heap_live (rs_heap st) l -> (forall c', rs_conns st !! n = Some c' -> c' = c) ->
  conn !! n = Some c ->
  exists cs hp, save_conn st n c = Ok (set_conns st cs hp) /\ heap_live hp l /\
    forall n' c', cs !! n' = Some c' -> rs_conns st !! n' = Some c' \/ n' = n /\ c' = c.
Proof.
  intros Hh Hcs Hc. unfold save_conn. destruct (rs_conns st !! n) as [old|] eqn:E.
  - rewrite (Hcs old eq_refl). destruct (Hh n c Hc) as (cn & Hcn & _). rewrite Hcn.
    unfold compare. rewrite !Z.gtb_ltb, !Z.ltb_irrefl. cbn [Z.ltb Z.compare].
    exists (rs_conns st), (rs_heap st). split; [by destruct st|]. split; [done|by left].
  - destruct (incref_live _ _ _ _ Hh Hc) as (hp & -> & Hl). cbn [mbind res_bind].
    exists (<[n := c]> (rs_conns st)), hp. split; [done|]. split; [by eapply heap_live_drop|].
    intros n' c' [[<- <-]|[_ ?]]%lookup_insert_Some; [by right|by left].
Qed.

(** A request of [n] is numbered 1, or the server has seen number 1. *)
Definition known st (n x : Z) : Prop :=
  is_Some (status st (n, 1)) \/ x = 1 /\ forall y, status st (n, y) = None.

Record keeps st st' : Prop := {
  kp_nonce : rs_nonce st' = rs_nonce st;
  kp_procs : rs_procs st' = rs_procs st;
  kp_known : forall n x, known st n x -> known st' n x
}.

(** A request packet the server will take. *)
Definition request_ok st (n : Z) (b : list byte) (sz x : Z) : Prop :=
  exists h u, unpack_req_header (new_unmarshall b sz) = Ok (h, u) /\ u_ok u = true /\
    h_clt_nonce h = n /\ n <> 0 /\ h_xid h = x /\ 1 <= x < XID_LIMIT /\ 0 <= h_xid_rep h < x /\
    (h_srv_nonce h = 0 \/ h_srv_nonce h = rs_nonce st) /\ is_Some (rs_procs st !! h_proc h) /\
    known st n x.

Record server_live s : Prop := {
  sl_reach : rs_reachable (sy_rs s) = true;
  sl_heap : heap_live (rs_heap (sy_rs s)) (job_conns s);
  sl_conns : forall n c, rs_conns (sy_rs s) !! n = Some c -> conn !! n = Some c;
  sl_queue : forall dj, dj ∈ sy_queue s -> exists n x,
    conn !! n = Some (dj_conn dj) /\ request_ok (sy_rs s) n (dj_buf dj) (dj_sz dj) x;
  sl_run : forall j, j ∈ sy_run s -> conn !! h_clt_nonce (jb_h j) = Some (jb_conn j);
  sl_rep : forall j b, (j, b) ∈ sy_rep s ->
    conn !! h_clt_nonce (jb_h j) = Some (jb_conn j) /\ 0 < h_clt_nonce (jb_h j);
  sl_running : forall k, k.1 <> 0 -> status (sy_rs s) k = Some Running ->
    (exists j, j ∈ sy_run s /\ job_key j = k) \/ (exists j b, (j, b) ∈ sy_rep s /\ job_key j = k)
}.

Lemma keeps_refl st : keeps st st.
Proof. by split. Qed.

Lemma keeps_same st st' :
  rs_nonce st' = rs_nonce st -> rs_procs st' = rs_procs st ->
  rs_reply_window st' = rs_reply_window st -> keeps st st'.
Proof.
  intros H1 H2 Hw. pose proof (status_same _ _ Hw) as Hs. split; [done..|]. intros n x [Hk|[Hx Hk]].
  - left. by rewrite Hs.
  - right. split; [done|]. intros y. by rewrite Hs.
Qed.

Lemma request_ok_keeps st st' n b sz x : keeps st st' -> request_ok st n b sz x -> request_ok st' n b sz x.
Proof.
  intros [K1 K2 K3] (h & u & H1 & H2 & H3 & H4 & H5 & H6 & H7 & H8 & H9 & H10).
  exists h, u. rewrite K1, K2. split_and!; try done; try lia. by apply K3.
Qed.

Lemma queue_keeps s st :
  keeps (sy_rs s) st -> (forall dj, dj ∈ sy_queue s -> exists n x,
    conn !! n = Some (dj_conn dj) /\ request_ok (sy_rs s) n (dj_buf dj) (dj_sz dj) x) ->
  forall dj, dj ∈ sy_queue s -> exists n x,
    conn !! n = Some (dj_conn dj) /\ request_ok st n (dj_buf dj) (dj_sz dj) x.
Proof.
  intros Hk Hq dj (n & x & Hc & Hr)%Hq. exists n, x. split; [done|]. by eapply request_ok_keeps.
Qed.

Lemma arrive_live s n c b x :
  server_live s -> conn !! n = Some c -> request_ok (sy_rs s) n b (zlen b) x ->
  exists st, got_pdu (sy_rs s) c b (zlen b) true true = Ok (st, Some (Djob b (zlen b) c), true) /\
    keeps (sy_rs s) st /\ (forall k, status st k = status (sy_rs s) k) /\
    server_live (Sys st (sy_app s) (Djob b (zlen b) c :: sy_queue s) (sy_run s) (sy_rep s)
      (sy_exec s) (sy_sent s)).
Proof.
  intros Hl Hc Hr. destruct (incref_live _ _ _ _ (sl_heap _ Hl) Hc) as (hp & E & Hh).
  unfold got_pdu. rewrite (sl_reach _ Hl), E. cbn [negb orb mbind res_bind]. eexists.
  split; [reflexivity|]. assert (Hk : keeps (sy_rs s) (set_heap (sy_rs s) hp)) by (by apply keeps_same).
  split_and!; [done..|]. destruct Hl as [H1 H2 H3 H4 H5 H6 H7]. split; try done.
  cbn [sy_queue sy_rs]. intros dj [->|Hin]%elem_of_cons.
  - exists n, x. split; [done|by eapply request_ok_keeps].
  - by apply (queue_keeps s _ Hk H4).
Qed.

(** What [classify] does to a request the server will take. *)
Lemma classify_live st l c h f u :
  map_Forall (fun _ => window_ok) (rs_reply_window st) ->
  heap_live (rs_heap st) l -> (forall n c', rs_conns st !! n = Some c' -> conn !! n = Some c') ->
  conn !! h_clt_nonce h = Some c -> h_clt_nonce h <> 0 ->
  1 <= h_xid h < XID_LIMIT -> 0 <= h_xid_rep h < h_xid h -> known st (h_clt_nonce h) (h_xid h) ->
  exists st' b, classify st c h f u = Ok (st', b) /\ heap_live (rs_heap st') l /\
    (forall n c', rs_conns st' !! n = Some c' -> conn !! n = Some c') /\
    rs_reachable st' = rs_reachable st /\ rs_nonce st' = rs_nonce st /\
    match b with
    | B_new j => j = Job c h f u
    | B_inprogress => status st (h_clt_nonce h, h_xid h) = Some Running
    | B_done h' _ _ => h' = h
    | _ => False
    end.
Proof.
  intros Hw Hh Hcs Hc Hn Hx Hxr Hk. unfold XID_LIMIT in Hx. unfold classify.
  rewrite (proj2 (Z.eqb_neq _ _) Hn). cbn [negb].
  rewrite !wrapU_small by (unfold is_unsigned; lia).
  set (w := default [] (rs_reply_window st !! h_clt_nonce h)).
  destruct (save_conn_live (set_window st (<[h_clt_nonce h := w]> (rs_reply_window st))) l (h_clt_nonce h) c)
    as (cs & hp & -> & Hh' & Hcs'); [done| |done|].
  { intros c' Hc'%Hcs. congruence. }
  assert (Hcs2 : forall n c', cs !! n = Some c' -> conn !! n = Some c').
  { intros n c' [Hc'%Hcs|[-> ->]]%Hcs'; done. }
  cbn [mbind res_bind].
  destruct (checkduplicate_spec w (h_xid h) (h_xid_rep h)) as (r & -> & Hrw & Hamo);
    [by apply window_ok_default|lia|]. cbn [mbind res_bind].
  assert (Ht : forall y, window_table w !! y = status st (h_clt_nonce h, y)) by done.
  unfold amo_check in Hamo. rewrite Ht in Hamo.
  destruct (status st (h_clt_nonce h, h_xid h)) as [[|b sz]|] eqn:Es.
  - injection Hamo as E1 E2 _. rewrite E1, ?E2. do 2 eexists. by split_and!.
  - injection Hamo as E1 E2 _. rewrite E1, ?E2. do 2 eexists. by split_and!.
  - rewrite decide_False in Hamo.
    + injection Hamo as E1 E2 _. rewrite E1, ?E2. do 2 eexists. by split_and!.
    + intros [Hne Hall]. destruct Hk as [[a Ha]|[_ Hk]].
      * rewrite <- Ht in Ha. specialize (Hall 1 a Ha). simpl in Hall. lia.
      * apply Hne. apply map_eq. intros y. by rewrite Ht, Hk, lookup_empty.
Qed.

Lemma job_conns_begin s st q1 dj q2 b :
  sy_queue s = q1 ++ dj :: q2 -> (forall j, b = B_new j -> jb_conn j = dj_conn dj) ->
  Permutation (job_conns s)
    (match b with B_new _ => [] | _ => [dj_conn dj] end ++ job_conns (after_begin s st (q1 ++ q2) b)).
Proof.
  intros Eq Hj. unfold job_conns. rewrite Eq, fmap_app, fmap_cons.
  destruct b; cbn [after_begin sy_queue sy_run sy_rep app]; rewrite ?fmap_app, ?fmap_cons;
    try (rewrite <- !app_assoc; cbn [app]; by rewrite <- Permutation_middle).
  rewrite (Hj j eq_refl), <- !app_assoc. cbn [app]. by rewrite <- !Permutation_middle.
Qed.

Lemma keeps_classified st st' h b :
  rs_nonce st' = rs_nonce st -> rs_procs st' = rs_procs st -> classified st h st' b ->
  (forall j, b = B_new j -> known st (job_key j).1 (job_key j).2 /\ (job_key j).1 <> 0) ->
  keeps st st'.
Proof.
  intros Hn Hp (_ & Hsame & Hb) Hnew. split; [done..|]. intros n x Hk.
  assert (Hb' : (exists j, b = B_new j) \/ forall j, b <> B_new j)
    by (destruct b; first [by left; eexists|by right]).
  destruct Hb' as [[j ->]|Hnb].
  2: { destruct Hk as [Hk|[Hx Hk]]; [left|right; split; [done|intros y]]; rewrite Hsame by (by right); auto. }
  destruct (Hnew j eq_refl) as [Hkj Hne]. destruct Hb as [Ej Hrun]. rewrite Ej in Hkj, Hne.
  destruct (Hrun Hne) as [Hnone Hst']. set (k := (h_clt_nonce h, u32 (h_xid h))) in *.
  assert (Hmono : forall k', is_Some (status st k') -> is_Some (status st' k')).
  { intros k' Hk'. destruct (decide (k' = k)) as [->|]; [by rewrite Hst'|].
    by rewrite Hsame by (by left). }
  destruct Hk as [Hk|[Hx Hk]]; [left; by apply Hmono|].
  destruct (decide (n = k.1)) as [->|Hne'].
  - left. destruct Hkj as [Hs|[Hx1 _]]; [by rewrite Hk in Hs; destruct Hs|].
    replace (k.1, 1) with k by (rewrite <- Hx1; by destruct k). by rewrite Hst'.
  - right. split; [done|]. intros y. rewrite Hsame; [done|]. left. intros E. apply Hne'. by rewrite <- E.
Qed.

(** [dispatch] up to the handler, for a request in the queue. *)
Lemma begin_dispatched s q1 dj q2 :
  sys_inv s -> server_live s -> sy_queue s = q1 ++ dj :: q2 ->
  exists st b h h' u, dispatch_begin (sy_rs s) dj = Ok (st, b) /\
    unpack_req_header (new_unmarshall (dj_buf dj) (dj_sz dj)) = Ok (h, u) /\
    u32 (h_xid h) = h_xid h /\ conn !! h_clt_nonce h = Some (dj_conn dj) /\
    rs_nonce st = rs_nonce (sy_rs s) /\ rs_reachable st = rs_reachable (sy_rs s) /\
    (forall n c, rs_conns st !! n = Some c -> conn !! n = Some c) /\
    heap_live (rs_heap st) (job_conns (after_begin s st (q1 ++ q2) b)) /\
    classified (sy_rs s) h' st b /\
    match b with
    | B_new j => exists f, j = Job (dj_conn dj) h f u /\ h_clt_nonce h <> 0 /\ known (sy_rs s) (h_clt_nonce h) (h_xid h)
    | B_inprogress => status (sy_rs s) (h_clt_nonce h, h_xid h) = Some Running
    | B_done h' b _ => h' = h
    | _ => False
    end.
Proof.
  intros Hi [L1 L2 L3 L4 L5 L6 L7] Eq.
  destruct (L4 dj) as (n & x & Hc & h & u & Eu & Hu & En & Hn & Ex & Hx & Hxr & Hnon & [f Hf] & Hk);
    [rewrite Eq; set_solver|].
  destruct (classify_live (sy_rs s) (job_conns s) (dj_conn dj) h f u) as (st & b & E & Hh & Hcs & Hre & Hno & Hb);
    [apply Hi|done|done|by rewrite En|by rewrite En|by rewrite Ex|by rewrite Ex|by rewrite En, Ex|].
  assert (Hcx : forall j, b = B_new j -> jb_conn j = dj_conn dj) by (by intros j ->; subst j).
  rewrite (job_conns_begin s st q1 dj q2 b Eq Hcx) in Hh.
  assert (Hd : exists st', dispatch_begin (sy_rs s) dj = Ok (st', b) /\ rs_nonce st' = rs_nonce st /\
      rs_conns st' = rs_conns st /\ rs_reachable st' = rs_reachable st /\
      heap_live (rs_heap st') (job_conns (after_begin s st (q1 ++ q2) b))).
  { unfold dispatch_begin. rewrite Eu. cbn [mbind res_bind]. rewrite Hu. cbn [negb].
    replace (negb (h_srv_nonce h =? 0) && negb (h_srv_nonce h =? rs_nonce (sy_rs s))) with false by
      (destruct Hnon as [->| ->]; [done|by rewrite Z.eqb_refl, andb_false_r]).
    rewrite Hf, E. cbn [mbind res_bind]. destruct b as [| |j| | |]; try done;
      try (destruct (decref_live _ _ _ _ Hh Hc) as (hp' & -> & ?)); cbn [mbind res_bind];
      eexists; (split; [reflexivity|]); [by destruct (_ =? 0)|done|done]. }
  destruct Hd as (st' & Ed & Sn & Sc & Sr & Hh').
  destruct (dispatch_begin_spec _ _ _ _ (si_windows _ Hi) Ed) as (h' & Hcl).
  exists st', b, h, h', u. split_and!; try done.
  - apply wrapU_small. unfold is_unsigned, XID_LIMIT in *. lia.
  - by rewrite En.
  - by rewrite Sn.
  - by rewrite Sr.
  - by rewrite Sc.
  - by destruct b.
  - destruct b; try done. exists f. rewrite En, Ex. by split_and!.
Qed.

Lemma begin_live s q1 dj q2 :
  sys_inv s -> server_live s -> sy_queue s = q1 ++ dj :: q2 ->
  exists st b h u, dispatch_begin (sy_rs s) dj = Ok (st, b) /\
    unpack_req_header (new_unmarshall (dj_buf dj) (dj_sz dj)) = Ok (h, u) /\
    keeps (sy_rs s) st /\ server_live (after_begin s st (q1 ++ q2) b) /\
    match b with
    | B_new j => jb_h j = h
    | B_inprogress => status (sy_rs s) (h_clt_nonce h, h_xid h) = Some Running
    | B_done h' b _ => h' = h
    | _ => False
    end /\ u32 (h_xid h) = h_xid h /\ conn !! h_clt_nonce h = Some (dj_conn dj).
Proof.
  intros Hi Hl Eq. destruct (begin_dispatched _ _ _ _ Hi Hl Eq)
    as (st & b & h & h' & u & Ed & Eu & Hux & Hc & Sn & Sr & Hcs & Hh & Hcl & Hb).
  pose proof Hl as [L1 L2 L3 L4 L5 L6 L7].
  assert (Hkeep : keeps (sy_rs s) st).
  { apply (keeps_classified _ _ h' b); [done|by eapply dispatch_begin_procs|done|].
    intros j ->. destruct Hb as (f & -> & ? & ?). unfold job_key. cbn [jb_h fst snd]. by rewrite Hux. }
  exists st, b, h, u. split_and!; try done; [|by destruct b; try done; destruct Hb as (f & -> & _)].
  destruct Hcl as (_ & Hsame & Hnew).
  assert (Ers : sy_rs (after_begin s st (q1 ++ q2) b) = st) by (by destruct b).
  split; rewrite ?Ers; try done.
  - by rewrite Sr.
  - intros dj' Hin. apply (queue_keeps s st Hkeep L4). rewrite Eq.
    assert (dj' ∈ q1 ++ q2) by (by destruct b). set_solver.
  - intros j Hin. destruct b as [| |j'| |? ? ?|]; try (by apply L5).
    cbn [after_begin sy_run] in Hin. apply elem_of_cons in Hin as [->|Hin]; [|by apply L5].
    by destruct Hb as (f & -> & _).
  - intros j b' Hin. apply L6 with b'. by destruct b.
  - intros k Hk0 Hrun. assert (Hrep : sy_rep (after_begin s st (q1 ++ q2) b) = sy_rep s) by (by destruct b). rewrite Hrep.
    destruct b as [| |j'| |? ? ?|]; cbn [after_begin sy_run];
      try (apply L7; [done|]; rewrite <- Hsame; [done|by right]).
    destruct (decide (k = job_key j')) as [->|Hne]; [left; exists j'; set_solver|].
    rewrite Hsame in Hrun by (left; by destruct Hnew as [<- _]).
    destruct (L7 k Hk0 Hrun) as [(j & Hin & Ej)|?]; [left; exists j; set_solver|by right].
Qed.

Lemma run_live s r1 j r2 b (app' : S) ex :
  server_live s -> 0 < h_clt_nonce (jb_h j) -> sy_run s = r1 ++ j :: r2 ->
  server_live (Sys (sy_rs s) app' (sy_queue s) (r1 ++ r2) ((j, b) :: sy_rep s) ex (sy_sent s)).
Proof.
  intros [L1 L2 L3 L4 L5 L6 L7] Hn Er. split; cbn [sy_rs sy_queue sy_run sy_rep]; try done.
  - unfold job_conns in *. cbn [sy_queue sy_run sy_rep]. rewrite Er in L2.
    rewrite fmap_app, fmap_cons in L2. rewrite fmap_app, fmap_cons. cbn [fst].
    rewrite <- !app_assoc in *. cbn [app] in *. by rewrite <- !Permutation_middle in *.
  - intros j' Hin. apply L5. rewrite Er. set_solver.
  - intros j' b' [[= -> ->]|Hin]%elem_of_cons; [|by apply (L6 _ b')]. split; [|done].
    apply L5. rewrite Er. set_solver.
  - intros k Hk Hrun. destruct (L7 k Hk Hrun) as [(j' & Hin & Ej)|(j' & b' & Hin & Ej)].
    + rewrite Er in Hin. apply elem_of_app in Hin as [?|[->|?]%elem_of_cons].
      * left. exists j'. set_solver.
      * right. exists j, b. set_solver.
      * left. exists j'. set_solver.
    + right. exists j', b'. set_solver.
Qed.

Lemma answer_dispatched s p1 j b p2 :
  sys_inv s -> server_live s -> sy_rep s = p1 ++ (j, b) :: p2 ->
  status (sy_rs s) (job_key j) = Some Running /\
  exists st, dispatch_reply (sy_rs s) j b = Ok (st, jb_conn j) /\
    rs_nonce st = rs_nonce (sy_rs s) /\ rs_conns st = rs_conns (sy_rs s) /\
    rs_reachable st = rs_reachable (sy_rs s) /\
    heap_live (rs_heap st) (job_conns (Sys (sy_rs s) (sy_app s) (sy_queue s) (sy_run s) (p1 ++ p2)
      (sy_exec s) (sy_sent s))).
Proof.
  intros Hi [L1 L2 L3 L4 L5 L6 L7] Ep.
  assert (Hin : (j, b) ∈ sy_rep s) by (rewrite Ep; set_solver).
  destruct (L6 j b Hin) as [Hc Hn]. destruct (si_rep _ Hi j b Hin) as [Hrun _]; [cbn; lia|].
  assert (Hperm : Permutation (job_conns s) (jb_conn j :: job_conns (Sys (sy_rs s) (sy_app s)
    (sy_queue s) (sy_run s) (p1 ++ p2) (sy_exec s) (sy_sent s)))).
  { unfold job_conns. rewrite Ep. cbn [sy_queue sy_run sy_rep]. rewrite !fmap_app, fmap_cons. cbn [fst].
    by rewrite !app_assoc, <- Permutation_middle. }
  split; [done|].
  unfold dispatch_reply. replace (h_clt_nonce (jb_h j) >? 0) with true by (symmetry; apply Z.gtb_lt; lia).
  destruct (add_reply_spec (default [] (rs_reply_window (sy_rs s) !! h_clt_nonce (jb_h j)))
    (u32 (h_xid (jb_h j))) b (zlen b)) as (w & -> & _).
  { apply window_ok_default, Hi. } { by exists Running. }
  cbn [mbind res_bind rs_heap set_window].
  destruct (L2 _ _ Hc) as (cn & -> & Hd & _). rewrite Hd. cbn [andb mbind res_bind].
  rewrite Hperm in L2. destruct (decref_live _ _ _ _ L2 Hc) as (hp & -> & Hh). cbn [mbind res_bind].
  eexists. split; [reflexivity|]. by split_and!.
Qed.

Lemma answer_live s p1 j b p2 :
  sys_inv s -> server_live s -> sy_rep s = p1 ++ (j, b) :: p2 ->
  exists st, dispatch_reply (sy_rs s) j b = Ok (st, jb_conn j) /\ keeps (sy_rs s) st /\
    server_live (Sys st (sy_app s) (sy_queue s) (sy_run s) (p1 ++ p2) (sy_exec s)
      ((job_key j, b) :: sy_sent s)).
Proof.
  intros Hi Hl Ep. destruct (answer_dispatched _ _ _ _ _ Hi Hl Ep) as (Hrun & st & E & Sn & Sc & Sr & Hh).
  destruct Hl as [L1 L2 L3 L4 L5 L6 L7].
  assert (Hn : 0 < h_clt_nonce (jb_h j)) by (apply (L6 j b); rewrite Ep; set_solver).
  destruct (dispatch_reply_spec _ _ _ _ _ (si_windows _ Hi) (fun _ => Hrun) E) as [_ Hst].
  assert (Hmono : forall k, is_Some (status (sy_rs s) k) <-> is_Some (status st k)).
  { intros k. rewrite Hst. destruct (decide (k = job_key j /\ _)) as [[-> _]|_]; [|reflexivity].
    rewrite Hrun. by split; eexists. }
  assert (Hkeep : keeps (sy_rs s) st).
  { split; [done|by eapply dispatch_reply_procs|]. intros n x [Hk|[Hx Hk]].
    - left. by apply Hmono.
    - right. split; [done|]. intros y. apply eq_None_not_Some. rewrite <- Hmono, Hk. by intros []. }
  exists st. split; [done|]. split; [done|]. split; cbn [sy_rs sy_queue sy_run sy_rep]; try done.
  - congruence.
  - by rewrite Sc.
  - by apply queue_keeps.
  - intros j' b' Hin'. apply (L6 j' b'). rewrite Ep. set_solver.
  - intros k Hk0 Hk. rewrite Hst in Hk. destruct (decide (k = job_key j /\ _)) as [|Hd]; [done|].
    destruct (L7 k Hk0 Hk) as [?|(j' & b' & Hin' & Ej)]; [by left|right]. exists j', b'. split; [|done].
    rewrite Ep in Hin'. apply elem_of_app in Hin' as [?|[[= -> ->]|?]%elem_of_cons]; [set_solver| |set_solver].
    destruct Hd. split; [done|lia].
Qed.
End server.
