(* ===== verification/RpcThreads.v ===== *)
(** * Threads that make calls

    Programs that use the RPC library, as threads that bind clients, call one
    method after the other and start and join threads; and a world of such
    threads, their [rpcc] endpoints, a server and the packets on their way. The
    events of the world are the critical sections of [call1], [got_pdu] and
    [dispatch], the arrival of packets, and the loss of them. *)
From S2P Require Import Prelude Marshall ReplyWindow RpcUtil RpcClient Connection RpcServer.
From S2P Require Import Service RpcSystem.

(** ** Threads and events *)

(** What a thread does next: a call of procedure [p] through the client with
    nonce [n], the argument and the result being of the types [c] and [cr]; [fin]
    is what it does to the client with the outcome (only [bind] does anything).
    [short]: the call has a timeout of its own ([rpcc::to]) and may expire; a call
    without one is given 120 seconds, in which a reply comes. *)
Inductive thread :=
  | T_done
  | T_fail                                        (* a VERIFY of the thread failed *)
  | T_call (n : Z) (short : bool) (p : Z) (A R : Type) (c : codec A) (cr : codec R) (a : A)
      (fin : Z -> R -> rpcc -> rpcc) (k : Z -> R -> thread)
  | T_fork (t : thread) (k : nat -> thread)       (* pthread_create, with the new thread's id *)
  | T_join (j : nat) (k : thread).
Arguments T_call _ _ _ {_ _} _ _ _ _ _.

Definition T_rpc (n : Z) (short : bool) (p : Z) {A R} (c : codec A) (cr : codec R) (a : A)
    (k : Z -> R -> thread) : thread := T_call n short p c cr a (fun _ _ st => st) k.
(** [rpcc::bind]. *)
Definition T_bind `{Allocator} (n : Z) (k : Z -> thread) : thread :=
  T_call n false rpc_bind int_codec int_codec 0 (fun ret r st => bind_finish st ret r) (fun ret _ => k ret).
Definition t_verify (b : bool) (t : thread) : thread := if b then t else T_fail.

Inductive tstate :=
  | Idle (t : thread)
  | Waiting (n x xr : Z) (req : marshall) (short : bool) (R : Type) (cr : codec R)
      (fin : Z -> R -> rpcc -> rpcc) (k : Z -> R -> thread).
Arguments Waiting _ _ _ _ _ {_} _ _ _.

(** [w_reqs] are the request packets on the way, with the client's nonce, and
    [w_reps] the replies, with the connection; [w_broken] are the threads whose
    channel ([ch] of [call1]) has died since they sent their request on it. A
    channel that is replaced keeps its number. *)
Record world {S : Type} := World {
  w_net : net S;
  w_conn : gmap Z Z;
  w_reqs : list (Z * list byte);
  w_reps : list (Z * list byte);
  w_threads : list tstate;
  w_broken : gset nat
}.
Arguments world : clear implicits.
Arguments World {_} _ _ _ _ _ _.

Inductive event :=
  | E_go (t : nat)                  (* a thread goes on: its call starts, or ends after the reply *)
  | E_again (t : nat)               (* the request of a call is sent again, on a new channel *)
  | E_expire (t : nat)              (* a short call gives up *)
  | E_arrive (i : nat) | E_lose_request (i : nat)   (* lost with its channel *)
  | E_begin (i : nat) | E_run (i : nat) | E_answer (i : nat)
  | E_deliver (i : nat) (n : Z) | E_lose_reply (i : nat).

Definition is_over (ts : tstate) : bool := match ts with Idle T_done => true | _ => false end.

Definition remove_nth {A} (i : nat) (l : list A) : list A := take i l ++ drop (S i) l.

Lemma remove_nth_split {A} i (l : list A) x :
  l !! i = Some x -> l = take i l ++ x :: drop (S i) l.
Proof. intros Hx. by rewrite take_drop_middle. Qed.

Section world.
Context `{Allocator} {S : Type}.
Implicit Types w : world S.

Definition set_net w (nt : net S) : world S := 
  World nt (w_conn w) (w_reqs w) (w_reps w) (w_threads w) (w_broken w).
Definition set_thread w (t : nat) (ts : tstate) : world S :=
  World (w_net w) (w_conn w) (w_reqs w) (w_reps w) (<[t := ts]> (w_threads w)) (w_broken w).

Definition fork_thread w (t : nat) (t' : thread) (k : nat -> thread) : world S :=
  World (w_net w) (w_conn w) (w_reqs w) (w_reps w)
    (<[t := Idle (k (length (w_threads w)))]> (w_threads w) ++ [Idle t']) (w_broken w).

(** [call1] of thread [t] sends the request over a live channel, and under
    RPC_LOSSY the one kept back. *)
Definition transmit w (t : nat) (n : Z) (ep : endpoint) (req : marshall) : world S :=
  let '(st, pkts) := call1_transmit (ep_rpcc ep) req in
  World (set_endpoint (w_net w) n (Endpoint st (ep_sent ep))) (w_conn w)
    (w_reqs w ++ (pair n <$> pkts)) (w_reps w) (w_threads w) (w_broken w ∖ {[t]}).

(** The threads that wait for a reply over connection [c]. *)
Definition waiting_on w (c : Z) : gset nat :=
  list_to_set (omap id (imap (fun t ts =>
    match ts with
    | Waiting n _ _ _ _ _ _ _ => if decide (w_conn w !! n = Some c) then Some t else None
    | Idle _ => None
    end) (w_threads w))).

(** The stub [call] and [call1] up to the wait. *)
Definition call_start w (t : nat) (n : Z) (short : bool) (p : Z) {A R} (c : codec A) (cr : codec R)
    (a : A) (fin : Z -> R -> rpcc -> rpcc) (k : Z -> R -> thread) : res (world S) :=
  match nw_clients (w_net w) !! n with
  | None => Err Undefined
  | Some ep =>
      req ← call_1 c a;
      r ← call1_begin (ep_rpcc ep) p req unmarshall_empty;
      match r with
      | Refused ret => Ok (set_thread w t (Idle (k ret (c_init cr))))
      | Begun st x xr req =>
          let ep := Endpoint st
            (<[x := Sent p (c_enc c a) (marshall_cstr req)]> (ep_sent ep)) in
          Ok (transmit (set_thread (set_net w (set_endpoint (w_net w) n ep)) t
                (Waiting n x xr req short cr fin k)) t n ep req)
      end
  end.

(** [call1] after the wait, and [call_m]. *)
Definition call_finish w (t : nat) (n x xr : Z) (req : marshall) {R} (cr : codec R)
    (fin : Z -> R -> rpcc -> rpcc) (k : Z -> R -> thread) : res (world S) :=
  match nw_clients (w_net w) !! n with
  | None => Err Undefined
  | Some ep =>
      '(st, ca, ret) ← call1_end (ep_rpcc ep) x xr req;
      '(ret, r) ← call_m cr (c_init cr) ret (ca_un ca);
      Ok (set_thread (set_net w (set_endpoint (w_net w) n (Endpoint (fin ret r st) (ep_sent ep)))) t
            (Idle (k ret r)))
  end.

Definition call_is_done w (n x : Z) : bool :=
  match nw_clients (w_net w) !! n with
  | Some ep => match calls (ep_rpcc ep) !! x with Some ca => ca_done ca | None => false end
  | None => false
  end.

(** The reply [dispatch] sends at once, over the connection of the request. *)
Definition reply_of (b : begun S) : list (list byte) :=
  match b with B_old_server p | B_forgotten p => [p] | B_done _ p _ => [p] | _ => [] end.

(** [None] when the event cannot happen, [Err] when something fails. *)
Definition live_step w (e : event) : option (res (world S)) :=
  let s := nw_server (w_net w) in
  match e with
  | E_go t =>
      match w_threads w !! t with
      | Some (Idle (T_call n short p c cr a fin k)) => Some (call_start w t n short p c cr a fin k)
      | Some (Waiting n x xr req short cr fin k) =>
          if call_is_done w n x then Some (call_finish w t n x xr req cr fin k) else None
      | Some (Idle (T_fork t' k)) => Some (Ok (fork_thread w t t' k))
      | Some (Idle (T_join j k)) =>
          ts ← w_threads w !! j; if is_over ts then Some (Ok (set_thread w t (Idle k))) else None
      | _ => None
      end
  | E_again t =>
      match w_threads w !! t with
      | Some (Waiting n x xr req short cr fin k) =>
          ep ← nw_clients (w_net w) !! n;
          if retrans (ep_rpcc ep) && bool_decide (t ∈ w_broken w) then Some (Ok (transmit w t n ep req)) else None
      | _ => None
      end
  | E_expire t =>
      match w_threads w !! t with
      | Some (Waiting n x xr req true cr fin k) =>
          if call_is_done w n x then None else Some (call_finish w t n x xr req cr fin k)
      | _ => None
      end
  | E_arrive i =>
      '(n, pkt) ← w_reqs w !! i;
      c ← w_conn w !! n;
      Some (
        '(st, o, _) ← got_pdu (sy_rs s) c (on_wire pkt) (zlen (on_wire pkt)) true true;
        let q := match o with Some dj => dj :: sy_queue s | None => sy_queue s end in
        Ok (World (set_server (w_net w)
              (Sys st (sy_app s) q (sy_run s) (sy_rep s) (sy_exec s) (sy_sent s)))
              (w_conn w) (remove_nth i (w_reqs w)) (w_reps w) (w_threads w) (w_broken w)))
  | E_lose_request i =>
      '(n, _) ← w_reqs w !! i;
      c ← w_conn w !! n;
      Some (Ok (World (w_net w) (w_conn w) (remove_nth i (w_reqs w)) (w_reps w) (w_threads w)
        (w_broken w ∪ waiting_on w c)))
  | E_begin i =>
      dj ← sy_queue s !! i;
      Some (
        '(st, b) ← dispatch_begin (sy_rs s) dj;
        Ok (World (set_server (w_net w) (after_begin s st (remove_nth i (sy_queue s)) b)) (w_conn w)
              (w_reqs w) ((pair (dj_conn dj) <$> reply_of b) ++ w_reps w) (w_threads w) (w_broken w)))
  | E_run i =>
      j ← sy_run s !! i;
      Some (
        '(b, app) ← dispatch_run j (sy_app s);
        Ok (set_net w (set_server (w_net w)
              (Sys (sy_rs s) app (sy_queue s) (remove_nth i (sy_run s)) ((j, b) :: sy_rep s)
                 ((job_key j, b) :: sy_exec s) (sy_sent s)))))
  | E_answer i =>
      '(j, b) ← sy_rep s !! i;
      Some (
        '(st, c) ← dispatch_reply (sy_rs s) j b;
        Ok (World (set_server (w_net w)
              (Sys st (sy_app s) (sy_queue s) (sy_run s) (remove_nth i (sy_rep s)) (sy_exec s)
                 ((job_key j, b) :: sy_sent s)))
              (w_conn w) (w_reqs w) ((c, b) :: w_reps w) (w_threads w) (w_broken w)))
  | E_deliver i n =>
      '(c, b) ← w_reps w !! i;
      if decide (w_conn w !! n = Some c) then
        ep ← nw_clients (w_net w) !! n;
        Some (
          st ← rpcc_got_pdu (ep_rpcc ep) (on_wire b) (zlen (on_wire b));
          Ok (World (set_endpoint (w_net w) n (Endpoint st (ep_sent ep))) (w_conn w) (w_reqs w)
                (remove_nth i (w_reps w)) (w_threads w) (w_broken w)))
      else None
  | E_lose_reply i =>
      '(c, _) ← w_reps w !! i;
      Some (Ok (World (w_net w) (w_conn w) (w_reqs w) (remove_nth i (w_reps w)) (w_threads w)
        (w_broken w ∪ waiting_on w c)))
  end.

(** A sequence of events; [None] when one of them cannot happen. *)
Fixpoint live_run w (es : list event) : option (res (world S)) :=
  match es with
  | [] => Some (Ok w)
  | e :: es =>
      r ← live_step w e;
      match r with Ok w => live_run w es | Err f => Some (Err f) end
  end.

Definition finished w : Prop := Forall (fun ts => ts = Idle T_done) (w_threads w).
Definition no_failure w : Prop := Idle T_fail ∉ w_threads w.
End world.

(** ** The start *)

(** A server just started, and clients that have connected to it and drawn a
    nonce each ([cls] has the numbers drawn, and RPC_LOSSY); connections go by the
    nonce of their client. *)
Section start.
Context {S : Type}.

Definition client_nonces (cls : list (Z * Z)) : list Z := (fun cl => u32 cl.1) <$> cls.
Definition new_clients (cls : list (Z * Z)) : gmap Z endpoint :=
  list_to_map ((fun cl => (u32 cl.1, Endpoint (new_rpcc true cl.1 cl.2) ∅)) <$> cls).
Definition accepted (cls : list (Z * Z)) : gmap Z connection :=
  list_to_map ((fun n => (n, new_connection n 0 (0, 0))) <$> client_nonces cls).

Definition start_world (st : rpcs S) (app : S) (cls : list (Z * Z)) (t : thread) : world S :=
  World (Net (new_clients cls) (Sys (set_heap st (accepted cls)) app [] [] [] [] []))
    (list_to_map ((fun n => (n, n)) <$> client_nonces cls)) [] [] [Idle t] ∅.
End start.
