(* ===== verification/RpcLive.v ===== *)
(** * Calls that complete

    The other half of the contract of RpcSystem: nothing gets stuck. A server and
    its clients and threads as in RpcThreads; requests and replies on the way may
    be delayed, overtaken, and lost with their channel, which makes their callers
    send their requests again. No check of the library or of the threads fails,
    whatever the order of events, and at every moment all calls can still be
    completed. *)
From S2P Require Import Prelude Marshall ReplyWindow RpcUtil RpcClient Connection RpcServer.
From S2P Require Import Service RpcSystem RpcServing RpcThreads.

(** ** What holds throughout *)

Section live.
Context `{Allocator} {S : Type} (srv : service S).
Hypothesis srv_ok : service_ok srv.

(** What the methods keep true of the server's state. *)
Context (I : S -> Prop).
Implicit Types (w : world S) (sp : spec S) (t : thread) (st : rpcs S).

(** The server's nonce, which [bind] returns. *)
Context (nonce : Z).
Hypothesis nonce_ok : is_unsigned 32 nonce.

(** The method succeeds at [a] in every state that may occur. *)
Definition succeeds (m : method S) (a : me_arg m) : Prop :=
  forall s, I s -> exists ret r s', me_fn m a (c_init (me_cr m)) s = Ok (ret, r, s') /\ 0 <= ret /\ I s'.

(** A thread makes at most [N] calls (starting and joining a thread count too, and
    so do the calls of the threads it starts), through the clients in [C], which are bound,
    and after binding them through those in [U], which only this thread uses; and
    none of its checks fails when the calls succeed (or, if short, expire). It joins
    threads in [J] only. *)
Inductive safe : gset nat -> gset Z -> gset Z -> nat -> thread -> Prop :=
  | safe_done J C U N : safe J C U N T_done
  | safe_call J C U N n short p A R (c : codec A) (cr : codec R) fn a fin k :
      n ∈ C -> p <> rpc_bind -> srv !! p = Some (Method A R c cr fn) -> fits c a ->
      succeeds (Method A R c cr fn) a -> (forall ret r q, fin ret r q = q) ->
      (forall s ret r s', I s -> fn a (c_init cr) s = Ok (ret, r, s') -> safe J C U N (k ret r)) ->
      (short = true -> safe J C U N (k timeout_failure (c_init cr))) ->
      safe J C U (Datatypes.S N) (T_call n short p c cr a fin k)
  | safe_bind J C U N n A R (c : codec A) (cr : codec R) fn a fin k :
      n ∈ U -> srv !! rpc_bind = Some (Method A R c cr fn) -> fits c a ->
      succeeds (Method A R c cr fn) a ->
      (forall s ret r s', I s -> fn a (c_init cr) s = Ok (ret, r, s') ->
         (forall q, fin ret r q = bind_finish q 0 (s32 nonce)) /\
         safe J (C ∪ {[n]}) (U ∖ {[n]}) N (k ret r)) ->
      safe J C U (Datatypes.S N) (T_call n false rpc_bind c cr a fin k)
  | safe_rebind J C U N n short A R (c : codec A) (cr : codec R) a fin k :
      n ∈ C -> fits c a -> CodecOk c -> safe J C U N (k bind_failure (c_init cr)) ->
      safe J C U (Datatypes.S N) (T_call n short rpc_bind c cr a fin k)
  | safe_fork J C U U' N N' t k :
      U' ⊆ U -> safe ∅ C U' N t -> (forall j, safe (J ∪ {[j]}) C (U ∖ U') N' (k j)) ->
      safe J C U (Datatypes.S (N + N')) (T_fork t k)
  | safe_join J C U N j k :
      j ∈ J -> safe J C U N k -> safe J C U (Datatypes.S N) (T_join j k).

Definition good_request (p : Z) (args : list byte) : Prop :=
  exists m a, srv !! p = Some m /\ fits (me_c m) a /\ c_enc (me_c m) a = args /\ succeeds m a.

(** What a thread may count on: calls it may still make, clients it knows to be
    bound, clients only it uses and threads it has started. *)
Record budget := Budget { bg_calls : nat; bg_bound : gset Z; bg_own : gset Z; bg_join : gset nat }.

Definition all_bound (nt : net S) (C : gset Z) : Prop :=
  forall n, n ∈ C -> exists ep, nw_clients nt !! n = Some ep /\ bind_done (ep_rpcc ep) = true.
Definition all_fresh (nt : net S) (U : gset Z) : Prop :=
  forall n, n ∈ U -> exists ep, nw_clients nt !! n = Some ep /\ bind_done (ep_rpcc ep) = false /\
    xid_ (ep_rpcc ep) = 1.

(** A thread that waits: its request was sent, its slot is there, and its
    continuation is safe. *)
Definition tstate_ok (nt : net S) (bg : budget) (ts : tstate) : Prop :=
  let N := bg_calls bg in
  let C := bg_bound bg in
  let U := bg_own bg in
  let J := bg_join bg in
  all_bound nt C /\
  match ts with
  | Idle t => safe J C U N t /\ all_fresh nt U
  | @Waiting n x _ req short R cr fin k =>
      exists A c fn a p ep, nw_clients nt !! n = Some ep /\ is_Some (calls (ep_rpcc ep) !! x) /\
        ep_sent ep !! x = Some (Sent p (c_enc c a) (marshall_cstr req)) /\
        srv !! p = Some (Method A R c cr fn) /\ fits c a /\
        ((n ∈ C /\ all_fresh nt U /\ (forall ret r q, fin ret r q = q) /\
          (forall s ret r s', I s -> fn a (c_init cr) s = Ok (ret, r, s') -> safe J C U N (k ret r)) /\
          (short = true -> safe J C U N (k timeout_failure (c_init cr)))) \/
         (n ∈ U /\ all_fresh nt (U ∖ {[n]}) /\ short = false /\ x = 1 /\ bind_done (ep_rpcc ep) = false /\
          (forall s ret r s', I s -> fn a (c_init cr) s = Ok (ret, r, s') ->
             (forall q, fin ret r q = bind_finish q 0 (s32 nonce)) /\
             safe J (C ∪ {[n]}) (U ∖ {[n]}) N (k ret r))))
  end.

(** A client of the server [st], bound to it or not yet. *)
Record client_live (conn : gmap Z Z) st (n : Z) (ep : endpoint) : Prop := {
  cl_conn : is_Some (conn !! n);
  cl_mode : if bind_done (ep_rpcc ep) then srv_nonce (ep_rpcc ep) = rs_nonce st /\ known st n 2
            else srv_nonce (ep_rpcc ep) = 0 /\ known st n 1;
  cl_open : destroy_wait (ep_rpcc ep) = false;
  cl_reach : reachable (ep_rpcc ep) = true;
  cl_retrans : retrans (ep_rpcc ep) = true;
  cl_dup : request_isvalid (dup_req (ep_rpcc ep)) = true ->
    exists x sn, ep_sent ep !! x = Some sn /\ rq_buf (dup_req (ep_rpcc ep)) = sn_pkt sn;
  cl_done : forall x ca, calls (ep_rpcc ep) !! x = Some ca -> ca_done ca = true -> 0 <= ca_intret ca;
  cl_sent : forall x sn, ep_sent ep !! x = Some sn -> good_request (sn_proc sn) (sn_args sn) /\
    request_ok st n (on_wire (sn_pkt sn)) (zlen (on_wire (sn_pkt sn))) x
}.

Definition waits (ths : list tstate) (i : nat) (n x : Z) : Prop :=
  exists xr req short R (cr : codec R) fin k, ths !! i = Some (Waiting n x xr req short cr fin k).

(** Every call performed was performed on a state that may occur. *)
Definition performed_ok sp : Prop :=
  forall k p args ret rs, sp_calls sp !! k = Some (Performed p args ret rs) ->
    exists s s', I s /\ performs srv p args s ret rs s'.

(** No two threads own the same client, and a thread is younger than the one that
    started it. *)
Record apart (bgs : list budget) : Prop := {
  ap_own : forall i i' bg bg' n, bgs !! i = Some bg -> bgs !! i' = Some bg' ->
    n ∈ bg_own bg -> n ∈ bg_own bg' -> i = i';
  ap_join : forall i bg j, bgs !! i = Some bg -> j ∈ bg_join bg -> (i < j < length bgs)%nat
}.

Definition calls_left (bgs : list budget) : nat := sum_list (bg_calls <$> bgs).

Record linked w sp (bgs : list budget) : Prop := {
  lk_sim : sim srv (w_net w) sp;
  lk_app : I (sp_app sp);
  lk_performed : performed_ok sp;
  lk_nonce : rs_nonce (sy_rs (nw_server (w_net w))) = nonce;
  lk_server : server_live (w_conn w) (nw_server (w_net w));
  lk_inj : forall n n' c, w_conn w !! n = Some c -> w_conn w !! n' = Some c -> n = n';
  lk_clients : map_Forall (client_live (w_conn w) (sy_rs (nw_server (w_net w)))) (nw_clients (w_net w));
  lk_room : map_Forall (fun _ ep => xid_ (ep_rpcc ep) + Z.of_nat (calls_left bgs) <= XID_LIMIT)
    (nw_clients (w_net w));
  lk_reqs : forall n pkt, (n, pkt) ∈ w_reqs w ->
    exists x sn, issued (w_net w) n x = Some sn /\ pkt = sn_pkt sn;
  lk_reps : forall c b, (c, b) ∈ w_reps w ->
    exists n x, w_conn w !! n = Some c /\ ((n, x), b) ∈ sy_sent (nw_server (w_net w));
  lk_threads : Forall2 (tstate_ok (w_net w)) bgs (w_threads w);
  lk_once : forall i i' n x, waits (w_threads w) i n x -> waits (w_threads w) i' n x -> i = i';
  lk_apart : apart bgs
}.

(** *** Lemmas *)

Lemma enc_inj {A} (c : codec A) `{!CodecOk c} a a' :
  fits c a -> fits c a' -> c_enc c a = c_enc c a' -> a = a'.
Proof.
  intros [Ha Hr] [Ha' _] E. set (pre := replicate 24 Byte.x00).
  assert (Hz : zlen (pre ++ c_enc c a) <= INT_MAX).
  { change RPC_HEADER_SZ with 24 in Hr. unfold MAX_MSG, INT_MAX, zlen in *.
    rewrite length_app. change (length pre) with 24%nat. lia. }
  destruct (read_message_body c pre a Ha eq_refl Hz) as (u & E1 & _).
  destruct (read_message_body c pre a' Ha' eq_refl) as (u' & E2 & _); [by rewrite <- E|].
  rewrite E, E2 in E1. by injection E1 as ->.
Qed.

Lemma performs_good p args s ret rs s' m a :
  performs srv p args s ret rs s' -> srv !! p = Some m -> fits (me_c m) a -> c_enc (me_c m) a = args ->
  exists r, me_fn m a (c_init (me_cr m)) s = Ok (ret, r, s') /\ fits (me_cr m) r /\ c_enc (me_cr m) r = rs.
Proof.
  intros (m' & a' & r & Hm & Hf & He & Efn & _ & Hr & Hrs) Hm' Ha Eargs.
  rewrite Hm in Hm'. injection Hm' as <-. destruct (srv_method srv srv_ok _ _ Hm) as [_ [Hc _ _]].
  assert (a' = a) as -> by (apply (enc_inj (me_c m')); [done..|congruence]). by exists r.
Qed.

Lemma performs_keeps p args s ret rs s' :
  performs srv p args s ret rs s' -> good_request p args -> I s -> I s'.
Proof.
  intros Hp (m & a & Hm & Ha & Eargs & Hs) HI. destruct (performs_good _ _ _ _ _ _ m a Hp) as (r & E & _); try done.
  destruct (Hs s HI) as (ret' & r' & s'' & E' & _ & HI'). rewrite E in E'. by injection E' as _ _ <-.
Qed.

Lemma spec_step_performed sp sp' :
  spec_step srv sp sp' -> I (sp_app sp) -> performed_ok sp ->
  (forall k p args, sp_calls sp !! k = Some (Issued p args) -> good_request p args) ->
  I (sp_app sp') /\ performed_ok sp'.
Proof.
  intros Hs HI Hp Hg. destruct Hs as [sp k p args Hk|sp k p args ret rs s' Hk Hperf];
    unfold performed_ok; cbn [sp_app sp_calls].
  - split; [done|]. intros k' p' args' ret rs [[_ [=]]|[_ Hl]]%lookup_insert_Some. by eapply Hp.
  - split; [by eapply performs_keeps, HI; [|by eapply Hg]|].
    intros k' p' args' ret' rs' [[_ [= <- <- <- <-]]|[_ Hl]]%lookup_insert_Some; [by exists (sp_app sp), s'|by eapply Hp].
Qed.

(** The handler of a good request runs. *)
Lemma run_total n x p args j s :
  job_for srv n x p args j -> good_request p args -> I s -> exists b s', dispatch_run j s = Ok (b, s').
Proof.
  intros (m & a & u & Hm & Ha & He & Ej & _ & _ & Eg & Hd) (m' & a' & Hm' & Ha' & He' & Hs) HI.
  rewrite Hm in Hm'. injection Hm' as <-. destruct (srv_method srv srv_ok _ _ Hm) as [_ [Hc Hcr Hfn]].
  assert (a' = a) as -> by (apply (enc_inj (me_c m)); [done..|congruence]).
  destruct (Hs s HI) as (ret & r & s' & Efn & Hret & _). destruct (Hfn _ _ _ _ _ Ha Efn) as [[Hr Hroom] _].
  destruct (build_reply_spec (me_cr m) (ReplyHeader (h_xid (jb_h j)) ret) r Hr Hroom) as (rep & _ & _ & Eb & _).
  unfold build_reply in Eb. unfold dispatch_run. rewrite Ej. unfold serve, reg_1. rewrite Eg.
  cbn [mbind res_bind]. unfold fn_tail. rewrite Hd. cbn [negb]. rewrite Efn. cbn [mbind res_bind].
  destruct (c_put (me_cr m) r new_marshall) as [mr|]; [|done]. cbn [mbind res_bind] in Eb |- *.
  unfold unmarshal_args_failure. replace (ret =? -2) with false by lia. replace (ret >=? 0) with true by lia.
  cbn [negb VERIFY mbind res_bind]. rewrite Eb. cbn [mbind res_bind]. by do 2 eexists.
Qed.

Lemma client_live_keeps conn st st' n ep : keeps st st' -> client_live conn st n ep -> client_live conn st' n ep.
Proof.
  intros Hk [H1 H2 H3 H4 H4' H5 H6 H7]. split; try done.
  - rewrite (kp_nonce _ _ Hk). destruct (bind_done _); (split; [apply H2|]); apply (kp_known _ _ Hk), H2.
  - intros x sn Hsn. destruct (H7 x sn Hsn) as [Hg Hr]. split; [done|]. by eapply request_ok_keeps.
Qed.

Lemma issued_good w sp bgs n x sn :
  linked w sp bgs -> issued (w_net w) n x = Some sn ->
  exists c, w_conn w !! n = Some c /\ good_request (sn_proc sn) (sn_args sn) /\
    request_ok (sy_rs (nw_server (w_net w))) n (on_wire (sn_pkt sn)) (zlen (on_wire (sn_pkt sn))) x.
Proof.
  intros Hl (ep & Hep & Hx)%bind_Some. pose proof (lk_clients _ _ _ Hl _ _ Hep) as Hc.
  destruct (cl_conn _ _ _ _ Hc) as [c ?]. exists c. split; [done|]. by apply (cl_sent _ _ _ _ Hc).
Qed.

(** *** Calls that are taken care of *)

(** The server takes care of call [x] of client [n], or its reply is on the way. *)
Definition reply_under_way w (n x : Z) : Prop :=
  exists c b, w_conn w !! n = Some c /\ (c, b) ∈ w_reps w /\ ((n, x), b) ∈ sy_sent (nw_server (w_net w)).
Definition served w (n x : Z) : Prop :=
  let s := nw_server (w_net w) in
  (exists j, j ∈ sy_run s /\ job_key j = (n, x)) \/
  (exists j b, (j, b) ∈ sy_rep s /\ job_key j = (n, x)) \/ reply_under_way w n x.

(** Its request is on the way, or waits for a thread of the server's pool. *)
Definition request_sent w (n x : Z) : Prop :=
  exists sn, issued (w_net w) n x = Some sn /\ (n, sn_pkt sn) ∈ w_reqs w.
Definition request_queued w (n x : Z) : Prop :=
  exists sn dj, issued (w_net w) n x = Some sn /\ dj ∈ sy_queue (nw_server (w_net w)) /\
    dj_buf dj = on_wire (sn_pkt sn) /\ dj_sz dj = zlen (on_wire (sn_pkt sn)).
Definition under_way w (n x : Z) : Prop := request_sent w n x \/ request_queued w n x \/ served w n x.

(** No call is forgotten: unless its channel is dead, so that it will be sent
    again, something is on the way. *)
Definition covered w : Prop :=
  forall i n x, waits (w_threads w) i n x ->
    call_is_done w n x = true \/ i ∈ w_broken w \/ under_way w n x.

Lemma covered_server w w' :
  w_threads w' = w_threads w -> w_broken w' = w_broken w ->
  nw_clients (w_net w') = nw_clients (w_net w) ->
  (forall n x, under_way w n x -> under_way w' n x) -> covered w -> covered w'.
Proof.
  intros Ht Hb Hc Hu Hcov i n x. rewrite Ht, Hb. unfold call_is_done. rewrite Hc. intros Hw.
  destruct (Hcov i n x Hw) as [?|[?|?]]; auto.
Qed.

(** Steps of the clients: the threads that wait are those from before, with what
    they count on, and one that has just sent its request. *)
Lemma covered_client w w' :
  nw_server (w_net w') = nw_server (w_net w) -> w_conn w' = w_conn w -> w_reps w' = w_reps w ->
  (forall q, q ∈ w_reqs w -> q ∈ w_reqs w') ->
  (forall n x sn, issued (w_net w) n x = Some sn -> issued (w_net w') n x = Some sn) ->
  (forall i n x, waits (w_threads w') i n x -> request_sent w' n x \/
     waits (w_threads w) i n x /\ (call_is_done w n x = true -> call_is_done w' n x = true) /\
     (i ∈ w_broken w -> i ∈ w_broken w')) ->
  covered w -> covered w'.
Proof.
  intros Hs Hc Hr Hq Hi Hw Hcov i n x [?|(Hw' & Hd & Hb)]%Hw; [by right; right; left|].
  destruct (Hcov i n x Hw') as [?|[?|Hu]]; [by auto..|right; right].
  destruct Hu as [(sn & ? & ?)|[(sn & dj & ? & ? & ?)|Hu]].
  - left. exists sn. auto.
  - right. left. exists sn, dj. rewrite Hs. auto.
  - right. right. unfold served, reply_under_way in *. by rewrite Hs, Hc, Hr.
Qed.

(** A step of a thread that does not wait. *)
Lemma covered_threads w ths :
  (forall i n x, waits ths i n x -> waits (w_threads w) i n x) ->
  covered w -> covered (World (w_net w) (w_conn w) (w_reqs w) (w_reps w) ths (w_broken w)).
Proof. intros Hw. apply covered_client; try done. intros i n x Hi%Hw. by right. Qed.

Lemma remove_nth_or {A} i (l : list A) y x : l !! i = Some y -> x ∈ l -> x = y \/ x ∈ remove_nth i l.
Proof.
  intros Hi Hx. rewrite (remove_nth_split _ _ _ Hi) in Hx. unfold remove_nth.
  rewrite elem_of_app, elem_of_cons in Hx. rewrite elem_of_app. tauto.
Qed.

Lemma issued_server (nt : net S) s n x : issued (set_server nt s) n x = issued nt n x.
Proof. done. Qed.

(** *** Events at the server *)

Lemma linked_server w sp bgs s' sp' reqs reps :
  linked w sp bgs -> sim srv (set_server (w_net w) s') sp' -> I (sp_app sp') -> performed_ok sp' ->
  server_live (w_conn w) s' -> keeps (sy_rs (nw_server (w_net w))) (sy_rs s') ->
  (forall q, q ∈ reqs -> q ∈ w_reqs w) ->
  (forall c b, (c, b) ∈ reps -> (c, b) ∈ w_reps w \/
     exists n x, w_conn w !! n = Some c /\ ((n, x), b) ∈ sy_sent s') ->
  (forall e, e ∈ sy_sent (nw_server (w_net w)) -> e ∈ sy_sent s') ->
  linked (World (set_server (w_net w) s') (w_conn w) reqs reps (w_threads w) (w_broken w)) sp' bgs.
Proof.
  intros [L1 L2 L3 L3' L4 L5 L6 L7 L8 L9 L10 L11 L12] Hs HI Hp Hl Hk Hreq Hrep Hsent.
  split; cbn [w_net w_conn w_reqs w_reps w_threads nw_server nw_clients set_server]; try done.
  - by rewrite (kp_nonce _ _ Hk).
  - intros n ep Hep. eapply client_live_keeps; [exact Hk|]. by apply L6.
  - intros n pkt Hin%Hreq. by apply L8.
  - intros c b [Hin|?]%Hrep; [|done]. destruct (L9 c b Hin) as (n & x & ? & ?). exists n, x. auto.
Qed.

Lemma elem_of_remove_nth {A} i (l : list A) x : x ∈ remove_nth i l -> x ∈ l.
Proof.
  unfold remove_nth. rewrite elem_of_app. intros [Hx|Hx]; [by eapply subseteq_take|by eapply subseteq_drop].
Qed.

Lemma arrive_linked w sp bgs i n pkt :
  linked w sp bgs -> w_reqs w !! i = Some (n, pkt) ->
  exists w' dj, live_step w (E_arrive i) = Some (Ok w') /\ linked w' sp bgs /\
    w_threads w' = w_threads w /\ nw_clients (w_net w') = nw_clients (w_net w) /\
    sy_queue (nw_server (w_net w')) = dj :: sy_queue (nw_server (w_net w)) /\
    dj_buf dj = on_wire pkt /\ dj_sz dj = zlen (on_wire pkt) /\ (covered w -> covered w').
Proof.
  intros Hl Hi. set (s := nw_server (w_net w)).
  destruct (lk_reqs _ _ _ Hl n pkt) as (x & sn & Hx & ->); [by eapply list_elem_of_lookup_2|].
  destruct (issued_good _ _ _ _ _ _ Hl Hx) as (c & Hc & _ & Hr).
  destruct (arrive_live _ s n c (on_wire (sn_pkt sn)) x (lk_server _ _ _ Hl) Hc Hr) as (st & E & Hk & _ & Hsl).
  unfold live_step. rewrite Hi. cbn [mbind option_bind]. rewrite Hc. cbn [mbind option_bind]. fold s.
  rewrite E. cbn [mbind res_bind]. do 2 eexists. split; [reflexivity|]. split; [|split_and!; try done].
  - apply bind_Some in Hx as (ep & Hep & Hx).
    apply (linked_server w sp bgs _ sp); [done| |apply Hl|apply Hl|done|done| |by left|done].
    + eapply (step_request srv); [apply Hl|exact Hep|exact Hx|exact E].
    + intros q. apply elem_of_remove_nth.
  - apply covered_server; [done..|]. intros n' x' [(sn' & Hx' & Hin)|[(sn' & dj & Hx' & Hin & Hdj)|?]]; [| |by right; right].
    + apply (remove_nth_or _ _ _ _ Hi) in Hin as [[= -> Epkt]|Hin]; [|by left; exists sn'].
      right. left. exists sn', (Djob (on_wire (sn_pkt sn)) (zlen (on_wire (sn_pkt sn))) c).
      rewrite Epkt. split_and!; [done|left|done..].
    + right. left. exists sn', dj. split_and!; [done|by right|apply Hdj..].
Qed.

Lemma begin_linked w sp bgs i dj :
  linked w sp bgs -> sy_queue (nw_server (w_net w)) !! i = Some dj ->
  exists w', live_step w (E_begin i) = Some (Ok w') /\ linked w' sp bgs /\
    w_threads w' = w_threads w /\ nw_clients (w_net w') = nw_clients (w_net w) /\
    (forall n x st, request_ok st n (dj_buf dj) (dj_sz dj) x -> served w' n x) /\ (covered w -> covered w').
Proof.
  intros Hl Hi. set (s := nw_server (w_net w)) in *.
  pose proof (remove_nth_split _ _ _ Hi) as Eq. pose proof (lk_server _ _ _ Hl) as Hsl. fold s in Hsl.
  pose proof (sys_reachable_inv _ (ni_sys _ _ (sm_inv _ _ _ (lk_sim _ _ _ Hl)))) as Hinv. fold s in Hinv.
  destruct (begin_live _ s _ dj _ Hinv Hsl Eq) as (st & b & h & u & E & Eu & Hk & Hsl' & Hb & Hux & Hc).
  unfold live_step. fold s. rewrite Hi. cbn [mbind option_bind]. rewrite E. cbn [mbind res_bind].
  set (w' := World _ _ _ _ _ _).
  assert (Hserved : forall n x st, request_ok st n (dj_buf dj) (dj_sz dj) x -> served w' n x).
  { intros n x st0 (h' & u' & Eu' & _ & En & Hn & Ex & _). rewrite Eu in Eu'. injection Eu' as <- <-.
    unfold served, w'. cbn [w_net w_conn w_reps set_server nw_server].
    destruct b as [| |j| |h' pk sz|]; try done; cbn [after_begin sy_run sy_rep sy_sent].
    + left. exists j. split; [set_solver|]. unfold job_key. by rewrite Hb, Hux, En, Ex.
    + rewrite En, Ex in Hb. destruct (sl_running _ _ Hsl (n, x) Hn Hb) as [?|?]; [by left|by right; left].
    + subst h'. right. right. exists (dj_conn dj), pk. rewrite Hux, En, Ex in *. split_and!; [done|set_solver..]. }
  assert (Hmore : forall n x, served w n x -> served w' n x).
  { intros n x [(j & Hin & Ej)|[(j & b0 & Hin & Ej)|(c & b0 & Hcn & Hin & Hsent)]]; unfold served, w';
      cbn [w_net w_conn w_reps set_server nw_server].
    - left. exists j. split; [|done]. destruct b; cbn [after_begin sy_run]; set_solver.
    - right. left. exists j, b0. split; [|done]. by destruct b.
    - right. right. exists c, b0. split; [done|]. split; [cbn [w_reps]; set_solver|].
      destruct b; cbn [w_net set_server nw_server after_begin sy_sent]; set_solver. }
  exists w'. split; [reflexivity|]. split; [|split_and!; try done].
  - apply (linked_server w sp bgs _ sp); try done; try apply Hl.
    + exact (step_begin' srv srv_ok (w_net w) sp _ dj _ st b (lk_sim _ _ _ Hl) Eq E).
    + by destruct b.
    + intros c b' [Hin|Hin]%elem_of_app; [right|by left].
      apply list_elem_of_fmap in Hin as (p & [= -> ->] & Hin).
      destruct b as [| | | |h' pk sz|]; try done; cbn [reply_of] in Hin;
        [by apply elem_of_nil in Hin|by apply elem_of_nil in Hin|].
      apply list_elem_of_singleton in Hin as ->. subst h'. exists (h_clt_nonce h), (h_xid h).
      split; [done|]. cbn [after_begin sy_sent]. rewrite Hux. set_solver.
    + intros e He. destruct b; cbn [after_begin sy_sent]; try done. set_solver.
  - apply covered_server; [done..|]. intros n x [?|[(sn & dj' & Hx & Hin & Ebuf & Esz)|?]]; [by left| |by right; right; apply Hmore].
    apply (remove_nth_or _ _ _ _ Hi) in Hin as [->|Hin].
    + right. right. destruct (issued_good _ _ _ _ _ _ Hl Hx) as (_ & _ & _ & Hok).
      eapply Hserved. rewrite Ebuf, Esz. exact Hok.
    + right. left. exists sn, dj'. split_and!; [done| |done..]. by destruct b.
Qed.

Lemma run_linked w sp bgs i j :
  linked w sp bgs -> sy_run (nw_server (w_net w)) !! i = Some j ->
  exists w' sp' b, live_step w (E_run i) = Some (Ok w') /\ rtc (spec_step srv) sp sp' /\ linked w' sp' bgs /\
    w_threads w' = w_threads w /\ nw_clients (w_net w') = nw_clients (w_net w) /\
    (j, b) ∈ sy_rep (nw_server (w_net w')) /\ (covered w -> covered w').
Proof.
  intros Hl Hi. set (s := nw_server (w_net w)) in *. pose proof (lk_sim _ _ _ Hl) as Hs.
  pose proof (remove_nth_split _ _ _ Hi) as Er. pose proof (im_app _ _ _ (sm_imp _ _ _ Hs)) as Ha.
  destruct (ni_run _ _ (sm_inv _ _ _ Hs) j) as (n & x & sn & Hx & Hj); [by eapply list_elem_of_lookup_2|].
  destruct (issued_good _ _ _ _ _ _ Hl Hx) as (c & Hc & Hg & _).
  destruct (issued_carries _ _ _ _ _ (sm_inv _ _ _ Hs) Hx) as (_ & Hn & _).
  assert (HI : I (sy_app s)) by (unfold s; rewrite <- Ha; apply Hl).
  destruct (run_total _ _ _ _ _ _ Hj Hg HI) as (b & s' & E).
  destruct (step_run srv srv_ok (w_net w) sp _ j _ b s' Hs Er E) as (sp' & Hsp & Hs').
  destruct (spec_step_performed _ _ Hsp (lk_app _ _ _ Hl) (lk_performed _ _ _ Hl)) as [HI' Hp'].
  { intros [n' x'] p args Hk. pose proof (im_issued _ _ _ (sm_imp _ _ _ Hs) n' x') as Hd. rewrite Hk in Hd.
    destruct (issued (w_net w) n' x') as [sn'|] eqn:Ei; [|done]. injection Hd as -> ->.
    by destruct (issued_good _ _ _ _ _ _ Hl Ei) as (_ & _ & ? & _). }
  unfold live_step. fold s. rewrite Hi. cbn [mbind option_bind]. rewrite E. cbn [mbind res_bind].
  do 3 eexists. split; [reflexivity|]. split; [by apply rtc_once|]. split; [|split; [done|split; [done|split; [by left|]]]].
  2: { apply covered_server; [done..|]. intros n' x' [?|[?|[(j' & Hin & Ej)|[(j' & b' & Hin & Ej)|?]]]]; [by left|by right; left|..];
    right; right.
    - apply (remove_nth_or _ _ _ _ Hi) in Hin as [->|Hin]; [right; left; exists j, b; split; [left|done]|].
      left. by exists j'.
    - right. left. exists j', b'. split; [by right|done].
    - by right; right. }
  apply (linked_server w sp bgs _ sp'); try done; [|by left].
  apply run_live; [apply Hl| |done].
  destruct Hj as (m & a & u & _ & _ & _ & _ & _ & En & _). rewrite En.
  destruct (issued_carries _ _ _ _ _ (sm_inv _ _ _ Hs) Hx) as (_ & _ & _).
  apply bind_Some in Hx as (ep & Hep & _). destruct (ni_client _ _ (sm_inv _ _ _ Hs) _ _ Hep) as [(_ & Hun & _) _ _ _].
  unfold is_unsigned in Hun. lia.
Qed.

Lemma answer_linked w sp bgs i j b n x :
  linked w sp bgs -> sy_rep (nw_server (w_net w)) !! i = Some (j, b) ->
  exists w', live_step w (E_answer i) = Some (Ok w') /\ linked w' sp bgs /\
    w_threads w' = w_threads w /\ nw_clients (w_net w') = nw_clients (w_net w) /\
    (job_key j = (n, x) -> reply_under_way w' n x) /\ (covered w -> covered w').
Proof.
  intros Hl Hi. set (s := nw_server (w_net w)) in *. pose proof (lk_sim _ _ _ Hl) as Hs.
  pose proof (remove_nth_split _ _ _ Hi) as Ep. pose proof (lk_server _ _ _ Hl) as Hsl. fold s in Hsl.
  pose proof (sys_reachable_inv _ (ni_sys _ _ (sm_inv _ _ _ Hs))) as Hinv. fold s in Hinv.
  destruct (answer_live _ s _ j b _ Hinv Hsl Ep) as (st & E & Hk & Hsl').
  destruct (sl_rep _ _ Hsl j b) as [Hc _]; [by eapply list_elem_of_lookup_2|].
  unfold live_step. fold s. rewrite Hi. cbn [mbind option_bind]. rewrite E. cbn [mbind res_bind].
  set (w' := World _ _ _ _ _ _).
  assert (Hway : forall n x, job_key j = (n, x) -> reply_under_way w' n x).
  { intros n' x' Ek. exists (jb_conn j), b. cbn [w' w_conn w_reps w_net set_server nw_server sy_sent].
    assert (En : h_clt_nonce (jb_h j) = n') by (by injection Ek). rewrite En in Hc. rewrite Ek.
    split_and!; [done|set_solver..]. }
  exists w'. split; [reflexivity|]. split; [|split; [done|split; [done|split; [apply Hway|]]]].
  - apply (linked_server w sp bgs _ sp); try done; try apply Hl.
    + exact (step_answer srv (w_net w) sp _ j b _ st _ Hs Ep E).
    + intros c b' [[= -> ->]|Hin]%elem_of_cons; [right|by left]. exists (job_key j).1, (job_key j).2.
      split; [done|]. destruct (job_key j). set_solver.
    + intros e He. cbn [sy_sent]. set_solver.
  - apply covered_server; [done..|]. intros n' x' [?|[?|[?|[(j' & b' & Hin & Ej)|(c & b' & Hcn & Hin & Hsent)]]]];
      [by left|by right; left|by right; right; left|..]; right; right; right.
    + apply (remove_nth_or _ _ _ _ Hi) in Hin as [[= -> ->]|Hin]; [right; by apply Hway|].
      left. by exists j', b'.
    + right. exists c, b'. split_and!; [done|by right|by right].
Qed.

(** *** Events at a client *)

Lemma issued_more (nt : net S) n ep ep' n' x sn :
  nw_clients nt !! n = Some ep -> ep_sent ep ⊆ ep_sent ep' ->
  issued nt n' x = Some sn -> issued (set_endpoint nt n ep') n' x = Some sn.
Proof.
  intros Hep Hsub Hx. rewrite issued_endpoint. case_decide as E; [|done]. subst n'.
  unfold issued in Hx. rewrite Hep in Hx. by eapply lookup_weaken.
Qed.

Lemma linked_endpoint w sp bgs n ep ep' sp' reqs reps ths br bgs' :
  linked w sp bgs -> nw_clients (w_net w) !! n = Some ep -> ep_sent ep ⊆ ep_sent ep' ->
  sim srv (set_endpoint (w_net w) n ep') sp' -> I (sp_app sp') -> performed_ok sp' ->
  client_live (w_conn w) (sy_rs (nw_server (w_net w))) n ep' ->
  xid_ (ep_rpcc ep') + Z.of_nat (calls_left bgs') <= XID_LIMIT -> (calls_left bgs' <= calls_left bgs)%nat ->
  (forall n' pkt, (n', pkt) ∈ reqs -> (n', pkt) ∈ w_reqs w \/
     n' = n /\ exists x sn, ep_sent ep' !! x = Some sn /\ pkt = sn_pkt sn) ->
  (forall r, r ∈ reps -> r ∈ w_reps w) ->
  Forall2 (tstate_ok (set_endpoint (w_net w) n ep')) bgs' ths ->
  (forall i i' n x, waits ths i n x -> waits ths i' n x -> i = i') ->
  apart bgs' ->
  linked (World (set_endpoint (w_net w) n ep') (w_conn w) reqs reps ths br) sp' bgs'.
Proof.
  intros [L1 L2 L3 L3' L4 L5 L6 L7 L8 L9 L10 L11 L12] Hep Hsub Hs HI Hp Hcl Hroom Hsum Hreq Hrep Hth Hw Hown.
  split; cbn [w_net w_conn w_reqs w_reps w_threads nw_server nw_clients set_endpoint]; try done.
  - by apply map_Forall_insert_2.
  - apply map_Forall_insert_2; [done|]. intros n' ep'' H'. specialize (L7 n' ep'' H'). simpl in *. lia.
  - intros n' pkt [Hin|(-> & x & sn & Hx & ->)]%Hreq.
    + destruct (L8 n' pkt Hin) as (x & sn & Hx & ->). exists x, sn. split; [|done]. by eapply issued_more.
    + exists x, sn. split; [|done]. rewrite issued_endpoint. by rewrite decide_True.
  - intros c b Hin%Hrep. by apply L9.
Qed.

Lemma all_bound_endpoint (nt : net S) n ep ep' C :
  nw_clients nt !! n = Some ep -> (bind_done (ep_rpcc ep) = true -> bind_done (ep_rpcc ep') = true) ->
  all_bound nt C -> all_bound (set_endpoint nt n ep') C.
Proof.
  intros Hep Hb Hall n' (ep0 & Hep0 & Hd)%Hall. cbn [nw_clients set_endpoint].
  destruct (decide (n' = n)) as [->|Hne]; [|exists ep0; by rewrite lookup_insert_ne].
  rewrite Hep in Hep0. injection Hep0 as <-. exists ep'. rewrite lookup_insert_eq. auto.
Qed.

(** The client of a thread stays unused. *)
Definition stays_fresh (ep ep' : endpoint) : Prop :=
  bind_done (ep_rpcc ep) = false ->
  bind_done (ep_rpcc ep') = false /\ xid_ (ep_rpcc ep') = xid_ (ep_rpcc ep).

Lemma all_fresh_endpoint (nt : net S) n ep ep' U :
  nw_clients nt !! n = Some ep -> (n ∈ U -> stays_fresh ep ep') ->
  all_fresh nt U -> all_fresh (set_endpoint nt n ep') U.
Proof.
  intros Hep Hf Hall n' Hn'. destruct (Hall n' Hn') as (ep0 & Hep0 & Hd & Hx). cbn [nw_clients set_endpoint].
  destruct (decide (n' = n)) as [->|Hne]; [|exists ep0; by rewrite lookup_insert_ne].
  rewrite Hep in Hep0. injection Hep0 as <-. exists ep'. rewrite lookup_insert_eq.
  destruct (Hf Hn' Hd) as [? ->]. done.
Qed.

(** Another client's steps, and those that keep its slots, leave a thread alone. *)
Lemma tstate_ok_endpoint nt n ep ep' bg (ts : tstate) :
  nw_clients nt !! n = Some ep -> ep_sent ep ⊆ ep_sent ep' ->
  (bind_done (ep_rpcc ep) = true -> bind_done (ep_rpcc ep') = true) ->
  (n ∈ bg_own bg -> stays_fresh ep ep') ->
  (forall x xr req short R (cr : codec R) fin k, ts = Waiting n x xr req short cr fin k ->
     is_Some (calls (ep_rpcc ep) !! x) -> is_Some (calls (ep_rpcc ep') !! x)) ->
  tstate_ok nt bg ts -> tstate_ok (set_endpoint nt n ep') bg ts.
Proof.
  intros Hep Hsub Hb Hf Hslot [HC Hok]. split; [by eapply all_bound_endpoint|].
  assert (HU : all_fresh nt (bg_own bg) -> all_fresh (set_endpoint nt n ep') (bg_own bg))
    by (by eapply all_fresh_endpoint).
  destruct ts as [t|n' x xr req short R cr fin k]; [destruct Hok; auto|].
  destruct Hok as (A & c & fn & a & p & ep0 & Hep0 & Hs & Hsn & Hm & Hfit & Hk). exists A, c, fn, a, p.
  destruct (decide (n' = n)) as [->|Hne].
  - rewrite Hep in Hep0. injection Hep0 as <-. exists ep'. cbn [nw_clients set_endpoint].
    rewrite lookup_insert_eq. split_and!; try done; [by eapply Hslot|by eapply lookup_weaken|].
    destruct Hk as [(? & ? & ? & ? & ?)|(Hn & HU' & ? & ? & Hd & ?)]; [left|right]; split_and!; try done; try (by apply HU).
    + eapply all_fresh_endpoint; [done| |done]. set_solver.
    + by apply (Hf Hn Hd).
  - exists ep0. cbn [nw_clients set_endpoint]. rewrite lookup_insert_ne by done. split_and!; try done.
    destruct Hk as [(? & ? & ? & ? & ?)|(Hn & HU' & ? & ? & Hd & ?)]; [left|right]; split_and!; try done; try (by apply HU).
    eapply all_fresh_endpoint; [done| |done]. set_solver.
Qed.

Lemma threads_endpoint nt n ep ep' bgs ths :
  nw_clients nt !! n = Some ep -> ep_sent ep ⊆ ep_sent ep' ->
  bind_done (ep_rpcc ep') = bind_done (ep_rpcc ep) -> xid_ (ep_rpcc ep') = xid_ (ep_rpcc ep) ->
  (forall i x, waits ths i n x -> is_Some (calls (ep_rpcc ep) !! x) -> is_Some (calls (ep_rpcc ep') !! x)) ->
  Forall2 (tstate_ok nt) bgs ths -> Forall2 (tstate_ok (set_endpoint nt n ep')) bgs ths.
Proof.
  intros Hep Hsub Hb Hx Hslot Hth. apply Forall2_same_length_lookup_2; [by eapply Forall2_length|].
  intros i bg ts HN Hts.
  eapply tstate_ok_endpoint; [done..|by rewrite Hb|intros _ ?; by rewrite Hb| |by eapply Forall2_lookup_lr].
  intros x xr req short R cr fin k ->. apply (Hslot i). by repeat eexists.
Qed.

(** What [call1_transmit] sends was made by this client. *)
Lemma transmit_live conn st n ep req x sn :
  client_live conn st n ep -> ep_sent ep !! x = Some sn -> marshall_cstr req = sn_pkt sn ->
  let r := call1_transmit (ep_rpcc ep) req in
  client_live conn st n (Endpoint r.1 (ep_sent ep)) /\ calls r.1 = calls (ep_rpcc ep) /\
  xid_ r.1 = xid_ (ep_rpcc ep) /\ bind_done r.1 = bind_done (ep_rpcc ep) /\ marshall_cstr req ∈ r.2 /\
  (forall pkt, pkt ∈ r.2 -> exists y sn, ep_sent ep !! y = Some sn /\ pkt = sn_pkt sn).
Proof.
  intros [H1 H2 H3 H4 H4' H5 H6 H7] Hx Ereq. unfold call1_transmit. rewrite H4. cbv zeta.
  destruct (request_isvalid (dup_req (ep_rpcc ep)) && _) eqn:E; cbn [fst snd].
  - apply andb_prop in E as [E _]. destruct (H5 E) as (y & sn' & Hy & Ey). split_and!; try done.
    + set_solver.
    + intros pkt. rewrite !elem_of_cons, elem_of_nil. intros [->|[->|[]]]; [by exists y, sn'|by exists x, sn].
  - split_and!; try done; [set_solver|]. intros pkt. rewrite elem_of_cons, elem_of_nil.
    intros [->|[]]. by exists x, sn.
Qed.

Lemma again_linked w sp bgs i n x xr req short R (cr : codec R) fin k :
  linked w sp bgs -> w_threads w !! i = Some (Waiting n x xr req short cr fin k) -> i ∈ w_broken w ->
  exists w' ep sn, live_step w (E_again i) = Some (Ok w') /\ linked w' sp bgs /\
    w_threads w' = w_threads w /\ (n, marshall_cstr req) ∈ w_reqs w' /\
    nw_clients (w_net w') !! n = Some ep /\ ep_sent ep !! x = Some sn /\ sn_pkt sn = marshall_cstr req /\
    (covered w -> covered w').
Proof.
  intros Hl Hi Hbr. destruct (Forall2_lookup_r _ _ _ _ _ (lk_threads _ _ _ Hl) Hi) as
    (bg & Hbg & _ & A & c & fn & a & p & ep & Hep & Hs & Hsn & _).
  unfold live_step. rewrite Hi, Hep. cbn [mbind option_bind].
  rewrite (cl_retrans _ _ _ _ (lk_clients _ _ _ Hl _ _ Hep)), bool_decide_true by done. cbn [andb].
  destruct (transmit_live _ _ _ _ req x _ (lk_clients _ _ _ Hl _ _ Hep) Hsn eq_refl) as (Hcl & Hca & Hxid & Hbd & Hin & Hpk).
  pose proof (step_local srv (w_net w) sp n ep _ (lk_sim _ _ _ Hl) Hep (ls_transmit (ep_rpcc ep) req)) as Hsim.
  unfold transmit. destruct (call1_transmit (ep_rpcc ep) req) as [st pkts]. cbn [fst snd] in *.
  do 3 eexists. split; [reflexivity|]. cbn [w_net w_threads w_reqs nw_clients set_endpoint].
  rewrite lookup_insert_eq. split; [|split_and!; [done|set_solver|done|exact Hsn|done|]].
  2: { apply covered_client; try done; cbn [w_net w_reqs w_threads w_broken].
    - intros q Hq. apply elem_of_app. by left.
    - intros n' y sn'. by apply (issued_more _ _ ep).
    - intros j n' y Hw. destruct (decide (j = i)) as [->|Hne].
      + assert (n' = n /\ y = x) as [-> ->].
        { destruct Hw as (? & ? & ? & ? & ? & ? & ? & Hw). rewrite Hi in Hw. by injection Hw as <- <-. }
        left. eexists. split; [unfold issued; cbn; rewrite lookup_insert_eq; exact Hsn|]. cbn [sn_pkt w_reqs]. set_solver.
      + right. split_and!; [done| |set_solver]. unfold call_is_done. cbn [w_net nw_clients set_endpoint].
        destruct (decide (n' = n)) as [->|]; [rewrite Hep, lookup_insert_eq; cbn [ep_rpcc]; by rewrite Hca|].
        by rewrite lookup_insert_ne. }
  apply (linked_endpoint w sp bgs n ep _ sp); try done; try apply Hl.
  - cbn [ep_rpcc]. rewrite Hxid. by apply (lk_room _ _ _ Hl n).
  - intros n' pkt [?|Hin']%elem_of_app; [by left|right].
    apply list_elem_of_fmap in Hin' as (pk & [= -> ->] & Hin'). split; [done|]. by apply Hpk.
  - eapply threads_endpoint; [done..| |apply Hl]. intros i' y _ Hy. cbn [ep_rpcc]. by rewrite Hca.
Qed.

(** The endpoint after a call has begun. *)
Lemma begun_live w sp bgs n ep p A R (c : codec A) (cr : codec R) fn a :
  linked w sp bgs -> nw_clients (w_net w) !! n = Some ep -> srv !! p = Some (Method A R c cr fn) ->
  (p = rpc_bind <-> bind_done (ep_rpcc ep) = false) -> (p = rpc_bind -> xid_ (ep_rpcc ep) = 1) ->
  fits c a -> succeeds (Method A R c cr fn) a -> xid_ (ep_rpcc ep) < XID_LIMIT ->
  exists req xr req', call_1 c a = Ok req /\
    let st := begun_state (ep_rpcc ep) unmarshall_empty in
    let x := xid_ (ep_rpcc ep) in
    call1_begin (ep_rpcc ep) p req unmarshall_empty = Ok (Begun st x xr req') /\
    client_live (w_conn w) (sy_rs (nw_server (w_net w))) n
      (Endpoint st (<[x := Sent p (c_enc c a) (marshall_cstr req')]> (ep_sent ep))) /\
    ep_sent ep !! x = None.
Proof.
  intros Hl Hep Hm Hbind Hx1 [Ha Hroom] Hs Hlim. pose proof (lk_sim _ _ _ Hl) as Hsim.
  pose proof (ni_client _ _ (sm_inv _ _ _ Hsim) _ _ Hep) as [(Hn & Hun & En) Hus (R' & Hinv) Hsent].
  pose proof (lk_clients _ _ _ Hl _ _ Hep) as [H1 H2 H3 H4 H4' H5 H6 H7].
  destruct (srv_method srv srv_ok _ _ Hm) as [Hsp [Hc _ _]]. cbn [me_c me_arg] in Hc.
  destruct (put_new_marshall c a Ha Hroom) as (req & Ereq & _).
  destruct (call1_begin_spec c R' (ep_rpcc ep) p a req unmarshall_empty (fun b => be 4 (zlen b)))
    as (xr & req' & u' & E & Hxr & Eu & Eg & Hd); try done.
  { by rewrite En. }
  assert (Hfresh : ep_sent ep !! xid_ (ep_rpcc ep) = None).
  { destruct (ep_sent ep !! _) as [sn|] eqn:Es; [|done]. destruct (Hsent _ _ Es) as [? _]. lia. }
  exists req, xr, req'. split; [done|]. cbv zeta. split; [done|]. split; [|done].
  pose proof (inv_xid _ _ Hinv) as Hxid.
  split; cbn [ep_rpcc ep_sent begun_state bind_done srv_nonce destroy_wait reachable dup_req calls]; try done.
  - intros Hv. destruct (H5 Hv) as (y & sn & Hy & Ey). exists y, sn. split; [|done].
    rewrite lookup_insert_ne; [done|]. congruence.
  - intros y ca [[<- <-]|[_ Hy]]%lookup_insert_Some; [done|by apply (H6 y)].
  - intros y sn [[<- <-]|[_ Hy]]%lookup_insert_Some; [|by apply H7]. cbn [sn_proc sn_args sn_pkt].
    split; [by exists (Method A R c cr fn), a|].
    destruct (ni_procs _ _ (sm_inv _ _ _ Hsim) p _ Hm) as (g & Hg & _).
    eexists _, _. split; [exact Eu|]. cbn [h_clt_nonce h_xid h_xid_rep h_srv_nonce h_proc u_ok].
    assert (Hmode : (srv_nonce (ep_rpcc ep) = 0 \/ srv_nonce (ep_rpcc ep) = rs_nonce (sy_rs (nw_server (w_net w)))) /\
      known (sy_rs (nw_server (w_net w))) n (xid_ (ep_rpcc ep))).
    { destruct (bind_done (ep_rpcc ep)) eqn:Ebd.
      - destruct H2 as [-> [Hk|[[=] _]]]. split; [by right|by left].
      - destruct H2 as [-> Hk]. split; [by left|]. rewrite Hx1; [done|]. by apply Hbind. }
    destruct Hmode. by split_and!; try lia.
Qed.

Lemma sum_list_insert i N N' (l : list nat) :
  l !! i = Some N -> (sum_list (<[i := N']> l) + N = sum_list l + N')%nat.
Proof.
  revert i. induction l as [|M l IH]; intros [|i] Hi; simplify_eq/=; [lia|]. specialize (IH i Hi). lia.
Qed.

Lemma calls_left_insert i bg bg' bgs :
  bgs !! i = Some bg -> (calls_left (<[i := bg']> bgs) + bg_calls bg = calls_left bgs + bg_calls bg')%nat.
Proof.
  intros Hi. unfold calls_left. rewrite list_fmap_insert. apply sum_list_insert.
  by rewrite list_lookup_fmap, Hi.
Qed.

Lemma waits_insert ths i ts j n x :
  waits (<[i := ts]> ths) j n x ->
  (j = i /\ exists xr req short R (cr : codec R) fin k, ts = Waiting n x xr req short cr fin k) \/
  (j <> i /\ waits ths j n x).
Proof.
  intros (xr & req & short & R & cr & fin & k & Hj). destruct (decide (j = i)) as [->|Hne].
  - left. split; [done|]. destruct (decide (i < length ths)%nat).
    + rewrite list_lookup_insert_eq in Hj by done. injection Hj as ->. by repeat eexists.
    + rewrite lookup_ge_None_2 in Hj by (rewrite length_insert; lia). done.
  - right. split; [done|]. rewrite list_lookup_insert_ne in Hj by done. by repeat eexists.
Qed.

Lemma waits_idle ths i t j n x : waits (<[i := Idle t]> ths) j n x -> waits ths j n x.
Proof. by intros [(_ & ? & ? & ? & ? & ? & ? & ? & [=])|[_ ?]]%waits_insert. Qed.

Lemma apart_insert bgs i bg bg' :
  apart bgs -> bgs !! i = Some bg -> bg_own bg' ⊆ bg_own bg -> bg_join bg' ⊆ bg_join bg ->
  apart (<[i := bg']> bgs).
Proof.
  intros [Hown Hjoin] Hi Hsub Hsub'.
  assert (Hold : forall j b, <[i := bg']> bgs !! j = Some b ->
    exists b0, bgs !! j = Some b0 /\ bg_own b ⊆ bg_own b0 /\ bg_join b ⊆ bg_join b0).
  { intros j b Hj. apply list_lookup_insert_Some in Hj as [(<- & <- & _)|[_ Hj]]; eauto. }
  split.
  - intros j j' b b' n (b0 & H1 & ? & _)%Hold (b0' & H1' & ? & _)%Hold Hn Hn'. apply (Hown j j' b0 b0' n); [exact H1|exact H1'|set_solver..].
  - intros j b j' (b0 & H1 & _ & ?)%Hold Hj'. rewrite length_insert. apply (Hjoin _ b0); [exact H1|set_solver].
Qed.

(** The threads after one of them has changed, with its client. *)
Lemma threads_update nt n ep ep' bgs ths i bg bg' ts :
  Forall2 (tstate_ok nt) bgs ths -> bgs !! i = Some bg ->
  apart bgs ->
  nw_clients nt !! n = Some ep -> ep_sent ep ⊆ ep_sent ep' ->
  (bind_done (ep_rpcc ep) = true -> bind_done (ep_rpcc ep') = true) ->
  bind_done (ep_rpcc ep) = true \/ n ∈ bg_own bg ->
  (forall j x, j <> i -> waits ths j n x -> is_Some (calls (ep_rpcc ep) !! x) ->
     is_Some (calls (ep_rpcc ep') !! x)) ->
  tstate_ok (set_endpoint nt n ep') bg' ts ->
  Forall2 (tstate_ok (set_endpoint nt n ep')) (<[i := bg']> bgs) (<[i := ts]> ths).
Proof.
  intros Hth Hbg Hown Hep Hsub Hb Hmine Hslot Hok. pose proof (Forall2_length _ _ _ Hth) as Hlen.
  apply Forall2_same_length_lookup_2; [by rewrite !length_insert|].
  intros j b ts' Hj Hts. destruct (decide (j = i)) as [->|Hne].
  - pose proof (lookup_lt_Some _ _ _ Hj) as Hlt. rewrite length_insert in Hlt.
    rewrite list_lookup_insert_eq in Hj by done. rewrite list_lookup_insert_eq in Hts by lia. by simplify_eq.
  - rewrite list_lookup_insert_ne in Hj by done. rewrite list_lookup_insert_ne in Hts by done.
    eapply tstate_ok_endpoint; [done..| | |by eapply Forall2_lookup_lr].
    + intros Hn Hbd. destruct Hmine as [|Hn']; [congruence|]. by destruct Hne; eapply (ap_own _ Hown).
    + intros x xr req short R cr fin k ->. apply (Hslot j); [done|]. by repeat eexists.
Qed.

Lemma set_endpoint_twice (nt : net S) n ep ep' :
  set_endpoint (set_endpoint nt n ep) n ep' = set_endpoint nt n ep'.
Proof. unfold set_endpoint. cbn [nw_clients nw_server]. by rewrite insert_insert_eq. Qed.

(** A slot belongs to an xid already taken. *)
Lemma slot_below w sp bgs n ep x :
  linked w sp bgs -> nw_clients (w_net w) !! n = Some ep -> is_Some (calls (ep_rpcc ep) !! x) ->
  1 <= x < xid_ (ep_rpcc ep).
Proof.
  intros Hl Hep [ca Hca]. destruct (ni_client _ _ (sm_inv _ _ _ (lk_sim _ _ _ Hl)) _ _ Hep) as [_ _ (R & Hinv) _].
  by destruct (inv_calls _ _ Hinv _ _ Hca) as (_ & ? & _).
Qed.

Lemma waits_slot w sp bgs i n x :
  linked w sp bgs -> waits (w_threads w) i n x ->
  exists ep, nw_clients (w_net w) !! n = Some ep /\ is_Some (calls (ep_rpcc ep) !! x).
Proof.
  intros Hl (? & ? & ? & ? & ? & ? & ? & Hw).
  destruct (Forall2_lookup_r _ _ _ _ _ (lk_threads _ _ _ Hl) Hw)
    as (? & _ & _ & ? & ? & ? & ? & ? & ep0 & Hep0 & Hslot & _). by exists ep0.
Qed.

Lemma waits_below w sp bgs i n ep x :
  linked w sp bgs -> nw_clients (w_net w) !! n = Some ep -> waits (w_threads w) i n x ->
  1 <= x < xid_ (ep_rpcc ep).
Proof.
  intros Hl Hep Hw. destruct (waits_slot _ _ _ _ _ _ Hl Hw) as (ep0 & Hep0 & Hslot).
  rewrite Hep in Hep0. injection Hep0 as <-. by eapply slot_below.
Qed.

Lemma safe_fail J C U N : safe J C U N T_fail -> False.
Proof. inversion 1. Qed.

(** What [safe] says of a call. *)
Definition call_ok J C U N n short p {A R} (c : codec A) (cr : codec R) a
    (fin : Z -> R -> rpcc -> rpcc) (k : Z -> R -> thread) : Prop :=
  (p = rpc_bind /\ n ∈ C /\ fits c a /\ CodecOk c /\ safe J C U N (k bind_failure (c_init cr))) \/
  exists fn, srv !! p = Some (Method A R c cr fn) /\ fits c a /\ succeeds (Method A R c cr fn) a /\
    ((n ∈ C /\ p <> rpc_bind /\ (forall ret r q, fin ret r q = q) /\
      (forall s ret r s', I s -> fn a (c_init cr) s = Ok (ret, r, s') -> safe J C U N (k ret r)) /\
      (short = true -> safe J C U N (k timeout_failure (c_init cr)))) \/
     (n ∈ U /\ p = rpc_bind /\ short = false /\
      (forall s ret r s', I s -> fn a (c_init cr) s = Ok (ret, r, s') ->
         (forall q, fin ret r q = bind_finish q 0 (s32 nonce)) /\
         safe J (C ∪ {[n]}) (U ∖ {[n]}) N (k ret r)))).

Lemma safe_call_inv J C U N n short p A R (c : codec A) (cr : codec R) a fin k :
  safe J C U N (T_call n short p c cr a fin k) ->
  exists N', N = Datatypes.S N' /\ call_ok J C U N' n short p c cr a fin k.
Proof.
  set (P t := match t with
    | @T_call n short p A R c cr a fin k =>
        exists N', N = Datatypes.S N' /\ call_ok J C U N' n short p c cr a fin k
    | _ => True end).
  intros Hs. change (P (T_call n short p c cr a fin k)). revert Hs. generalize (T_call n short p c cr a fin k).
  intros t Hs. subst P. destruct Hs as [|J C U N n' ? ? ? ? ? ? fn|J C U N n' ? ? ? ? fn|J C U N n'| |]; cbn beta iota; try done;
    exists N; (split; [done|]).
  - right. exists fn. split_and!; [done..|left]. by split_and!.
  - right. exists fn. split_and!; [done..|right]. by split_and!.
  - left. by split_and!.
Qed.

(** A call that is refused at once. *)
Lemma refused_linked w sp bgs i bg N n ep p A (c : codec A) a t :
  linked w sp bgs -> bgs !! i = Some bg -> bg_calls bg = Datatypes.S N ->
  is_Some (w_threads w !! i) -> all_fresh (w_net w) (bg_own bg) ->
  nw_clients (w_net w) !! n = Some ep -> bind_done (ep_rpcc ep) = true ->
  p = rpc_bind -> fits c a -> CodecOk c -> safe (bg_join bg) (bg_bound bg) (bg_own bg) N t ->
  exists req, call_1 c a = Ok req /\
    call1_begin (ep_rpcc ep) p req unmarshall_empty = Ok (Refused bind_failure) /\
    linked (set_thread w i (Idle t)) sp (<[i := Budget N (bg_bound bg) (bg_own bg) (bg_join bg)]> bgs).
Proof.
  intros Hl Hbg HN [ts Hts] Hfresh Hep Hbd -> [Ha Hroom] Hc Hsafe.
  destruct (put_new_marshall c a Ha Hroom) as (req & Ereq & _). exists req. split; [done|].
  unfold call1_begin. rewrite Hbd, Z.eqb_refl. cbn [negb andb orb]. split; [done|].
  pose proof (calls_left_insert i bg (Budget N (bg_bound bg) (bg_own bg) (bg_join bg)) bgs Hbg) as Hsum.
  cbn [bg_calls] in Hsum. destruct Hl as [L1 L2 L3 L3' L4 L5 L6 L7 L8 L9 L10 L11 L12].
  split; cbn [w_net w_conn w_reqs w_reps w_threads set_thread]; try done.
  - intros n' ep' Hep'. specialize (L7 n' ep' Hep'). simpl in *. lia.
  - apply Forall2_insert; [done|]. destruct (Forall2_lookup_lr _ _ _ _ _ _ L10 Hbg Hts) as [HC _].
    by split_and!.
  - intros j j' n' y Hw%waits_idle Hw'%waits_idle. by eapply L11.
  - by eapply apart_insert.
Qed.

(** The client of a call and what is known of it. *)
Lemma call_client nt J C U N n short p A R (c : codec A) (cr : codec R) a fin k :
  all_bound nt C -> all_fresh nt U -> call_ok J C U N n short p c cr a fin k ->
  exists ep, nw_clients nt !! n = Some ep /\
    (bind_done (ep_rpcc ep) = true /\ n ∈ C \/
     bind_done (ep_rpcc ep) = false /\ xid_ (ep_rpcc ep) = 1 /\ n ∈ U).
Proof.
  intros HC HU [(_ & Hn & _)|(fn & _ & _ & _ & [(Hn & _)|(Hn & _)])].
  - destruct (HC n Hn) as (ep & ? & ?). exists ep. auto.
  - destruct (HC n Hn) as (ep & ? & ?). exists ep. auto.
  - destruct (HU n Hn) as (ep & ? & ? & ?). exists ep. auto 6.
Qed.

(** The thread of a call that has begun. *)
Lemma waiting_ok nt bg n ep ep' short p A R (c : codec A) (cr : codec R) fn a fin k xr req :
  all_bound nt (bg_bound bg) -> all_fresh nt (bg_own bg) -> nw_clients nt !! n = Some ep ->
  bind_done (ep_rpcc ep') = bind_done (ep_rpcc ep) ->
  let x := xid_ (ep_rpcc ep) in
  is_Some (calls (ep_rpcc ep') !! x) ->
  ep_sent ep' !! x = Some (Sent p (c_enc c a) (marshall_cstr req)) ->
  srv !! p = Some (Method A R c cr fn) -> fits c a -> succeeds (Method A R c cr fn) a ->
  (n ∈ bg_bound bg /\ p <> rpc_bind /\ (forall ret r q, fin ret r q = q) /\
    (forall s ret r s', I s -> fn a (c_init cr) s = Ok (ret, r, s') ->
       safe (bg_join bg) (bg_bound bg) (bg_own bg) (bg_calls bg) (k ret r)) /\
    (short = true -> safe (bg_join bg) (bg_bound bg) (bg_own bg) (bg_calls bg) (k timeout_failure (c_init cr)))) \/
   (n ∈ bg_own bg /\ p = rpc_bind /\ short = false /\
    (forall s ret r s', I s -> fn a (c_init cr) s = Ok (ret, r, s') ->
       (forall q, fin ret r q = bind_finish q 0 (s32 nonce)) /\
       safe (bg_join bg) (bg_bound bg ∪ {[n]}) (bg_own bg ∖ {[n]}) (bg_calls bg) (k ret r))) ->
  tstate_ok (set_endpoint nt n ep') bg (Waiting n x xr req short cr fin k).
Proof.
  intros HC HU Hep Hbd x Hslot Hsn Hm Hfit Hs Hk. split; [eapply all_bound_endpoint; [done|congruence|done]|].
  exists A, c, fn, a, p, ep'. cbn [nw_clients set_endpoint]. rewrite lookup_insert_eq. split_and!; try done.
  destruct Hk as [(Hn & Hp & Hfin & Hk & Hto)|(Hn & Hp & Hsh & Hk)]; [left|right]; split_and!; try done.
  - eapply all_fresh_endpoint; [done| |done]. intros _ Hd. destruct (HC n Hn) as (ep0 & Hep0 & ?). congruence.
  - eapply all_fresh_endpoint; [done|set_solver|]. intros n' Hn'. apply HU. set_solver.
  - destruct (HU n Hn) as (ep0 & Hep0 & _ & Hx). unfold x. congruence.
  - destruct (HU n Hn) as (ep0 & Hep0 & Hd & _). congruence.
Qed.

(** The client of a call is bound unless the call is [bind], its first. *)
Lemma call_binds nt C U n ep p (P Q : Prop) :
  all_bound nt C -> all_fresh nt U -> nw_clients nt !! n = Some ep ->
  (n ∈ C /\ p <> rpc_bind /\ P) \/ (n ∈ U /\ p = rpc_bind /\ Q) ->
  (p = rpc_bind <-> bind_done (ep_rpcc ep) = false) /\ (p = rpc_bind -> xid_ (ep_rpcc ep) = 1).
Proof.
  intros HC HU Hep [(Hn & Hp & _)|(Hn & Hp & _)].
  - destruct (HC n Hn) as (ep0 & Hep0 & Hd). rewrite Hep in Hep0. injection Hep0 as <-. rewrite Hd. by split.
  - destruct (HU n Hn) as (ep0 & Hep0 & Hd & Hx). rewrite Hep in Hep0. injection Hep0 as <-. rewrite Hd. by split.
Qed.

(** A call that begins: [st'] is the client after the packets [pkts] are sent. *)
Lemma begun_linked w sp bgs i bg bg' n ep sp' (st' : rpcc) x sn pkts ts :
  linked w sp bgs -> nw_clients (w_net w) !! n = Some ep -> bgs !! i = Some bg ->
  bg_calls bg = Datatypes.S (bg_calls bg') -> bg_own bg' = bg_own bg -> bg_join bg' = bg_join bg ->
  x = xid_ (ep_rpcc ep) -> ep_sent ep !! x = None ->
  let ep' := Endpoint st' (<[x := sn]> (ep_sent ep)) in
  sim srv (set_endpoint (w_net w) n ep') sp' -> I (sp_app sp') -> performed_ok sp' ->
  client_live (w_conn w) (sy_rs (nw_server (w_net w))) n ep' ->
  xid_ st' = x + 1 -> calls st' = <[x := Caller x unmarshall_empty 0 false]> (calls (ep_rpcc ep)) ->
  bind_done st' = bind_done (ep_rpcc ep) -> bind_done (ep_rpcc ep) = true \/ n ∈ bg_own bg ->
  (forall pkt, pkt ∈ pkts -> exists y sn, ep_sent ep' !! y = Some sn /\ pkt = sn_pkt sn) ->
  tstate_ok (set_endpoint (w_net w) n ep') bg' ts ->
  (forall j n' y, waits (<[i := ts]> (w_threads w)) j n' y -> j <> i \/ n' = n /\ y = x) ->
  linked (World (set_endpoint (w_net w) n ep') (w_conn w) (w_reqs w ++ (pair n <$> pkts)) (w_reps w)
    (<[i := ts]> (w_threads w)) (w_broken w ∖ {[i]})) sp' (<[i := bg']> bgs).
Proof.
  intros Hl Hep Hbg HN Eown Ejoin Ex Hfresh ep' Hsim HI Hperf Hcl Hxid Hcalls Hbd Hmine Hpk Hts Hw.
  pose proof (lk_room _ _ _ Hl n ep Hep) as Hroom. cbn beta in Hroom.
  pose proof (calls_left_insert i bg bg' bgs Hbg) as Hsum.
  assert (Hsub : ep_sent ep ⊆ ep_sent ep') by (by apply insert_subseteq).
  apply (linked_endpoint w sp bgs n ep ep'); try done; cbn [ep_rpcc ep' ep_sent].
  - lia.
  - lia.
  - intros n' pkt [?|Hin']%elem_of_app; [by left|right].
    apply list_elem_of_fmap in Hin' as (pk & [= -> ->] & Hin'). split; [done|]. by apply Hpk.
  - eapply threads_update; [apply Hl|exact Hbg|apply Hl|done|done| |done| |done]; cbn [ep_rpcc ep'].
    + congruence.
    + intros j y _ _ [ca Hy]. rewrite Hcalls. destruct (decide (y = x)) as [->|];
        [rewrite lookup_insert_eq|rewrite lookup_insert_ne by done]; by eexists.
  - assert (Hold : forall j n' y, waits (<[i := ts]> (w_threads w)) j n' y ->
      j = i /\ n' = n /\ y = x \/ waits (w_threads w) j n' y /\ (n' = n -> y < x)).
    { intros j n' y Hj. destruct (Hw _ _ _ Hj) as [Hne|[-> ->]];
        apply waits_insert in Hj as [[? _]|[_ Hj]]; try done; [right| |right].
      - split; [done|]. intros ->. pose proof (waits_below _ _ _ _ _ _ _ Hl Hep Hj). lia.
      - by left.
      - split; [done|]. intros _. pose proof (waits_below _ _ _ _ _ _ _ Hl Hep Hj). lia. }
    intros j j' n' y [(-> & -> & ->)|[Hj Hlt]]%Hold [(-> & Hn & Hy)|[Hj' Hlt']]%Hold; try done.
    + specialize (Hlt' eq_refl). lia.
    + subst. specialize (Hlt eq_refl). lia.
    + by eapply (lk_once _ _ _ Hl).
  - eapply apart_insert; [apply Hl|exact Hbg|by rewrite Eown|by rewrite Ejoin].
Qed.

Lemma begun_covered w sp bgs i n ep (st' : rpcc) x sn pkts ts :
  linked w sp bgs -> nw_clients (w_net w) !! n = Some ep ->
  x = xid_ (ep_rpcc ep) -> ep_sent ep !! x = None ->
  calls st' = <[x := Caller x unmarshall_empty 0 false]> (calls (ep_rpcc ep)) -> sn_pkt sn ∈ pkts ->
  (forall j n' y, waits (<[i := ts]> (w_threads w)) j n' y -> j <> i \/ n' = n /\ y = x) ->
  covered w ->
  covered (World (set_endpoint (w_net w) n (Endpoint st' (<[x := sn]> (ep_sent ep)))) (w_conn w)
    (w_reqs w ++ (pair n <$> pkts)) (w_reps w) (<[i := ts]> (w_threads w)) (w_broken w ∖ {[i]})).
Proof.
  intros Hl Hep Ex Hfresh Hcalls Hin Hw. apply covered_client; try done; cbn [w_net w_reqs w_threads w_broken].
  - intros q Hq. apply elem_of_app. by left.
  - intros n' y sn'. apply (issued_more _ _ ep); [done|by apply insert_subseteq].
  - intros j n' y Hj. destruct (Hw _ _ _ Hj) as [Hne|[-> ->]]; [right|left].
    + apply waits_insert in Hj as [[? _]|[_ Hj]]; [done|]. split_and!; [done| |set_solver].
      unfold call_is_done. cbn [w_net nw_clients set_endpoint].
      destruct (decide (n' = n)) as [->|]; [|by rewrite lookup_insert_ne].
      rewrite Hep, lookup_insert_eq. cbn [ep_rpcc]. rewrite Hcalls, lookup_insert_ne; [done|].
      pose proof (waits_below _ _ _ _ _ _ _ Hl Hep Hj). lia.
    + exists sn. split; [|cbn [w_reqs]; set_solver]. unfold issued. cbn. rewrite lookup_insert_eq. apply lookup_insert_eq.
Qed.

Lemma start_linked w sp bgs i n short p A R (c : codec A) (cr : codec R) a fin k :
  linked w sp bgs -> w_threads w !! i = Some (Idle (T_call n short p c cr a fin k)) ->
  exists w' sp' bg bg' ts, live_step w (E_go i) = Some (Ok w') /\ bgs !! i = Some bg /\
    bg_calls bg = Datatypes.S (bg_calls bg') /\ rtc (spec_step srv) sp sp' /\ linked w' sp' (<[i := bg']> bgs) /\
    w_threads w' = <[i := ts]> (w_threads w) /\ (covered w -> covered w').
Proof.
  intros Hl Hi. destruct (Forall2_lookup_r _ _ _ _ _ (lk_threads _ _ _ Hl) Hi) as (bg & Hbg & HC & Hsafe & HU).
  apply safe_call_inv in Hsafe as (N & HN & Hok). set (bg' := Budget N (bg_bound bg) (bg_own bg) (bg_join bg)).
  destruct (call_client _ _ _ _ _ _ _ _ _ _ _ _ _ _ _ HC HU Hok) as (ep & Hep & Hmode).
  unfold live_step. rewrite Hi. unfold call_start. rewrite Hep.
  destruct Hok as [(Hp & Hn & Hfit & Hcod & Hk)|(fn & Hm & Hfit & Hs & Hk)].
  { destruct (refused_linked w sp bgs i bg N n ep p A c a (k bind_failure (c_init cr)))
      as (req & Ereq & Eb & Hl'); try done.
    { destruct (HC n Hn) as (ep0 & Hep0 & ?). congruence. }
    exists (set_thread w i (Idle (k bind_failure (c_init cr)))), sp, bg, bg'. eexists.
    rewrite Ereq. cbn [mbind res_bind]. rewrite Eb. cbn [mbind res_bind]. split_and!; try done.
    apply covered_threads. intros j n' y. apply waits_idle. }
  destruct (call_binds _ _ _ _ _ _ _ _ HC HU Hep Hk) as [Hbind Hx1].
  pose proof (lk_room _ _ _ Hl n ep Hep) as Hroom. cbn beta in Hroom.
  pose proof (calls_left_insert i bg bg' bgs Hbg) as Hsum. cbn [bg' bg_calls] in Hsum.
  destruct (begun_live w sp bgs n ep p A R c cr fn a) as (req & xr & req' & Ereq & Eb & Hcl & Hfresh); [done..|lia|].
  set (st := begun_state _ _) in *. set (x := xid_ (ep_rpcc ep)) in *. set (ep1 := Endpoint st _) in *.
  destruct (step_call srv srv_ok (w_net w) sp n ep p (Method A R c cr fn) a req unmarshall_empty st x xr req') as [Hnone Hsim];
    [apply Hl|done..|lia|done|]. cbn [me_c] in Hsim. fold ep1 in Hsim.
  assert (Hx : ep_sent ep1 !! x = Some (Sent p (c_enc c a) (marshall_cstr req')))
    by (apply lookup_insert_eq).
  destruct (transmit_live _ _ _ ep1 req' x _ Hcl Hx eq_refl) as (Hcl' & Hca & Hxid & Hbd & Hmine & Hpk).
  pose proof (step_local srv _ _ n ep1 _ Hsim (lookup_insert_eq _ _ _) (ls_transmit (ep_rpcc ep1) req')) as Hsim'.
  rewrite Ereq. cbn [mbind res_bind]. rewrite Eb. cbn [mbind res_bind]. fold ep1. unfold transmit.
  destruct (call1_transmit (ep_rpcc ep1) req') as [st' pkts]. cbn [fst snd] in *.
  cbn [w_net w_conn w_reqs w_reps w_threads set_thread set_net] in *. rewrite set_endpoint_twice in *.
  eexists _, _, bg, bg', _. split; [reflexivity|]. split; [exact Hbg|]. split; [exact HN|].
  split; [by apply rtc_once, sp_issue|].
  set (ts := Waiting n x xr req' short cr fin k).
  assert (Hw : forall j n' y, waits (<[i := ts]> (w_threads w)) j n' y -> j <> i \/ n' = n /\ y = x).
  { intros j n' y [(-> & ? & ? & ? & ? & ? & ? & ? & [= <- <- _ _ _ _ _ _])|[Hj _]]%waits_insert; auto. }
  split; [|split; [reflexivity|by eapply (begun_covered w sp bgs i n ep st' x)]].
  apply (begun_linked w sp bgs i bg bg' n ep _ st' x); try done; [apply Hl| |by destruct Hmode as [[? _]|(_ & _ & ?)]; auto|..].
  - intros k' p' args ret rs. cbn [sp_calls]. intros [[_ [=]]|[_ Hk']]%lookup_insert_Some.
    by apply (lk_performed _ _ _ Hl k').
  - apply (waiting_ok _ _ n ep _ short p A R c cr fn a); try done. cbn [ep_rpcc]. rewrite Hca.
    cbn. fold x. rewrite lookup_insert_eq. by eexists.
Qed.

(** The slot of a call is given up. *)
Lemma call1_end_live conn st n ep R x ca xr req sn :
  rpcc_inv R (ep_rpcc ep) -> client_live conn st n ep -> calls (ep_rpcc ep) !! x = Some ca ->
  ep_sent ep !! x = Some sn -> marshall_cstr req = sn_pkt sn ->
  exists st2 : rpcc, (forall nt sp, sim srv nt sp -> nw_clients nt !! n = Some ep ->
      sim srv (set_endpoint nt n (Endpoint st2 (ep_sent ep))) sp) /\
    call1_end (ep_rpcc ep) x xr req =
      Ok (st2, ca, if ca_done ca then ca_intret ca else timeout_failure) /\
    calls st2 = delete x (calls (ep_rpcc ep)) /\ xid_ st2 = xid_ (ep_rpcc ep) /\
    bind_done st2 = bind_done (ep_rpcc ep) /\
    client_live conn st n (Endpoint st2 (ep_sent ep)).
Proof.
  intros Hinv [H1 H2 H3 H4 H4' H5 H6 H7] Hca Hsn Ereq.
  destruct (inv_calls _ _ Hinv _ _ Hca) as (_ & Hx & _). pose proof (inv_xid _ _ Hinv) as Hlim.
  destruct (complete_inv R (ep_rpcc ep) x (delete x (calls (ep_rpcc ep))) Hinv Hx) as (wd & Ew & _).
  { intros y c Hy _. by apply lookup_delete_Some in Hy as [_ ?]. } { intros c. by rewrite lookup_delete_eq. }
  set (st1 := set_calls (ep_rpcc ep) (delete x (calls (ep_rpcc ep))) wd).
  assert (E : call1_unlink (ep_rpcc ep) x = Ok (st1, ca)).
  { unfold call1_unlink. rewrite s32_xid by lia. by rewrite Hca, Ew. }
  exists (call1_keep_dup st1 ca xr req). split.
  { intros nt sp Hsim Hep. rewrite <- (set_endpoint_twice _ n (Endpoint st1 (ep_sent ep))).
    apply (step_local srv _ sp n (Endpoint st1 (ep_sent ep))); [|apply lookup_insert_eq|apply ls_keep_dup].
    apply (step_local srv _ _ n ep st1 Hsim Hep). eapply ls_unlink; [|exact E].
    unfold is_unsigned, XID_LIMIT in *. lia. }
  unfold call1_end. rewrite E. cbn [mbind res_bind]. split; [done|]. unfold call1_keep_dup, st1.
  assert (Hd : forall y c, delete x (calls (ep_rpcc ep)) !! y = Some c -> ca_done c = true -> 0 <= ca_intret c).
  { intros y c [_ Hy]%lookup_delete_Some. by eapply H6. }
  destruct (_ && _) eqn:Elossy; (split; [done|]; split; [done|]; split; [done|]; split; try done).
  cbn [ep_rpcc set_dup dup_req set_calls ep_sent]. intros Hv. destruct (request_isvalid (dup_req (ep_rpcc ep))) eqn:Ev.
  - by apply H5.
  - by exists x, sn.
Qed.

(** What a finished call returns: the outcome of an execution. *)
Lemma returned w sp bgs n ep x ca A R (c : codec A) (cr : codec R) fn a p pkt :
  linked w sp bgs -> nw_clients (w_net w) !! n = Some ep -> calls (ep_rpcc ep) !! x = Some ca ->
  ca_done ca = true -> ep_sent ep !! x = Some (Sent p (c_enc c a) pkt) ->
  srv !! p = Some (Method A R c cr fn) -> fits c a ->
  exists r s s', call_m cr (c_init cr) (ca_intret ca) (ca_un ca) = Ok (ca_intret ca, r) /\
    I s /\ fn a (c_init cr) s = Ok (ca_intret ca, r, s') /\
    is_Some (status (sy_rs (nw_server (w_net w))) (n, x)).
Proof.
  intros Hl Hep Hca Ed Hsn Hm Ha. pose proof (lk_sim _ _ _ Hl) as Hsim.
  pose proof (cl_done _ _ _ _ (lk_clients _ _ _ Hl _ _ Hep) _ _ Hca Ed) as Hpos.
  destruct (im_returned _ _ _ (sm_imp _ _ _ Hsim) n ep x ca Hep Hca Ed Hpos)
    as (p' & args & rs & Hsp & m' & r & Hm' & Hr & Ers & Ecm).
  pose proof (im_issued _ _ _ (sm_imp _ _ _ Hsim) n x) as Hiss. unfold issued in Hiss.
  rewrite Hsp, Hep in Hiss. cbn [mbind option_bind fmap option_fmap option_map] in Hiss.
  rewrite Hsn in Hiss. injection Hiss as -> ->. cbn [sn_proc sn_args] in *.
  rewrite Hm in Hm'. injection Hm' as <-. cbn [me_cr me_res] in *.
  destruct (lk_performed _ _ _ Hl _ _ _ _ _ Hsp) as (s & s' & HI & Hperf).
  destruct (performs_good _ _ _ _ _ _ (Method A R c cr fn) a Hperf) as (r' & Efn & Hr' & Ers'); try done.
  destruct (srv_method srv srv_ok _ _ Hm) as [_ [_ Hcr _]]. cbn [me_cr me_fn me_res] in *.
  assert (r' = r) as -> by (apply (enc_inj cr); [done..|congruence]).
  exists r, s, s'. split_and!; try done.
  assert (Hn : n <> 0) by (by destruct (ni_client _ _ (sm_inv _ _ _ Hsim) _ _ Hep) as [(? & _) _ _ _]).
  assert (Hex : (n, x) ∈ (sy_exec (nw_server (w_net w))).*1) by (apply (im_performed _ _ _ (sm_imp _ _ _ Hsim)); eauto 6).
  apply list_elem_of_fmap in Hex as ([k b] & Ek & Hin). cbn [fst] in Ek. subst k.
  destruct (si_exec _ (sys_reachable_inv _ (ni_sys _ _ (sm_inv _ _ _ Hsim))) _ _ Hin Hn) as [->|[-> _]]; by eexists.
Qed.

(** What [call_m] and [fin] make of a call that is over, and how its thread goes on:
    a call to a bound client, *)
Definition outcome w sp bg n ep (st2 : rpcc) {R} (cr : codec R) ca fin k : Prop :=
  exists ret r bg', call_m cr (c_init cr)
      (if ca_done ca then ca_intret ca else timeout_failure) (ca_un ca) = Ok (ret, r) /\
    bg_calls bg' = bg_calls bg /\ bg_own bg' ⊆ bg_own bg /\ bg_join bg' ⊆ bg_join bg /\
    let ep' := Endpoint (fin ret r st2) (ep_sent ep) in
    sim srv (set_endpoint (w_net w) n ep') sp /\
    client_live (w_conn w) (sy_rs (nw_server (w_net w))) n ep' /\
    calls (fin ret r st2) = calls st2 /\ xid_ (fin ret r st2) = xid_ st2 /\
    (bind_done st2 = true -> bind_done (fin ret r st2) = true) /\
    tstate_ok (set_endpoint (w_net w) n ep') bg' (Idle (k ret r)).

Section over.
Context w sp (bgs : list budget) (bg : budget) (n x : Z) (ep : endpoint) (st2 : rpcc) (ca : caller).
Context A R (c : codec A) (cr : codec R) (fn : A -> R -> S -> res (Z * R * S)) (a : A) (p : Z) (pkt : list byte).
Context (fin : Z -> R -> rpcc -> rpcc) (k : Z -> R -> thread).
Hypotheses (Hl : linked w sp bgs) (Hep : nw_clients (w_net w) !! n = Some ep)
  (Hca : calls (ep_rpcc ep) !! x = Some ca) (Hsn : ep_sent ep !! x = Some (Sent p (c_enc c a) pkt))
  (Hm : srv !! p = Some (Method A R c cr fn)) (Ha : fits c a) (HC : all_bound (w_net w) (bg_bound bg))
  (Hst2 : sim srv (set_endpoint (w_net w) n (Endpoint st2 (ep_sent ep))) sp)
  (Hcl : client_live (w_conn w) (sy_rs (nw_server (w_net w))) n (Endpoint st2 (ep_sent ep)))
  (Ebd : bind_done st2 = bind_done (ep_rpcc ep)).

Lemma call_outcome :
  n ∈ bg_bound bg -> all_fresh (w_net w) (bg_own bg) -> (forall ret r q, fin ret r q = q) ->
  (forall s ret r s', I s -> fn a (c_init cr) s = Ok (ret, r, s') ->
     safe (bg_join bg) (bg_bound bg) (bg_own bg) (bg_calls bg) (k ret r)) ->
  (ca_done ca = false -> safe (bg_join bg) (bg_bound bg) (bg_own bg) (bg_calls bg) (k timeout_failure (c_init cr))) ->
  outcome w sp bg n ep st2 cr ca fin k.
Proof.
  intros Hn HU Hfin Hk Hto.
  assert (Hr : exists ret r, call_m cr (c_init cr)
    (if ca_done ca then ca_intret ca else timeout_failure) (ca_un ca) = Ok (ret, r) /\
    safe (bg_join bg) (bg_bound bg) (bg_own bg) (bg_calls bg) (k ret r)).
  { destruct (ca_done ca) eqn:Ed.
    - destruct (returned _ _ _ _ _ _ _ _ _ _ _ _ _ _ _ Hl Hep Hca Ed Hsn Hm Ha) as (r & s & s' & E & HI & Efn & _).
      exists (ca_intret ca), r. split; [done|]. by eapply Hk.
    - exists timeout_failure, (c_init cr). split; [done|]. by apply Hto. }
  destruct Hr as (ret & r & E & Hs). exists ret, r, bg. cbv zeta. rewrite Hfin.
  destruct (HC n Hn) as (ep0 & Hep0 & Hd). rewrite Hep in Hep0. injection Hep0 as <-.
  split_and!; try done. split; [eapply all_bound_endpoint; [done|by rewrite <- Ebd|done]|].
  split; [done|]. eapply all_fresh_endpoint; [done| |done]. intros _ ?. congruence.
Qed.

(** and [bind], which is the client's first call. *)
Lemma bind_outcome :
  n ∈ bg_own bg -> all_fresh (w_net w) (bg_own bg ∖ {[n]}) -> x = 1 -> ca_done ca = true ->
  (forall s ret r s', I s -> fn a (c_init cr) s = Ok (ret, r, s') ->
     (forall q, fin ret r q = bind_finish q 0 (s32 nonce)) /\
     safe (bg_join bg) (bg_bound bg ∪ {[n]}) (bg_own bg ∖ {[n]}) (bg_calls bg) (k ret r)) ->
  outcome w sp bg n ep st2 cr ca fin k.
Proof.
  intros Hn HU Hx Ed Hk.
  destruct (returned _ _ _ _ _ _ _ _ _ _ _ _ _ _ _ Hl Hep Hca Ed Hsn Hm Ha) as (r & s & s' & E & HI & Efn & Hst).
  destruct (Hk _ _ _ _ HI Efn) as [Hfin Hs].
  exists (ca_intret ca), r, (Budget (bg_calls bg) (bg_bound bg ∪ {[n]}) (bg_own bg ∖ {[n]}) (bg_join bg)).
  cbv zeta. rewrite Hfin, Ed. cbn [bg_calls bg_own bg_bound bg_join]. split_and!; try done; [set_solver|..].
  - rewrite <- (set_endpoint_twice _ n (Endpoint st2 (ep_sent ep))).
    apply (step_local srv _ sp n (Endpoint st2 (ep_sent ep))); [done|apply lookup_insert_eq|apply ls_bind].
  - destruct Hcl as [H1 H2 H3 H4 H4' H5 H6 H7]. split; try done.
    unfold bind_finish. change (0 =? 0) with true. cbn [ep_rpcc bind_done srv_nonce].
    rewrite (lk_nonce _ _ _ Hl), wrapU_wrapS, wrapU_small by done. rewrite Hx in Hst. split; [done|by left].
  - split; [|split; [done|]]; cbn [bg_bound bg_own].
    + intros n' [Hn'| ->%elem_of_singleton]%elem_of_union.
      * eapply all_bound_endpoint; [done| |exact HC|exact Hn']. done.
      * eexists. cbn [nw_clients set_endpoint]. by rewrite lookup_insert_eq.
    + eapply all_fresh_endpoint; [done|set_solver|done].
Qed.
End over.

Lemma finish_linked w sp bgs i n x xr req short R (cr : codec R) fin k :
  linked w sp bgs -> w_threads w !! i = Some (Waiting n x xr req short cr fin k) ->
  call_is_done w n x = true \/ call_is_done w n x = false /\ short = true ->
  exists w' bg bg' t, call_finish w i n x xr req cr fin k = Ok w' /\ bgs !! i = Some bg /\
    bg_calls bg' = bg_calls bg /\ linked w' sp (<[i := bg']> bgs) /\
    w_threads w' = <[i := Idle t]> (w_threads w) /\ (covered w -> covered w').
Proof.
  intros Hl Hi Hdone. pose proof (lk_sim _ _ _ Hl) as Hsim.
  destruct (Forall2_lookup_r _ _ _ _ _ (lk_threads _ _ _ Hl) Hi)
    as (bg & Hbg & HC & A & c & fn & a & p & ep & Hep & [ca Hca] & Hsn & Hm & Ha & Hmode).
  destruct (ni_client _ _ (sm_inv _ _ _ Hsim) _ _ Hep) as [_ _ (R' & Hinv) _].
  destruct (call1_end_live _ _ _ _ R' x ca xr req _ Hinv (lk_clients _ _ _ Hl _ _ Hep) Hca Hsn eq_refl)
    as (st2 & Hloc & Ee & Ecalls & Exid & Ebd & Hcl). specialize (Hloc _ _ Hsim Hep).
  unfold call_is_done in Hdone. rewrite Hep, Hca in Hdone.
  assert (Hmine : bind_done (ep_rpcc ep) = true \/ n ∈ bg_own bg).
  { destruct Hmode as [(Hn & _)|(Hn & _)]; [left|by right]. destruct (HC n Hn) as (ep0 & ? & ?). congruence. }
  assert (Hend : outcome w sp bg n ep st2 cr ca fin k).
  { destruct Hmode as [(Hn & HU & Hfin & Hk & Hto)|(Hn & HU & -> & Hx & _ & Hk)].
    - eapply call_outcome; try done. intros Ed. destruct Hdone as [?|[_ ->]]; [congruence|by apply Hto].
    - eapply bind_outcome; try done. by destruct Hdone as [?|[_ [=]]]. }
  destruct Hend as (ret & r & bg' & Ecm & Hcl' & Hown & Hjoin & Hs' & Hc' & Hca' & Hx' & Hb' & Hts).
  unfold call_finish. rewrite Hep, Ee. cbn [mbind res_bind]. rewrite Ecm. cbn [mbind res_bind].
  eexists _, bg, bg', _. split; [reflexivity|]. split; [done|]. split; [done|]. split; [|split; [reflexivity|]].
  2: { apply covered_client; try done.
    - intros n' y sn'. by apply (issued_more _ _ ep).
    - intros j n' y Hj. right. apply waits_insert in Hj as [(_ & ? & ? & ? & ? & ? & ? & ? & [=])|[Hj Hw]].
      split_and!; [done| |done]. unfold call_is_done. cbn [w_net set_thread set_net nw_clients set_endpoint].
      destruct (decide (n' = n)) as [->|]; [|by rewrite lookup_insert_ne]. rewrite Hep, lookup_insert_eq. cbn [ep_rpcc].
      rewrite Hca', Ecalls, lookup_delete_ne; [done|]. intros <-. apply Hj.
      eapply (lk_once _ _ _ Hl); [exact Hw|]. by repeat eexists. }
  pose proof (calls_left_insert i bg bg' bgs Hbg) as Hsum.
  apply (linked_endpoint w sp bgs n ep (Endpoint (fin ret r st2) (ep_sent ep)) sp); try done; try apply Hl; cbn [ep_rpcc ep_sent].
  - rewrite Hx', Exid. pose proof (lk_room _ _ _ Hl n ep Hep) as Hroom. cbn beta in Hroom. lia.
  - lia.
  - by left.
  - eapply threads_update; [apply Hl|exact Hbg|apply Hl|done|done| |done| |done]; cbn [ep_rpcc].
    + rewrite Ebd in Hb'. done.
    + intros j y Hj Hw Hs. rewrite Hca', Ecalls. destruct (decide (y = x)) as [->|].
      * exfalso. apply Hj. eapply (lk_once _ _ _ Hl); [exact Hw|]. by repeat eexists.
      * by rewrite lookup_delete_ne.
  - intros j j' n' y Hw%waits_idle Hw'%waits_idle. by eapply (lk_once _ _ _ Hl).
  - by eapply apart_insert; [apply Hl|..].
Qed.

(** A reply on its way is the answer to a call its client made. *)
Lemma reply_read w sp bgs n ep x b :
  linked w sp bgs -> nw_clients (w_net w) !! n = Some ep -> ((n, x), b) ∈ sy_sent (nw_server (w_net w)) ->
  1 <= x < xid_ (ep_rpcc ep) /\ exists ret u,
    unpack_reply_header (new_unmarshall (on_wire b) (zlen (on_wire b))) = Ok (ReplyHeader x ret, u) /\
    u_ok u = true /\ 0 <= ret.
Proof.
  intros Hl Hep Hin. pose proof (lk_sim _ _ _ Hl) as Hsim.
  pose proof (ni_client _ _ (sm_inv _ _ _ Hsim) _ _ Hep) as [(Hn & _) _ _ Hsent].
  apply (si_sent _ (sys_reachable_inv _ (ni_sys _ _ (sm_inv _ _ _ Hsim)))) in Hin; [|done].
  destruct (sm_exec _ _ _ Hsim _ _ _ Hn Hin) as (p & args & ret & rs & Hsp & Hans).
  pose proof (im_issued _ _ _ (sm_imp _ _ _ Hsim) n x) as Hiss. rewrite Hsp in Hiss.
  destruct (issued (w_net w) n x) as [sn|] eqn:Ei; [|done].
  destruct (issued_carries _ _ _ _ _ (sm_inv _ _ _ Hsim) Ei) as (_ & _ & Hx).
  unfold issued in Ei. rewrite Hep in Ei. cbn [mbind option_bind] in Ei. split; [by apply (Hsent _ sn)|].
  destruct (answers_read _ srv_ok _ _ _ _ _ Hx Hans) as (u & Eu & Hu & Hr & _). by exists ret, u.
Qed.

(** [rpcc::got_pdu] completes the call, unless it is over. *)
Lemma reply_taken R rc x b ret u :
  rpcc_inv R rc -> 1 <= x < xid_ rc ->
  unpack_reply_header (new_unmarshall (on_wire b) (zlen (on_wire b))) = Ok (ReplyHeader x ret, u) ->
  u_ok u = true ->
  exists cs wd, rpcc_got_pdu rc (on_wire b) (zlen (on_wire b)) = Ok (set_calls rc cs wd) /\
    (forall y, is_Some (calls rc !! y) -> is_Some (cs !! y)) /\
    (forall ca, cs !! x = Some ca -> ca_done ca = true) /\
    (forall y ca, cs !! y = Some ca -> calls rc !! y = Some ca \/ ca_done ca = true /\ ca_intret ca = ret).
Proof.
  intros Hinv Hx Eu Hu. pose proof (inv_xid _ _ Hinv) as Hlim.
  destruct (complete_inv R rc x (delete x (calls rc)) Hinv Hx) as (wd & Ew & _).
  { intros y c' Hy _. by apply lookup_delete_Some in Hy as [_ ?]. } { intros c'. by rewrite lookup_delete_eq. }
  unfold rpcc_got_pdu. rewrite Eu. cbn [mbind res_bind r_xid]. rewrite Hu. cbn [negb].
  rewrite wrapU_small by (unfold is_unsigned, XID_LIMIT in *; lia). rewrite Ew. cbn [mbind res_bind r_ret].
  destruct (calls rc !! x) as [ca|] eqn:Eca; [destruct (ca_done ca) eqn:Ed|];
    (do 2 eexists; split; [reflexivity|]); split_and!; try (by eauto); try congruence.
  - intros y Hy. destruct (decide (y = x)) as [->|]; [rewrite lookup_insert_eq; eauto|by rewrite lookup_insert_ne].
  - intros ca'. rewrite lookup_insert_eq. by intros [= <-].
  - intros y ca' [[_ <-]|[_ ?]]%lookup_insert_Some; [by right|by left].
Qed.


Lemma deliver_covered w sp bgs i c b n ep cs wd :
  linked w sp bgs -> w_reps w !! i = Some (c, b) -> w_conn w !! n = Some c ->
  nw_clients (w_net w) !! n = Some ep ->
  (forall y, is_Some (calls (ep_rpcc ep) !! y) -> is_Some (cs !! y)) ->
  (forall y ca, cs !! y = Some ca -> calls (ep_rpcc ep) !! y = Some ca \/ ca_done ca = true) ->
  let w' := World (set_endpoint (w_net w) n (Endpoint (set_calls (ep_rpcc ep) cs wd) (ep_sent ep))) (w_conn w) (w_reqs w)
    (remove_nth i (w_reps w)) (w_threads w) (w_broken w) in
  (forall x, ((n, x), b) ∈ sy_sent (nw_server (w_net w)) -> is_Some (calls (ep_rpcc ep) !! x) ->
     call_is_done w' n x = true) ->
  covered w -> covered w'.
Proof.
  intros Hl Hi Hc Hep Hslots Hcs w' Hnow Hcov.
  assert (Hkeep : forall n' y, call_is_done w n' y = true -> call_is_done w' n' y = true).
  { intros n' y. unfold call_is_done. cbn [w' w_net nw_clients set_endpoint].
    destruct (decide (n' = n)) as [->|]; [|by rewrite lookup_insert_ne]. rewrite Hep, lookup_insert_eq. cbn [ep_rpcc set_calls calls].
    destruct (calls (ep_rpcc ep) !! y) as [ca|] eqn:Ey; [|done]. intros Hd. destruct (Hslots y) as [ca' Hy]; [by eexists|].
    rewrite Hy. destruct (Hcs y ca' Hy); [congruence|done]. }
  intros j n' y Hw. destruct (Hcov j n' y Hw) as [?|[?|Hway]]; [left; by apply Hkeep|by right; left|].
  assert (Hiss : forall sn, issued (w_net w) n' y = Some sn -> issued (w_net w') n' y = Some sn)
    by (intros sn; by apply (issued_more _ _ ep)).
  destruct Hway as [(sn & ? & ?)|[(sn & dj & ? & ? & ?)|[?|[?|(c' & b' & Hc' & Hin' & Hsent)]]]]; [right; right..|].
  - left. exists sn. auto.
  - right. left. exists sn, dj. auto.
  - by right; right; left.
  - by right; right; right; left.
  - apply (remove_nth_or _ _ _ _ Hi) in Hin' as [[= -> ->]|Hin'].
    + assert (n' = n) as -> by (by eapply (lk_inj _ _ _ Hl)). left. apply Hnow; [done|].
      by destruct (waits_slot _ _ _ _ _ _ Hl Hw) as (ep0 & ? & ?); simplify_eq.
    + do 6 right. by exists c', b'.
Qed.

Lemma deliver_linked w sp bgs i c b n ep :
  linked w sp bgs -> w_reps w !! i = Some (c, b) -> w_conn w !! n = Some c ->
  nw_clients (w_net w) !! n = Some ep ->
  exists w', live_step w (E_deliver i n) = Some (Ok w') /\ linked w' sp bgs /\
    w_threads w' = w_threads w /\
    (forall x, ((n, x), b) ∈ sy_sent (nw_server (w_net w)) -> is_Some (calls (ep_rpcc ep) !! x) ->
      call_is_done w' n x = true) /\ (covered w -> covered w').
Proof.
  intros Hl Hi Hc Hep. pose proof (lk_sim _ _ _ Hl) as Hsim.
  destruct (lk_reps _ _ _ Hl c b) as (n' & x & Hc' & Hin); [by eapply list_elem_of_lookup_2|].
  assert (n' = n) as -> by (by eapply (lk_inj _ _ _ Hl)). clear Hc'.
  pose proof (ni_client _ _ (sm_inv _ _ _ Hsim) _ _ Hep) as [_ _ (R & Hinv) _].
  destruct (reply_read _ _ _ _ _ _ _ Hl Hep Hin) as (Hx & ret & u & Eu & Hu & Hret).
  destruct (reply_taken R _ x b ret u Hinv Hx Eu Hu) as (cs & wd & E & Hslots & Hdone & Hcs).
  unfold live_step. rewrite Hi. cbn [mbind option_bind]. rewrite decide_True by done. rewrite Hep.
  cbn [mbind option_bind]. rewrite E. cbn [mbind res_bind]. set (w' := World _ _ _ _ _ _).
  assert (Hnow : forall x, ((n, x), b) ∈ sy_sent (nw_server (w_net w)) -> is_Some (calls (ep_rpcc ep) !! x) ->
    call_is_done w' n x = true).
  { intros x' Hin' Hs. destruct (reply_read _ _ _ _ _ _ _ Hl Hep Hin') as (_ & ret' & u' & Eu' & _). rewrite Eu in Eu'.
    injection Eu' as <- _ _. unfold call_is_done. cbn [w' w_net nw_clients set_endpoint].
    rewrite lookup_insert_eq. cbn [ep_rpcc set_calls calls]. destruct (Hslots x Hs) as [ca Hca].
    rewrite Hca. by apply Hdone. }
  exists w'. split; [reflexivity|]. split; [|split; [done|split; [done|]]].
  - apply (linked_endpoint w sp bgs n ep (Endpoint (set_calls (ep_rpcc ep) cs wd) (ep_sent ep)) sp);
      try done; cbn [ep_rpcc ep_sent].
    + by eapply (step_reply srv srv_ok).
    + apply Hl.
    + apply Hl.
    + destruct (lk_clients _ _ _ Hl _ _ Hep) as [H1 H2 H3 H4 H4' H5 H6 H7].
      split; try done. cbn [ep_rpcc set_calls calls]. intros y ca Hy Hd.
      destruct (Hcs y ca Hy) as [?|[_ ->]]; [by eapply H6|done].
    + by apply (lk_room _ _ _ Hl n).
    + by left.
    + intros r. apply elem_of_remove_nth.
    + eapply threads_endpoint; [done..| |apply Hl]. intros j y _. apply Hslots.
    + apply Hl.
    + apply Hl.
  - apply (deliver_covered w sp bgs i c b n ep cs wd); try done. intros y ca Hy.
    destruct (Hcs y ca Hy) as [?|[? _]]; auto.
Qed.

(** *** Starting and joining threads *)

(** A step that changes the threads only. *)
Lemma linked_threads w sp bgs ths bgs' :
  linked w sp bgs -> (calls_left bgs' <= calls_left bgs)%nat ->
  Forall2 (tstate_ok (w_net w)) bgs' ths -> apart bgs' ->
  (forall i n x, waits ths i n x -> waits (w_threads w) i n x) ->
  linked (World (w_net w) (w_conn w) (w_reqs w) (w_reps w) ths (w_broken w)) sp bgs'.
Proof.
  intros [L1 L2 L3 L3' L4 L5 L6 L7 L8 L9 L10 L11 L12] Hsum Hth Hap Hw.
  split; cbn [w_net w_conn w_reqs w_reps w_threads]; try done.
  - intros n ep Hep. specialize (L7 n ep Hep). simpl in *. lia.
  - intros i i' n x Hi%Hw Hi'%Hw. by eapply L11.
Qed.

Lemma waits_app_idle ths t j n x : waits (ths ++ [Idle t]) j n x -> waits ths j n x.
Proof.
  intros (xr & req & short & R & cr & fin & k & Hj). apply lookup_app_Some in Hj as [Hj|[_ Hj]]; [by repeat eexists|].
  by apply list_lookup_singleton_Some in Hj as [_ [=]].
Qed.

Lemma safe_fork_inv J C U N t k :
  safe J C U N (T_fork t k) ->
  exists N1 N2 U', N = Datatypes.S (N1 + N2) /\ U' ⊆ U /\ safe ∅ C U' N1 t /\
    forall j, safe (J ∪ {[j]}) C (U ∖ U') N2 (k j).
Proof. inversion 1; subst. eauto 8. Qed.

Lemma safe_join_inv J C U N j k :
  safe J C U N (T_join j k) -> exists N', N = Datatypes.S N' /\ j ∈ J /\ safe J C U N' k.
Proof. inversion 1; subst. eauto. Qed.

(** The budgets once thread [i] has started another. *)
Lemma apart_fork bgs i bg bg1 bg2 :
  apart bgs -> bgs !! i = Some bg -> bg_own bg1 ⊆ bg_own bg -> bg_join bg1 = ∅ ->
  bg_own bg2 = bg_own bg ∖ bg_own bg1 -> bg_join bg2 = bg_join bg ∪ {[length bgs]} ->
  apart (<[i := bg2]> bgs ++ [bg1]).
Proof.
  intros [Hown Hjoin] Hi E1 E1' E2 E2'.
  pose proof (lookup_lt_Some _ _ _ Hi) as Hlt.
  assert (Hold : forall j b, (<[i := bg2]> bgs ++ [bg1]) !! j = Some b ->
    (j = i /\ b = bg2) \/ (j <> i /\ bgs !! j = Some b) \/ (j = length bgs /\ b = bg1)).
  { intros j b [Hj|[Hge Hj]]%lookup_app_Some.
    - apply list_lookup_insert_Some in Hj as [(<- & <- & _)|[? Hj]]; auto.
    - apply list_lookup_singleton_Some in Hj as [Hj <-]. rewrite length_insert in *. right. right. split; [lia|done]. }
  split.
  - intros j j' b b' n Hj Hj' Hn Hn'. pose proof (Hown i j bg) as H1. pose proof (Hown i j' bg) as H2.
    pose proof (Hown j j') as H3.
    apply Hold in Hj as [[-> ->]|[[Hne Hj]|[-> ->]]], Hj' as [[-> ->]|[[Hne' Hj']|[-> ->]]];
      rewrite ?E2 in *; try done; try set_solver.
  - intros j b j' Hj Hj'. rewrite length_app, length_insert. simpl length. apply Hold in Hj as [[-> ->]|[[_ Hj]|[_ ->]]].
    + rewrite E2' in Hj'. apply elem_of_union in Hj' as [Hj'| ->%elem_of_singleton]; [|lia].
      specialize (Hjoin i bg j' Hi Hj'). lia.
    + specialize (Hjoin j b j' Hj Hj'). lia.
    + rewrite E1' in Hj'. set_solver.
Qed.

Lemma fork_linked w sp bgs i t k :
  linked w sp bgs -> w_threads w !! i = Some (Idle (T_fork t k)) ->
  exists bg bg1 bg2, bgs !! i = Some bg /\ bg_calls bg = Datatypes.S (bg_calls bg1 + bg_calls bg2) /\
    linked (fork_thread w i t k) sp (<[i := bg2]> bgs ++ [bg1]).
Proof.
  intros Hl Hi. pose proof (lk_threads _ _ _ Hl) as Hth. pose proof (Forall2_length _ _ _ Hth) as Hlen.
  destruct (Forall2_lookup_r _ _ _ _ _ Hth Hi) as (bg & Hbg & HC & Hs & HU).
  apply safe_fork_inv in Hs as (N1 & N2 & U & HN & HU' & Ht & Hk).
  set (bg1 := Budget N1 (bg_bound bg) U ∅).
  set (bg2 := Budget N2 (bg_bound bg) (bg_own bg ∖ U) (bg_join bg ∪ {[length bgs]})).
  exists bg, bg1, bg2. split_and!; [done..|]. unfold fork_thread. apply (linked_threads _ _ _ _ _ Hl).
  - pose proof (calls_left_insert i bg bg2 bgs Hbg) as Hsum. unfold calls_left in *.
    rewrite fmap_app, sum_list_with_app. cbn in *. lia.
  - apply Forall2_app; [apply Forall2_insert; [done|]|].
    + split; [done|]. split; [rewrite <- Hlen; apply Hk|]. intros n Hn. apply HU. set_solver.
    + repeat constructor; [done..|]. intros n Hn. apply HU. set_solver.
  - apply (apart_fork bgs i bg bg1 bg2); try done. apply Hl.
  - intros j n x Hw%waits_app_idle%waits_idle. done.
Qed.

Lemma join_linked w sp bgs i j k :
  linked w sp bgs -> w_threads w !! i = Some (Idle (T_join j k)) ->
  (i < j < length (w_threads w))%nat /\
  exists bg bg', bgs !! i = Some bg /\ bg_calls bg = Datatypes.S (bg_calls bg') /\
    linked (set_thread w i (Idle k)) sp (<[i := bg']> bgs).
Proof.
  intros Hl Hi. pose proof (lk_threads _ _ _ Hl) as Hth. pose proof (Forall2_length _ _ _ Hth) as Hlen.
  destruct (Forall2_lookup_r _ _ _ _ _ Hth Hi) as (bg & Hbg & HC & Hs & HU).
  apply safe_join_inv in Hs as (N & HN & Hj & Hk). split.
  { rewrite <- Hlen. by eapply (ap_join _ (lk_apart _ _ _ Hl)). }
  exists bg, (Budget N (bg_bound bg) (bg_own bg) (bg_join bg)). split_and!; [done..|].
  apply (linked_threads _ _ _ _ _ Hl).
  - pose proof (calls_left_insert i bg (Budget N (bg_bound bg) (bg_own bg) (bg_join bg)) bgs Hbg) as Hsum.
    cbn [bg_calls] in Hsum. lia.
  - by apply Forall2_insert.
  - by eapply apart_insert; [apply Hl|..].
  - intros j' n x. apply waits_idle.
Qed.

(** *** Every event keeps the promise *)

Lemma elem_of_waiting_on w c i n x :
  waits (w_threads w) i n x -> w_conn w !! n = Some c -> i ∈ waiting_on w c.
Proof.
  intros (xr & req & short & R & cr & fin & k & Hi) Hc. apply elem_of_list_to_set, list_elem_of_omap.
  exists (Some i). split; [|done]. apply list_elem_of_lookup. exists i. rewrite list_lookup_imap, Hi. cbn.
  by rewrite decide_True.
Qed.

(** A packet is lost with its channel. *)
Lemma linked_lose w sp bgs reqs reps c :
  linked w sp bgs -> (forall q, q ∈ reqs -> q ∈ w_reqs w) -> (forall q, q ∈ reps -> q ∈ w_reps w) ->
  (forall n pkt, (n, pkt) ∈ w_reqs w -> (n, pkt) ∈ reqs \/ w_conn w !! n = Some c) ->
  (forall c' b, (c', b) ∈ w_reps w -> (c', b) ∈ reps \/ c' = c) ->
  let w' := World (w_net w) (w_conn w) reqs reps (w_threads w) (w_broken w ∪ waiting_on w c) in
  linked w' sp bgs /\ (covered w -> covered w').
Proof.
  intros Hl Hq Hr Hq' Hr' w'. split.
  { destruct Hl as [L1 L2 L3 L3' L4 L5 L6 L7 L8 L9 L10 L11 L12]. split; try done.
    - intros n pkt Hin%Hq. by apply L8.
    - intros c' b Hin%Hr. by apply L9. }
  intros Hcov i n x Hw. destruct (Hcov i n x Hw) as [?|[?|Hu]]; [by left|right; left; set_solver|right].
  assert (Hbr : w_conn w !! n = Some c -> i ∈ w_broken w').
  { intros Hc. cbn [w_broken w']. apply elem_of_union. right. by eapply elem_of_waiting_on. }
  destruct Hu as [(sn & Hi & Hin)|[?|[?|[?|(c' & b & Hc & Hin & Hs)]]]].
  - destruct (Hq' _ _ Hin) as [?|?]; [right; left; by exists sn|left; auto].
  - by right; right; left.
  - by right; right; right; left.
  - by right; right; right; right; left.
  - destruct (Hr' _ _ Hin) as [?| ->]; [|left; auto]. do 5 right. by exists c', b.
Qed.

Lemma fork_covered w i t k : covered w -> covered (fork_thread w i t k).
Proof. apply covered_threads. intros j n x Hw%waits_app_idle%waits_idle. done. Qed.

Lemma idle_covered w i t : covered w -> covered (set_thread w i (Idle t)).
Proof. apply covered_threads. intros j n x. apply waits_idle. Qed.

Definition alive w sp bgs : Prop := linked w sp bgs /\ covered w.

Ltac stepped := do 3 eexists; split; [reflexivity|]; split; [|split; [eassumption|auto]]; first [eassumption|reflexivity].

Lemma live_step_alive w sp bgs e r :
  alive w sp bgs -> live_step w e = Some r ->
  exists w' sp' bgs', r = Ok w' /\ rtc (spec_step srv) sp sp' /\ alive w' sp' bgs'.
Proof.
  intros [Hl Hcov] E. destruct e as [i|i|i|i|i|i|i|i|i n|i]; pose proof E as E0; unfold live_step in E0.
  - destruct (w_threads w !! i) as [[[| |n short p A R c cr a fin k|t k|j k]|n x xr req short R cr fin k]|] eqn:Hi; try done.
    + destruct (start_linked _ _ _ _ _ _ _ _ _ _ _ _ _ _ Hl Hi) as (w' & sp' & bg & bg' & ts & E' & _ & _ & Hr & Hl' & _ & Hc).
      rewrite E in E'. injection E' as ->. stepped.
    + injection E0 as <-. destruct (fork_linked _ _ _ _ _ _ Hl Hi) as (bg & bg1 & bg2 & _ & _ & Hl').
      pose proof (fork_covered w i t k). stepped.
    + apply bind_Some in E0 as (ts & _ & E0). destruct (is_over ts); [|done]. injection E0 as <-.
      destruct (join_linked _ _ _ _ _ _ Hl Hi) as (_ & bg & bg' & _ & _ & Hl'). pose proof (idle_covered w i k). stepped.
    + destruct (call_is_done w n x) eqn:Ed; [|done]. injection E0 as <-.
      destruct (finish_linked _ _ _ _ _ _ _ _ _ _ _ _ _ Hl Hi (or_introl Ed)) as (w' & bg & bg' & t & -> & _ & _ & Hl' & _ & Hc).
      stepped.
  - destruct (w_threads w !! i) as [[|n x xr req short R cr fin k]|] eqn:Hi; try done.
    apply bind_Some in E0 as (ep0 & _ & E0). destruct (_ && _) eqn:Eb; [|done].
    apply andb_prop in Eb as [_ Hbr%bool_decide_eq_true].
    destruct (again_linked _ _ _ _ _ _ _ _ _ _ _ _ _ Hl Hi Hbr) as (w' & ep & sn & E' & Hl' & _ & _ & _ & _ & _ & Hc).
    rewrite E in E'. injection E' as ->. stepped.
  - destruct (w_threads w !! i) as [[|n x xr req [] R cr fin k]|] eqn:Hi; try done.
    destruct (call_is_done w n x) eqn:Ed; [done|]. injection E0 as <-.
    destruct (finish_linked _ _ _ _ _ _ _ _ _ _ _ _ _ Hl Hi (or_intror (conj Ed eq_refl)))
      as (w' & bg & bg' & t & -> & _ & _ & Hl' & _ & Hc). stepped.
  - apply bind_Some in E0 as ([n pkt] & Hi & _).
    destruct (arrive_linked _ _ _ _ _ _ Hl Hi) as (w' & dj & E' & Hl' & _ & _ & _ & _ & _ & Hc).
    rewrite E in E'. injection E' as ->. stepped.
  - apply bind_Some in E0 as ([n pkt] & Hi & E0). apply bind_Some in E0 as (c & Hc & [= <-]).
    destruct (linked_lose w sp bgs (remove_nth i (w_reqs w)) (w_reps w) c) as [Hl' Hcov']; [done| | |..]; try by auto.
    { intros q. apply elem_of_remove_nth. }
    { intros n' pkt' Hin. apply (remove_nth_or _ _ _ _ Hi) in Hin as [[= -> _]|?]; auto. }
    stepped.
  - apply bind_Some in E0 as (dj & Hi & _).
    destruct (begin_linked _ _ _ _ _ Hl Hi) as (w' & E' & Hl' & _ & _ & _ & Hc). rewrite E in E'. injection E' as ->. stepped.
  - apply bind_Some in E0 as (j & Hi & _).
    destruct (run_linked _ _ _ _ _ Hl Hi) as (w' & sp' & b & E' & Hr & Hl' & _ & _ & _ & Hc). rewrite E in E'. injection E' as ->. stepped.
  - apply bind_Some in E0 as ([j b] & Hi & _).
    destruct (answer_linked _ _ _ _ _ _ 0 0 Hl Hi) as (w' & E' & Hl' & _ & _ & _ & Hc). rewrite E in E'. injection E' as ->. stepped.
  - apply bind_Some in E0 as ([c b] & Hi & E0). case_decide as Hc; [|done].
    apply bind_Some in E0 as (ep & Hep & _).
    destruct (deliver_linked _ _ _ _ _ _ _ _ Hl Hi Hc Hep) as (w' & E' & Hl' & _ & _ & Hcov'). rewrite E in E'. injection E' as ->. stepped.
  - apply bind_Some in E0 as ([c b] & Hi & [= <-]).
    destruct (linked_lose w sp bgs (w_reqs w) (remove_nth i (w_reps w)) c) as [Hl' Hcov']; [done|done| |by auto| |].
    { intros q. apply elem_of_remove_nth. }
    { intros c' b' Hin. apply (remove_nth_or _ _ _ _ Hi) in Hin as [[= -> _]|?]; auto. }
    stepped.
Qed.

Lemma live_run_alive es : forall w sp bgs r,
  alive w sp bgs -> live_run w es = Some r ->
  exists w' sp' bgs', r = Ok w' /\ rtc (spec_step srv) sp sp' /\ alive w' sp' bgs'.
Proof.
  induction es as [|e es IH]; intros w sp bgs r Hl E; cbn [live_run] in E.
  - injection E as <-. by exists w, sp, bgs.
  - apply bind_Some in E as (r1 & E1 & E). destruct (live_step_alive _ _ _ _ _ Hl E1) as (w1 & sp1 & bgs1 & -> & Hr1 & Hl1).
    destruct (IH _ _ _ _ Hl1 E) as (w2 & sp2 & bgs2 & -> & Hr2 & Hl2). exists w2, sp2, bgs2. split_and!; [done|by etrans|done].
Qed.

Lemma alive_no_failure w sp bgs : alive w sp bgs -> no_failure w.
Proof.
  intros [Hl _] (i & Hi)%list_elem_of_lookup.
  destruct (Forall2_lookup_r _ _ _ _ _ (lk_threads _ _ _ Hl) Hi) as (bg & _ & _ & Hs & _). by eapply safe_fail.
Qed.

(** *** All calls can be completed *)

(** [reaches w w']: some events lead from [w] to [w']. *)
Definition reaches w w' : Prop := exists es, live_run w es = Some (Ok w').

Lemma reaches_refl w : reaches w w.
Proof. by exists []. Qed.

Lemma reaches_step w w1 w' e : live_step w e = Some (Ok w1) -> reaches w1 w' -> reaches w w'.
Proof. intros E [es Es]. exists (e :: es). cbn [live_run]. by rewrite E. Qed.

Lemma reaches_trans w w1 w2 : reaches w w1 -> reaches w1 w2 -> reaches w w2.
Proof.
  intros [es E] Hr. revert w E. induction es as [|e es IH]; intros w E; cbn [live_run] in E; [by injection E as ->|].
  apply bind_Some in E as ([w'|] & E1 & E2); [|done]. by eapply reaches_step, IH.
Qed.

(** Call [x] of client [n] can get its reply without a thread going on. *)
Definition completes w bgs (n x : Z) : Prop :=
  exists w' sp', reaches w w' /\ alive w' sp' bgs /\ w_threads w' = w_threads w /\ call_is_done w' n x = true.

Lemma completes_step w w1 bgs n x e :
  live_step w e = Some (Ok w1) -> w_threads w1 = w_threads w -> completes w1 bgs n x -> completes w bgs n x.
Proof.
  intros E Ht (w' & sp' & Hr & Hl & Ht' & Hd). exists w', sp'. split_and!; try done; [by eapply reaches_step|congruence].
Qed.

(** From where the call is: its reply is on the way, *)
Section one_call.
Context (bgs : list budget) (n x : Z) (ep : endpoint).
Hypothesis slot : is_Some (calls (ep_rpcc ep) !! x).

Lemma reply_completes w sp :
  alive w sp bgs -> nw_clients (w_net w) !! n = Some ep -> reply_under_way w n x -> completes w bgs n x.
Proof.
  intros [Hl Hcov] Hep (c & b & Hc & Hin & Hsent). apply list_elem_of_lookup in Hin as [i Hi].
  destruct (deliver_linked _ _ _ _ _ _ _ _ Hl Hi Hc Hep) as (w' & E & Hl' & Ht & Hd & Hcov').
  exists w', sp. split_and!; [by eapply reaches_step, reaches_refl|by split; auto|done|by apply Hd].
Qed.

(** its handler is done, *)
Lemma answer_completes w sp j b :
  alive w sp bgs -> nw_clients (w_net w) !! n = Some ep ->
  (j, b) ∈ sy_rep (nw_server (w_net w)) -> job_key j = (n, x) -> completes w bgs n x.
Proof.
  intros [Hl Hcov] Hep Hin Ek. apply list_elem_of_lookup in Hin as [i Hi].
  destruct (answer_linked _ _ _ _ _ _ n x Hl Hi) as (w1 & E & Hl1 & Ht1 & Hc1 & Hd & Hcov').
  eapply completes_step; [exact E|done|]. eapply reply_completes; [split; [exact Hl1|auto]|by rewrite Hc1|by apply Hd].
Qed.

(** the server takes care of it, *)
Lemma served_completes w sp :
  alive w sp bgs -> nw_clients (w_net w) !! n = Some ep -> served w n x -> completes w bgs n x.
Proof.
  intros Hal Hep [(j & Hin & Ek)|[(j & b & ? & ?)|?]]; [|by eapply answer_completes|by eapply reply_completes].
  apply list_elem_of_lookup in Hin as [i Hi]. destruct Hal as [Hl Hcov].
  destruct (run_linked _ _ _ _ _ Hl Hi) as (w1 & sp1 & b & E & _ & Hl1 & Ht1 & Hc1 & Hin & Hcov').
  eapply completes_step; [exact E|done|]. eapply answer_completes; [split; [exact Hl1|auto]|by rewrite Hc1|exact Hin|exact Ek].
Qed.

(** its request waits for a thread of the pool, *)
Lemma queued_completes w sp :
  alive w sp bgs -> nw_clients (w_net w) !! n = Some ep -> request_queued w n x -> completes w bgs n x.
Proof.
  intros [Hl Hcov] Hep (sn & dj & Hx & Hin & Eb & Esz). apply list_elem_of_lookup in Hin as [i Hi].
  destruct (begin_linked _ _ _ _ _ Hl Hi) as (w1 & E & Hl1 & Ht1 & Hc1 & Hserved & Hcov').
  eapply completes_step; [exact E|done|]. eapply served_completes; [split; [exact Hl1|auto]|by rewrite Hc1|].
  destruct (issued_good _ _ _ _ _ _ Hl Hx) as (_ & _ & _ & Hok). eapply Hserved. rewrite Eb, Esz. exact Hok.
Qed.

(** its request is on the way. *)
Lemma sent_completes w sp :
  alive w sp bgs -> nw_clients (w_net w) !! n = Some ep -> request_sent w n x -> completes w bgs n x.
Proof.
  intros [Hl Hcov] Hep (sn & Hx & Hin). apply list_elem_of_lookup in Hin as [q Hq].
  destruct (arrive_linked _ _ _ _ _ _ Hl Hq) as (w1 & dj & E & Hl1 & Ht1 & Hc1 & Equeue & Eb & Esz & Hcov').
  eapply completes_step; [exact E|done|]. eapply queued_completes; [split; [exact Hl1|auto]|by rewrite Hc1|].
  exists sn, dj. split_and!; [unfold issued in *; by rewrite Hc1|rewrite Equeue; left|done..].
Qed.
End one_call.

(** A waiting call gets its reply; when its channel is dead it is sent again. *)
Lemma waiting_completes w sp bgs i n x xr req short R (cr : codec R) fin k :
  alive w sp bgs -> w_threads w !! i = Some (Waiting n x xr req short cr fin k) ->
  completes w bgs n x.
Proof.
  intros Hal Hi. pose proof Hal as [Hl Hcov]. assert (Hw : waits (w_threads w) i n x) by (by repeat eexists).
  destruct (waits_slot _ _ _ _ _ _ Hl Hw) as (ep & Hep & Hs).
  destruct (Hcov i n x Hw) as [?|[Hbr|[?|[?|?]]]];
    [|..|by eapply sent_completes|by eapply queued_completes|by eapply served_completes].
  - exists w, sp. split_and!; [apply reaches_refl|done..].
  - destruct (again_linked _ _ _ _ _ _ _ _ _ _ _ _ _ Hl Hi Hbr)
      as (w1 & ep1 & sn & E1 & Hl1 & Ht1 & Hin & Hep1 & Hsn & Epkt & Hcov').
    rewrite <- Ht1 in Hw. destruct (waits_slot _ _ _ _ _ _ Hl1 Hw) as (ep2 & Hep2 & Hs2).
    rewrite Hep1 in Hep2. injection Hep2 as <-.
    eapply completes_step; [exact E1|done|]. apply (sent_completes bgs n x ep1 Hs2 w1 sp); [by split; auto|done|].
    exists sn. split; [unfold issued; by rewrite Hep1|by rewrite Epkt].
Qed.

(** The work left: two units for every call not begun, one for a reply to be
    taken. *)
Definition weight (bg : budget) (ts : tstate) : nat :=
  2 * bg_calls bg + match ts with Idle _ => 0 | _ => 1 end.
Definition work (bgs : list budget) (ths : list tstate) : nat := sum_list (zip_with weight bgs ths).

Lemma work_insert bgs ths i bg bg' ts ts' :
  bgs !! i = Some bg -> ths !! i = Some ts ->
  (work (<[i := bg']> bgs) (<[i := ts']> ths) + weight bg ts = work bgs ths + weight bg' ts')%nat.
Proof.
  intros Hbg Hts. unfold work. rewrite <- insert_zip_with. apply sum_list_insert.
  by rewrite lookup_zip_with, Hbg, Hts.
Qed.

Lemma work_app bgs ths bg ts :
  length bgs = length ths -> (work (bgs ++ [bg]) (ths ++ [ts]) = work bgs ths + weight bg ts)%nat.
Proof. intros Hl. unfold work. rewrite zip_with_app by done. rewrite sum_list_with_app. cbn. lia. Qed.

(** The youngest thread that is not done. *)
Lemma last_running (ths : list tstate) :
  Forall (fun ts => ts = Idle T_done) ths \/
  exists i ts, ths !! i = Some ts /\ is_over ts = false /\
    forall j ts', (i < j)%nat -> ths !! j = Some ts' -> is_over ts' = true.
Proof.
  induction ths as [|ts0 ths [IH|(i & ts & Hi & Ho & Hj)]]; [by left| |].
  - destruct (is_over ts0) eqn:E0; [left|right].
    + constructor; [by destruct ts0 as [[]|]|done].
    + exists 0%nat, ts0. split_and!; [done..|]. intros [|j] ts' Hj Hts'; [lia|]. simpl in Hts'.
      by rewrite (proj1 (Forall_lookup _ _) IH _ _ Hts').
  - right. exists (Datatypes.S i), ts. split_and!; [done..|]. intros [|j] ts' Hlt Hts'; [lia|].
    apply (Hj j); [lia|done].
Qed.

(** A thread that is not done can go on, and then less is left to do. *)
Lemma alive_progress w sp bgs :
  alive w sp bgs -> finished w \/
  exists w' sp' bgs', reaches w w' /\ alive w' sp' bgs' /\ (work bgs' (w_threads w') < work bgs (w_threads w))%nat.
Proof.
  intros Hal. destruct (last_running (w_threads w)) as [?|(i & ts & Hi & Hts & Hlater)]; [by left|right].
  pose proof Hal as [Hl Hcov]. pose proof (Forall2_length _ _ _ (lk_threads _ _ _ Hl)) as Hlen.
  destruct ts as [[| |n short p A R c cr a fin k|t k|j k]|n x xr req short R cr fin k]; [done|..].
  - destruct (alive_no_failure _ _ _ Hal). by eapply list_elem_of_lookup_2.
  - destruct (start_linked _ _ _ _ _ _ _ _ _ _ _ _ _ _ Hl Hi)
      as (w1 & sp1 & bg & bg' & ts & E & Hbg & HN & _ & Hl1 & Ht1 & Hcov').
    exists w1, sp1, (<[i := bg']> bgs). split_and!; [by eapply reaches_step, reaches_refl|by split; auto|].
    rewrite Ht1. pose proof (work_insert bgs (w_threads w) i bg bg' _ ts Hbg Hi) as Hw.
    unfold weight in Hw. destruct ts; lia.
  - destruct (fork_linked _ _ _ _ _ _ Hl Hi) as (bg & bg1 & bg2 & Hbg & HN & Hl1).
    eexists _, sp, _. split_and!; [|split; [exact Hl1|by apply fork_covered]|].
    + eapply (reaches_step _ _ _ (E_go i)), reaches_refl. cbn [live_step]. by rewrite Hi.
    + cbn [fork_thread w_threads]. rewrite work_app by (by rewrite !length_insert).
      pose proof (work_insert bgs (w_threads w) i bg bg2 _ (Idle (k (length (w_threads w)))) Hbg Hi) as Hw.
      unfold weight in *. lia.
  - destruct (join_linked _ _ _ _ _ _ Hl Hi) as (Hj & bg & bg' & Hbg & HN & Hl1).
    destruct (lookup_lt_is_Some_2 (w_threads w) j) as [ts Hts']; [lia|].
    eexists _, sp, _. split_and!; [|split; [exact Hl1|by apply idle_covered]|].
    + eapply (reaches_step _ _ _ (E_go i)), reaches_refl. cbn [live_step]. rewrite Hi, Hts'. cbn [mbind option_bind].
      by rewrite (Hlater j ts) by (done || lia).
    + cbn [set_thread w_threads]. pose proof (work_insert bgs (w_threads w) i bg bg' _ (Idle k) Hbg Hi) as Hw.
      unfold weight in Hw. lia.
  - destruct (waiting_completes _ _ _ _ _ _ _ _ _ _ _ _ _ Hal Hi) as (w1 & sp1 & Hr1 & [Hl1 Hcov1] & Ht1 & Hd).
    rewrite <- Ht1 in Hi.
    destruct (finish_linked _ _ _ _ _ _ _ _ _ _ _ _ _ Hl1 Hi (or_introl Hd))
      as (w2 & bg & bg' & t & E & Hbg & HN & Hl2 & Ht2 & Hcov2).
    exists w2, sp1, (<[i := bg']> bgs). split_and!; [|by split; auto|].
    + eapply reaches_trans; [exact Hr1|]. eapply (reaches_step _ _ _ (E_go i)), reaches_refl.
      cbn [live_step]. by rewrite Hi, Hd, E.
    + rewrite Ht2, <- Ht1. pose proof (work_insert bgs (w_threads w1) i bg bg' _ (Idle t) Hbg Hi) as Hw.
      unfold weight in Hw. lia.
Qed.

Lemma alive_finishes w sp bgs : alive w sp bgs -> exists w', reaches w w' /\ finished w'.
Proof.
  remember (work bgs (w_threads w)) as M eqn:HM. revert w sp bgs HM.
  induction (lt_wf M) as [M _ IH]. intros w sp bgs -> Hl.
  destruct (alive_progress _ _ _ Hl) as [?|(w1 & sp1 & bgs1 & Hr & Hl1 & Hlt)].
  { exists w. split; [apply reaches_refl|done]. }
  destruct (IH _ Hlt w1 sp1 bgs1 eq_refl Hl1) as (w2 & Hr2 & ?).
  exists w2. split; [by eapply reaches_trans|done].
Qed.

(** *** Programs that are safe *)

Lemma safe_T_rpc J C U N n short p A R (c : codec A) (cr : codec R) fn a k :
  n ∈ C -> p <> rpc_bind -> srv !! p = Some (Method A R c cr fn) -> fits c a ->
  (forall s, I s -> exists ret r s', fn a (c_init cr) s = Ok (ret, r, s') /\ 0 <= ret /\ I s' /\ safe J C U N (k ret r)) ->
  (short = true -> safe J C U N (k timeout_failure (c_init cr))) ->
  safe J C U (Datatypes.S N) (T_rpc n short p c cr a k).
Proof.
  intros Hn Hp Hm Ha Hf Hto. eapply safe_call; try done.
  - intros s HI. destruct (Hf s HI) as (ret & r & s' & ? & ? & ? & _). eauto 6.
  - intros s ret r s' HI E. destruct (Hf s HI) as (ret' & r' & s'' & E' & _ & _ & ?).
    cbn [me_fn] in *. rewrite E in E'. by injection E' as <- <- <-.
Qed.

Definition bind_method : method S := Method Z Z int_codec int_codec (rpcbind nonce).
Hypothesis binds : srv !! rpc_bind = Some bind_method.

Lemma safe_T_bind J C U N n k :
  n ∈ U -> safe J (C ∪ {[n]}) (U ∖ {[n]}) N (k 0) -> safe J C U (Datatypes.S N) (T_bind n k).
Proof.
  intros Hn Hk. eapply (safe_bind J C U N n Z Z int_codec int_codec (rpcbind nonce)); try done.
  - intros s HI. by exists 0, (s32 nonce), s.
  - intros s ret r s' _ [= <- <- _]. done.
Qed.

(** A second [bind]. *)
Lemma safe_T_bind_again J C U N n k :
  n ∈ C -> safe J C U N (k bind_failure) -> safe J C U (Datatypes.S N) (T_bind n k).
Proof. intros Hn Hk. eapply safe_rebind; [done|done|apply _|done]. Qed.

End live.

(** ** The start *)

Section start.
Context `{Allocator} {S : Type}.

Record just_started (srv : service S) (st : rpcs S) : Prop := {
  js_nonce : is_unsigned 32 (rs_nonce st);
  js_window : rs_reply_window st = ∅;
  js_conns : rs_conns st = ∅;
  js_reachable : rs_reachable st = true;
  js_offers : offers srv st
}.

(** The nonces are different and not 0, which stands for none. *)
Definition nonces_ok (cls : list (Z * Z)) : Prop := NoDup (client_nonces cls) /\ 0 ∉ client_nonces cls.

Context (srv : service S) (st : rpcs S) (Hst : just_started srv st).

Lemma new_clients_cons cl cls :
  new_clients (cl :: cls) = <[u32 cl.1 := Endpoint (new_rpcc true cl.1 cl.2) ∅]> (new_clients cls).
Proof. done. Qed.

Lemma new_clients_Some cls n ep :
  new_clients cls !! n = Some ep ->
  n ∈ client_nonces cls /\ exists rnd loss, n = u32 rnd /\ ep = Endpoint (new_rpcc true rnd loss) ∅.
Proof.
  intros Hn%elem_of_list_to_map_2. apply list_elem_of_fmap in Hn as ([rnd loss] & [= -> ->] & Hin).
  split; [|by exists rnd, loss]. apply list_elem_of_fmap. by exists (rnd, loss).
Qed.

Lemma new_clients_is_Some cls n : n ∈ client_nonces cls -> is_Some (new_clients cls !! n).
Proof.
  induction cls as [|cl cls IH]; [by intros ?%elem_of_nil|]. rewrite new_clients_cons. intros [->|Hn]%elem_of_cons.
  - rewrite lookup_insert_eq. eauto.
  - destruct (decide (n = u32 cl.1)) as [->|]; [rewrite lookup_insert_eq; eauto|].
    rewrite lookup_insert_ne by done. auto.
Qed.

Lemma by_nonce {A} (f : Z -> A) (ns : list Z) n :
  NoDup ns -> (list_to_map ((fun n => (n, f n)) <$> ns) : gmap Z A) !! n = if decide (n ∈ ns) then Some (f n) else None.
Proof.
  intros Hnd. assert (Hfst : ((fun n => (n, f n)) <$> ns).*1 = ns).
  { clear. induction ns as [|n' ns IH]; [done|]. cbn. by rewrite IH. }
  case_decide as Hn.
  - apply elem_of_list_to_map_1; [by rewrite Hfst|]. apply list_elem_of_fmap. by exists n.
  - apply not_elem_of_list_to_map_1. by rewrite Hfst.
Qed.

Lemma start_sim app cls t (Hcls : nonces_ok cls) : sim srv (w_net (start_world st app cls t)) (Spec app ∅).
Proof.
  destruct Hcls as [Hnd H0]. cbn [start_world w_net]. generalize (accepted cls). intros hp.
  induction cls as [|cl cls IH].
  - apply sim_init. repeat split; try done; cbn; [apply Hst|]. intros p m Hm. exact (js_offers _ _ Hst p m Hm).
  - inversion Hnd as [|? ? Hnew Hnd']; subst. rewrite new_clients_cons.
    assert (Hs : sim srv (Net (new_clients cls) (Sys (set_heap st hp) app [] [] [] [] [])) (Spec app ∅)).
    { apply IH; [done|]. intros Hin. apply H0. by right. }
    apply (step_connect srv _ _ cl.1 cl.2 Hs).
    + intros E. apply H0. rewrite <- E. left.
    + cbn [nw_clients]. destruct (new_clients cls !! u32 cl.1) as [ep|] eqn:E; [|done].
      by apply new_clients_Some in E as [? _].
Qed.

Lemma start_server_live cls app (Hnd : NoDup (client_nonces cls)) :
  server_live (list_to_map ((fun n => (n, n)) <$> client_nonces cls))
    (Sys (set_heap st (accepted cls)) app [] [] [] [] []).
Proof.
  split; cbn [sy_rs sy_queue sy_run sy_rep set_heap set_conns rs_reachable rs_heap rs_conns].
  - apply Hst.
  - intros n c. rewrite by_nonce by done. case_decide as Hn; [|done]. intros [= <-].
    unfold accepted. rewrite (by_nonce (fun n => new_connection n 0 (0, 0))), decide_True by done.
    by eexists.
  - intros n c. by rewrite (js_conns _ _ Hst), lookup_empty.
  - by intros dj ?%elem_of_nil.
  - by intros j ?%elem_of_nil.
  - by intros j b ?%elem_of_nil.
  - intros k _. unfold status, table_of. cbn. by rewrite (js_window _ _ Hst), lookup_empty.
Qed.

Lemma start_linked' I app cls N t :
  nonces_ok cls -> I app -> 1 + Z.of_nat N <= XID_LIMIT ->
  safe srv I (rs_nonce st) ∅ ∅ (list_to_set (client_nonces cls)) N t ->
  linked srv I (rs_nonce st) (start_world st app cls t) (Spec app ∅)
    [Budget N ∅ (list_to_set (client_nonces cls)) ∅].
Proof.
  intros Hcls HI HN Hs. pose proof Hcls as [Hnd H0].
  assert (Hw : forall i n x, ~ waits [Idle t] i n x).
  { intros [|i] n x (? & ? & ? & ? & ? & ? & ? & [=]). }
  assert (Hcl : forall n ep, new_clients cls !! n = Some ep ->
    client_live srv I (list_to_map ((fun n => (n, n)) <$> client_nonces cls)) (set_heap st (accepted cls)) n ep).
  { intros n ep (Hn & rnd & loss & _ & ->)%new_clients_Some. split; cbn [ep_rpcc ep_sent new_rpcc]; try done.
    - rewrite by_nonce, decide_True by done. eauto.
    - split; [done|]. right. split; [done|]. intros y. unfold status, table_of. cbn.
      by rewrite (js_window _ _ Hst), lookup_empty. }
  split; cbn [w_net w_conn w_reqs w_reps w_threads start_world nw_server nw_clients sy_rs sp_app]; try done.
  - exact (start_sim app cls t Hcls).
  - by apply start_server_live.
  - intros n n' c. rewrite !by_nonce by done. repeat case_decide; try done. by intros [= ->] [= ->].
  - intros n ep (_ & rnd & loss & _ & ->)%new_clients_Some. cbn. lia.
  - by intros n pkt ?%elem_of_nil.
  - by intros c b ?%elem_of_nil.
  - repeat constructor; cbn [bg_bound bg_own bg_calls bg_join]; [by intros n ?%elem_of_empty|done|].
    intros n Hn%elem_of_list_to_set%new_clients_is_Some. destruct Hn as [ep Hep]. exists ep. split; [done|].
    by apply new_clients_Some in Hep as (_ & rnd & loss & _ & ->).
  - intros i i' n x Hi. by destruct (Hw i n x).
  - split.
    + intros [|i] [|i'] bg bg' n; try done. 
    + intros [|i] bg j [= <-]; set_solver.
Qed.

Lemma start_completes I app cls N t es r :
  service_ok srv -> nonces_ok cls -> I app -> 1 + Z.of_nat N <= XID_LIMIT ->
  safe srv I (rs_nonce st) ∅ ∅ (list_to_set (client_nonces cls)) N t ->
  live_run (start_world st app cls t) es = Some r ->
  exists w, r = Ok w /\ no_failure w /\
    (exists sp, rtc (spec_step srv) (Spec app ∅) sp /\ implements srv (w_net w) sp) /\
    exists es' w', live_run w es' = Some (Ok w') /\ finished w'.
Proof.
  intros Hok Hcls HI HN Hs E. pose proof (start_linked' I app cls N t Hcls HI HN Hs) as Hl.
  assert (Hcov : covered (start_world st app cls t)) by (by intros [|i] n x (? & ? & ? & ? & ? & ? & ? & [=])).
  pose proof (js_nonce _ _ Hst) as Hno.
  destruct (live_run_alive srv Hok I _ Hno es _ _ _ _ (conj Hl Hcov) E) as (w & sp & bgs & -> & Hr & Hl').
  exists w. split_and!; [done|by eapply alive_no_failure| |].
  - exists sp. split; [done|apply Hl'].
  - destruct (alive_finishes srv Hok I _ Hno _ _ _ Hl') as (w' & [es' E'] & Hf). by exists es', w'.
Qed.
End start.

(** * Properties *)


(** ** Witness *)

(** Client 5 binds and calls procedure 7 of the server of ServerExamples with 40;
    it stops the program unless the answer is 40. The first packet is lost. *)
Module LiveExamples.
#[local] Existing Instance zero_allocator.

Definition add_method : method Z := Method Z Z int_codec int_codec ServerExamples.add_meth.
Definition srv : service Z := {[rpc_bind := bind_method 77; 7 := add_method]}.
Definition server : rpcs Z :=
  match (st ← new_rpcs 77 0; reg1 st 7 (serve add_method)) with
  | Ok st => st
  | Err _ => Rpcs 0 ∅ ∅ 0 0 ∅ ∅ true ∅
  end.
Definition program : thread :=
  T_bind 5 (fun ret => t_verify (ret =? 0)
    (T_rpc 5 false 7 int_codec int_codec 40 (fun ret r => t_verify (ret =? 0) T_done))).
Definition events : list event :=
  [E_go 0; E_lose_request 0; E_again 0; E_arrive 0; E_begin 0; E_run 0; E_answer 0; E_deliver 0 5; E_go 0; E_go 0].
Definition outcome : res (world Z) := default (Err Undefined) (live_run (start_world server 0 [(5, 0)] program) events).

Lemma live_srv_ok : service_ok srv.
Proof.
  apply map_Forall_insert_2; [|apply map_Forall_singleton].
  - split; [by vm_compute|]. split; [apply _..|]. intros a s ret r s' _ [= <- <- <-].
    split; [|done]. apply fits_int. apply wrapS_range; lia.
  - split; [unfold is_signed; lia|]. split; [apply _..|]. intros a s ret r s' _ E.
    unfold add_method in E. cbn [me_fn me_cr me_res] in E.
    injection E as <- <- <-. split; [|done]. apply fits_int. apply wrapS_range; lia.
Qed.

Lemma server_started : just_started srv server.
Proof.
  split; [unfold is_unsigned; vm_compute; split; congruence|reflexivity..|].
  intros p m Hm. unfold srv in Hm.
  apply lookup_insert_Some in Hm as [[<- <-]|[_ [<- <-]%lookup_singleton_Some]].
  - by exists (serve (bind_method 77)).
  - by exists (serve add_method).
Qed.

Lemma program_safe : safe srv (fun _ => True) (rs_nonce server) ∅ ∅ (list_to_set (client_nonces [(5, 0)])) 2 program.
Proof.
  change (rs_nonce server) with 77. apply safe_T_bind; [done|set_solver|].
  apply (safe_T_rpc _ _ _ _ _ _ _ _ _ _ _ _ _ _ ServerExamples.add_meth); try done.
  intros s _. do 3 eexists. split; [reflexivity|]. split_and!; [done..|constructor].
Qed.

Lemma events_happen : live_run (start_world server 0 [(5, 0)] program) events = Some outcome.
Proof.
  assert (Hr : match live_run (start_world server 0 [(5, 0)] program) events with Some _ => true | None => false end = true)
    by (vm_compute; reflexivity).
  unfold outcome. by destruct (live_run _ _).
Qed.
End LiveExamples.
#[local] Existing Instance zero_allocator.

