(* ===== verification/System.v ===== *)
(** * The clients, the lock protocol and the extent server together

    The extents of all clients with the locks that guard them: one instance of
    the cached lock protocol (LockProtocol) per extent, the clients' caches
    (ExtentClient) and the server. A client works on an extent only between
    [acquire] and [release] of its lock (YfsClient.yfs_lock_discipline), and
    [dorelease] ([ExtentLockRelease] of src/yfs_client.h) flushes the extent
    before the lock goes back ([release] and [revoke_handler] of
    src/lock_client_cache.cc). The system refines the clients of ExtentClient,
    whose lock is a single variable: the assumption under which the caches are
    coherent is what the protocol provides. *)
From S2P Require Import Prelude LockServer LockServerCache LockClientCache LockProtocol.
From S2P Require Import ExtentServer ExtentClient.

Section system.
Context {St : Type} `{ExtentRpcLaws St}.

(** ** State and steps *)

Record system := System {
  sy_locks : Z -> proto;                (* one protocol instance per lock *)
  sy_store : St;
  sy_caches : string -> extent_cache
}.

Definition lock_upd (f : Z -> proto) (x : Z) (p : proto) : Z -> proto :=
  fun y => if decide (y = x) then p else f y.

(** The client [i] has flushed and calls the server's [release]. *)
Definition flushed (p : proto) (i : string) : proto :=
  Proto (p_server p) (upd (p_clients p) i
    (let c := p_clients p i in
     Client (k_lock c) (k_acq c) R_sent (k_cs c) (k_revokes c) (k_retries c))).

(** A step of the protocol in which no client passes its [dorelease]. *)
Definition keeps_flushing (p p' : proto) : Prop :=
  forall i, k_rel (p_clients p i) = R_flush -> k_rel (p_clients p' i) = R_flush.

(** The label of a step is the extent operation it performs, if any. *)
Inductive sys_step : system -> option cl_label -> system -> Prop :=
  | ss_proto s x p' :
      proto_step (sy_locks s x) p' -> keeps_flushing (sy_locks s x) p' ->
      sys_step s None (System (lock_upd (sy_locks s) x p') (sy_store s) (sy_caches s))
  | ss_flush s x i now ret c st :
      k_rel (p_clients (sy_locks s x) i) = R_flush ->
      ec_flush (sy_caches s i) (sy_store s) now x = (ret, c, st) ->
      sys_step s None (System (lock_upd (sy_locks s) x (flushed (sy_locks s x) i)) st
        (cache_upd (sy_caches s) i c))
  | ss_get s i x now buf ret d c st :
      k_cs (p_clients (sy_locks s x) i) = true -> ~ removed (sy_caches s i) x ->
      ec_get (sy_caches s i) (sy_store s) now x buf = (ret, d, c, st) ->
      sys_step s (Some (K_get x ret d)) (System (sy_locks s) st (cache_upd (sy_caches s) i c))
  | ss_getattr s i x out ret a c :
      k_cs (p_clients (sy_locks s x) i) = true -> ~ removed (sy_caches s i) x ->
      ec_getattr (sy_caches s i) (sy_store s) x out = (ret, a, c) ->
      sys_step s (Some (K_getattr x ret a))
        (System (sy_locks s) (sy_store s) (cache_upd (sy_caches s) i c))
  | ss_put s i x now d ret c :
      k_cs (p_clients (sy_locks s x) i) = true -> ec_put (sy_caches s i) now x d = (ret, c) ->
      sys_step s (Some (K_put x d)) (System (sy_locks s) (sy_store s) (cache_upd (sy_caches s) i c))
  | ss_remove s i x ret c :
      k_cs (p_clients (sy_locks s x) i) = true -> ec_remove (sy_caches s i) x = (ret, c) ->
      sys_step s (Some (K_remove x ret))
        (System (sy_locks s) (sy_store s) (cache_upd (sy_caches s) i c)).

Definition sys_init (st : St) : system := System (fun _ => proto_init) st (fun _ => ∅).

(** Runs with the operations they performed, oldest first. *)
Inductive sys_run (st : St) : list cl_label -> system -> Prop :=
  | sr_init : sys_run st [] (sys_init st)
  | sr_step ls s l s' :
      sys_run st ls s -> sys_step s l s' ->
      sys_run st (ls ++ match l with Some l => [l] | None => [] end) s'.

(** ** Who may have unwritten data *)

Definition unflushedb (c : client) : bool :=
  k_cs c || bool_decide (cc_state (k_lock c) = CC_FREE) || bool_decide (k_rel c = R_flush).

Definition lock_holder (p : proto) : option string :=
  let o := cl_client (p_server p) in if unflushedb (p_clients p o) then Some o else None.

Lemma unflushedb_spec c : unflushedb c = true <-> unflushed c.
Proof.
  unfold unflushedb, unflushed, holds. rewrite !orb_true_iff, !bool_decide_eq_true. tauto.
Qed.

Lemma lock_holder_spec p i :
  proto_inv p -> lock_holder p = Some i <-> unflushed (p_clients p i).
Proof.
  intros Hp. unfold lock_holder. split.
  - destruct (unflushedb _) eqn:E; [|done]. intros [= <-]. by apply unflushedb_spec.
  - intros Hu. rewrite <- (unflushed_owner p i Hp Hu). by apply unflushedb_spec in Hu as ->.
Qed.

Lemma lock_holder_None p :
  proto_inv p -> lock_holder p = None <-> forall i, ~ unflushed (p_clients p i).
Proof.
  intros Hp. split.
  - intros Hn i Hu%lock_holder_spec; congruence.
  - intros Hn. destruct (lock_holder p) as [i|] eqn:E; [|done].
    apply lock_holder_spec in E; [|done]. by destruct (Hn i).
Qed.

Lemma unflushed_shape p i :
  proto_inv p -> unflushed (p_clients p i) ->
  exists w, (w = 0 \/ w = 1) /\ owner_ok w (p_clients p i).
Proof.
  intros Hp Hu. pose proof (unflushed_owner p i Hp Hu) as ->. destruct Hp as [_ Hp].
  destruct (cl_state (p_server p)).
  - by destruct (other_not_unflushed _ _ _ (Hp (cl_client (p_server p)))).
  - exists 0. split; [by left|apply Hp].
  - exists 1. split; [by right|apply Hp].
  - destruct Hp as (d & _ & Ho). by destruct (other_not_unflushed _ _ _ (Ho (cl_client (p_server p)))).
Qed.

(** What a step does to the client it is about decides whether it can lose
    unwritten data. *)
Lemma upd_unflushed f i c j :
  (unflushed (f i) -> unflushed c) -> unflushed (f j) -> unflushed (upd f i c j).
Proof. intros Hc Hj. destruct (decide (j = i)) as [->|]; autorewrite with lock_upd; auto. Qed.

Lemma add_revoke_unflushed to f j : unflushed (add_revoke to f j) <-> unflushed (f j).
Proof.
  destruct to as [h|]; simpl; [|done].
  destruct (decide (j = h)) as [->|]; by autorewrite with lock_upd.
Qed.

Lemma add_retry_unflushed to f j : unflushed (add_retry to f j) <-> unflushed (f j).
Proof.
  destruct to as [h|]; simpl; [|done].
  destruct (decide (j = h)) as [->|]; by autorewrite with lock_upd.
Qed.

(** Solves a case from the shape of the one client that may have unwritten
    data. *)
Ltac by_shape Hsh :=
  let Hu := fresh "Hu" in let Ho := fresh "Ho" in
  intros Hu; destruct (Hsh _ Hu) as (? & ? & Ho); clear Hsh; unfold unflushed, holds in *;
  match type of Ho with owner_ok _ ?c => destruct c as [[] ? ? ? ? ?] eqn:? end;
  simplify_eq/=; shape Ho; repeat case_match; simplify_eq/=; naive_solver lia.

(** Only the flush takes a client's right to the data away. *)
Lemma step_keeps_unflushed p p' j :
  proto_inv p -> proto_step p p' -> keeps_flushing p p' ->
  unflushed (p_clients p j) -> unflushed (p_clients p' j).
Proof.
  intros Hp Hs. pose proof (fun i => unflushed_shape p i Hp) as Hsh. revert Hp Hsh.
  destruct Hs as [[q i self l E|q i self l E|q i flag l Hcs E]|[q i E|q i ret rv sv E E'
    |q i self ret ok l E E'|q i l E E'|q i E|q i inform sv E E'|q i E|q i flag l E E'|q i E]];
    intros Hp Hsh Hk Hj;
    simpl; rewrite ?add_revoke_unflushed, ?add_retry_unflushed;
    apply upd_unflushed; try done;
    unfold acquire_try, release_begin, acquire_reply, acquire_retry, revoke_begin in *.
  all: try by_shape Hsh.
  specialize (Hk i E). simpl in Hk. by rewrite upd_eq in Hk.
Qed.

(** ** The refinement *)

Record refines (s : system) (k : cluster St) : Prop := {
  rf_store : cl_store k = sy_store s;
  rf_caches : cl_caches k = sy_caches s;
  rf_holder : forall x, cl_holder k x = lock_holder (sy_locks s x)
}.

Definition locks_inv (s : system) : Prop := forall x, proto_inv (sy_locks s x).

Lemma lock_upd_inv f x p :
  (forall y, proto_inv (f y)) -> proto_inv p -> forall y, proto_inv (lock_upd f x p y).
Proof. intros Hf Hp y. unfold lock_upd. by case_decide. Qed.

Lemma flushed_step p i : k_rel (p_clients p i) = R_flush -> proto_step p (flushed p i).
Proof. intros E. right. by apply (ns_flush p i). Qed.

Lemma sys_step_locks s l s' : sys_step s l s' -> locks_inv s -> locks_inv s'.
Proof.
  intros Hs Hi. destruct Hs; try done; intros y; simpl; apply lock_upd_inv; try done.
  - by eapply proto_step_inv.
  - eapply proto_step_inv; [by apply flushed_step|apply Hi].
Qed.

(** Inside the critical section a client is the holder. *)
Lemma inside_holds p i : proto_inv p -> k_cs (p_clients p i) = true -> lock_holder p = Some i.
Proof. intros Hp Hcs. apply lock_holder_spec; [done|]. left. by left. Qed.

Lemma flushed_holder p i :
  proto_inv p -> k_rel (p_clients p i) = R_flush ->
  lock_holder p = Some i /\ lock_holder (flushed p i) = None.
Proof.
  intros Hp Hr. assert (Hu : unflushed (p_clients p i)) by (by right).
  split; [by apply lock_holder_spec|].
  assert (Hp' : proto_inv (flushed p i)) by (eapply proto_step_inv; [by apply flushed_step|done]).
  apply lock_holder_None; [done|]. intros j Hj. simpl in Hj.
  destruct (decide (j = i)) as [->|Hne]; autorewrite with lock_upd in Hj.
  - destruct (unflushed_shape p i Hp Hu) as (w & _ & Ho). unfold unflushed, holds in Hj.
    destruct Ho; simplify_eq/=; naive_solver.
  - apply Hne. by rewrite (unflushed_owner p i), (unflushed_owner p j).
Qed.

(** A step of one lock is a step of the abstract holder, or none. *)
Lemma proto_step_refines s k x p' :
  refines s k -> locks_inv s -> proto_step (sy_locks s x) p' -> keeps_flushing (sy_locks s x) p' ->
  exists k', refines (System (lock_upd (sy_locks s) x p') (sy_store s) (sy_caches s)) k' /\
    (k' = k \/ cl_step k K_lock k').
Proof.
  intros [Hst Hca Hho] Hi Hs Hk. assert (Hp' : proto_inv p') by (by eapply proto_step_inv).
  destruct (decide (lock_holder p' = lock_holder (sy_locks s x))) as [He|He].
  - exists k. split; [|by left]. split; try done. intros y. rewrite Hho. simpl. unfold lock_upd.
    by case_decide; subst.
  - destruct (lock_holder (sy_locks s x)) as [j|] eqn:Eh.
    { destruct He. apply lock_holder_spec; [done|]. eapply step_keeps_unflushed; [apply Hi|done..|].
      by apply lock_holder_spec. }
    destruct (lock_holder p') as [i|] eqn:Eh'; [|done].
    exists (Cluster (cl_store k) (cl_caches k) (holder_upd (cl_holder k) x (Some i))).
    split; [|right; apply ks_lock; by rewrite Hho].
    split; try done. intros y. simpl. unfold lock_upd, holder_upd. by case_decide; [subst|].
Qed.

Lemma sys_step_refines s k l s' :
  refines s k -> locks_inv s -> sys_step s l s' ->
  exists k', refines s' k' /\
    match l with
    | Some l => cl_step k l k'
    | None => k' = k \/ cl_step k K_lock k' \/ cl_step k K_unlock k'
    end.
Proof.
  intros Hr Hi Hs. pose proof Hr as [Hst Hca Hho].
  destruct Hs as [s x p' Hs Hk|s x i now ret c st Hf E|s i x now buf ret d c st Hcs Hn E
    |s i x out ret a c Hcs Hn E|s i x now d ret c Hcs E|s i x ret c Hcs E].
  3-6: apply (inside_holds _ _ (Hi x)) in Hcs; rewrite <- Hho in Hcs;
    rewrite <- ?Hst, <- ?Hca in *.
  - destruct (proto_step_refines s k x p' Hr Hi Hs Hk) as (k' & Hr' & Hor). exists k'. naive_solver.
  - destruct (flushed_holder _ i (Hi x) Hf) as [Hh Hh'].
    exists (Cluster st (cache_upd (cl_caches k) i c) (holder_upd (cl_holder k) x None)). split.
    + split; simpl; [done|by rewrite Hca|]. intros y. unfold lock_upd, holder_upd.
      by case_decide; [subst|].
    + right. right. eapply ks_unlock; [by rewrite Hho|]. by rewrite Hst, Hca.
  - eexists. split; [|by eapply ks_get]. by split.
  - eexists. split; [|by eapply ks_getattr]. by split.
  - eexists. split; [|by eapply ks_put]. by split.
  - eexists. split; [|by eapply ks_remove]. by split.
Qed.

Lemma sys_run_refines st ls s :
  sys_run st ls s -> locks_inv s /\ exists k, refines s k /\ cluster_reachable st k.
Proof.
  induction 1 as [|ls s l s' _ [Hi (k & Hr & Hk)] Hs].
  - split; [intros x; apply proto_init_inv|].
    exists (Cluster st (fun _ => ∅) (fun _ => None)). split; [by split|apply rtc_refl].
  - split; [by eapply sys_step_locks|].
    destruct (sys_step_refines s k l s' Hr Hi Hs) as (k' & Hr' & Hl). exists k'. split; [done|].
    unfold cluster_reachable in *. destruct l as [l|].
    + eapply rtc_r; [done|]. by exists l.
    + destruct Hl as [->|[Hl|Hl]]; [done|..]; (eapply rtc_r; [done|by eexists]).
Qed.

(** ** One store *)

Definition files (s : system) (x : Z) : option (list byte) :=
  match lock_holder (sy_locks s x) with
  | Some i => view (sy_caches s i) (sy_store s) x
  | None => contents (sy_store s) !! x
  end.

Lemma refines_files s k : refines s k -> forall x, shared k x = files s x.
Proof. intros [Hst Hca Hho] x. unfold shared, files. by rewrite Hho, Hst, Hca. Qed.

(** What a sequence of operations does to one store that nobody caches. *)
Inductive store_run (v0 : Z -> option (list byte)) : list cl_label -> (Z -> option (list byte)) -> Prop :=
  | vr_init v : pointwise_relation Z eq v v0 -> store_run v0 [] v
  | vr_step ls v l v' : store_run v0 ls v -> store_step v l v' -> store_run v0 (ls ++ [l]) v'.

#[export] Instance store_step_proper :
  Proper (pointwise_relation Z eq ==> eq ==> pointwise_relation Z eq ==> iff) store_step.
Proof.
  assert (Hone : forall l v1 v2 w1 w2, (forall x, v1 x = v2 x) -> (forall x, w1 x = w2 x) ->
    store_step v1 l w1 -> store_step v2 l w2).
  { intros l v1 v2 w1 w2 Hv Hw. destruct l; simpl; rewrite ?Hv.
    1-2: intros [Hy ?]; split; [|done]; intros y; by rewrite <- Hv, <- Hw.
    all: intros Hy y; by rewrite <- Hv, <- Hw. }
  intros v1 v2 Hv l ? <- w1 w2 Hw. split; apply Hone; try done; by intros x; symmetry.
Qed.

#[export] Instance store_run_proper v0 ls :
  Proper (pointwise_relation Z eq ==> iff) (store_run v0 ls).
Proof.
  assert (Hone : forall v w, pointwise_relation Z eq v w -> store_run v0 ls v -> store_run v0 ls w).
  { intros v w Hw Hr. destruct Hr as [v Hv|ls v l v' Hr Hs].
    - apply vr_init. by rewrite <- Hw.
    - eapply vr_step; [done|]. by rewrite <- Hw. }
  intros v w Hw. split; apply Hone; [done|by symmetry].
Qed.

Lemma sys_step_store st ls s l s' :
  store_ok st -> sys_run st ls s -> sys_step s l s' ->
  match l with
  | Some l => store_step (files s) l (files s')
  | None => pointwise_relation Z eq (files s') (files s)
  end.
Proof.
  intros Hok Hrun Hs. destruct (sys_run_refines st ls s Hrun) as (Hi & k & Hr & Hk).
  destruct (sys_step_refines s k l s' Hr Hi Hs) as (k' & Hr' & Hl).
  pose proof (cluster_reachable_inv st k Hok Hk) as Hinv.
  pose proof (refines_files s k Hr) as Hv. pose proof (refines_files s' k' Hr') as Hv'.
  destruct l as [l|].
  - rewrite <- (Hv : pointwise_relation _ _ _ _), <- (Hv' : pointwise_relation _ _ _ _).
    by apply (cl_step_spec k l k').
  - intros x. rewrite <- Hv, <- Hv'. destruct Hl as [->|[Hl|Hl]]; [done|..];
      by apply (cl_step_spec k _ k' Hinv Hl).
Qed.
End system.
Arguments system : clear implicits.

(** * Properties *)


(** ** Witnesses *)

(** Client a writes an extent; client b asks for the lock, which is revoked from
    a; a flushes, gives it back, and b reads what a wrote. *)
Module SystemExamples.
Import ExtentExamples.

Definition A (st : client_state) (own rv rt : Z) (acq : acq_pc) (rel : rel_pc) (cs : bool) (rvm rtm : Z) :=
  Client (Client_lock st own rv rt) acq rel cs rvm rtm.
Definition owned (q : gset string) : CacheLock :=
  Cache_lock "a" (if decide (q = ∅) then SV_LOCKED else SV_LOCKED_AND_WAIT) q.
Definition next (p : proto) (sv : CacheLock) (i : string) (c : client) : proto :=
  Proto sv (upd (p_clients p) i c).

Definition p1 := next proto_init new_cache_lock "a" (A CC_ACQUIRING (-1) 0 0 A_call R_none false 0 0).
Definition p2 := next p1 new_cache_lock "a" (A CC_ACQUIRING (-1) 0 0 A_sent R_none false 0 0).
Definition p3 := next p2 (owned ∅) "a" (A CC_ACQUIRING (-1) 0 0 (A_reply L_OK) R_none false 0 0).
Definition p4 := next p3 (owned ∅) "a" (A CC_LOCKED 1 0 0 A_none R_none true 0 0).
Definition p5 := next p4 (owned ∅) "b" (A CC_ACQUIRING (-1) 0 0 A_call R_none false 0 0).
Definition p6 := next p5 (owned ∅) "b" (A CC_ACQUIRING (-1) 0 0 A_sent R_none false 0 0).
Definition p7 := next (next p6 (owned {["b"]}) "b" (A CC_ACQUIRING (-1) 0 0 (A_reply L_RETRY) R_none false 0 0))
  (owned ({["b"]} ∪ ∅)) "a" (A CC_LOCKED 1 0 0 A_none R_none true 1 0).
Definition p8 := next p7 (p_server p7) "a" (A CC_RELEASING 1 0 0 A_none R_none true 0 0).
Definition p9 := next p8 (p_server p7) "a" (A CC_RELEASING 1 0 0 A_none R_flush false 0 0).
Definition p10 := next p9 (p_server p7) "a" (A CC_RELEASING 1 0 0 A_none R_sent false 0 0).
Definition released := Cache_lock "" SV_ORDERED ({["b"]} ∪ ∅).
Definition p11 := next (next p10 released "a" (A CC_RELEASING 1 0 0 A_none R_reply false 0 0))
  released "b" (A CC_ACQUIRING (-1) 0 0 (A_reply L_RETRY) R_none false 0 1).
Definition p12 := next p11 released "b" (A CC_ACQUIRING (-1) 0 0 A_wait R_none false 0 1).
Definition p13 := next p12 released "b" (A CC_ACQUIRING (-1) 0 1 A_wait R_none false 0 0).
Definition p14 := next p13 released "b" (A CC_ACQUIRING (-1) 0 0 A_call R_none false 0 0).
Definition p15 := next p14 released "b" (A CC_ACQUIRING (-1) 0 0 A_sent R_none false 0 0).
Definition granted := Cache_lock "b" SV_LOCKED (({["b"]} ∪ ∅) ∖ {["b"]}).
Definition p16 := next p15 granted "b" (A CC_ACQUIRING (-1) 0 0 (A_reply L_OK) R_none false 0 0).
Definition p17 := next p16 granted "b" (A CC_LOCKED 2 0 0 A_none R_none true 0 0).

Lemma next_keeps p sv i c :
  k_rel (p_clients p i) <> R_flush -> keeps_flushing p (next p sv i c).
Proof.
  intros Hn j Hj. simpl. destruct (decide (j = i)) as [->|]; [done|by autorewrite with lock_upd].
Qed.

Lemma next_keeps2 p sv i c sv' j d :
  k_rel (p_clients p i) <> R_flush -> k_rel (p_clients p j) <> R_flush ->
  keeps_flushing p (next (next p sv i c) sv' j d).
Proof.
  intros Hi Hj k Hk. simpl. destruct (decide (k = j)) as [->|]; [done|]. autorewrite with lock_upd.
  destruct (decide (k = i)) as [->|]; [done|by autorewrite with lock_upd].
Qed.

(** One internal step of lock 7. *)
Lemma run_proto (st : extent_server) ls s p' :
  sys_run st ls s -> proto_step (sy_locks s 7) p' -> keeps_flushing (sy_locks s 7) p' ->
  sys_run st ls (System (lock_upd (sy_locks s) 7 p') (sy_store s) (sy_caches s)).
Proof.
  intros Hr Hs Hk. rewrite <- (app_nil_r ls).
  apply (sr_step st ls s None _ Hr). by apply ss_proto.
Qed.

Definition written : extent_cache := (ec_put ∅ 200 7 hello).2.
Definition run_upd (f : Z -> proto) (ps : list proto) : Z -> proto := foldl (fun f p => lock_upd f 7 p) f ps.
Definition locks4 := run_upd (fun _ => proto_init) [p1; p2; p3; p4].
Definition locks9 := run_upd locks4 [p5; p6; p7; p8; p9].
Definition locks17 := run_upd (lock_upd locks9 7 p10) [p11; p12; p13; p14; p15; p16; p17].
Definition store0 : extent_server := new_extent_server 100.
Definition caches4 := cache_upd (fun _ => ∅) "a" written.
Definition store10 : extent_server := (ec_flush written store0 300 7).2.
Definition caches10 := cache_upd caches4 "a" (ec_flush written store0 300 7).1.2.

Ltac quiet step := apply (run_proto store0 _ (System _ _ _));
  [|step; reflexivity|first [apply next_keeps; discriminate | apply next_keeps2; discriminate]].

Lemma run4 : sys_run store0 [] (System locks4 store0 (fun _ => ∅)).
Proof.
  unfold locks4, run_upd. simpl.
  quiet ltac:(right; apply (ns_reply p3 "a" 1 L_OK true (Client_lock CC_LOCKED 1 0 0))).
  quiet ltac:(right; apply (ns_server_acquire p2 "a" L_OK None (owned ∅))).
  quiet ltac:(right; apply (ns_call p1 "a")).
  quiet ltac:(left; apply (us_rpc proto_init "a" 1)).
  apply sr_init.
Qed.

Lemma run9 : sys_run store0 [K_put 7 hello] (System locks9 store0 caches4).
Proof.
  unfold locks9, run_upd. simpl.
  quiet ltac:(left; apply (us_release p8 "a" true (Client_lock CC_RELEASING 1 0 0))).
  quiet ltac:(right; apply (ns_revoke p7 "a" false (Client_lock CC_RELEASING 1 0 0))).
  quiet ltac:(right; apply (ns_server_acquire p6 "b" L_RETRY (Some "a") (owned ({["b"]} ∪ ∅)))).
  quiet ltac:(right; apply (ns_call p5 "b")).
  quiet ltac:(left; apply (us_rpc p4 "b" 2)).
  apply (sr_step store0 [] _ (Some (K_put 7 hello)) _ run4).
  apply (ss_put (System locks4 store0 (fun _ => ∅)) "a" 7 200 hello EXT_OK written); reflexivity.
Qed.

Lemma run17 : sys_run store0 [K_put 7 hello] (System locks17 store10 caches10).
Proof.
  unfold locks17, run_upd. simpl.
  quiet ltac:(right; apply (ns_reply p16 "b" 2 L_OK true (Client_lock CC_LOCKED 2 0 0))).
  quiet ltac:(right; apply (ns_server_acquire p15 "b" L_OK None granted)).
  quiet ltac:(right; apply (ns_call p14 "b")).
  quiet ltac:(right; apply (ns_retry p13 "b" (Client_lock CC_ACQUIRING (-1) 0 0))).
  quiet ltac:(right; apply (ns_retry_msg p12 "b")).
  quiet ltac:(right; apply (ns_reply p11 "b" 2 L_RETRY false (Client_lock CC_ACQUIRING (-1) 0 0))).
  quiet ltac:(right; apply (ns_server_release p10 "a" (Some "b") released)).
  apply (sr_step store0 [K_put 7 hello] _ None _ run9).
  apply (ss_flush (System locks9 store0 caches4) 7 "a" 300 EXT_OK); [reflexivity|].
  vm_compute. reflexivity.
Qed.

Lemma b_reads : exists s, sys_run store0 [K_put 7 hello; K_get 7 EXT_OK hello] s.
Proof.
  eexists. apply (sr_step store0 [K_put 7 hello] _ (Some (K_get 7 EXT_OK hello)) _ run17).
  eapply (ss_get (System locks17 store10 caches10) "b" 7 400 []); [reflexivity| |].
  - intros (e & He & _). discriminate He.
  - vm_compute. reflexivity.
Qed.
End SystemExamples.
Import ExtentExamples SystemExamples.

