(* ===== verification/Txn.v ===== *)
(** * Locked operations of many threads, one after the other

    Every operation of [yfs_client] (src/yfs_client.cc) takes the lock of each
    extent it works on with a [ScopedLockClient] and gives all of them back when
    its scopes end, after its last access. This file treats such operations as
    programs that take locks, act on locations and give the locks back, runs any
    number of them interleaved, and shows that every interleaving is equivalent
    to running them one after the other. YfsTxn instantiates it with the file
    system's operations. *)
From S2P Require Import Prelude.

Section txn.
(** [G] is the state shared by all threads; [same_at x] relates two states that
    agree at location [x]. *)
Context {G : Type} (same_at : Z -> G -> G -> Prop).
Context {same_equiv : forall x, Equivalence (same_at x)}.
Context {T : Type} `{EqDecision T} {R : Type}.

(** ** Programs *)

Inductive prog : Type :=
  | Ret (r : R)
  | Acq (x : Z) (k : prog)
  | Rel (x : Z) (k : prog)
  | Act {A : Type} (x : Z) (f : G -> A * G) (k : A -> prog).

(** The program alone, from beginning to end. *)
Fixpoint srun (p : prog) (g : G) : R * G :=
  match p with
  | Ret r => (r, g)
  | Acq _ k | Rel _ k => srun k g
  | Act _ f k => srun (k (f g).1) (f g).2
  end.

(** An action depends on its location and changes nothing else. *)
Definition local {A} (x : Z) (f : G -> A * G) : Prop :=
  (forall g g', same_at x g g' -> (f g).1 = (f g').1 /\ same_at x (f g).2 (f g').2) /\
  (forall g y, y <> x -> same_at y (f g).2 g).

(** Only releases and the return are left. *)
Fixpoint shrinking (H : gset Z) (p : prog) : Prop :=
  match p with
  | Ret _ => True
  | Rel x k => x ∈ H /\ shrinking (H ∖ {[x]}) k
  | _ => False
  end.

(** Two phases: every action happens under its lock, and no lock is taken and no
    action done after the first release. (A thread that asks for a lock it holds
    never gets it.) *)
Fixpoint two_phase (H : gset Z) (p : prog) : Prop :=
  match p with
  | Ret _ => True
  | Acq x k => x ∉ H -> two_phase ({[x]} ∪ H) k
  | Rel x k => x ∈ H /\ shrinking (H ∖ {[x]}) k
  | Act x f k => x ∈ H /\ local x f /\ forall a, two_phase H (k a)
  end.

(** ** Replaying a thread *)

(** [p], started on [g] and alone, comes to [q] with locks [H] and state [g']. *)
Inductive replay : prog -> G -> prog -> gset Z -> G -> Prop :=
  | rp_start p g : replay p g p ∅ g
  | rp_acq p g x k H g' :
      replay p g (Acq x k) H g' -> replay p g k ({[x]} ∪ H) g'
  | rp_act p g A x (f : G -> A * G) k H g' :
      replay p g (Act x f k) H g' -> x ∈ H -> local x f -> replay p g (k (f g').1) H (f g').2.

Definition agree (X : gset Z) (g g' : G) : Prop := forall x, x ∈ X -> same_at x g g'.
Definition agree_off (X : gset Z) (g g' : G) : Prop := forall x, x ∉ X -> same_at x g g'.

Lemma agree_off_refl X g : agree_off X g g.
Proof. by intros x _. Qed.

Lemma replay_off p g q H g' : replay p g q H g' -> agree_off H g' g.
Proof.
  induction 1 as [p g|p g x k H g' Hr IH|p g A x f k H g' Hr IH Hx [Hf Ho]]; intros y Hy.
  - done.
  - apply IH. set_solver.
  - rewrite (Ho g' y) by set_solver. by apply IH.
Qed.

(** A replay can be moved to any state that agrees on the locks it took: it
    comes to the same point, with the same locations. *)
Lemma replay_frame p g q H g' g2 :
  replay p g q H g' -> agree H g g2 -> exists g2', replay p g2 q H g2' /\ agree H g' g2'.
Proof.
  intros Hr. revert g2. induction Hr as [p g|p g x k H g' Hr IH|p g A x f k H g' Hr IH Hx Hl];
    intros g2 Hag.
  - exists g2. split; [constructor|done].
  - destruct (IH g2) as (g2' & Hr2 & Ha). { intros y Hy. apply Hag. set_solver. }
    exists g2'. split; [by constructor|]. intros y Hy.
    destruct (decide (y ∈ H)) as [Hin|Hin]; [by apply Ha|].
    rewrite (replay_off _ _ _ _ _ Hr y Hin), (Hag y Hy). symmetry. by apply (replay_off _ _ _ _ _ Hr2).
  - destruct (IH g2 Hag) as (g2' & Hr2 & Ha). destruct (Hl) as [Hf Ho].
    destruct (Hf g' g2' (Ha x Hx)) as [E Hs]. exists (f g2').2. split.
    + rewrite E. by apply (rp_act p g2 A x f k).
    + intros y Hy. destruct (decide (y = x)) as [->|Hne]; [done|].
      rewrite (Ho g' y Hne), (Ho g2' y Hne). by apply Ha.
Qed.

Lemma shrinking_srun H p g g' : shrinking H p -> (srun p g).1 = (srun p g').1 /\ (srun p g).2 = g.
Proof. revert H. induction p as [r|x k IH|x k IH|A x f k IH]; intros H; simpl; naive_solver. Qed.

(** The whole operation, once only releases are left. *)
Lemma replay_srun p g q H g' : replay p g q H g' -> srun p g = srun q g'.
Proof. by induction 1. Qed.

(** ** Threads *)

(** Threads belong to agents; [own a x] is what agent [a] finds at a location whose
    lock it gets. *)
Context {U : Type} (agent : T -> U) (own : U -> Z -> G -> Prop).
Context (own_same : forall a x g g', same_at x g g' -> own a x g -> own a x g').

Inductive thread :=
  | T_idle
  | T_grow (p0 p : prog) (H : gset Z)     (* started as [p0], at [p], holding [H] *)
  | T_shrink (r : R) (p : prog) (H : gset Z). (* past its commit point with result [r] *)

Definition held (t : thread) : gset Z :=
  match t with T_idle => ∅ | T_grow _ _ H | T_shrink _ _ H => H end.

(** What happened, in the order of the commit points: an operation with its
    result, or something an agent did to an unlocked location. *)
Inductive item := I_commit (t : T) (p : prog) (r : R) | I_env (a : U) (x : Z) (f : G -> G).

Record conc := Conc { c_g : G; c_thr : T -> thread; c_hist : list item }.

Definition thr_upd (f : T -> thread) (t : T) (s : thread) : T -> thread :=
  fun u => if decide (u = t) then s else f u.

Definition unlocked (thr : T -> thread) (x : Z) : Prop := forall u, x ∉ held (thr u).

Inductive conc_step : conc -> conc -> Prop :=
  | cs_start g thr h t p :
      thr t = T_idle -> two_phase ∅ p ->
      conc_step (Conc g thr h) (Conc g (thr_upd thr t (T_grow p p ∅)) h)
  | cs_acq g thr h t p x k H :
      thr t = T_grow p (Acq x k) H -> unlocked thr x -> own (agent t) x g ->
      conc_step (Conc g thr h) (Conc g (thr_upd thr t (T_grow p k ({[x]} ∪ H))) h)
  | cs_act g thr h t p A x (f : G -> A * G) k H :
      thr t = T_grow p (Act x f k) H ->
      conc_step (Conc g thr h) (Conc (f g).2 (thr_upd thr t (T_grow p (k (f g).1) H)) h)
  | cs_commit g thr h t p q H :
      thr t = T_grow p q H -> shrinking H q ->
      conc_step (Conc g thr h)
        (Conc g (thr_upd thr t (T_shrink (srun q g).1 q H)) (h ++ [I_commit t p (srun q g).1]))
  | cs_rel g thr h t r x k H :
      thr t = T_shrink r (Rel x k) H ->
      conc_step (Conc g thr h) (Conc g (thr_upd thr t (T_shrink r k (H ∖ {[x]}))) h)
  | cs_end g thr h t r r' :
      thr t = T_shrink r (Ret r') ∅ ->
      conc_step (Conc g thr h) (Conc g (thr_upd thr t T_idle) h)
  | cs_env g thr h a x f :
      unlocked thr x -> local x (fun g => (tt, f g)) -> own a x g ->
      conc_step (Conc g thr h) (Conc (f g) thr (h ++ [I_env a x f])).

Definition conc_reachable (g0 : G) (s : conc) : Prop :=
  rtc conc_step (Conc g0 (fun _ => T_idle) []) s.

(** The items one after the other, with nothing in between. An operation finds
    its agent at every location it locks. *)
Inductive serial (g0 : G) : list item -> G -> Prop :=
  | se_nil : serial g0 [] g0
  | se_commit h g t p r q H g' :
      serial g0 h g -> replay p g q H g' -> shrinking H q ->
      (forall x, x ∈ H -> own (agent t) x g) ->
      (srun p g).1 = r -> serial g0 (h ++ [I_commit t p r]) (srun p g).2
  | se_env h g a x f :
      serial g0 h g -> own a x g -> serial g0 (h ++ [I_env a x f]) (f g).

(** ** Invariant *)

(** [gh] is the state after the serial execution of the history. A thread that
    has not committed can be replayed on it; every location it does not hold is
    as the history left it. *)
Definition thread_ok (g gh : G) (a : U) (t : thread) : Prop :=
  match t with
  | T_idle => True
  | T_grow p q H =>
      two_phase H q /\ (exists g', replay p gh q H g' /\ agree H g' g) /\ forall x, x ∈ H -> own a x gh
  | T_shrink _ q H => shrinking H q /\ agree H gh g
  end.

Definition growing (t : thread) : gset Z := match t with T_grow _ _ H => H | _ => ∅ end.

Record conc_inv (g0 : G) (s : conc) (gh : G) : Prop := {
  cv_serial : serial g0 (c_hist s) gh;
  cv_threads : forall t, thread_ok (c_g s) gh (agent t) (c_thr s t);
  cv_rest : forall x, (forall t, x ∉ growing (c_thr s t)) -> same_at x (c_g s) gh;
  cv_disjoint : forall t u, t <> u -> held (c_thr s t) ## held (c_thr s u)
}.

Lemma thr_upd_eq f t s : thr_upd f t s t = s.
Proof. unfold thr_upd. by rewrite decide_True. Qed.
Lemma thr_upd_ne f t s u : u <> t -> thr_upd f t s u = f u.
Proof. intros. unfold thr_upd. by rewrite decide_False. Qed.

(** Threads do not notice a change of the current state or of the history away
    from their locks. *)
Lemma thread_ok_frame g gh g2 gh2 a t :
  thread_ok g gh a t -> agree (held t) g g2 -> agree (held t) gh gh2 -> thread_ok g2 gh2 a t.
Proof.
  destruct t as [|p q H|r q H]; simpl; [done|..].
  - intros (Htp & (g' & Hr & Ha) & Hown) Hg Hgh. split_and!; [done| |eauto].
    destruct (replay_frame _ _ _ _ _ _ Hr Hgh) as (g2' & Hr2 & Ha2). exists g2'. split; [done|].
    intros x Hx. rewrite <- (Hg x Hx), <- (Ha x Hx). symmetry. by apply Ha2.
  - intros [Hsh Ha] Hg Hgh. split; [done|]. intros x Hx. by rewrite <- (Hgh x Hx), <- (Hg x Hx), (Ha x Hx).
Qed.

Lemma disjoint_upd thr t s :
  (forall t u, t <> u -> held (thr t) ## held (thr u)) ->
  (forall u, u <> t -> held s ## held (thr u)) ->
  forall v u, v <> u -> held (thr_upd thr t s v) ## held (thr_upd thr t s u).
Proof.
  intros Hd Hs v u Hne. unfold thr_upd. repeat case_decide; subst; auto; [done|]. symmetry. auto.
Qed.

Lemma growing_held t : growing t ⊆ held t.
Proof. by destruct t; simpl; set_solver. Qed.

(** A step of thread [t] that changes at most the locations it holds; the
    history is extended by what [gh'] stands for. *)
Lemma thread_step_inv g0 g thr h gh t s' g' h' gh' :
  conc_inv g0 (Conc g thr h) gh -> serial g0 h' gh' ->
  agree_off (held (thr t)) g g' -> agree_off (held (thr t)) gh gh' ->
  (forall u, u <> t -> held s' ## held (thr u)) -> thread_ok g' gh' (agent t) s' ->
  (forall x, x ∉ growing s' -> (forall u, u <> t -> x ∉ growing (thr u)) -> same_at x g' gh') ->
  conc_inv g0 (Conc g' (thr_upd thr t s') h') gh'.
Proof.
  intros [Hse Hth Hre Hdi] Hse' Hg Hgh Hds Hok Hrest. simpl in *. split; simpl.
  - done.
  - intros u. destruct (decide (u = t)) as [->|Hne]; [by rewrite thr_upd_eq|].
    rewrite thr_upd_ne by done.
    apply (thread_ok_frame g gh); [apply Hth|..]; intros x Hx; [apply Hg|apply Hgh];
      pose proof (Hdi t u) as Hd; set_solver.
  - intros x Hx. apply Hrest.
    + specialize (Hx t). by rewrite thr_upd_eq in Hx.
    + intros u Hu. specialize (Hx u). by rewrite thr_upd_ne in Hx.
  - by apply disjoint_upd.
Qed.

(** What each kind of step does to the thread that takes it. *)
Lemma thread_ok_acq g gh a p x k H :
  thread_ok g gh a (T_grow p (Acq x k) H) -> x ∉ H -> same_at x g gh -> own a x g ->
  thread_ok g gh a (T_grow p k ({[x]} ∪ H)).
Proof.
  intros (Htp & (g' & Hr & Ha) & Hown) Hx Hs Ho. split_and!; [by apply Htp|..].
  - exists g'. split; [by constructor|]. intros y Hy.
    destruct (decide (y ∈ H)) as [Hin|Hin]; [by apply Ha|]. assert (y = x) as -> by set_solver.
    rewrite (replay_off _ _ _ _ _ Hr x Hx). by symmetry.
  - intros y [->%elem_of_singleton|Hy]%elem_of_union; eauto.
Qed.

Lemma thread_ok_act g gh a p A x (f : G -> A * G) k H :
  thread_ok g gh a (T_grow p (Act x f k) H) ->
  thread_ok (f g).2 gh a (T_grow p (k (f g).1) H) /\ agree_off H g (f g).2.
Proof.
  intros ((Hx & Hl & Htp) & (g' & Hr & Ha) & Hown). destruct (Hl) as [Hf Ho].
  destruct (Hf g' g (Ha x Hx)) as [E Hs]. split.
  - split_and!; [apply Htp| |done]. exists (f g').2. split; [rewrite <- E; by apply (rp_act _ _ A x f k)|].
    intros y Hy. destruct (decide (y = x)) as [->|Hne]; [done|].
    rewrite (Ho g' y Hne), (Ho g y Hne). by apply Ha.
  - intros y Hy. symmetry. apply Ho. set_solver.
Qed.

Lemma thread_ok_commit g gh a p q H :
  thread_ok g gh a (T_grow p q H) -> shrinking H q ->
  exists g', replay p gh q H g' /\ (srun p gh).1 = (srun q g).1 /\
    agree H (srun p gh).2 g /\ agree_off H (srun p gh).2 gh /\ forall x, x ∈ H -> own a x gh.
Proof.
  intros (Htp & (g' & Hr & Ha) & Hown) Hsh. destruct (shrinking_srun H q g' g Hsh) as [E1 E2].
  exists g'. rewrite (replay_srun _ _ _ _ _ Hr), E2. split_and!; [done..| |done]. by eapply replay_off.
Qed.

(** The environment acts at an unlocked location. *)
Lemma env_step_inv g0 g thr h gh a x f :
  conc_inv g0 (Conc g thr h) gh -> unlocked thr x -> local x (fun g => (tt, f g)) -> own a x g ->
  conc_inv g0 (Conc (f g) thr (h ++ [I_env a x f])) (f gh).
Proof.
  intros [Hse Hth Hre Hdi] Hun [Hf Ho] Hown. simpl in *. split; simpl.
  - constructor; [done|]. apply (own_same a x g); [|done]. apply Hre. intros u.
    pose proof (growing_held (thr u)). specialize (Hun u). set_solver.
  - intros u. apply (thread_ok_frame g gh); [apply Hth|..]; intros y Hy; symmetry; apply Ho;
      specialize (Hun u); set_solver.
  - intros y Hy. destruct (decide (y = x)) as [->|Hne].
    + apply Hf. by apply Hre.
    + rewrite (Ho g y Hne), (Ho gh y Hne). by apply Hre.
  - done.
Qed.

Lemma cv_others g0 g thr h gh t x :
  conc_inv g0 (Conc g thr h) gh -> x ∉ growing (thr t) ->
  (forall u, u <> t -> x ∉ growing (thr u)) -> same_at x g gh.
Proof.
  intros [_ _ Hre _] Hx Hu. apply Hre. intros u. simpl in *. destruct (decide (u = t)) as [->|]; auto.
Qed.

Lemma conc_step_inv g0 s s' gh :
  conc_step s s' -> conc_inv g0 s gh -> exists gh', conc_inv g0 s' gh'.
Proof.
  intros Hs Hi. pose proof Hi as [Hse Hth Hre Hdi].
  destruct Hs as [g thr h t p Ht Htp|g thr h t p x k H Ht Hun Hown|g thr h t p A x f k H Ht
    |g thr h t p q H Ht Hsh|g thr h t r x k H Ht|g thr h t r r' Ht|g thr h a x f Hun Hl Hown]; simpl in *.
  7: { exists (f gh). by eapply env_step_inv. }
  all: specialize (Hth t) as Hok; rewrite Ht in Hok.
  all: pose proof (cv_others g0 g thr h gh t) as Hrest; rewrite Ht in Hrest; simpl in Hrest.
  all: assert (Hdt : forall u, u <> t -> held (thr t) ## held (thr u)) by (intros; by apply Hdi).
  all: rewrite Ht in Hdt; simpl in Hdt.
  - exists gh. apply (thread_step_inv g0 g thr h gh t); simpl; auto using agree_off_refl.
    split_and!; [done| |by intros y Hy%elem_of_empty]. exists gh. split; [constructor|].
    by intros y Hy%elem_of_empty.
  - exists gh. assert (Hx : x ∉ H) by (specialize (Hun t); by rewrite Ht in Hun).
    apply (thread_step_inv g0 g thr h gh t); auto using agree_off_refl; simpl.
    + intros u Hu. specialize (Hun u). specialize (Hdt u Hu). set_solver.
    + apply thread_ok_acq; [done..| |done]. apply Hre. intros u. pose proof (growing_held (thr u)).
      specialize (Hun u). set_solver.
    + intros y Hy. apply Hrest; [done|]. set_solver.
  - exists gh. destruct (thread_ok_act _ _ _ _ _ _ _ _ _ Hok) as [Hok' Ho].
    apply (thread_step_inv g0 g thr h gh t); auto using agree_off_refl; simpl.
    + by rewrite Ht.
    + intros y Hy Hu. rewrite <- (Ho y Hy). by apply Hrest.
  - destruct (thread_ok_commit _ _ _ _ _ _ Hok Hsh) as (g' & Hr & E & Ha & Ho & Hown). exists (srun p gh).2.
    apply (thread_step_inv g0 g thr h gh t); auto using agree_off_refl; simpl.
    + by eapply se_commit.
    + rewrite Ht. intros y Hy. symmetry. by apply Ho.
    + done.
    + intros y _ Hu. destruct (decide (y ∈ H)) as [Hin|Hin]; [symmetry; by apply Ha|].
      rewrite (Ho y Hin). by apply Hrest.
  - exists gh. destruct Hok as [[Hx Hsh] Ha]. apply (thread_step_inv g0 g thr h gh t); simpl; auto using agree_off_refl.
    + intros u Hu. specialize (Hdt u Hu). set_solver.
    + split; [done|]. intros y Hy. apply Ha. set_solver.
  - exists gh. apply (thread_step_inv g0 g thr h gh t); simpl; auto using agree_off_refl.
Qed.

Lemma conc_reachable_inv g0 s : conc_reachable g0 s -> exists gh, conc_inv g0 s gh.
Proof.
  unfold conc_reachable. intros Hr.
  assert (H0 : exists gh, conc_inv g0 (Conc g0 (fun _ => T_idle) []) gh).
  { exists g0. split; simpl; [constructor|done..]. }
  induction Hr as [|s1 s2 s3 Hs _ IH]; [done|]. apply IH. destruct H0 as [gh H0].
  by eapply conc_step_inv.
Qed.

(** The history, replayed serially, gives every committed operation its result,
    and ends with the current state wherever no uncommitted operation is at
    work. *)
Lemma conc_serializable g0 s :
  conc_reachable g0 s ->
  exists gh, serial g0 (c_hist s) gh /\
    forall x, (forall t, x ∉ growing (c_thr s t)) -> same_at x (c_g s) gh.
Proof. intros [gh [H1 _ H3 _]]%conc_reachable_inv. eauto. Qed.
End txn.
Arguments prog : clear implicits.
Arguments thread : clear implicits.
Arguments item : clear implicits.
Arguments conc : clear implicits.
