(* ===== verification/YfsTxn.v ===== *)
(** * File system operations of many clients

    The operations of YfsClient as programs of Txn, over the server and the
    caches of all clients, and the threads of all clients on top of System: locks
    are taken and given back by the cached lock protocol, and revoked extents are
    flushed between operations. The programs are shown to be the definitions of
    YfsClient, and every interleaving to be equivalent to running those one after
    the other. *)
From S2P Require Import Prelude LockServer LockServerCache LockClientCache LockProtocol.
From S2P Require Import ExtentServer ExtentClient CxxString YfsClient System Txn.

(** ** Locality of the extent client *)

Abbreviation yfsx := (yfs extent_server).

Definition ysame (x : Z) (y y' : yfsx) : Prop :=
  y_cache y !! x = y_cache y' !! x /\ y_store y !! x = y_store y' !! x.

#[export] Instance ysame_equivalence x : Equivalence (ysame x).
Proof.
  split; unfold ysame; [done|by intros a b []|]. intros a b c [] []. split; congruence.
Qed.

(** Case analysis on what the two states have at the location. *)
Ltac solve_local :=
  unfold local, ysame, y_get, y_getattr, y_put, y_remove, ec_get, ec_getattr, ec_put, ec_remove;
  cbn [rpc_get rpc_getattr rpc_put rpc_remove extent_server_rpc];
  unfold extent_get, extent_getattr; split;
  [ intros [c st tr] [c' st' tr'] [Hc Hs]; simpl in *; rewrite ?Hc, ?Hs
  | intros [c st tr] y Hy; simpl ];
  repeat (case_match; simplify_eq/=); rewrite ?lookup_insert_eq, ?lookup_insert_ne by done; auto;
  try (split_and!; congruence).

Lemma y_get_local now x buf : local ysame x (y_get now x buf).
Proof. solve_local. Qed.
Lemma y_put_local now x d : local ysame x (y_put now x d).
Proof. solve_local. Qed.
Lemma y_remove_local x : local ysame x (y_remove x).
Proof. solve_local. Qed.
Lemma y_getattr_local x : local ysame x (y_getattr x).
Proof. solve_local. Qed.

(** ** Operations as programs *)

Inductive call :=
  | Y_getfile (inum : Z) (fin : fileinfo)
  | Y_getdir (inum : Z) (din : dirinfo)
  | Y_create (now : nat -> Z) (rnd parent : Z) (name : list byte) (isfile : bool)
  | Y_lookup (now parent : Z) (name : option (list byte))
  | Y_unlink (now : nat -> Z) (parent : Z) (name : option (list byte))
  | Y_read (now ino size off : Z)
  | Y_write (now : nat -> Z) (ino : Z) (data : list byte) (off : Z)
  | Y_setattr (now : nat -> Z) (fileno st_size : Z)
  | Y_getdata (now ino : Z).

Inductive outcome :=
  | O_file (rs : Z) (fin : fileinfo)
  | O_dir (rs : Z) (din : dirinfo)
  | O_inum (rs : Z) (ino : option Z)
  | O_found (found : bool) (ino : option Z)
  | O_status (rs : Z)
  | O_data (rs : Z) (d : list byte).

(** The definitions of YfsClient. *)
Definition call_exec (c : call) (y : yfsx) : res (outcome * yfsx) :=
  match c with
  | Y_getfile inum fin => let '(rs, fin, y) := getfile inum fin y in Ok (O_file rs fin, y)
  | Y_getdir inum din => let '(rs, din, y) := getdir inum din y in Ok (O_dir rs din, y)
  | Y_create now rnd parent name isf =>
      let '(rs, ino, y) := create now rnd parent name isf y in Ok (O_inum rs ino, y)
  | Y_lookup now parent name =>
      '(found, ino, y) ← lookup now parent name y; Ok (O_found found ino, y)
  | Y_unlink now parent name => '(rs, y) ← unlink now parent name y; Ok (O_status rs, y)
  | Y_read now ino size off => '(rs, d, y) ← read now ino size off y; Ok (O_data rs d, y)
  | Y_write now ino data off => '(rs, y) ← write now ino data off y; Ok (O_status rs, y)
  | Y_setattr now fileno size => '(rs, y) ← setattr now fileno size y; Ok (O_status rs, y)
  | Y_getdata now ino => let '(rs, d, y) := getdata now ino y in Ok (O_data rs d, y)
  end.

Abbreviation yprog := (prog yfsx (res outcome)).

(** A fault ends the process where it stands. *)
Definition or_fault {A} (r : res A) (k : A -> yprog) : yprog :=
  match r with Ok a => k a | Err e => Ret (Err e) end.

Definition getattr_prog (inum : Z) (bad : outcome) (good : attr -> outcome) : yprog :=
  Acq inum (Act inum (y_getattr inum) (fun '(rs, a) =>
    if negb (rs =? EXT_OK) then Rel inum (Ret (Ok bad)) else Rel inum (Ret (Ok (good a))))).

Definition create_prog (now : nat -> Z) (rnd parent : Z) (name : list byte) (isf : bool) : yprog :=
  if isdir parent then
    Acq parent (Act parent (y_get (now 0%nat) parent []) (fun '(rs, b) =>
      if negb (rs =? YFS_OK) then Rel parent (Ret (Ok (O_inum rs None)))
      else
        let t := pattern name in
        match str_find b t with
        | Some _ => Rel parent (Ret (Ok (O_inum YFS_EXIST None)))
        | None =>
            let num := rand_inum rnd isf in
            let ino := Z.land num 0xffffffff in
            let b := b ++ filename num ++ t in
            Acq num (Act num (y_put (now 1%nat) num []) (fun rs =>
              if negb (rs =? YFS_OK) then Rel num (Rel parent (Ret (Ok (O_inum rs (Some ino)))))
              else Act parent (y_put (now 2%nat) parent b) (fun rs =>
                if negb (rs =? YFS_OK) then Rel num (Rel parent (Ret (Ok (O_inum rs (Some ino)))))
                else Rel num (Rel parent (Ret (Ok (O_inum YFS_OK (Some ino))))))))
        end))
  else Ret (Ok (O_inum YFS_NOENT None)).

Definition lookup_prog (now parent : Z) (name : option (list byte)) : yprog :=
  if isdir parent then
    match name with
    | None | Some [] => Ret (Ok (O_found true None))
    | Some name =>
        Acq parent (Act parent (y_get now parent []) (fun '(rs, b) =>
          if negb (rs =? YFS_OK) then Rel parent (Ret (Ok (O_found false None)))
          else match str_find b (pattern name) with
          | Some found =>
              or_fault (VERIFY (found >? 0)) (fun _ =>
              let left := entry_left b found in
              or_fault (VERIFY (found >? left)) (fun _ =>
              or_fault (substr b left (found - left)) (fun s =>
              Rel parent (Ret (Ok (O_found true (Some (n2i s))))))))
          | None => Rel parent (Ret (Ok (O_found false None)))
          end))
    end
  else Ret (Ok (O_found false None)).

Definition unlink_prog (now : nat -> Z) (parent : Z) (name : option (list byte)) : yprog :=
  if isdir parent then
    Acq parent (Act parent (y_get (now 0%nat) parent []) (fun '(rs, b) =>
      if negb (rs =? YFS_OK) then Rel parent (Ret (Ok (O_status YFS_NOENT)))
      else match name with
      | None => Ret (Err Undefined)
      | Some name =>
          let t := pattern name in
          match str_find b t with
          | Some found =>
              let left := entry_left b found in
              or_fault (VERIFY (found >? left)) (fun _ =>
              or_fault (substr b left (found - left)) (fun s =>
              let ino := n2i s in
              Acq ino (Act ino (y_remove ino) (fun rs =>
                if negb (rs =? EXT_OK) then Rel ino (Rel parent (Ret (Ok (O_status YFS_NOENT))))
                else
                  or_fault (if negb (left =? 0) then substr b 0 left else Ok []) (fun head =>
                  or_fault (if found + zlen t <? zlen b
                            then substr b (found + zlen t) (zlen b - found - zlen t)
                            else Ok []) (fun tail =>
                  Act parent (y_put (now 1%nat) parent (head ++ tail)) (fun rs =>
                    if negb (rs =? YFS_OK) then Rel ino (Rel parent (Ret (Ok (O_status YFS_NOENT))))
                    else Rel ino (Rel parent (Ret (Ok (O_status YFS_OK)))))))))))
          | None => Rel parent (Ret (Ok (O_status YFS_NOENT)))
          end
      end))
  else Ret (Ok (O_status YFS_NOENT)).

(** What [read] cuts out of the contents. *)
Definition read_cut (buf : list byte) (size off : Z) : res (list byte) :=
  if u64 (off + size) >? zlen buf then
    let n := u64 (u64 (off + size) - zlen buf) in
    let reside := s32 n in
    if reside <? 0 then Err Bad_alloc
    else
      _ ← defined_if (n <=? reside);
      s ← substr buf (u64 off) (u64 (zlen buf - u64 off));
      Ok (s ++ replicate (Z.to_nat reside) Byte.x00)
  else substr buf (u64 off) size.

Definition read_prog (now ino size off : Z) : yprog :=
  Acq ino (Act ino (y_get now ino []) (fun '(rs, buf) =>
    if negb (rs =? YFS_OK) then Rel ino (Ret (Ok (O_data rs [])))
    else or_fault (read_cut buf size off) (fun d => Rel ino (Ret (Ok (O_data YFS_OK d)))))).

(** [write] and [setattr]: read, compute, write back. *)
Definition update_prog (now : nat -> Z) (ino : Z) (upd : list byte -> res (list byte)) : yprog :=
  Acq ino (Act ino (y_get (now 0%nat) ino []) (fun '(rs, buf) =>
    if negb (rs =? YFS_OK) then Rel ino (Ret (Ok (O_status rs)))
    else or_fault (upd buf) (fun after =>
      Act ino (y_put (now 1%nat) ino after) (fun rs => Rel ino (Ret (Ok (O_status rs))))))).

Definition call_prog (c : call) : yprog :=
  match c with
  | Y_getfile inum fin => getattr_prog inum (O_file YFS_IOERR fin)
      (fun a => O_file YFS_OK (Fileinfo (a_size a) (a_atime a) (a_mtime a) (a_ctime a)))
  | Y_getdir inum din => getattr_prog inum (O_dir YFS_IOERR din)
      (fun a => O_dir YFS_OK (Dirinfo (a_atime a) (a_mtime a) (a_ctime a)))
  | Y_create now rnd parent name isf => create_prog now rnd parent name isf
  | Y_lookup now parent name => lookup_prog now parent name
  | Y_unlink now parent name => unlink_prog now parent name
  | Y_read now ino size off => read_prog now ino size off
  | Y_write now ino data off =>
      if off <? 0 then Ret (Ok (O_status YFS_NOENT))
      else update_prog now ino (fun ori => write_after ori data (u32 off))
  | Y_setattr now fileno size => update_prog now fileno (fun buf => resize buf size)
  | Y_getdata now ino =>
      Acq ino (Act ino (y_get now ino []) (fun '(rs, d) => Rel ino (Ret (Ok (O_data rs d)))))
  end.

(** Running a program with the lock calls it makes. *)
Fixpoint yrun (p : yprog) (y : yfsx) : res outcome * yfsx :=
  match p with
  | Ret r => (r, y)
  | Acq x k => yrun k (acquire x y)
  | Rel x k => yrun k (release x y)
  | Act _ f k => yrun (k (f y).1) (f y).2
  end.

Definition runs_as (p : yprog) (y : yfsx) (r : res (outcome * yfsx)) : Prop :=
  match r with
  | Ok (o, y') => yrun p y = (Ok o, y')
  | Err e => (yrun p y).1 = Err e
  end.

(** Follows the code and its program through the same calls and branches. *)
Ltac follow :=
  repeat (cbn [yrun fst snd mbind res_bind or_fault runs_as];
    match goal with
    | |- context [if ?b then _ else _] =>
        lazymatch b with
        | context [y_get] => fail | context [y_getattr] => fail
        | context [y_put] => fail | context [y_remove] => fail
        | _ => destruct b
        end
    | |- context [str_find ?b ?t] => destruct (str_find b t)
    | |- context [VERIFY ?b] => destruct (VERIFY b)
    | |- context [defined_if ?b] => destruct (defined_if b)
    | |- context [substr ?b ?p ?n] => destruct (substr b p n)
    | |- context [write_after ?o ?d ?u] => destruct (write_after o d u)
    | |- context [resize ?o ?d] => destruct (resize o d)
    | |- context [y_get ?a ?b ?c ?y] => destruct (y_get a b c y) as [[? ?] ?]
    | |- context [y_getattr ?x ?y] => destruct (y_getattr x y) as [[? ?] ?]
    | |- context [y_put ?a ?x ?d ?y] => destruct (y_put a x d y) as [? ?]
    | |- context [y_remove ?x ?y] => destruct (y_remove x y) as [? ?]
    end); try reflexivity.

Lemma yrun_call c y : runs_as (call_prog c) y (call_exec c y).
Proof.
  destruct c as [inum fin|inum din|now rnd parent name isf|now parent name|now parent name
    |now ino size off|now ino data off|now fileno size|now ino];
    unfold call_prog, call_exec, getattr_prog, create_prog, lookup_prog, unlink_prog, read_prog,
      read_cut, update_prog, runs_as, getfile, getdir, create, lookup, unlink, read, write, setattr, getdata.
  4-5: destruct name as [[|b name]|].
  all: follow.
Qed.

(** Every operation takes its locks first and gives them back last. *)
Lemma or_fault_two_phase {A} H (r : res A) k :
  (forall a, two_phase ysame H (k a)) -> two_phase ysame H (or_fault r k).
Proof. by destruct r; simpl; auto. Qed.

Create HintDb txn.
#[export] Hint Resolve y_get_local y_put_local y_remove_local y_getattr_local or_fault_two_phase : txn.

Ltac two_phase_step :=
  match goal with
  | |- two_phase _ _ (or_fault _ _) => apply or_fault_two_phase; intros ?
  | |- two_phase _ _ (if ?b then _ else _) => destruct b
  | |- two_phase _ _ (match ?o with Some _ => _ | None => _ end) => destruct o
  | |- two_phase _ _ (let '(_, _) := ?p in _) => destruct p
  | |- two_phase _ _ (Acq _ _) => intros ?
  | |- two_phase _ _ (Act _ _ _) => split; [set_solver|split; [auto with txn|intros ?]]
  | |- two_phase _ _ (Rel _ _) => split; [set_solver|]
  | |- two_phase _ _ (Ret _) => exact I
  | |- shrinking _ (Rel _ _) => split; [set_solver|]
  | |- shrinking _ (Ret _) => exact I
  end.

Lemma call_two_phase c : two_phase ysame ∅ (call_prog c).
Proof.
  destruct c as [inum fin|inum din|now rnd parent name isf|now parent name|now parent name
    |now ino size off|now ino data off|now fileno size|now ino];
    unfold call_prog, getattr_prog, create_prog, lookup_prog, unlink_prog, read_prog, update_prog;
    cbv zeta; try (destruct name as [[|b name]|]); repeat two_phase_step.
Qed.

(** ** All clients *)

Record gstate := Gstate { g_store : extent_server; g_caches : string -> extent_cache }.

Definition gsame (x : Z) (g g' : gstate) : Prop :=
  g_store g !! x = g_store g' !! x /\ forall i, g_caches g i !! x = g_caches g' i !! x.

#[export] Instance gsame_equivalence x : Equivalence (gsame x).
Proof.
  split; unfold gsame; [done|by intros a b []|]. intros a b c [] []. split; [congruence|].
  intros i. congruence.
Qed.

Definition client_view (i : string) (g : gstate) : yfsx := Yfs (g_caches g i) (g_store g) [].
Definition client_put (i : string) (g : gstate) (y : yfsx) : gstate :=
  Gstate (y_store y) (cache_upd (g_caches g) i (y_cache y)).

(** Client [i] acts on its cache and the server. *)
Definition as_client {A} (i : string) (f : yfsx -> A * yfsx) (g : gstate) : A * gstate :=
  let '(a, y) := f (client_view i g) in (a, client_put i g y).

Fixpoint lift (i : string) (p : yprog) : prog gstate (res outcome) :=
  match p with
  | Ret r => Ret r
  | Acq x k => Acq x (lift i k)
  | Rel x k => Rel x (lift i k)
  | Act x f k => Act x (as_client i f) (fun a => lift i (k a))
  end.

Lemma cache_upd_lookup f i c j (x : Z) :
  cache_upd f i c j !! x = if decide (j = i) then c !! x else f j !! x.
Proof. unfold cache_upd. by case_decide. Qed.

Lemma as_client_local {A} i x (f : yfsx -> A * yfsx) :
  local ysame x f -> local gsame x (as_client i f).
Proof.
  intros [Hf Ho]. unfold as_client. split.
  - intros g g' [Hs Hc].
    destruct (Hf (client_view i g) (client_view i g')) as [Ea [Hc' Hs']]; [by split; simpl|].
    destruct (f (client_view i g)) as [a y], (f (client_view i g')) as [a' y']. simpl in *.
    split; [done|]. split; [done|]. intros j. simpl. rewrite !cache_upd_lookup. by case_decide.
  - intros g y Hy. destruct (Ho (client_view i g) y Hy) as [Hc Hs].
    destruct (f (client_view i g)) as [a y']. simpl in *.
    split; [done|]. intros j. simpl. rewrite cache_upd_lookup. by case_decide; subst.
Qed.

Lemma lift_shrinking i p : forall H, shrinking H p -> shrinking H (lift i p).
Proof. induction p; simpl; intros; naive_solver. Qed.

Lemma lift_two_phase i p : forall H, two_phase ysame H p -> two_phase gsame H (lift i p).
Proof.
  induction p as [r|x k IH|x k IH|A x f k IH]; intros H; simpl; auto.
  - intros [? ?]. split; [done|]. by apply lift_shrinking.
  - intros (? & ? & ?). split_and!; [done|by apply as_client_local|auto].
Qed.

(** ** A call alone *)

Definition gexec (i : string) (c : call) (g : gstate) : res (outcome * gstate) :=
  '(o, y) ← call_exec c (client_view i g); Ok (o, client_put i g y).

Definition same_view (i : string) (y : yfsx) (g : gstate) : Prop :=
  forall x, ysame x y (client_view i g).

(** An action of a client in a state it sees as [y]. *)
Lemma as_client_view {A} i x (f : yfsx -> A * yfsx) y g :
  local ysame x f -> same_view i y g ->
  (as_client i f g).1 = (f y).1 /\ same_view i (f y).2 (as_client i f g).2 /\
  forall j z, j <> i -> g_caches (as_client i f g).2 j !! z = g_caches g j !! z.
Proof.
  intros [Hf Ho] Hv. destruct (Hf _ _ (Hv x)) as [Ea Hx]. unfold as_client.
  assert (Hall : forall z, ysame z (f y).2 (f (client_view i g)).2).
  { intros z. destruct (decide (z = x)) as [->|Hz]; [done|].
    rewrite (Ho y z Hz), (Ho (client_view i g) z Hz). apply Hv. }
  destruct (f (client_view i g)) as [a y']. simpl in *. split_and!; [done| |].
  - intros z. destruct (Hall z) as [Hc Hs]. split; simpl; [|done]. by rewrite cache_upd_eq.
  - intros j z Hj. rewrite cache_upd_lookup. by rewrite decide_False.
Qed.

Lemma same_view_log i e y g : same_view i (log e y) g <-> same_view i y g.
Proof. done. Qed.

(** Every action works on one location. *)
Fixpoint locals (p : yprog) : Prop :=
  match p with
  | Ret _ => True
  | Acq _ k | Rel _ k => locals k
  | Act x f k => local ysame x f /\ forall a, locals (k a)
  end.

Lemma or_fault_locals {A} (r : res A) k : (forall a, locals (k a)) -> locals (or_fault r k).
Proof. by destruct r; simpl; auto. Qed.

Lemma call_locals c : locals (call_prog c).
Proof.
  destruct c as [inum fin|inum din|now rnd parent name isf|now parent name|now parent name
    |now ino size off|now ino data off|now fileno size|now ino];
    unfold call_prog, getattr_prog, create_prog, lookup_prog, unlink_prog, read_prog, update_prog;
    cbv zeta; try (destruct name as [[|b name]|]);
    repeat match goal with
    | |- locals (or_fault _ _) => apply or_fault_locals; intros ?
    | |- locals (if ?b then _ else _) => destruct b
    | |- locals (match ?o with Some _ => _ | None => _ end) => destruct o
    | |- locals (let '(_, _) := ?p in _) => destruct p
    | |- local _ _ _ /\ _ => split; [auto with txn|intros ?]
    | |- _ => progress cbn [locals]
    | |- True => exact I
    end.
Qed.

Lemma lift_run i p : forall y g, locals p -> same_view i y g ->
  (srun (lift i p) g).1 = (yrun p y).1 /\ same_view i (yrun p y).2 (srun (lift i p) g).2 /\
  forall j z, j <> i -> g_caches (srun (lift i p) g).2 j !! z = g_caches g j !! z.
Proof.
  induction p as [r|x k IH|x k IH|A x f k IH]; intros y g; simpl.
  - done.
  - intros Hl Hv. by apply (IH (acquire x y) g).
  - intros Hl Hv. by apply (IH (release x y) g).
  - intros [Hl Hk] Hv. destruct (as_client_view i x f y g Hl Hv) as (Ea & Hv' & Hj).
    destruct (IH (as_client i f g).1 (f y).2 (as_client i f g).2) as (E & Hv2 & Hj2); [auto|done|].
    rewrite E. rewrite Ea in *. split_and!; [done|done|]. intros j z Hne. by rewrite Hj2, Hj.
Qed.

(** A program run alone on the shared state is the call of YfsClient on what its
    client sees. *)
Lemma srun_call i c g :
  let '(r, g') := srun (lift i (call_prog c)) g in
  match gexec i c g with
  | Ok (o, g2) => r = Ok o /\ forall x, gsame x g' g2
  | Err e => r = Err e
  end.
Proof.
  pose proof (lift_run i (call_prog c) (client_view i g) g (call_locals c)) as Hl.
  destruct Hl as (Hr & Hv & Hj). { by intros x. }
  pose proof (yrun_call c (client_view i g)) as Hy. unfold gexec, runs_as in *.
  destruct (srun (lift i (call_prog c)) g) as [r g']. simpl in *.
  destruct (call_exec c (client_view i g)) as [[o y]|e]; cbn [mbind res_bind].
  - rewrite Hy in *. split; [done|]. intros x. destruct (Hv x) as [Hc Hs]. simpl in *.
    split; simpl; [done|]. intros j. rewrite cache_upd_lookup. case_decide as E; subst; auto.
  - by rewrite Hr.
Qed.
