(* ===== verification/YfsSystem.v ===== *)
(** * Threads of all clients over the lock protocol

    The file system as it is deployed: every client runs any number of threads,
    each in one operation of [yfs_client]; locks are taken and given back by the
    cached lock protocol of src/lock_client_cache.cc and
    src/lock_server_cache.cc, which revokes them and has the extents flushed
    between operations. Every run is equivalent to the operations, and the
    flushes, one after the other in the order of their commit points, which lie
    between the start and the end of each operation. *)
From S2P Require Import Prelude LockServer LockServerCache LockClientCache LockProtocol.
From S2P Require Import ExtentServer ExtentClient CxxString YfsClient System Txn YfsTxn.

(** ** Threads and steps *)

Inductive wthread :=
  | W_idle
  | W_grow (c : call) (p : yprog) (H : gset Z)       (* in [c], at [p], holding [H] *)
  | W_shrink (r : res outcome) (p : yprog) (H : gset Z).   (* giving its locks back *)

(** A thread of a client. *)
Abbreviation tid := (string * Z)%type.

Inductive entry := H_call (t : tid) (c : call) (r : res outcome) | H_flush (i : string) (now x : Z).

Record world := World {
  w_sys : system extent_server;
  w_thr : tid -> wthread;
  w_hist : list entry
}.

Definition w_state (s : system extent_server) : gstate := Gstate (sy_store s) (sy_caches s).
Definition w_set (s : system extent_server) (g : gstate) : system extent_server :=
  System (sy_locks s) (g_store g) (g_caches g).
Definition w_lock (s : system extent_server) (x : Z) (p : proto) : system extent_server :=
  System (lock_upd (sy_locks s) x p) (sy_store s) (sy_caches s).
Definition wthr_upd (f : tid -> wthread) (t : tid) (s : wthread) : tid -> wthread :=
  fun u => if decide (u = t) then s else f u.

Definition g_flush (i : string) (now x : Z) (g : gstate) : gstate :=
  (as_client i (fun y => (tt, dorelease now x y)) g).2.

Inductive world_step : world -> world -> Prop :=
  | ws_start s thr h t c :
      thr t = W_idle ->
      world_step (World s thr h) (World s (wthr_upd thr t (W_grow c (call_prog c) ∅)) h)
  | ws_acquire s thr h t c x k H p :
      thr t = W_grow c (Acq x k) H ->
      proto_step (sy_locks s x) p -> keeps_flushing (sy_locks s x) p -> enters (sy_locks s x) t.1 p ->
      world_step (World s thr h) (World (w_lock s x p) (wthr_upd thr t (W_grow c k ({[x]} ∪ H))) h)
  | ws_act s thr h t c A x (f : yfsx -> A * yfsx) k H :
      thr t = W_grow c (Act x f k) H ->
      world_step (World s thr h)
        (World (w_set s (as_client t.1 f (w_state s)).2)
          (wthr_upd thr t (W_grow c (k (as_client t.1 f (w_state s)).1) H)) h)
  | ws_commit s thr h t c p H :
      thr t = W_grow c p H -> shrinking H p ->
      let r := (srun (lift t.1 p) (w_state s)).1 in
      world_step (World s thr h) (World s (wthr_upd thr t (W_shrink r p H)) (h ++ [H_call t c r]))
  | ws_release s thr h t r x k H p :
      thr t = W_shrink r (Rel x k) H ->
      proto_step (sy_locks s x) p -> keeps_flushing (sy_locks s x) p -> leaves (sy_locks s x) t.1 p ->
      world_step (World s thr h) (World (w_lock s x p) (wthr_upd thr t (W_shrink r k (H ∖ {[x]}))) h)
  | ws_return s thr h t r r' :
      thr t = W_shrink r (Ret r') ∅ ->
      world_step (World s thr h) (World s (wthr_upd thr t W_idle) h)
  | ws_protocol s thr h x p :
      proto_step (sy_locks s x) p -> keeps_flushing (sy_locks s x) p -> cs_same (sy_locks s x) p ->
      world_step (World s thr h) (World (w_lock s x p) thr h)
  | ws_flush s thr h x i now :
      k_rel (p_clients (sy_locks s x) i) = R_flush ->
      world_step (World s thr h)
        (World (w_set (w_lock s x (flushed (sy_locks s x) i)) (g_flush i now x (w_state s)))
          thr (h ++ [H_flush i now x])).

Definition world_init (st : extent_server) : world := World (sys_init st) (fun _ => W_idle) [].
Definition world_reachable (st : extent_server) (w : world) : Prop := rtc world_step (world_init st) w.

(** ** The calls one after the other *)

Inductive one_by_one (g0 : gstate) : list entry -> gstate -> Prop :=
  | ob_start g : (forall x, gsame x g g0) -> one_by_one g0 [] g
  | ob_call h g t c o g' g2 :
      one_by_one g0 h g -> gexec t.1 c g = Ok (o, g') -> (forall x, gsame x g2 g') ->
      one_by_one g0 (h ++ [H_call t c (Ok o)]) g2
  | ob_fault h g t c e :
      one_by_one g0 h g -> gexec t.1 c g = Err e ->
      one_by_one g0 (h ++ [H_call t c (Err e)]) (srun (lift t.1 (call_prog c)) g).2
  | ob_flush h g i now x :
      one_by_one g0 h g -> one_by_one g0 (h ++ [H_flush i now x]) (g_flush i now x g).

(** ** Refinement of Txn *)

(** Nothing of the extent is in the cache: no entry, or one that was flushed. *)
Definition idle_at (x : Z) (c : extent_cache) : Prop := forall e, c !! x = Some e -> entry_idle e.

(** What client [i] finds when it has the lock of [x]. *)
Definition alone (i : string) (x : Z) (g : gstate) : Prop :=
  forall j, j <> i -> idle_at x (g_caches g j).

Lemma alone_same i x g g' : gsame x g g' -> alone i x g -> alone i x g'.
Proof. intros [_ Hc] Ha j Hj e. rewrite <- Hc. by apply Ha. Qed.

Abbreviation client_of := (fst : tid -> string).

Definition as_thread (t : tid) (w : wthread) : thread gstate (res outcome) :=
  match w with
  | W_idle => T_idle
  | W_grow c p H => T_grow (lift t.1 (call_prog c)) (lift t.1 p) H
  | W_shrink r p H => T_shrink r (lift t.1 p) H
  end.

Definition as_item (e : entry) : item gstate tid (res outcome) string :=
  match e with
  | H_call t c r => I_commit t (lift t.1 (call_prog c)) r
  | H_flush i now x => I_env i x (g_flush i now x)
  end.

Lemma fmap_snoc_inv {A B} (f : A -> B) h l e :
  l ++ [e] = f <$> h -> exists h1 e1, h = h1 ++ [e1] /\ l = f <$> h1 /\ e = f e1.
Proof.
  destruct h as [|e1 h1 _] using rev_ind; [by destruct l|].
  rewrite fmap_app. intros [-> [= ->]]%app_inj_tail_iff. eauto.
Qed.

Lemma serial_one_by_one g0 h g :
  serial gsame client_of alone g0 (as_item <$> h) g -> one_by_one g0 h g.
Proof.
  remember (as_item <$> h) as l eqn:El. intros Hs. revert h El.
  induction Hs as [|l g t p r q H g' Hs IH _ _ _ Hr|l g a x f Hs IH _]; intros h El.
  - destruct h; [by apply ob_start|done].
  - apply fmap_snoc_inv in El as (h1 & [t' c r'|] & -> & -> & Ee); simplify_eq/=.
    pose proof (srun_call t'.1 c g) as Hc. specialize (IH h1 eq_refl).
    destruct (srun (lift t'.1 (call_prog c)) g) as [r g1] eqn:Er.
    destruct (gexec t'.1 c g) as [[o g2]|e] eqn:Eg.
    + destruct Hc as [-> Hsame]. by eapply ob_call.
    + subst. simpl. change g1 with (Err e : res outcome, g1).2. rewrite <- Er. by apply ob_fault.
  - apply fmap_snoc_inv in El as (h1 & [|i now y] & -> & -> & Ee); simplify_eq/=.
    apply ob_flush. by apply IH.
Qed.

Definition wheld (w : wthread) : gset Z :=
  match w with W_idle => ∅ | W_grow _ _ H | W_shrink _ _ H => H end.

Record wrel (w : world) (s : conc gstate tid (res outcome) string) : Prop := {
  wr_state : c_g s = w_state (w_sys w);
  wr_threads : forall t, c_thr s t = as_thread t (w_thr w t);
  wr_hist : c_hist s = as_item <$> w_hist w
}.

(** Only a client that has or keeps the lock of an extent has something of it in
    its cache. *)
Definition idle_inv (locks : Z -> proto) (caches : string -> extent_cache) : Prop :=
  forall x i, ~ unflushed (p_clients (locks x) i) -> idle_at x (caches i).

(** A thread holds a lock exactly while its client is inside. *)
Record winv (w : world) : Prop := {
  wi_locks : locks_inv (w_sys w);
  wi_cs : forall x i, k_cs (p_clients (sy_locks (w_sys w) x) i) = true <->
    exists t, t.1 = i /\ x ∈ wheld (w_thr w t);
  wi_idle : idle_inv (sy_locks (w_sys w)) (sy_caches (w_sys w))
}.

Lemma held_as_thread t w : held (as_thread t w) = wheld w.
Proof. by destruct w. Qed.

Lemma wthr_upd_eq f t s : wthr_upd f t s t = s.
Proof. unfold wthr_upd. by rewrite decide_True. Qed.
Lemma wthr_upd_ne f t s u : u <> t -> wthr_upd f t s u = f u.
Proof. intros. unfold wthr_upd. by rewrite decide_False. Qed.

Lemma as_thread_upd thr wthr t w :
  (forall u, thr u = as_thread u (wthr u)) ->
  forall u, thr_upd thr t (as_thread t w) u = as_thread u (wthr_upd wthr t w u).
Proof. intros Hu u. unfold thr_upd, wthr_upd. by case_decide; subst. Qed.

(** Locks that do not change hands: the threads' steps that keep their locks. *)
Lemma wi_cs_same (s : system extent_server) wthr t w :
  (forall x i, k_cs (p_clients (sy_locks s x) i) = true <-> exists u, u.1 = i /\ x ∈ wheld (wthr u)) ->
  wheld w = wheld (wthr t) ->
  forall x i, k_cs (p_clients (sy_locks s x) i) = true <->
    exists u, u.1 = i /\ x ∈ wheld (wthr_upd wthr t w u).
Proof.
  intros Hcs Hw x i. rewrite Hcs. f_equiv. intros u. unfold wthr_upd. case_decide; subst; [|done].
  by rewrite Hw.
Qed.

Lemma enters_unlocked w x i p :
  winv w -> proto_step (sy_locks (w_sys w) x) p -> enters (sy_locks (w_sys w) x) i p ->
  forall t, x ∉ wheld (w_thr w t).
Proof.
  intros [Hl Hcs _] Hs (Hf & Ht & Ho) t Hx.
  assert (Hin : k_cs (p_clients (sy_locks (w_sys w) x) t.1) = true) by (apply Hcs; eauto).
  assert (Hne : t.1 <> i) by congruence.
  apply Hne, (inside_one p); [by eapply proto_step_inv|by rewrite Ho|done].
Qed.

Lemma flush_unlocked w x i :
  winv w -> k_rel (p_clients (sy_locks (w_sys w) x) i) = R_flush ->
  forall t, x ∉ wheld (w_thr w t).
Proof.
  intros [Hl Hcs _] Hr t Hx.
  assert (Hin : k_cs (p_clients (sy_locks (w_sys w) x) t.1) = true) by (apply Hcs; eauto).
  destruct (flushed_holder _ i (Hl x) Hr) as [_ Hn].
  assert (Hp : proto_inv (flushed (sy_locks (w_sys w) x) i))
    by (eapply proto_step_inv; [by apply flushed_step|apply Hl]).
  apply (proj1 (lock_holder_None _ Hp) Hn t.1). left. left. simpl.
  destruct (decide (t.1 = i)) as [<-|]; by autorewrite with lock_upd.
Qed.

Lemma wi_cs_enter w t x p w' :
  winv w -> enters (sy_locks (w_sys w) x) t.1 p -> wheld w' = {[x]} ∪ wheld (w_thr w t) ->
  forall y i, k_cs (p_clients (lock_upd (sy_locks (w_sys w)) x p y) i) = true <->
    exists u, u.1 = i /\ y ∈ wheld (wthr_upd (w_thr w) t w' u).
Proof.
  intros [_ Hcs _] (Hf & Ht & Ho) Hw y i. unfold lock_upd. case_decide as E; [subst y|].
  - destruct (decide (i = t.1)) as [->|Hi].
    + split; [|done]. intros _. exists t. rewrite wthr_upd_eq, Hw. set_solver.
    + rewrite Ho, Hcs by done. f_equiv. intros u. unfold wthr_upd. case_decide; [|done]. subst u.
      naive_solver.
  - rewrite Hcs. f_equiv. intros u. unfold wthr_upd. case_decide; [|done]. subst u. rewrite Hw. set_solver.
Qed.

Lemma wi_cs_leave w t x p w' :
  winv w -> leaves (sy_locks (w_sys w) x) t.1 p -> wheld w' = wheld (w_thr w t) ∖ {[x]} ->
  (forall u, u <> t -> x ∉ wheld (w_thr w u)) ->
  forall y i, k_cs (p_clients (lock_upd (sy_locks (w_sys w)) x p y) i) = true <->
    exists u, u.1 = i /\ y ∈ wheld (wthr_upd (w_thr w) t w' u).
Proof.
  intros [_ Hcs _] (Hf & Ht & Ho) Hw Hx y i. unfold lock_upd. case_decide as E; [subst y|].
  - destruct (decide (i = t.1)) as [->|Hi].
    + rewrite Ht. split; [done|]. intros (u & _ & Hu). unfold wthr_upd in Hu. case_decide as Eu.
      * rewrite Hw in Hu. set_solver.
      * by destruct (Hx u Eu).
    + rewrite Ho, Hcs by done. f_equiv. intros u. unfold wthr_upd. case_decide; [|done]. subst u.
      naive_solver.
  - rewrite Hcs. f_equiv. intros u. unfold wthr_upd. case_decide; [|done]. subst u. rewrite Hw. set_solver.
Qed.

Lemma wi_cs_protocol w x p :
  winv w -> cs_same (sy_locks (w_sys w) x) p ->
  forall y i, k_cs (p_clients (lock_upd (sy_locks (w_sys w)) x p y) i) = true <->
    exists u, u.1 = i /\ y ∈ wheld (w_thr w u).
Proof.
  intros [_ Hcs _] Hs y i. unfold lock_upd. case_decide as E; [subst y; rewrite Hs|]; apply Hcs.
Qed.

Lemma dorelease_local now x : local ysame x (fun y => (tt, dorelease now x y)).
Proof.
  unfold local, ysame, dorelease, ec_flush. cbn [rpc_put rpc_remove extent_server_rpc].
  unfold extent_put, extent_remove. split.
  - intros [c st tr] [c' st' tr'] [Hc Hs]; simpl in *; rewrite Hc.
    destruct (c' !! x) as [e|] eqn:Ec; simpl; [|split_and!; congruence].
    destruct (e_dirty e), (e_valid e); simpl; rewrite ?Hs, ?lookup_insert_eq;
      try (split_and!; congruence).
    destruct (st' !! x) eqn:Es; simpl; rewrite ?lookup_insert_eq, ?lookup_delete_eq; split_and!; congruence.
  - intros [c st tr] y Hy; simpl. destruct (c !! x) as [e|]; simpl; [|done].
    destruct (e_dirty e), (e_valid e); simpl; rewrite ?lookup_insert_ne by done; try done.
    all: destruct (st !! x); simpl; rewrite ?lookup_insert_ne, ?lookup_delete_ne by done; done.
Qed.

Lemma g_flush_local i now x : local gsame x (fun g => (tt, g_flush i now x g)).
Proof.
  destruct (as_client_local i x _ (dorelease_local now x)) as [Hf Ho]. split; simpl.
  - intros g g' Hs. split; [done|]. by apply Hf.
  - apply Ho.
Qed.

(** ** Caches of the clients without the lock *)

Lemma idle_inv_alone locks st caches x i :
  idle_inv locks caches -> proto_inv (locks x) -> unflushed (p_clients (locks x) i) ->
  alone i x (Gstate st caches).
Proof.
  intros Hid Hp Hu j Hj. apply Hid. intros Hu'. apply Hj.
  by rewrite (unflushed_owner _ j Hp Hu'), (unflushed_owner _ i Hp Hu).
Qed.

Lemma idle_inv_protocol locks caches x p :
  idle_inv locks caches -> proto_inv (locks x) -> proto_step (locks x) p -> keeps_flushing (locks x) p ->
  idle_inv (lock_upd locks x p) caches.
Proof.
  intros Hid Hp Hs Hk y i. unfold lock_upd. case_decide as E; [subst y|by apply Hid].
  intros Hu. apply Hid. intros Hu'. by eapply Hu, step_keeps_unflushed.
Qed.

(** Client [i] works on [x]. *)
Lemma as_client_caches {A} i x (f : yfsx -> A * yfsx) g j y :
  local gsame x (as_client i f) -> j <> i \/ y <> x ->
  g_caches (as_client i f g).2 j !! y = g_caches g j !! y.
Proof.
  intros [_ Ho] [Hj|Hy]; [|by apply Ho]. unfold as_client. destruct (f (client_view i g)) as [a y'].
  simpl. by rewrite cache_upd_lookup, decide_False.
Qed.

Lemma idle_inv_act {A} locks st caches i x (f : yfsx -> A * yfsx) :
  idle_inv locks caches -> local gsame x (as_client i f) -> unflushed (p_clients (locks x) i) ->
  idle_inv locks (g_caches (as_client i f (Gstate st caches)).2).
Proof.
  intros Hid Hl Hu y j Hn e. rewrite (as_client_caches i x f _ j y Hl).
  - by apply Hid.
  - destruct (decide (j = i)) as [->|]; [right|by left]. by intros ->.
Qed.

Lemma dorelease_idle now x y : idle_at x (y_cache (dorelease now x y)).
Proof.
  unfold dorelease, ec_flush. intros e. destruct (y_cache y !! x) as [e'|] eqn:E; [|simpl; by rewrite E].
  destruct (if e_dirty e' then _ else _) as [ret st]. simpl. rewrite lookup_insert_eq. by intros [= <-].
Qed.

Lemma idle_inv_flush locks st caches i now x :
  idle_inv locks caches -> idle_inv (lock_upd locks x (flushed (locks x) i))
    (g_caches (g_flush i now x (Gstate st caches))).
Proof.
  intros Hid y j Hn. unfold g_flush. destruct (decide (j = i /\ y = x)) as [[-> ->]|Hne].
  - unfold as_client. intros e. simpl. rewrite cache_upd_eq. apply dorelease_idle.
  - assert (Hor : j <> i \/ y <> x) by (destruct (decide (j = i)); naive_solver).
    intros e. rewrite (as_client_caches i x _ _ j y (as_client_local i x _ (dorelease_local now x)) Hor). apply Hid.
    intros Hu. apply Hn. unfold lock_upd. case_decide as E; [subst y|done]. simpl.
    destruct Hor as [Hj|]; [|done]. by autorewrite with lock_upd.
Qed.

Lemma as_thread_unlocked thr wthr x :
  (forall t, thr t = as_thread t (wthr t)) -> (forall t, x ∉ wheld (wthr t)) -> unlocked thr x.
Proof. intros Ht Hx t. by rewrite Ht, held_as_thread. Qed.

(** A thread that gives a lock back is the only one that has it. *)
Lemma rel_alone g0 s gh wthr t u r x k H :
  conc_inv gsame client_of alone g0 s gh -> (forall t, c_thr s t = as_thread t (wthr t)) ->
  wthr t = W_shrink r (Rel x k) H -> u <> t -> x ∉ wheld (wthr u).
Proof.
  intros Hi Ht E Hu Hx. pose proof (cv_threads _ _ _ _ _ _ Hi t) as Hok.
  pose proof (cv_disjoint _ _ _ _ _ _ Hi t u) as Hd.
  rewrite !Ht, !held_as_thread, E in Hd. rewrite Ht, E in Hok. simpl in Hok, Hd.
  destruct Hok as [[Hin _] _]. set_solver.
Qed.

Lemma world_step_sim g0 w w' s gh :
  world_step w w' -> wrel w s -> winv w -> conc_inv gsame client_of alone g0 s gh ->
  exists s', wrel w' s' /\ winv w' /\ (s' = s \/ conc_step gsame client_of alone s s').
Proof.
  intros Hs [Hg Ht Hh] Hw Hi. pose proof Hw as [Hl Hcs Hid]. destruct s as [g thr ch]. simpl in *.
  assert (Hlk : forall x p, proto_step (sy_locks (w_sys w) x) p ->
    forall y, proto_inv (lock_upd (sy_locks (w_sys w)) x p y)).
  { intros x p Hp. apply lock_upd_inv; [apply Hl|by eapply proto_step_inv]. }
  destruct Hs as [s wthr h t c E|s wthr h t c x k H p E Hp Hk He|s wthr h t c A x f k H E
    |s wthr h t c p H E Hsh|s wthr h t r x k H p E Hp Hk He|s wthr h t r r' E|s wthr h x p Hp Hk He
    |s wthr h x i now Hr]; simpl in *; subst g ch.
  1-6: pose proof (Ht t) as Et; rewrite E in Et; simpl in Et.
  - eexists. split_and!; [..|right; apply cs_start; [exact Et|]].
    + split; simpl; [done| |done].
      by apply (as_thread_upd _ _ t (W_grow c (call_prog c) ∅)).
    + split; simpl; [done| |done]. apply wi_cs_same; [done|by rewrite E].
    + apply lift_two_phase, call_two_phase.
  - pose proof (idle_inv_protocol _ _ x p Hid (Hl x) Hp Hk) as Hid'.
    eexists. split_and!; [..|right; eapply cs_acq; [exact Et|..]].
    + split; simpl; [done| |done]. by apply (as_thread_upd _ _ t (W_grow c k ({[x]} ∪ H))).
    + split; simpl; [intros y; by apply Hlk| |done].
      apply (wi_cs_enter _ t x p (W_grow c k ({[x]} ∪ H)) Hw He). simpl. by rewrite E.
    + eapply as_thread_unlocked; [done|]. exact (enters_unlocked _ x t.1 p Hw Hp He).
    + apply (idle_inv_alone _ _ _ x t.1 Hid'); [by apply Hlk|]. left; left.
      unfold lock_upd. rewrite decide_True by done. apply He.
  - pose proof (cv_threads _ _ _ _ _ _ Hi t) as Hok. simpl in Hok. rewrite Et in Hok.
    destruct Hok as [(Hx & Hf & _) _].
    eexists. split_and!; [..|right; apply (cs_act gsame client_of alone _ _ _ t _ _ _ _ _ _ Et)].
    + split; simpl; [by destruct (as_client _ _ _) as [? []]| |done].
      by apply (as_thread_upd _ _ t (W_grow c (k (as_client t.1 f (w_state s)).1) H)).
    + split; simpl; [done| |].
      * apply (wi_cs_same s); [done|by rewrite E].
      * apply (idle_inv_act _ _ _ _ x); [done..|]. left; left. apply Hcs. exists t. by rewrite E.
  - eexists. split_and!; [..|right; apply (cs_commit gsame client_of alone _ _ _ t _ _ _ Et); by apply lift_shrinking].
    + split; simpl; [done| |by rewrite fmap_app].
      by apply (as_thread_upd _ _ t (W_shrink (srun (lift t.1 p) (w_state s)).1 p H)).
    + split; simpl; [done| |done]. apply (wi_cs_same s); [done|by rewrite E].
  - eexists. split_and!; [..|right; apply (cs_rel gsame client_of alone _ _ _ t _ _ _ _ Et)].
    + split; simpl; [done| |done]. by apply (as_thread_upd _ _ t (W_shrink r k (H ∖ {[x]}))).
    + split; simpl; [intros y; by apply Hlk| |by apply idle_inv_protocol].
      apply (wi_cs_leave _ t x p (W_shrink r k (H ∖ {[x]})) Hw He); simpl; [by rewrite E|].
      intros u Hu. by eapply rel_alone.
  - eexists. split_and!; [..|right; apply (cs_end gsame client_of alone _ _ _ t _ _ Et)].
    + split; simpl; [done| |done]. by apply (as_thread_upd _ _ t W_idle).
    + split; simpl; [done| |done]. apply (wi_cs_same s); [done|by rewrite E].
  - eexists. split_and!; [..|by left].
    + by split.
    + split; simpl; [intros y; by apply Hlk| |by apply idle_inv_protocol].
      by apply (wi_cs_protocol _ x p Hw).
  - eexists. split_and!; [..|right; apply (cs_env gsame client_of alone _ _ _ i x (g_flush i now x))].
    + split; simpl; [by destruct (g_flush _ _ _ _)|done|by rewrite fmap_app].
    + split; simpl; [intros y; apply Hlk; by apply flushed_step| |by apply idle_inv_flush].
      apply (wi_cs_protocol _ x _ Hw). intros j. simpl.
      destruct (decide (j = i)) as [->|]; by autorewrite with lock_upd.
    + eapply as_thread_unlocked; [done|]. exact (flush_unlocked _ x i Hw Hr).
    + apply g_flush_local.
    + apply (idle_inv_alone _ _ _ x i Hid (Hl x)). by right.
Qed.

Lemma world_reachable_sim st w :
  world_reachable st w ->
  exists s, wrel w s /\ winv w /\ conc_reachable gsame client_of alone (Gstate st (fun _ => ∅)) s.
Proof.
  unfold world_reachable. revert w. apply rtc_ind_r.
  - exists (Conc (Gstate st (fun _ => ∅)) (fun _ => T_idle) []). split_and!; [done| |apply rtc_refl].
    split; simpl; [intros x; apply proto_init_inv| |by intros x i _ e]. intros x i. split; [done|].
    intros (t & _ & Hx). set_solver.
  - intros w w' _ Hs (s & Hr & Hw & Hc).
    destruct (conc_reachable_inv gsame client_of alone alone_same _ s Hc) as [gh Hi].
    destruct (world_step_sim _ w w' s gh Hs Hr Hw Hi) as (s' & Hr' & Hw' & [->|Hs']).
    + by exists s.
    + exists s'. split_and!; [done..|]. by eapply rtc_r.
Qed.

(** * Properties *)

(** C17. The file system is serializable. In every run of any number of clients and
    threads, each thread executing [yfs_client] operations over the caching
    extent client and the cached lock protocol (locks are granted, revoked and
    given back through the servers, revoked extents are flushed in between, and
    all of this interleaves freely), the history of the operations and flushes in
    the order of their commit points is an execution of the same operations one
    after the other: every operation returned what it returns there, and the
    server and all caches are as they are there, except at the extents locked by
    operations that have not come to their first release. *)
Theorem yfs_serializable st w :
  world_reachable st w ->
  exists g, one_by_one (Gstate st (fun _ => ∅)) (w_hist w) g /\
    forall x, (forall t c p H, w_thr w t = W_grow c p H -> x ∉ H) -> gsame x (w_state (w_sys w)) g.
Proof.
  intros (s & [Hg Ht Hh] & _ & Hc)%world_reachable_sim.
  destruct (conc_serializable gsame client_of alone alone_same _ s Hc) as (gh & Hs & Hsame). exists gh. split.
  - apply serial_one_by_one. by rewrite <- Hh.
  - intros x Hx. rewrite <- Hg. apply Hsame. intros t. rewrite Ht.
    destruct (w_thr w t) as [|c p H|] eqn:E; simpl; [set_solver|by eapply Hx|set_solver].
Qed.


(** ** Witnesses *)

(** A thread of client a gets the lock of the root directory, reads it and
    commits. *)
Module WorldExamples.
Import ExtentExamples SystemExamples.

Definition t0 : tid := ("a", 1).
Definition ls : call := Y_getdata 300 1.
Definition reading : yprog :=
  Act 1 (y_get 300 1 []) (fun '(rs, d) => Rel 1 (Ret (Ok (O_data rs d)))).
Definition read_done : yprog := Rel 1 (Ret (Ok (O_data YFS_OK []))).

Lemma enters_a : enters p3 "a" p4.
Proof.
  split_and!; [reflexivity..|]. intros j Hj. simpl. by autorewrite with lock_upd.
Qed.

Lemma next_same p sv i c : k_cs c = k_cs (p_clients p i) -> cs_same p (next p sv i c).
Proof.
  intros Hc j. simpl. destruct (decide (j = i)) as [->|]; by autorewrite with lock_upd.
Qed.

(** Client a asks the server for the lock of [x] and gets it. *)
Definition granted_to_a (s : system extent_server) (x : Z) : system extent_server :=
  w_lock (w_lock (w_lock (w_lock s x p1) x p2) x p3) x p4.

Lemma w_lock_at s x p : sy_locks (w_lock s x p) x = p.
Proof. simpl. unfold lock_upd. by rewrite decide_True. Qed.

(** A thread of client a gets the lock it asks for. *)
Lemma get_lock st s thr h t c x k H :
  t.1 = "a" -> sy_locks s x = proto_init -> thr t = W_grow c (Acq x k) H ->
  world_reachable st (World s thr h) ->
  world_reachable st (World (granted_to_a s x) (wthr_upd thr t (W_grow c k ({[x]} ∪ H))) h).
Proof.
  intros Ha Hx Ht Hr. unfold world_reachable in *. eapply rtc_trans; [exact Hr|].
  eapply rtc_l; [apply (ws_protocol _ _ _ x p1); rewrite Hx|].
  { left. by apply (us_rpc proto_init "a" 1). }
  { by apply next_keeps. }
  { by apply next_same. }
  eapply rtc_l; [apply (ws_protocol _ _ _ x p2); rewrite w_lock_at|].
  { right. by apply (ns_call p1 "a"). }
  { by apply next_keeps. }
  { by apply next_same. }
  eapply rtc_l; [apply (ws_protocol _ _ _ x p3); rewrite w_lock_at|].
  { right. by apply (ns_server_acquire p2 "a" L_OK None (owned ∅)). }
  { by apply next_keeps. }
  { by apply next_same. }
  apply rtc_once. apply (ws_acquire _ _ _ t c x k H p4); rewrite ?w_lock_at, ?Ha.
  { done. }
  { right. by apply (ns_reply p3 "a" 1 L_OK true (Client_lock CC_LOCKED 1 0 0)). }
  { by apply next_keeps. }
  { apply enters_a. }
Qed.

(** A thread of client a begins a call and takes its first lock. *)
Lemma first_lock st s thr h t c x k :
  t.1 = "a" -> sy_locks s x = proto_init -> thr t = W_idle -> call_prog c = Acq x k ->
  world_reachable st (World s thr h) ->
  world_reachable st (World (granted_to_a s x)
    (wthr_upd (wthr_upd thr t (W_grow c (Acq x k) ∅)) t (W_grow c k ({[x]} ∪ ∅))) h).
Proof.
  intros Ha Hx Ht Hc Hr. apply get_lock; [done..|by rewrite wthr_upd_eq|].
  eapply rtc_r; [exact Hr|]. rewrite <- Hc. by apply ws_start.
Qed.

Definition s4 := granted_to_a (sys_init store0) 1.
Definition s5 := w_set s4 (as_client "a" (y_get 300 1 []) (w_state s4)).2.
Definition thr1 := wthr_upd (fun _ => W_idle) t0 (W_grow ls (call_prog ls) ∅).
Definition thr2 := wthr_upd thr1 t0 (W_grow ls reading ({[1]} ∪ ∅)).
Definition thr3 := wthr_upd thr2 t0 (W_grow ls read_done ({[1]} ∪ ∅)).
Definition answer0 : res outcome := Ok (O_data YFS_OK []).
Definition thr4 := wthr_upd thr3 t0 (W_shrink answer0 read_done ({[1]} ∪ ∅)).
Definition w6 := World s5 thr4 [H_call t0 ls answer0].

Lemma w6_reachable : world_reachable store0 w6.
Proof.
  eapply rtc_trans.
  { apply (first_lock store0 (sys_init store0) (fun _ => W_idle) [] t0 ls 1 reading); try reflexivity. apply rtc_refl. }
  eapply rtc_l; [apply (ws_act s4 thr2 [] t0 ls _ 1 (y_get 300 1 []) _ ({[1]} ∪ ∅) eq_refl)|].
  apply rtc_once. apply (ws_commit s5 thr3 [] t0 ls read_done); [reflexivity|].
  split; [set_solver|exact I].
Qed.
End WorldExamples.
Import WorldExamples.

Lemma yfs_serializable_witness :
  exists g, one_by_one (Gstate SystemExamples.store0 (fun _ => ∅)) [H_call t0 ls answer0] g /\
    gsame 7 (w_state (w_sys w6)) g.
Proof.
  destruct (yfs_serializable _ w6 w6_reachable) as (g & Hh & Hs). exists g. split; [exact Hh|].
  apply Hs. intros t c p H. simpl. unfold thr4, thr3, thr2, thr1, wthr_upd.
  repeat case_decide; discriminate.
Defined.

