(* ===== verification/OneClient.v ===== *)
(** * All clients are one client

    The strongest statement about the file system: what any number of clients do
    concurrently, each with its own cache, over the cached lock protocol, is what
    a single [yfs_client] (src/yfs_client.cc) with a single cache does when it
    executes the same operations one after the other, writing extents back in
    between. The only trace of the other clients is that an entry of the cache
    that was flushed may be exchanged for another one that was flushed, or for
    none, when the lock of its extent moves to another client. *)
From S2P Require Import Prelude LockServer LockServerCache LockClientCache LockProtocol.
From S2P Require Import ExtentServer ExtentClient CxxString YfsClient System Txn YfsTxn YfsSystem.

(** ** One client *)

(** The cache with [o] in place of the entry of [x]. *)
Definition exchange (x : Z) (o : option ExtentCache) (y : yfsx) : yfsx :=
  Yfs (partial_alter (fun _ => o) x (y_cache y)) (y_store y) (y_trace y).

Inductive one_client (y0 : yfsx) : list entry -> yfsx -> Prop :=
  | oc_start : one_client y0 [] y0
  | oc_call h y t c o y' :
      one_client y0 h y -> call_exec c y = Ok (o, y') ->
      one_client y0 (h ++ [H_call t c (Ok o)]) y'
  | oc_fault h y t c e :
      one_client y0 h y -> call_exec c y = Err e ->
      one_client y0 (h ++ [H_call t c (Err e)]) (yrun (call_prog c) y).2
  | oc_flush h y i now x :
      one_client y0 h y -> one_client y0 (h ++ [H_flush i now x]) (dorelease now x y)
  | oc_exchange h y x o :
      one_client y0 h y -> idle_at x (y_cache y) -> (forall e, o = Some e -> entry_idle e) ->
      one_client y0 h (exchange x o y).

(** ** The one client and the many *)

(** [y] has, for every extent, the entry of a client that is alone with it, and
    the server's extent. *)
Definition merged (g : gstate) (y : yfsx) : Prop :=
  forall x, exists i, alone i x g /\ ysame x y (client_view i g).

Lemma exchange_same x o y z : z <> x -> ysame z (exchange x o y) y.
Proof. intros Hz. split; simpl; [|done]. by rewrite lookup_partial_alter_ne. Qed.

Lemma merged_exchange g y i x :
  merged g y -> alone i x g ->
  let y' := exchange x (g_caches g i !! x) y in
  merged g y' /\ ysame x y' (client_view i g).
Proof.
  intros Hm Ha y'.
  assert (Hx : ysame x y' (client_view i g)).
  { split; simpl; [by rewrite lookup_partial_alter_eq|]. by destruct (Hm x) as (k & _ & _ & ->). }
  split; [|done]. intros z. destruct (decide (z = x)) as [->|Hz]; [by exists i|].
  destruct (Hm z) as (k & Hk & Hs). exists k. split; [done|]. unfold y'. by rewrite (exchange_same x _ y z Hz).
Qed.

(** The one client takes over the entries of client [i]. *)
Lemma take_over y0 h g i (H : gset Z) y :
  one_client y0 h y -> merged g y -> (forall x, x ∈ H -> alone i x g) ->
  exists y', one_client y0 h y' /\ merged g y' /\ forall x, x ∈ H -> ysame x y' (client_view i g).
Proof.
  intros Hy Hm. induction H as [|x H Hx IH] using set_ind_L; intros Ha.
  - exists y. split_and!; [done..|]. by intros x Hx%elem_of_empty.
  - destruct IH as (y1 & Hy1 & Hm1 & Hs1); [set_solver|].
    assert (Hax : alone i x g) by set_solver. destruct (Hm1 x) as (k & Hk & Hs).
    destruct (decide (k = i)) as [->|Hki].
    { exists y1. split_and!; [done..|]. set_solver. }
    destruct (merged_exchange g y1 i x Hm1 Hax) as [Hm2 Hs2].
    exists (exchange x (g_caches g i !! x) y1). split_and!; [|done|].
    + apply oc_exchange; [done|..].
      * intros e. rewrite (proj1 Hs). apply Hax. done.
      * intros e. apply Hk. done.
    + intros z [->%elem_of_singleton|Hz]%elem_of_union; [done|].
      rewrite (exchange_same x _ y1 z) by set_solver. auto.
Qed.

(** ** A call of one client *)

(** An action of client [i], on what the one client sees at its location. *)
Lemma as_client_at {A} i x (f : yfsx -> A * yfsx) y g :
  local ysame x f -> ysame x y (client_view i g) ->
  (f y).1 = (as_client i f g).1 /\ ysame x (f y).2 (client_view i (as_client i f g).2) /\
  (forall z, z <> x -> ysame z (client_view i (as_client i f g).2) (client_view i g)) /\
  forall j z, j <> i -> g_caches (as_client i f g).2 j !! z = g_caches g j !! z.
Proof.
  intros [Hf Ho] Hs. destruct (Hf _ _ Hs) as [Ea Hx]. pose proof (Ho (client_view i g)) as Hg.
  unfold as_client. destruct (f (client_view i g)) as [a y'] eqn:E. simpl in *.
  assert (Hv : forall z, ysame z (client_view i (client_put i g y')) y').
  { intros z. split; simpl; [by rewrite cache_upd_eq|done]. }
  split_and!; [done|by rewrite Hv|intros z Hz; by rewrite Hv, Hg|].
  intros j z Hj. by rewrite cache_upd_lookup, decide_False.
Qed.

(** One step of a program whatever its type. *)
Definition act_step {G R} (p : prog G R) (g : G) : prog G R * G :=
  match p with Act _ f k => (k (f g).1, (f g).2) | _ => (p, g) end.
Definition act_loc {G R} (p : prog G R) : option Z :=
  match p with Act x _ _ => Some x | _ => None end.

(** A program on its way, seen by the one client. *)
Definition replayed (i : string) (p : yprog) (y : yfsx) (H : gset Z) (g : gstate)
    (Q : prog gstate (res outcome)) (g' : gstate) : Prop :=
  exists q y', Q = lift i q /\ locals q /\ yrun p y = yrun q y' /\
    (forall x, x ∈ H -> ysame x y' (client_view i g')) /\
    (forall x, x ∉ H -> ysame x y' y) /\
    (forall j z, j <> i -> g_caches g' j !! z = g_caches g j !! z).

Lemma replay_view i p y P g Q H g' :
  replay gsame P g Q H g' -> P = lift i p -> locals p ->
  (forall x, x ∈ H -> ysame x y (client_view i g)) -> replayed i p y H g Q g'.
Proof.
  intros Hr -> Hp. remember (lift i p) as P eqn:EP.
  induction Hr as [P g|P g x k H g' Hr IH|P g A x f k H g' Hr IH Hx Hl]; intros Hs; subst P.
  - exists p, y. split_and!; [done..| |done|done]. by intros x Hx%elem_of_empty.
  - destruct IH as ([|x' q|x' q|B x' f q] & y' & EQ & Hq & Ey & Hin & Hout & Hj);
      [done|set_solver|simplify_eq/=..].
    exists q, (acquire x' y'). split_and!; [done..| |set_solver|done].
    intros z Hz. change (ysame z y' (client_view i g')).
    destruct (decide (z ∈ H)) as [Hz'|Hz']; [by apply Hin|].
    rewrite (Hout z Hz'), (Hs z Hz). destruct (replay_off gsame _ _ _ _ _ Hr z Hz') as [Hst Hc].
    by split; simpl.
  - destruct IH as (q & y' & EQ & Hq & Ey & Hin & Hout & Hj); [done..|].
    pose proof (f_equal act_loc EQ) as Ex. pose proof (f_equal (fun p => act_step p g') EQ) as Es.
    destruct q as [|x' q|x' q|B x' f' q]; simpl in Ex; try done. injection Ex as <-.
    simpl in Es. injection Es as Ek Ef. destruct Hq as [Hf Hq].
    destruct (as_client_at i x f' y' g' Hf (Hin x Hx)) as (Ea & Hs1 & Hs2 & Hj2).
    exists (q (f' y').1), (f' y').2. rewrite Ek, Ef. split_and!; [by rewrite Ea|done|done|..].
    + intros z Hz. destruct (decide (z = x)) as [->|Hzx]; [done|].
      rewrite (Hs2 z Hzx), <- (Hin z Hz). by apply Hf.
    + intros z Hz. assert (z <> x) by (by intros ->). rewrite <- (Hout z Hz). by apply Hf.
    + intros j z Hne. by rewrite Hj2, Hj.
Qed.


(** Only releases are left: the rest of the program changes no extent. *)
Lemma shrinking_yrun i H q y g :
  shrinking H (lift i q) ->
  (yrun q y).1 = (srun (lift i q) g).1 /\ forall x, ysame x (yrun q y).2 y.
Proof.
  revert H y. induction q as [r|x k IH|x k IH|A x f k IH]; intros H y; simpl; [done..| |done].
  intros [_ Hsh]. destruct (IH _ (release x y) Hsh) as [E Hs]. split; [done|]. intros z. by rewrite Hs.
Qed.

(** A committed operation of client [i] is the same operation of the one
    client. *)
Lemma commit_merged y0 h g y i c t Q H g' :
  i = t.1 -> one_client y0 h y -> merged g y ->
  replay gsame (lift i (call_prog c)) g Q H g' -> shrinking H Q -> (forall x, x ∈ H -> alone i x g) ->
  let '(r, g2) := srun (lift i (call_prog c)) g in
  exists y2, one_client y0 (h ++ [H_call t c r]) y2 /\ merged g2 y2.
Proof.
  intros _ Hy Hm Hr Hsh Ha. destruct (take_over y0 h g i H y Hy Hm Ha) as (y1 & Hy1 & Hm1 & Hs1).
  destruct (replay_view i (call_prog c) y1 _ g Q H g' Hr eq_refl (call_locals c) Hs1)
    as (q & y' & -> & _ & Ey & Hin & Hout & Hj).
  destruct (shrinking_yrun i H q y' g' Hsh) as [Er Hs2].
  destruct (shrinking_srun H (lift i q) g' g' Hsh) as [_ E2].
  rewrite (replay_srun gsame _ _ _ _ _ Hr). destruct (srun (lift i q) g') as [r g2]. simpl in *. subst g2.
  assert (Hm2 : merged g' (yrun (call_prog c) y1).2).
  { intros x. rewrite Ey. destruct (decide (x ∈ H)) as [Hx|Hx].
    - exists i. split; [|by rewrite Hs2, Hin]. intros j Hne e. rewrite Hj by done. by apply Ha.
    - destruct (Hm1 x) as (k & Hk & Hs). exists k. pose proof (replay_off gsame _ _ _ _ _ Hr x Hx) as Hg.
      split; [by apply (alone_same k x g); [symmetry|]|]. rewrite Hs2, Hout, Hs by done.
      split; simpl; symmetry; apply Hg. }
  exists (yrun (call_prog c) y1).2. split; [|done]. rewrite <- Er, <- Ey.
  pose proof (yrun_call c y1) as Hc. destruct (call_exec c y1) as [[o y2]|e] eqn:E; simpl in Hc.
  - rewrite Hc. by eapply oc_call.
  - rewrite Hc. by apply oc_fault.
Qed.

Lemma flush_merged y0 h g y i now x :
  one_client y0 h y -> merged g y -> alone i x g ->
  exists y2, one_client y0 (h ++ [H_flush i now x]) y2 /\ merged (g_flush i now x g) y2.
Proof.
  intros Hy Hm Ha. destruct (take_over y0 h g i {[x]} y Hy Hm) as (y1 & Hy1 & Hm1 & Hs1); [set_solver|].
  exists (dorelease now x y1). split; [by apply oc_flush|].
  destruct (as_client_at i x _ y1 g (dorelease_local now x)) as (_ & Hx & Ho & Hj); [set_solver|].
  simpl in Hx. intros z. destruct (decide (z = x)) as [->|Hz].
  - exists i. split; [|done]. intros j Hne e. unfold g_flush. rewrite Hj by done. by apply Ha.
  - destruct (Hm1 z) as (k & Hk & Hs). pose proof (proj2 (g_flush_local i now x) g z Hz) as Hg. exists k.
    split; [by apply (alone_same k z g); [symmetry|]|].
    rewrite (proj2 (dorelease_local now x) y1 z Hz), Hs. split; simpl; symmetry; apply Hg.
Qed.

Lemma serial_one_client st h g :
  serial gsame client_of alone (Gstate st (fun _ => ∅)) (as_item <$> h) g ->
  exists y, one_client (Yfs ∅ st []) h y /\ merged g y.
Proof.
  remember (as_item <$> h) as l eqn:El. intros Hs. revert h El.
  induction Hs as [|l g t p r q H g' Hs IH Hr Hsh Ha Er|l g a x f Hs IH Ha]; intros h El.
  - destruct h; [|done]. exists (Yfs ∅ st []). split; [constructor|]. intros x. exists "". by split.
  - apply fmap_snoc_inv in El as (h1 & [t' c r'|] & -> & -> & Ee); simplify_eq/=.
    destruct (IH h1 eq_refl) as (y & Hy & Hm).
    pose proof (commit_merged _ _ _ _ _ c t' _ _ _ eq_refl Hy Hm Hr Hsh Ha) as Hc.
    by destruct (srun (lift t'.1 (call_prog c)) g).
  - apply fmap_snoc_inv in El as (h1 & [|i now z] & -> & -> & Ee); simplify_eq/=.
    destruct (IH h1 eq_refl) as (y & Hy & Hm). by apply (flush_merged _ _ _ y).
Qed.

(** The run, the serial state and the one client. *)
Lemma world_one_client st w :
  world_reachable st w ->
  exists g y, one_client (Yfs ∅ st []) (w_hist w) y /\ merged g y /\
    forall x, (forall t c p H, w_thr w t = W_grow c p H -> x ∉ H) -> gsame x (w_state (w_sys w)) g.
Proof.
  intros (s & [Hg Ht Hh] & _ & Hc)%world_reachable_sim.
  destruct (conc_serializable gsame client_of alone alone_same _ s Hc) as (gh & Hs & Hsame).
  rewrite Hh in Hs. destruct (serial_one_client _ _ _ Hs) as (y & Hy & Hm). exists gh, y. split_and!; [done..|].
  intros x Hx. rewrite <- Hg. apply Hsame. intros t. rewrite Ht.
  destruct (w_thr w t) as [|c p H|] eqn:E; simpl; [set_solver|by eapply Hx|set_solver].
Qed.

(** * Properties *)


Import WorldExamples.
