(* ===== verification/SharedFile.v ===== *)
(** * A file shared by all clients

    Several clients read and write one file at the same time: the operations of
    src/yfs_client.cc, run by any number of threads of any number of clients, are
    operations on one string of bytes, one after the other. *)
From S2P Require Import Prelude LockServer LockServerCache LockClientCache LockProtocol.
From S2P Require Import ExtentServer ExtentClient CxxString YfsClient System Txn YfsTxn YfsSystem OneClient.

(** ** The abstract file *)

Inductive file_step (b : list byte) : call -> res outcome -> list byte -> Prop :=
  | fs_write now x data off :
      file_step b (Y_write now x data off) (Ok (O_status YFS_OK)) (written b data (Z.to_nat off))
  | fs_read now x size off :
      off <= zlen b ->
      file_step b (Y_read now x size off)
        (Ok (O_data YFS_OK (read_at b (Z.to_nat off) (Z.to_nat size)))) b
  | fs_read_behind now x size off :
      zlen b < off -> file_step b (Y_read now x size off) (Err Out_of_range) b
  | fs_resize now x n :
      file_step b (Y_setattr now x n) (Ok (O_status YFS_OK))
        (take (Z.to_nat n) b ++ replicate (Z.to_nat n - length b) Byte.x00)
  | fs_getdata now x : file_step b (Y_getdata now x) (Ok (O_data YFS_OK b)) b.

Inductive file_history (b0 : list byte) : list entry -> list byte -> Prop :=
  | fh_start : file_history b0 [] b0
  | fh_call h b t c r b' :
      file_history b0 h b -> file_step b c r b' -> file_history b0 (h ++ [H_call t c r]) b'
  | fh_flush h b i now x : file_history b0 h b -> file_history b0 (h ++ [H_flush i now x]) b.

(** An operation on file [x] within the first two gigabytes. *)
Definition on_file (x : Z) (c : call) : Prop :=
  match c with
  | Y_write _ z data off => z = x /\ 0 <= off /\ off + zlen data <= INT_MAX
  | Y_read _ z size off => z = x /\ 0 <= off /\ 0 <= size /\ off + size <= INT_MAX
  | Y_setattr _ z n => z = x /\ 0 <= n <= INT_MAX
  | Y_getdata _ z => z = x
  | _ => False
  end.

Definition entry_on_file (x : Z) (e : entry) : Prop :=
  match e with H_call _ c _ => on_file x c | H_flush _ _ _ => True end.

(** ** The file as the one client has it *)

Lemma contents_at (st st' : extent_server) x : st !! x = st' !! x -> contents st !! x = contents st' !! x.
Proof. intros E. change (data_of st !! x = data_of st' !! x). unfold data_of. by rewrite !lookup_fmap, E. Qed.

Section ops.
Implicit Types y : yfsx.

Definition has_file (x : Z) (b : list byte) y : Prop := yfs_ok y /\ file y x = Some b.

Lemma file_not_gone y x b : file y x = Some b -> ~ gone y x.
Proof. unfold file, view, gone, removed. intros Hf (e & He & Hd & Hv). by rewrite He, Hd, Hv in Hf. Qed.

Lemma flush_file now x d b y : has_file d b y -> has_file d b (dorelease now x y).
Proof.
  intros [Hok Hf]. unfold dorelease. destruct (ec_flush (y_cache y) (y_store y) now x) as [[ret c] st] eqn:E.
  destruct (ec_flush_spec _ _ _ _ _ _ _ (proj1 Hok) (proj2 Hok x) E) as (Hfr & _ & Hv & _).
  destruct (op_frame_changed y x c st (y_trace y) Hok Hfr) as (Hok' & Hz & _). split; [done|].
  destruct (decide (d = x)) as [->|Hne]; [|by rewrite Hz]. unfold file in *. simpl. by rewrite Hv.
Qed.

Lemma idle_view (c : extent_cache) (st : extent_server) x : idle_at x c -> view c st x = contents st !! x.
Proof. intros Hi. unfold view. destruct (c !! x) as [e|] eqn:E; [|done]. by destruct (Hi e E) as [-> _]. Qed.

Lemma exchange_file x o d b y :
  idle_at x (y_cache y) -> (forall e, o = Some e -> entry_idle e) ->
  has_file d b y -> has_file d b (exchange x o y).
Proof.
  intros Hi Ho [[Hs Hh] Hf]. split; [split; [done|]|].
  - intros z e. simpl. destruct (decide (z = x)) as [->|Hz].
    + rewrite lookup_partial_alter_eq. intros He. by apply entry_idle_ok, Ho.
    + rewrite lookup_partial_alter_ne by done. apply Hh.
  - unfold file in *. simpl. destruct (decide (d = x)) as [->|Hz].
    + rewrite idle_view in *; [done|done|]. intros e. rewrite lookup_partial_alter_eq. apply Ho.
    + unfold view in *. by rewrite lookup_partial_alter_ne.
Qed.

(** ** Operations of the one client *)

Lemma write_does now x data off b y :
  has_file x b y -> 0 <= off -> off + zlen data <= INT_MAX -> zlen b <= INT_MAX ->
  exists y', write now x data off y = Ok (YFS_OK, y') /\ has_file x (written b data (Z.to_nat off)) y'.
Proof.
  unfold INT_MAX. intros [Hy Hf] Ho Hl Hb. assert (0 <= zlen data) by (unfold zlen; lia).
  destruct (write_ok now x data off y b Hy (file_not_gone _ _ _ Hf) Hf) as (y' & E & [Hy' _] & Hf' & _); [lia..|].
  rewrite wrapU_small in Hf' by (unfold is_unsigned; lia). by exists y'.
Qed.

Lemma setattr_does now x n b y :
  has_file x b y -> 0 <= n <= INT_MAX -> zlen b <= INT_MAX ->
  exists y', setattr now x n y = Ok (YFS_OK, y') /\
    has_file x (take (Z.to_nat n) b ++ replicate (Z.to_nat n - length b) Byte.x00) y'.
Proof.
  intros [Hy Hf] Hn Hb. unfold INT_MAX in Hb.
  destruct (setattr_ok now x n y b Hy (file_not_gone _ _ _ Hf) Hf Hn) as (y' & E & [Hy' _] & Hf' & _); [lia|].
  by exists y'.
Qed.

Lemma read_does now x size off b y :
  has_file x b y -> 0 <= off <= zlen b -> 0 <= size -> off + size <= INT_MAX -> zlen b <= INT_MAX ->
  exists y', read now x size off y = Ok (YFS_OK, read_at b (Z.to_nat off) (Z.to_nat size), y') /\ has_file x b y'.
Proof.
  unfold INT_MAX. intros [Hy Hf] Ho Hs Hl Hb.
  destruct (read_ok now x size off y b Hy (file_not_gone _ _ _ Hf) Hf Ho Hs) as (y' & E & Hy' & Hf' & _);
    [unfold INT_MAX; lia|lia|]. exists y'. split; [done|]. split; [done|]. by rewrite Hf'.
Qed.

(** The exception leaves the file as it is. *)
Lemma read_behind now x size off b y :
  has_file x b y -> zlen b < off -> 0 <= size -> off + size <= INT_MAX ->
  read_cut b size off = Err Out_of_range /\
  exists y', yrun (read_prog now x size off) y = (Err Out_of_range, y') /\ has_file x b y'.
Proof.
  unfold INT_MAX. intros [Hy Hf] Ho Hs Hl. assert (0 <= zlen b) by (unfold zlen; lia).
  assert (Hc : read_cut b size off = Err Out_of_range).
  { unfold read_cut. rewrite !(wrapU_small 64 (off + size)) by (unfold is_unsigned; lia).
    rewrite (wrapU_small 64 off) by (unfold is_unsigned; lia).
    destruct (Z.gtb_spec (off + size) (zlen b)); [|lia].
    rewrite (wrapU_small 64 (off + size - zlen b)) by (unfold is_unsigned; lia).
    rewrite wrapS_small by (unfold is_signed; lia).
    destruct (Z.ltb_spec (off + size - zlen b) 0); [lia|].
    rewrite (proj2 (Z.leb_le _ _)) by lia. cbn [defined_if mbind res_bind].
    unfold substr. by rewrite (proj2 (Z.leb_gt off (zlen b))) by lia. }
  split; [done|].
  destruct (y_get_some now x y b Hy (file_not_gone _ _ _ Hf) Hf) as (y1 & E & Hy1 & Hf1 & _).
  exists y1. unfold read_prog. cbn [yrun]. rewrite E. cbn [fst snd negb Z.eqb YFS_OK]. rewrite Hc.
  split; [done|]. split; [done|]. by rewrite Hf1.
Qed.

Lemma getdata_does now x b y :
  has_file x b y -> exists y', getdata now x y = (YFS_OK, b, y') /\ has_file x b y'.
Proof.
  intros [Hy Hf]. unfold getdata.
  destruct (y_get_some now x y b Hy (file_not_gone _ _ _ Hf) Hf) as (y1 & -> & Hy1 & Hf1 & _).
  eexists. split; [done|]. split; [exact Hy1|]. change (file y1 x = Some b). by rewrite Hf1.
Qed.

(** What the operation makes of the file, and that the file stays small. *)
Lemma call_on_file x c b y :
  on_file x c -> has_file x b y -> zlen b <= INT_MAX ->
  exists r b' y', runs_as (call_prog c) y (call_exec c y) /\ yrun (call_prog c) y = (r, y') /\
    file_step b c r b' /\ has_file x b' y' /\ zlen b' <= INT_MAX.
Proof.
  intros Hc Hh Hb. pose proof (yrun_call c y) as Hr.
  destruct c as [| | | | |now z size off|now z data off|now z n|now z]; try done; simpl in Hc.
  - destruct Hc as (-> & Ho & Hs & Hl). destruct (decide (off <= zlen b)) as [Hle|Hgt].
    + destruct (read_does now x size off b y Hh (conj Ho Hle) Hs Hl Hb) as (y' & E & Hh').
      simpl in Hr. rewrite E in Hr. simpl in Hr. eexists _, b, y'. simpl. rewrite E.
      split_and!; [done|exact Hr|by constructor|done..].
    + destruct (read_behind now x size off b y Hh ltac:(lia) Hs Hl) as (_ & y' & E & Hh').
      eexists _, b, y'. split_and!; [done|exact E|by apply fs_read_behind; lia|done..].
  - destruct Hc as (-> & Ho & Hl). destruct (write_does now x data off b y Hh Ho Hl Hb) as (y' & E & Hh').
    simpl in Hr. rewrite E in Hr. simpl in Hr. eexists _, _, y'. simpl. rewrite E.
    split_and!; [done|exact Hr|by constructor|exact Hh'|].
    unfold written, zlen in *. rewrite !length_app, length_take, length_replicate, length_drop. lia.
  - destruct Hc as (-> & Hn). destruct (setattr_does now x n b y Hh Hn Hb) as (y' & E & Hh').
    simpl in Hr. rewrite E in Hr. simpl in Hr. eexists _, _, y'. simpl. rewrite E.
    split_and!; [done|exact Hr|by constructor|exact Hh'|].
    unfold zlen in *. rewrite length_app, length_take, length_replicate. lia.
  - subst z. destruct (getdata_does now x b y Hh) as (y' & E & Hh').
    simpl in Hr. rewrite E in Hr. simpl in Hr. eexists _, b, y'. simpl. rewrite E.
    split_and!; [done|exact Hr|by constructor|done..].
Qed.

Lemma one_client_file x b0 y0 h y :
  has_file x b0 y0 -> zlen b0 <= INT_MAX -> one_client y0 h y -> Forall (entry_on_file x) h ->
  exists b, file_history b0 h b /\ has_file x b y /\ zlen b <= INT_MAX.
Proof.
  intros Hh0 Hb0 Hoc.
  induction Hoc as [|h y t c o y' Hoc IH E|h y t c e Hoc IH E|h y i now z Hoc IH|h y z o Hoc IH Hi Ho];
    intros Hall.
  - exists b0. split_and!; [constructor|done..].
  - apply Forall_app in Hall as [Hall [Hc _]%Forall_cons]. destruct (IH Hall) as (b & Hf & Hh & Hb).
    destruct (call_on_file x c b y Hc Hh Hb) as (r & b' & y2 & Hr & Ey & Hst & Hh' & Hb').
    rewrite E in Hr. simpl in Hr. rewrite Hr in Ey. injection Ey as <- <-.
    exists b'. split_and!; [by eapply fh_call|done..].
  - apply Forall_app in Hall as [Hall [Hc _]%Forall_cons]. destruct (IH Hall) as (b & Hf & Hh & Hb).
    destruct (call_on_file x c b y Hc Hh Hb) as (r & b' & y2 & Hr & Ey & Hst & Hh' & Hb').
    rewrite E in Hr. simpl in Hr. rewrite Ey in Hr. simpl in Hr. subst r. rewrite Ey.
    exists b'. split_and!; [by eapply fh_call|done..].
  - apply Forall_app in Hall as [Hall _]. destruct (IH Hall) as (b & Hf & Hh & Hb).
    exists b. split_and!; [by apply fh_flush|by apply flush_file|done].
  - destruct (IH Hall) as (b & Hf & Hh & Hb). exists b. split_and!; [done|by apply exchange_file|done].
Qed.
End ops.

(** ** The state of the run *)

(** The file of the one client, where no operation is under way. *)
Lemma merged_view w g y x b :
  merged g y -> gsame x (w_state (w_sys w)) g -> file y x = Some b ->
  exists i, view (sy_caches (w_sys w) i) (sy_store (w_sys w)) x = Some b.
Proof.
  intros Hm [Hsx Hca] Hf. destruct (Hm x) as (i & _ & [Hc Hs]).
  exists i. rewrite <- Hf. unfold file, view. simpl in *.
  by rewrite Hca, Hc, (contents_at _ (y_store y) x) by (by rewrite Hsx, Hs).
Qed.

Lemma start_file st x b : extents_ok st -> data_of st !! x = Some b -> has_file x b (Yfs ∅ st []).
Proof. intros Hst Hd. split; [split; [done|by intros z e]|done]. Qed.

(** * Properties *)


Import WorldExamples.
