(* ===== verification/SharedDir.v ===== *)
(** * A directory shared by all clients

    What the test programs src/test-lab-3-b.c and src/test-lab-3-c.c try out:
    several clients create, look up and unlink names in one directory at the same
    time. An abstract directory is a list of entries with distinct names; the
    directory operations of src/yfs_client.cc, run by any number of threads of any
    number of clients, are its operations one after the other. The names are
    non-empty, have no slash and are not spelled like a number. *)
From S2P Require Import Prelude LockServer LockServerCache LockClientCache LockProtocol.
From S2P Require Import ExtentServer ExtentClient CxxString YfsClient System Txn YfsTxn YfsSystem OneClient SharedFile.

(** ** The abstract directory *)

Abbreviation dir := (list (Z * list byte)).

Inductive dir_step (es : dir) : call -> outcome -> dir -> Prop :=
  | ds_create now rnd d name isf :
      name ∉ es.*2 ->
      dir_step es (Y_create now rnd d name isf) (O_inum YFS_OK (Some (rand_inum rnd isf)))
        (es ++ [(rand_inum rnd isf, name)])
  | ds_exists now rnd d name isf :
      name ∈ es.*2 -> dir_step es (Y_create now rnd d name isf) (O_inum YFS_EXIST None) es
  | ds_found now d i name :
      (i, name) ∈ es -> dir_step es (Y_lookup now d (Some name)) (O_found true (Some i)) es
  | ds_not_found now d name :
      name ∉ es.*2 -> dir_step es (Y_lookup now d (Some name)) (O_found false None) es
  | ds_unlink now d pre i name post :
      es = pre ++ (i, name) :: post ->
      dir_step es (Y_unlink now d (Some name)) (O_status YFS_OK) (pre ++ post)
  | ds_unlink_uncached now d i name :      (* the client has never used the file *)
      (i, name) ∈ es -> dir_step es (Y_unlink now d (Some name)) (O_status YFS_NOENT) es
  | ds_unlink_none now d name :
      name ∉ es.*2 -> dir_step es (Y_unlink now d (Some name)) (O_status YFS_NOENT) es.

(** Operations and flushes in their order; every operation returns. *)
Inductive dir_history (es0 : dir) : list entry -> dir -> Prop :=
  | dh_start : dir_history es0 [] es0
  | dh_call h es t c o es' :
      dir_history es0 h es -> dir_step es c o es' -> dir_history es0 (h ++ [H_call t c (Ok o)]) es'
  | dh_flush h es i now x : dir_history es0 h es -> dir_history es0 (h ++ [H_flush i now x]) es.

(** ** Which operations *)

Definition plain (name : list byte) : Prop := name_ok name /\ ~ Forall is_digit name.

(** A directory operation on [d]. *)
Definition on_dir (d : Z) (c : call) : Prop :=
  match c with
  | Y_create _ rnd p name isf => p = d /\ plain name /\ rand_inum rnd isf <> d
  | Y_lookup _ p (Some name) | Y_unlink _ p (Some name) => p = d /\ plain name
  | _ => False
  end.

Definition entry_on_dir (d : Z) (e : entry) : Prop :=
  match e with H_call _ c _ => on_dir d c | H_flush _ _ _ => True end.

(** The most bytes an entry of the history adds to the directory. *)
Definition entry_size (e : entry) : Z :=
  match e with H_call _ (Y_create _ _ _ name _) _ => zlen name + 22 | _ => 0 end.
Definition hist_size (h : list entry) : Z := foldr (fun e n => entry_size e + n) 0 h.

Definition dir_names_ok (d : Z) (es : dir) : Prop :=
  dir_ok es /\ NoDup es.*2 /\ d ∉ es.*1.

(** ** Lemmas *)

Lemma plain_not_inum name es : plain name -> not_an_inum name es.
Proof.
  intros [_ Hn]. apply Forall_forall. intros e _ He. apply Hn. rewrite <- He. apply print_ull_digits.
Qed.

Lemma filename_length i : zlen (filename i) <= 20.
Proof. unfold filename, print_ull, zlen. pose proof (dec_aux_length_le 20 i []). simpl length in *. lia. Qed.

Lemma hist_size_snoc h e : hist_size (h ++ [e]) = hist_size h + entry_size e.
Proof. induction h as [|e' h IH]; simpl; [lia|]. rewrite IH. lia. Qed.

Lemma entry_size_nonneg e : 0 <= entry_size e.
Proof. destruct e as [t [] r|]; simpl; unfold zlen; lia. Qed.

Section ops.
Implicit Types y : yfsx.

(** The directory as the one client has it. *)
Definition has_dir (d : Z) (es : dir) y : Prop := has_file d (enc_dir es) y.

Lemma create_exists now rnd d name isf y es :
  has_dir d es y -> isdir d = true -> dir_ok es -> plain name -> name ∈ es.*2 ->
  exists y', create now rnd d name isf y = (YFS_EXIST, None, y') /\ has_dir d es y'.
Proof.
  intros [Hok Hf] Hdir Hd Hp Hin. pose proof (proj1 Hp) as [Hne Hns]. unfold create. rewrite Hdir.
  destruct (y_get_some (now 0%nat) d y _ Hok (file_not_gone _ _ _ Hf) Hf) as (y1 & -> & Hok1 & Hf1 & _).
  cbn [negb Z.eqb YFS_OK]. unfold str_find.
  destruct (find_dir name es 0 Hd Hns (plain_not_inum _ _ Hp)) as [(pre & i & post & _ & _ & ->)|[Hno _]]; [|done].
  exists (release d y1). split; [done|]. split; [exact Hok1|]. by change (file y1 d = Some (enc_dir es)); rewrite Hf1.
Qed.

Lemma unlink_absent now d name y es :
  has_dir d es y -> isdir d = true -> dir_ok es -> plain name -> name ∉ es.*2 ->
  exists y', unlink now d (Some name) y = Ok (YFS_NOENT, y') /\ has_dir d es y'.
Proof.
  intros [Hok Hf] Hdir Hd Hp Hno. pose proof (proj1 Hp) as [Hne Hns]. unfold unlink. rewrite Hdir.
  destruct (y_get_some (now 0%nat) d y _ Hok (file_not_gone _ _ _ Hf) Hf) as (y1 & -> & Hok1 & Hf1 & _).
  cbn [negb Z.eqb YFS_OK]. unfold str_find.
  destruct (find_dir name es 0 Hd Hns (plain_not_inum _ _ Hp)) as [(pre & i & post & -> & _)|[_ ->]].
  { destruct Hno. rewrite fmap_app, fmap_cons. apply elem_of_app. right. left. }
  exists (release d y1). split; [done|]. split; [exact Hok1|]. by change (file y1 d = Some (enc_dir es)); rewrite Hf1.
Qed.

Lemma unlink_present now d pre i name post y :
  let es := pre ++ (i, name) :: post in
  has_dir d es y -> isdir d = true -> dir_names_ok d es -> plain name -> zlen (enc_dir es) < 2 ^ 64 ->
  exists rs y', unlink now d (Some name) y = Ok (rs, y') /\
    (rs = YFS_OK /\ has_dir d (pre ++ post) y' \/ rs = YFS_NOENT /\ has_dir d es y').
Proof.
  intros es [Hok Hf] Hdir (Hd & Hnd & Hni) Hp Hl.
  assert (Hpre : name ∉ pre.*2).
  { unfold es in Hnd. rewrite fmap_app, fmap_cons in Hnd. apply NoDup_app in Hnd as (_ & Hx & _).
    intros Hin. apply (Hx name Hin). left. }
  assert (Hid : i <> d).
  { intros ->. apply Hni. unfold es. rewrite fmap_app, fmap_cons. apply elem_of_app. right. left. }
  destruct (unlink_remove now d pre i name post y Hok (file_not_gone _ _ _ Hf) Hdir Hf Hd (proj1 Hp)
    (plain_not_inum _ _ Hp) Hpre Hid Hl) as (y1 & y2 & rs & Er & Hok1 & Hf1 & _ & _ & ->).
  destruct (y_remove_spec i (acquire i y1) rs y2 Hok1 Er) as ((Hok2 & Hf2 & _) & _ & Hrs).
  destruct (y_cache (acquire i y1) !! i); destruct Hrs as [-> _]; cbn [negb Z.eqb EXT_OK EXT_NOENT].
  - destruct (y_put (now 1%nat) d _ y2) as [r3 y3] eqn:E3.
    destruct (y_put_spec _ _ _ _ _ _ Hok2 E3) as ((Hok3 & _ & _) & Hfx & _ & -> & _).
    cbn [negb Z.eqb YFS_OK]. eexists _, _. split; [done|]. left. by split.
  - eexists _, _. split; [done|]. right. split; [done|]. split; [exact Hok2|].
    change (file y2 d = Some (enc_dir es)). rewrite Hf2 by done. by rewrite <- Hf, <- Hf1.
Qed.

Lemma dir_names_snoc d es num name :
  dir_names_ok d es -> name_ok name -> name ∉ es.*2 -> num <> d -> is_unsigned 64 num ->
  dir_names_ok d (es ++ [(num, name)]).
Proof.
  intros (Hd & Hnd & Hni) Hn Hno Hne Hu. split_and!.
  - apply Forall_app. split; [done|]. by constructor; [|constructor].
  - rewrite fmap_app. apply NoDup_app. split_and!; [done| |apply NoDup_singleton].
    intros x Hx ->%list_elem_of_singleton. done.
  - rewrite fmap_app. intros [?| ->%list_elem_of_singleton]%elem_of_app; done.
Qed.

Lemma dir_names_remove d pre e post : dir_names_ok d (pre ++ e :: post) -> dir_names_ok d (pre ++ post).
Proof.
  intros (Hd & Hnd & Hni). rewrite !fmap_app, fmap_cons in *. split_and!.
  - apply Forall_app in Hd as [? [_ ?]%Forall_cons]. by apply Forall_app.
  - rewrite fmap_app. apply NoDup_app in Hnd as (H1 & H2 & [_ H3]%NoDup_cons). apply NoDup_app.
    split_and!; [done| |done]. intros x Hx Hy. apply (H2 x Hx). by right.
  - rewrite fmap_app. intros [?|?]%elem_of_app; apply Hni; apply elem_of_app; [by left|right; by right].
Qed.

Lemma enc_dir_remove pre e post : zlen (enc_dir (pre ++ post)) <= zlen (enc_dir (pre ++ e :: post)).
Proof. rewrite !enc_dir_app, enc_dir_cons. unfold zlen. rewrite !length_app. simpl. rewrite !length_app. simpl. lia. Qed.

Lemma enc_dir_snoc es num name : zlen (enc_dir (es ++ [(num, name)])) <= zlen (enc_dir es) + zlen name + 22.
Proof.
  rewrite enc_dir_app, enc_dir_cons. pose proof (filename_length num). unfold zlen in *.
  rewrite !length_app. simpl. rewrite length_app. simpl. lia.
Qed.

(** One operation of the one client on the directory. *)
Definition does (d : Z) (es : dir) (c : call) y : Prop :=
  exists o y' es', call_exec c y = Ok (o, y') /\ dir_step es c o es' /\ has_dir d es' y' /\
    dir_names_ok d es' /\ forall t r, zlen (enc_dir es') <= zlen (enc_dir es) + entry_size (H_call t c r).

Lemma create_does now rnd d name isf es y :
  has_dir d es y -> isdir d = true -> dir_names_ok d es -> plain name -> rand_inum rnd isf <> d ->
  does d es (Y_create now rnd d name isf) y.
Proof.
  intros Hh Hdir Hok Hp Hne. destruct (decide (name ∈ es.*2)) as [Hin|Hno].
  - destruct (create_exists now rnd d name isf y es Hh Hdir (proj1 Hok) Hp Hin) as (y' & E & Hh').
    exists (O_inum YFS_EXIST None), y', es. simpl. rewrite E.
    split_and!; [done|by apply ds_exists|done|done|]. intros t r. unfold zlen. lia.
  - destruct (rand_inum_value rnd isf) as [_ Hr]. destruct Hh as [Hy Hf].
    assert (Hmask : Z.land (rand_inum rnd isf) 0xffffffff = rand_inum rnd isf).
    { change 0xffffffff with (Z.ones 32). rewrite Z.land_ones by lia. by apply Z.mod_small. }
    destruct (create_ok now rnd d name isf y es Hy (file_not_gone _ _ _ Hf) Hdir Hf (proj1 Hok) (proj1 Hp)
      (plain_not_inum _ _ Hp) Hno Hne) as (y' & E & Hy' & Hf' & _). rewrite Hmask in E.
    eexists _, y', (es ++ [(rand_inum rnd isf, name)]). simpl. rewrite E.
    split_and!; [done|by apply ds_create|by split| |].
    + apply dir_names_snoc; [done|apply Hp|done..|]. unfold is_unsigned. lia.
    + intros t r. pose proof (enc_dir_snoc es (rand_inum rnd isf) name). lia.
Qed.

Lemma lookup_does now d name es y :
  has_dir d es y -> isdir d = true -> dir_names_ok d es -> plain name -> zlen (enc_dir es) < 2 ^ 64 ->
  does d es (Y_lookup now d (Some name)) y.
Proof.
  intros [Hy Hf] Hdir Hok Hp Hl.
  destruct (lookup_ok now d name y es Hy (file_not_gone _ _ _ Hf) Hdir Hf (proj1 Hok) (proj1 Hp)
    (plain_not_inum _ _ Hp) Hl) as (y' & Hy' & Hf' & _ & [(pre & i & post & Ees & _ & E)|[Hno E]]);
    eexists _, y', es; simpl; rewrite E; (split_and!; [done| |by split; [|rewrite Hf']|done|simpl; lia]).
  - apply ds_found. rewrite Ees. apply elem_of_app. right. left.
  - by apply ds_not_found.
Qed.

Lemma unlink_does now d name es y :
  has_dir d es y -> isdir d = true -> dir_names_ok d es -> plain name -> zlen (enc_dir es) < 2 ^ 64 ->
  does d es (Y_unlink now d (Some name)) y.
Proof.
  intros Hh Hdir Hok Hp Hl. destruct (decide (name ∈ es.*2)) as [Hin|Hno].
  - apply list_elem_of_fmap in Hin as ([i n] & -> & (pre & post & ->)%list_elem_of_split). simpl in *.
    destruct (unlink_present now d pre i n post y Hh Hdir Hok Hp Hl) as (rs & y' & E & [[-> Hh']|[-> Hh']]).
    + eexists _, y', (pre ++ post). simpl. rewrite E.
      split_and!; [done|by eapply ds_unlink|done|by eapply dir_names_remove|].
      intros t r. pose proof (enc_dir_remove pre (i, n) post). lia.
    + eexists _, y', _. simpl. rewrite E. split_and!; [done| |exact Hh'|done|simpl; lia].
      apply (ds_unlink_uncached _ _ _ i). apply elem_of_app. right. left.
  - destruct (unlink_absent now d name y es Hh Hdir (proj1 Hok) Hp Hno) as (y' & E & Hh').
    eexists _, y', es. simpl. rewrite E. split_and!; [done|by apply ds_unlink_none|done|done|simpl; lia].
Qed.

Lemma call_does d es c y :
  on_dir d c -> has_dir d es y -> isdir d = true -> dir_names_ok d es -> zlen (enc_dir es) < 2 ^ 64 ->
  does d es c y.
Proof.
  intros Hc. destruct c as [| |now rnd p name isf|now p [name|]|now p [name|]| | | |]; try done; simpl in Hc.
  - destruct Hc as (-> & ? & ?). intros. by apply create_does.
  - destruct Hc as (-> & ?). intros. by apply lookup_does.
  - destruct Hc as (-> & ?). intros. by apply unlink_does.
Qed.

Lemma one_client_dir d es0 y0 h y :
  isdir d = true -> has_dir d es0 y0 -> dir_names_ok d es0 ->
  one_client y0 h y -> Forall (entry_on_dir d) h -> zlen (enc_dir es0) + hist_size h < 2 ^ 64 ->
  exists es, dir_history es0 h es /\ has_dir d es y /\ dir_names_ok d es /\
    zlen (enc_dir es) <= zlen (enc_dir es0) + hist_size h.
Proof.
  intros Hdir Hh0 Hok0 Hoc.
  induction Hoc as [|h y t c o y' Hoc IH E|h y t c e Hoc IH E|h y i now x Hoc IH|h y x o Hoc IH Hi Ho];
    intros Hall Hsz.
  - exists es0. split_and!; [constructor|done..|simpl; lia].
  - apply Forall_app in Hall as [Hall [Hc _]%Forall_cons]. rewrite hist_size_snoc in *.
    pose proof (entry_size_nonneg (H_call t c (Ok o))).
    destruct IH as (es & Hdh & Hh & Hok & Hl); [done|lia|].
    destruct (call_does d es c y Hc Hh Hdir Hok ltac:(lia)) as (o' & y2 & es' & E' & Hst & Hh' & Hok' & Hl').
    rewrite E in E'. injection E' as <- <-. exists es'. specialize (Hl' t (Ok o)).
    split_and!; [by eapply dh_call|done|done|lia].
  - apply Forall_app in Hall as [Hall [Hc _]%Forall_cons]. rewrite hist_size_snoc in *.
    pose proof (entry_size_nonneg (H_call t c (Err e))).
    destruct IH as (es & Hdh & Hh & Hok & Hl); [done|lia|].
    destruct (call_does d es c y Hc Hh Hdir Hok ltac:(lia)) as (o' & y2 & es' & E' & _). congruence.
  - apply Forall_app in Hall as [Hall _]. rewrite hist_size_snoc in *. simpl in *.
    destruct IH as (es & Hdh & Hh & Hok & Hl); [done|lia|].
    exists es. split_and!; [by apply dh_flush|by apply flush_file|done|lia].
  - destruct IH as (es & Hdh & Hh & Hok & Hl); [done|lia|]. exists es.
    split_and!; [done|by apply exchange_file|done|lia].
Qed.
End ops.

(** * Properties *)


(** ** Witnesses *)

Module SharedDirExamples.
Import ExtentExamples SystemExamples WorldExamples.

(** A thread of client a creates a file in the empty root directory. *)
Definition mk : call := Y_create (fun _ => 300) 5 1 hello true.
Definition F : Z := rand_inum 5 true.
Definition made : list entry := [H_call t0 mk (Ok (O_inum YFS_OK (Some F)))].

Lemma made_reachable :
  exists w, world_reachable store0 w /\ w_hist w = made /\ forall t c p H, w_thr w t <> W_grow c p H.
Proof.
  eexists. split; [|split].
  - eapply rtc_r.
    + eapply rtc_r.
      * eapply rtc_r.
        -- eapply (get_lock store0 _ _ [] t0 mk F); cycle 3.
           ++ eapply rtc_r.
              ** eapply (first_lock store0 (sys_init store0) (fun _ => W_idle) [] t0 mk 1);
                   [reflexivity..|apply rtc_refl].
              ** eapply (ws_act _ _ _ t0 mk _ 1 (y_get 300 1 [])). rewrite wthr_upd_eq. reflexivity.
           ++ reflexivity.
           ++ reflexivity.
           ++ rewrite wthr_upd_eq. reflexivity.
        -- eapply (ws_act _ _ _ t0 mk _ F (y_put 300 F [])). rewrite wthr_upd_eq. reflexivity.
      * eapply (ws_act _ _ _ t0 mk _ 1 (y_put 300 1 _)). rewrite wthr_upd_eq. reflexivity.
    + eapply (ws_commit _ _ _ t0 mk); [rewrite wthr_upd_eq; reflexivity|].
      split; [set_solver|]. split; [set_solver|]. exact I.
  - reflexivity.
  - intros t c p H. simpl. unfold wthr_upd. repeat case_decide; discriminate.
Qed.
End SharedDirExamples.
Import SharedDirExamples.

