(* ===== verification/LockOrder.v ===== *)
(** * The order of locks

    [create] and [unlink] of src/yfs_client.cc take a second lock while they hold
    the one of the directory. They take it below the directory: an operation that
    waits for a lock holds at most the locks of directories, so as long as second
    locks are those of files nobody waits in a circle. A new directory with an
    unlucky number breaks the rule. *)
From S2P Require Import Prelude LockServer LockServerCache LockClientCache LockProtocol.
From S2P Require Import ExtentServer ExtentClient CxxString YfsClient System Txn YfsTxn YfsSystem.

(** [files_second]: the program takes a second lock only of a file, whatever is
    in the extents. *)
Fixpoint lock_order (files_second : bool) (H : gset Z) (p : yprog) : Prop :=
  match p with
  | Ret _ => True
  | Acq x k =>
      (forall y, y ∈ H -> isfile y = false) /\
      (files_second = true -> H <> ∅ -> isfile x = true) /\ lock_order files_second ({[x]} ∪ H) k
  | Rel x k => lock_order files_second (H ∖ {[x]}) k
  | Act _ _ k => forall a, lock_order files_second H (k a)
  end.

(** [unlink] locks what the directory names, [create] what it draws. *)
Definition second_is_file (c : call) : bool :=
  match c with
  | Y_unlink _ _ _ => false
  | Y_create _ _ _ _ isf => isf
  | _ => true
  end.

Lemma or_fault_lock_order {A} fs H (r : res A) k :
  (forall a, lock_order fs H (k a)) -> lock_order fs H (or_fault r k).
Proof. by destruct r; simpl; auto. Qed.

Lemma isdir_isfile x : isdir x = true -> isfile x = false.
Proof. unfold isdir. by destruct (isfile x). Qed.

Lemma below_dir (d : Z) : isdir d = true -> forall y, y ∈ ({[d]} ∪ ∅ : gset Z) -> isfile y = false.
Proof. intros Hd y Hy. assert (y = d) as -> by set_solver. by apply isdir_isfile. Qed.

Ltac lock_order_step :=
  match goal with
  | |- lock_order _ _ (or_fault _ _) => apply or_fault_lock_order; intros ?
  | |- lock_order _ _ (if ?b then _ else _) => destruct b eqn:?
  | |- lock_order _ _ (match ?o with Some _ => _ | None => _ end) => destruct o
  | |- lock_order _ _ (let '(_, _) := ?p in _) => destruct p
  | |- lock_order _ ∅ (Acq _ _) => split; [by intros ? ?%elem_of_empty|split; [done|]]
  | |- lock_order _ _ (Acq _ _) => split; [by eapply below_dir|split]
  | |- lock_order _ _ (Act _ _ _) => intros ?
  | |- lock_order _ _ (Rel _ _) => cbn [lock_order]
  | |- lock_order _ _ (Ret _) => exact I
  end.

Lemma call_lock_order c : lock_order (second_is_file c) ∅ (call_prog c).
Proof.
  destruct c as [inum fin|inum din|now rnd parent name isf|now parent name|now parent name
    |now ino size off|now ino data off|now fileno size|now ino];
    unfold call_prog, getattr_prog, create_prog, lookup_prog, unlink_prog, read_prog, update_prog;
    cbv zeta; try (destruct name as [[|b name]|]); repeat lock_order_step; simpl; try done.
  all: intros -> _; apply rand_inum_typed.
Qed.

(** ** Who waits for whom *)

Definition waits_for (w : world) (t u : tid) : Prop :=
  exists c x k H, w_thr w t = W_grow c (Acq x k) H /\ x ∈ wheld (w_thr w u).

Definition ordered (thr : tid -> wthread) : Prop :=
  forall t c p H, thr t = W_grow c p H -> lock_order (second_is_file c) H p.

Lemma ordered_upd thr t c p H :
  ordered thr -> lock_order (second_is_file c) H p -> ordered (wthr_upd thr t (W_grow c p H)).
Proof. intros Ho Hp u c' p' H'. unfold wthr_upd. case_decide; [|apply Ho]. by intros [= <- <- <-]. Qed.

Lemma ordered_other thr t w :
  ordered thr -> (forall c p H, w <> W_grow c p H) -> ordered (wthr_upd thr t w).
Proof. intros Ho Hw u c' p' H'. unfold wthr_upd. case_decide; [|apply Ho]. intros ->. by destruct (Hw c' p' H'). Qed.

Lemma world_step_ordered w w' : world_step w w' -> ordered (w_thr w) -> ordered (w_thr w').
Proof.
  intros Hs Ho. destruct Hs as [s thr h t c E|s thr h t c x k H p E|s thr h t c A x f k H E
    |s thr h t c p H E|s thr h t r x k H p E|s thr h t r r' E|s thr h x p|s thr h x i now]; simpl in *.
  - apply ordered_upd; [done|apply call_lock_order].
  - apply ordered_upd; [done|]. by destruct (Ho t _ _ _ E) as (_ & _ & Hk).
  - apply ordered_upd; [done|]. apply (Ho t _ _ _ E).
  - by apply ordered_other.
  - by apply ordered_other.
  - by apply ordered_other.
  - done.
  - done.
Qed.

Lemma world_reachable_ordered st w : world_reachable st w -> ordered (w_thr w).
Proof.
  unfold world_reachable. revert w. apply rtc_ind_r; [by intros t|].
  intros w w' _ Hs Ho. by eapply world_step_ordered.
Qed.

(** A thread that holds the lock of a file waits for nobody. *)
Lemma file_holder_runs w t u x :
  ordered (w_thr w) -> x ∈ wheld (w_thr w t) -> isfile x = true -> ~ waits_for w t u.
Proof.
  intros Ho Hx Hf (c & y & k & H & E & _). destruct (Ho t _ _ _ E) as [Hd _].
  rewrite E in Hx. simpl in Hx. rewrite (Hd x Hx) in Hf. done.
Qed.

(** * Properties *)

(** C18. No circle of waiting threads. As long as every second lock somebody waits
    for is the lock of a file (which [create] of a file guarantees by itself, and
    [unlink] and the creation of directories when the number they found or drew is
    a file's), a thread waits for one that waits for one that does not wait: the
    second holder runs, so no chain of waiting is longer than two and none is
    closed. *)
Theorem no_circular_wait st w t u v z :
  world_reachable st w ->
  (forall t c x k H, w_thr w t = W_grow c (Acq x k) H -> second_is_file c = false -> H <> ∅ ->
     isfile x = true) ->
  waits_for w t u -> waits_for w u v -> ~ waits_for w v z.
Proof.
  intros Ho%world_reachable_ordered Hsec (c & x & k & H & E & Hx) (c' & y & k' & H' & E' & Hy).
  apply (file_holder_runs w v z y Ho Hy).
  destruct (Ho u _ _ _ E') as (_ & Hf & _).
  assert (Hne : H' <> ∅) by (rewrite E' in Hx; simpl in Hx; set_solver).
  destruct (second_is_file c') eqn:Es; [by apply Hf|]. by apply (Hsec u c' y k' H').
Qed.

(** ** Witnesses *)

Module OrderExamples.
Import ExtentExamples SystemExamples WorldExamples.

(** [create] in the root directory. *)
Definition mk (isf : bool) (rnd : Z) : call := Y_create (fun _ => 300) rnd 1 hello isf.
Definition F : Z := rand_inum 5 true.

(** One thread reads a file, another creates a file and draws that number, a
    third lists the root. *)
Definition reader : tid := ("a", 1).
Definition creator : tid := ("a", 2).
Definition lister : tid := ("a", 3).

Definition chain (w : world) : Prop :=
  world_reachable store0 w /\ waits_for w lister creator /\ waits_for w creator reader /\
  forall t c x k H, w_thr w t = W_grow c (Acq x k) H -> second_is_file c = false -> H <> ∅ ->
    isfile x = true.

Lemma chain_exists : exists w, chain w.
Proof.
  eexists. unfold chain. split.
  - eapply rtc_r.
    + eapply rtc_r.
      * eapply (first_lock store0 _ _ [] creator (mk true 5) 1); cycle 4.
        { eapply (first_lock store0 (sys_init store0) (fun _ => W_idle) [] reader (Y_getdata 300 F) F);
            [reflexivity..|apply rtc_refl]. }
        all: reflexivity.
      * eapply (ws_act _ _ _ creator (mk true 5) _ 1 (y_get 300 1 [])). rewrite wthr_upd_eq. reflexivity.
    + by apply (ws_start _ _ _ lister (Y_getdata 300 1)).
  - split_and!.
    + eexists _, _, _, _. split; [reflexivity|]. cbn. set_solver.
    + eexists _, _, _, _. split; [reflexivity|]. cbn. set_solver.
    + intros t c x k H. cbn [w_thr]. unfold wthr_upd. repeat case_decide; intros E Hs; by simplify_eq.
Qed.
End OrderExamples.
Import OrderExamples.

Lemma no_circular_wait_witness : exists w, waits_for w creator reader /\ ~ waits_for w reader lister.
Proof.
  destruct chain_exists as (w & Hr & H1 & H2 & H3). exists w. split; [exact H2|].
  exact (no_circular_wait SystemExamples.store0 w lister creator reader lister Hr H3 H1 H2).
Defined.

(** The rule matters: a new directory that draws the number of its parent makes
    the thread wait for the lock it holds itself. *)
Example create_draws_parent : exists w t, world_reachable SystemExamples.store0 w /\ waits_for w t t.
Proof.
  eexists _, WorldExamples.t0. split.
  - eapply rtc_r.
    + eapply (WorldExamples.first_lock SystemExamples.store0 (sys_init SystemExamples.store0) (fun _ => W_idle) []
        WorldExamples.t0 (mk false 1) 1); [reflexivity..|apply rtc_refl].
    + eapply (ws_act _ _ _ WorldExamples.t0 (mk false 1) _ 1 (y_get 300 1 [])). rewrite wthr_upd_eq. reflexivity.
  - eexists _, _, _, _. split; [reflexivity|]. cbn. set_solver.
Qed.
