(* ===== verification/LockTester.v ===== *)
(** * The lock server's test program

    src/lock_tester.cc: threads that take and release locks through caching lock
    clients and check with a shared table of counters that the server never
    grants a lock twice. The tests run over the cached lock protocol of
    LockProtocol; the checks are shown never to fail, for any number of threads
    and clients and any interleaving. *)
From S2P Require Import Prelude LockServer LockServerCache LockClientCache LockProtocol.

(** ** The checks *)

(** [ct], indexed by the first byte of the lock; [exit(1)] is [None]. *)
Definition ct_index (lid : Z) : Z := Z.land lid 0xff.

Definition check_grant (ct : Z -> Z) (lid : Z) : option (Z -> Z) :=
  let x := ct_index lid in
  if negb (ct x =? 0) then None else Some (fun y => if decide (y = x) then ct x + 1 else ct y).

Definition check_release (ct : Z -> Z) (lid : Z) : option (Z -> Z) :=
  let x := ct_index lid in
  if negb (ct x =? 1) then None else Some (fun y => if decide (y = x) then ct x - 1 else ct y).

(** ** The tests as the calls they make *)

Inductive instr :=
  | T_acquire (cl : string) (lid : Z)
  | T_grant (lid : Z)
  | T_check (lid : Z)
  | T_release (cl : string) (lid : Z).

Definition lock_a : Z := 1.
Definition lock_b : Z := 2.

Section tests.
Context (lc : nat -> string).      (* the clients *)

Definition test1 : list instr :=
  [T_acquire (lc 0) lock_a; T_grant lock_a; T_release (lc 0) lock_a; T_check lock_a;
   T_acquire (lc 0) lock_a; T_grant lock_a; T_release (lc 0) lock_a; T_check lock_a;
   T_acquire (lc 0) lock_a; T_grant lock_a; T_acquire (lc 0) lock_b; T_grant lock_b;
   T_release (lc 0) lock_b; T_check lock_b; T_release (lc 0) lock_a; T_check lock_a].

(** The body tests 2 to 5 share. *)
Definition round (cl : string) : list instr :=
  [T_acquire cl lock_a; T_grant lock_a; T_check lock_a; T_release cl lock_a].
Definition rounds (n : nat) (cl : string) : list instr := concat (replicate n (round cl)).

Definition test2 (i : nat) : list instr := rounds 1 (lc i).
Definition test3 (i : nat) : list instr := rounds 10 (lc i).
Definition test4 (i : nat) : list instr := rounds 10 (lc 0).
Definition test5 (i : nat) : list instr := rounds 10 (if (i <? 5)%nat then lc 0 else lc 1).
End tests.

(** ** Threads over the lock protocol *)

Record tester := Tester {
  ts_locks : Z -> proto;
  ts_ct : Z -> Z;
  ts_thr : nat -> list instr;
  ts_exit : bool                  (* a check has ended the program *)
}.

Definition tlock_upd (f : Z -> proto) (x : Z) (p : proto) : Z -> proto :=
  fun y => if decide (y = x) then p else f y.
Definition tthr_upd (f : nat -> list instr) (n : nat) (k : list instr) : nat -> list instr :=
  fun m => if decide (m = n) then k else f m.

Inductive tester_step : tester -> tester -> Prop :=
  | tt_acquire s n cl l k p :
      ts_thr s n = T_acquire cl l :: k -> proto_step (ts_locks s l) p -> enters (ts_locks s l) cl p ->
      tester_step s (Tester (tlock_upd (ts_locks s) l p) (ts_ct s) (tthr_upd (ts_thr s) n k) (ts_exit s))
  | tt_grant s n l k :
      ts_thr s n = T_grant l :: k ->
      tester_step s
        (match check_grant (ts_ct s) l with
         | Some ct => Tester (ts_locks s) ct (tthr_upd (ts_thr s) n k) (ts_exit s)
         | None => Tester (ts_locks s) (ts_ct s) (ts_thr s) true
         end)
  | tt_check s n l k :
      ts_thr s n = T_check l :: k ->
      tester_step s
        (match check_release (ts_ct s) l with
         | Some ct => Tester (ts_locks s) ct (tthr_upd (ts_thr s) n k) (ts_exit s)
         | None => Tester (ts_locks s) (ts_ct s) (ts_thr s) true
         end)
  | tt_release s n cl l k p :
      ts_thr s n = T_release cl l :: k -> proto_step (ts_locks s l) p -> leaves (ts_locks s l) cl p ->
      tester_step s (Tester (tlock_upd (ts_locks s) l p) (ts_ct s) (tthr_upd (ts_thr s) n k) (ts_exit s))
  | tt_protocol s l p :
      proto_step (ts_locks s l) p -> cs_same (ts_locks s l) p ->
      tester_step s (Tester (tlock_upd (ts_locks s) l p) (ts_ct s) (ts_thr s) (ts_exit s)).

Definition tester_init (thr : nat -> list instr) : tester :=
  Tester (fun _ => proto_init) (fun _ => 0) thr false.
Definition tester_reachable (thr : nat -> list instr) (s : tester) : Prop :=
  rtc tester_step (tester_init thr) s.

(** ** Invariant *)

(** A thread of client [cl]: in the middle of a round, or between two. *)
Inductive at_round (cl : string) : list instr -> bool -> bool -> Prop :=
  | ar_between m : at_round cl (rounds m cl) false false
  | ar_granted m : at_round cl ([T_grant lock_a; T_check lock_a; T_release cl lock_a] ++ rounds m cl) true false
  | ar_counted m : at_round cl ([T_check lock_a; T_release cl lock_a] ++ rounds m cl) true true
  | ar_checked m : at_round cl ([T_release cl lock_a] ++ rounds m cl) true false.

(** [held n]: thread [n] has the lock; [counted n]: it is in the table. *)
Record tester_inv (cl : nat -> string) (s : tester) (held counted : nat -> bool) : Prop := {
  tv_locks : proto_inv (ts_locks s lock_a);
  tv_thr : forall n, at_round (cl n) (ts_thr s n) (held n) (counted n);
  tv_one : forall n m, held n = true -> held m = true -> n = m;
  tv_cs : forall i, k_cs (p_clients (ts_locks s lock_a) i) = true <-> exists n, cl n = i /\ held n = true;
  tv_ct : ts_ct s (ct_index lock_a) = 1 /\ (exists n, counted n = true) \/
          ts_ct s (ct_index lock_a) = 0 /\ (forall n, counted n = false);
  tv_exit : ts_exit s = false
}.

Definition flag_upd (f : nat -> bool) (n : nat) (b : bool) : nat -> bool :=
  fun m => if decide (m = n) then b else f m.

Lemma flag_upd_eq f n b : flag_upd f n b n = b.
Proof. unfold flag_upd. by rewrite decide_True. Qed.
Lemma flag_upd_ne f n b m : m <> n -> flag_upd f n b m = f m.
Proof. intros. unfold flag_upd. by rewrite decide_False. Qed.
Create Rewrite HintDb tester_upd.
#[export] Hint Rewrite flag_upd_eq : tester_upd.
#[export] Hint Rewrite flag_upd_ne using (done || congruence) : tester_upd.

Lemma counted_held cl k h c : at_round cl k h c -> c = true -> h = true.
Proof. by intros []. Qed.

(** What the next call says about a thread. *)
Lemma at_round_next cl i k h c :
  at_round cl (i :: k) h c ->
  (i = T_acquire cl lock_a /\ h = false /\ c = false /\ at_round cl k true false) \/
  (i = T_grant lock_a /\ h = true /\ c = false /\ at_round cl k true true) \/
  (i = T_check lock_a /\ h = true /\ c = true /\ at_round cl k true false) \/
  (i = T_release cl lock_a /\ h = true /\ c = false /\ at_round cl k false false).
Proof.
  intros H. inversion H as [m E|m|m|m]; subst.
  - destruct m as [|m]; [done|]. unfold rounds in E. simpl in E. injection E as <- <-.
    left. split_and!; try done. apply (ar_granted cl m).
  - right. left. split_and!; try done. apply (ar_counted cl m).
  - right. right. left. split_and!; try done. apply (ar_checked cl m).
  - right. right. right. split_and!; try done. apply (ar_between cl m).
Qed.

Lemma thr_at cl s held counted n k h c :
  (forall m, at_round (cl m) (ts_thr s m) (held m) (counted m)) -> at_round (cl n) k h c ->
  forall m, at_round (cl m) (tthr_upd (ts_thr s) n k m) (flag_upd held n h m) (flag_upd counted n c m).
Proof. intros Ht Hk m. unfold tthr_upd, flag_upd. by case_decide; subst. Qed.

Lemma flag_same f n b : f n = b -> forall m, flag_upd f n b m = f m.
Proof. intros <- m. unfold flag_upd. by case_decide; subst. Qed.

Section steps.
Context (cl : nat -> string) (s : tester) (held counted : nat -> bool)
  (Hinv : tester_inv cl s held counted).

Lemma acquire_inv n k p :
  ts_thr s n = T_acquire (cl n) lock_a :: k -> proto_step (ts_locks s lock_a) p ->
  enters (ts_locks s lock_a) (cl n) p -> held n = false -> counted n = false ->
  at_round (cl n) k true false ->
  tester_inv cl (Tester (tlock_upd (ts_locks s) lock_a p) (ts_ct s) (tthr_upd (ts_thr s) n k) (ts_exit s))
    (flag_upd held n true) (flag_upd counted n false).
Proof.
  intros E Hp (Hf & Ht & Ho) Hh Hc Hk. destruct Hinv as [Hl Hthr Hone Hcs Hct Hex].
  assert (Hnone : forall m, held m = false).
  { intros m. destruct (held m) eqn:Em; [|done]. exfalso.
    assert (Hin : k_cs (p_clients (ts_locks s lock_a) (cl m)) = true) by (apply Hcs; eauto).
    assert (Hne : cl m <> cl n) by congruence.
    apply Hne, (inside_one p); [by eapply proto_step_inv|by rewrite Ho|done]. }
  split; simpl.
  - by eapply proto_step_inv.
  - by apply thr_at.
  - intros m m' Hm Hm'. destruct (decide (m = n)) as [->|], (decide (m' = n)) as [->|]; try done;
      autorewrite with tester_upd in *; by rewrite Hnone in *.
  - intros i. split.
    + intros Hi. exists n. rewrite flag_upd_eq. split; [|done].
      apply (inside_one p); [by eapply proto_step_inv|done|done].
    + intros (m & <- & Hm). destruct (decide (m = n)) as [->|]; [done|].
      autorewrite with tester_upd in Hm. by rewrite Hnone in Hm.
  - destruct Hct as [[Hv (m & Hm)]|[Hv Hno]]; [left|right]; (split; [done|]).
    + exists m. by rewrite flag_same.
    + intros m. by rewrite flag_same.
  - done.
Qed.

Lemma release_inv n k p :
  ts_thr s n = T_release (cl n) lock_a :: k -> proto_step (ts_locks s lock_a) p ->
  leaves (ts_locks s lock_a) (cl n) p -> held n = true -> counted n = false ->
  at_round (cl n) k false false ->
  tester_inv cl (Tester (tlock_upd (ts_locks s) lock_a p) (ts_ct s) (tthr_upd (ts_thr s) n k) (ts_exit s))
    (flag_upd held n false) (flag_upd counted n false).
Proof.
  intros E Hp (Hf & Ht & Ho) Hh Hc Hk. destruct Hinv as [Hl Hthr Hone Hcs Hct Hex].
  assert (Hnone : forall m, flag_upd held n false m = false).
  { intros m. destruct (decide (m = n)) as [->|Hne]; autorewrite with tester_upd; [done|].
    destruct (held m) eqn:Em; [|done]. by destruct Hne; apply Hone. }
  split; simpl.
  - by eapply proto_step_inv.
  - by apply thr_at.
  - intros m m' Hm. by rewrite Hnone in Hm.
  - intros i. split.
    + intros Hi. change (k_cs (p_clients p i) = true) in Hi. exfalso.
      destruct (decide (i = cl n)) as [->|Hne]; [congruence|].
      rewrite Ho in Hi by done. apply Hne, (inside_one (ts_locks s lock_a)); done.
    + intros (m & _ & Hm). by rewrite Hnone in Hm.
  - destruct Hct as [[Hv (m & Hm)]|[Hv Hno]]; [left|right]; (split; [done|]).
    + exists m. by rewrite flag_same.
    + intros m. by rewrite flag_same.
  - done.
Qed.

Lemma grant_inv n k :
  ts_thr s n = T_grant lock_a :: k -> held n = true -> counted n = false ->
  at_round (cl n) k true true ->
  exists ct, check_grant (ts_ct s) lock_a = Some ct /\
    tester_inv cl (Tester (ts_locks s) ct (tthr_upd (ts_thr s) n k) (ts_exit s))
      (flag_upd held n true) (flag_upd counted n true).
Proof.
  intros E Hh Hc Hk. destruct Hinv as [Hl Hthr Hone Hcs Hct Hex].
  destruct Hct as [[_ (m & Hm)]|[Hv Hno]].
  { assert (m = n) as ->; [|congruence]. apply Hone; [|done]. by eapply counted_held. }
  unfold check_grant. rewrite Hv. simpl. eexists. split; [done|]. split; simpl; try done.
  - by apply thr_at.
  - intros m m'. rewrite !flag_same by done. apply Hone.
  - intros i. setoid_rewrite (flag_same held n true Hh). apply Hcs.
  - left. split; [done|]. exists n. apply flag_upd_eq.
Qed.

Lemma check_inv n k :
  ts_thr s n = T_check lock_a :: k -> held n = true -> counted n = true ->
  at_round (cl n) k true false ->
  exists ct, check_release (ts_ct s) lock_a = Some ct /\
    tester_inv cl (Tester (ts_locks s) ct (tthr_upd (ts_thr s) n k) (ts_exit s))
      (flag_upd held n true) (flag_upd counted n false).
Proof.
  intros E Hh Hc Hk. destruct Hinv as [Hl Hthr Hone Hcs Hct Hex].
  destruct Hct as [[Hv _]|[_ Hno]]; [|by rewrite Hno in Hc].
  unfold check_release. rewrite Hv. simpl. eexists. split; [done|]. split; simpl; try done.
  - by apply thr_at.
  - intros m m'. rewrite !flag_same by done. apply Hone.
  - intros i. setoid_rewrite (flag_same held n true Hh). apply Hcs.
  - right. split; [done|]. intros m. destruct (decide (m = n)) as [->|Hne]; autorewrite with tester_upd; [done|].
    destruct (counted m) eqn:Em; [|done]. destruct Hne. apply Hone; [|done]. by eapply counted_held.
Qed.

Lemma protocol_inv l p :
  proto_step (ts_locks s l) p -> cs_same (ts_locks s l) p ->
  tester_inv cl (Tester (tlock_upd (ts_locks s) l p) (ts_ct s) (ts_thr s) (ts_exit s)) held counted.
Proof.
  intros Hp Hs. destruct Hinv as [Hl Hthr Hone Hcs Hct Hex]. split; simpl; try done; unfold tlock_upd;
    case_decide as El; subst; try done.
  - by eapply proto_step_inv.
  - intros i. by rewrite Hs.
Qed.
End steps.

Lemma tester_step_inv cl s s' held counted :
  tester_step s s' -> tester_inv cl s held counted ->
  exists held' counted', tester_inv cl s' held' counted'.
Proof.
  intros Hs Hi.
  assert (Hnext : forall n i k, ts_thr s n = i :: k -> at_round (cl n) (i :: k) (held n) (counted n)).
  { intros n i k <-. apply Hi. }
  destruct Hs as [s n c l k p E Hp He|s n l k E|s n l k E|s n c l k p E Hp He|s l p Hp He].
  1-4: pose proof (at_round_next _ _ _ _ _ (Hnext _ _ _ E)) as Hn;
    destruct Hn as [(? & Hh & Hc & Hk)|[(? & Hh & Hc & Hk)|[(? & Hh & Hc & Hk)|(? & Hh & Hc & Hk)]]];
    simplify_eq.
  - do 2 eexists. exact (acquire_inv cl s held counted Hi n k p E Hp He Hh Hc Hk).
  - destruct (grant_inv cl s held counted Hi n k E Hh Hc Hk) as (ct & -> & Hi'). eauto.
  - destruct (check_inv cl s held counted Hi n k E Hh Hc Hk) as (ct & -> & Hi'). eauto.
  - do 2 eexists. exact (release_inv cl s held counted Hi n k p E Hp He Hh Hc Hk).
  - do 2 eexists. exact (protocol_inv cl s held counted Hi l p Hp He).
Qed.

Lemma tester_reachable_inv cl rs s :
  tester_reachable (fun n => rounds (rs n) (cl n)) s -> exists held counted, tester_inv cl s held counted.
Proof.
  unfold tester_reachable. revert s. apply rtc_ind_r.
  - exists (fun _ => false), (fun _ => false). split; simpl; try done.
    + apply proto_init_inv.
    + intros n. apply ar_between.
    + intros i. split; [done|]. by intros (n & _ & ?).
    + by right.
  - intros s s' _ Hs (h & c & Hi). by eapply tester_step_inv.
Qed.

(** * Properties *)

(** C39. The tester passes. With any number of threads, each making any number of
    rounds of test 2, 3, 4 or 5 through any client, and any interleaving of
    threads, servers and messages, neither check ever fails: the counter of the
    lock is 0 when a thread has been granted it and 1 when it is about to
    release it, and the program does not exit. *)
Theorem lock_tester_passes cl rs s :
  tester_reachable (fun n => rounds (rs n) (cl n)) s ->
  ts_exit s = false /\
  (forall n l k, ts_thr s n = T_grant l :: k -> is_Some (check_grant (ts_ct s) l)) /\
  (forall n l k, ts_thr s n = T_check l :: k -> is_Some (check_release (ts_ct s) l)).
Proof.
  intros (h & c & Hi)%tester_reachable_inv. split; [apply Hi|].
  split; intros n l k E; pose proof (tv_thr _ _ _ _ Hi n) as Hn; rewrite E in Hn;
    apply at_round_next in Hn as [(? & Hh & Hc & Hk)|[(? & Hh & Hc & Hk)|[(? & Hh & Hc & Hk)|(? & Hh & Hc & Hk)]]];
    simplify_eq.
  - by destruct (grant_inv cl s h c Hi n k E Hh Hc Hk) as (ct & -> & _).
  - by destruct (check_inv cl s h c Hi n k E Hh Hc Hk) as (ct & -> & _).
Qed.

(** The tests of the program are such rounds; test 1 runs alone, and its checks,
    two of which come after the release, pass in the order it makes them. *)
Definition run_checks (ct : Z -> Z) (k : list instr) : option (Z -> Z) :=
  foldl (fun ct i => match ct with
                     | None => None
                     | Some ct => match i with
                                  | T_grant l => check_grant ct l
                                  | T_check l => check_release ct l
                                  | _ => Some ct
                                  end
                     end) (Some ct) k.

Theorem test1_checks_pass lc :
  exists ct, run_checks (fun _ => 0) (test1 lc) = Some ct /\ forall x, ct x = 0.
Proof.
  eexists. split; [reflexivity|]. intros x. simpl.
  repeat case_decide; subst; simpl; done.
Qed.

(** ** Witnesses *)

Module TesterExamples.
Definition clients (n : nat) : string := if decide (n = 0%nat) then "a" else "b".
Definition start : nat -> list instr := fun n => rounds 1 (clients n).
End TesterExamples.
Import TesterExamples.

(** Thread 0 gets the lock and is counted. *)
Lemma lock_tester_passes_witness :
  exists s, tester_reachable start s /\ ts_thr s 0%nat = [T_check lock_a; T_release "a" lock_a] /\
    is_Some (check_release (ts_ct s) lock_a).
Proof.
  assert (Hr : exists s, tester_reachable start s /\
    ts_thr s 0%nat = [T_check lock_a; T_release "a" lock_a]).
  { eexists. split.
    - unfold tester_reachable.
      eapply rtc_l; [apply (tt_protocol _ 1); [left; by apply (us_rpc proto_init "a" 1)|]|].
      { intros j. simpl. unfold upd. by case_decide; subst. }
      eapply rtc_l; [apply (tt_protocol _ 1); [right; by apply (ns_call _ "a")|]|].
      { intros j. simpl. unfold upd. by repeat case_decide; subst. }
      eapply rtc_l; [apply (tt_protocol _ 1); [right; by apply (ns_server_acquire _ "a" L_OK None (Cache_lock "a" SV_LOCKED ∅))|]|].
      { intros j. simpl. unfold upd. by repeat case_decide; subst. }
      eapply rtc_l; [eapply (tt_acquire _ 0%nat "a" 1);
        [reflexivity|right; by apply (ns_reply _ "a" 1 L_OK true (Client_lock CC_LOCKED 1 0 0))|]|].
      { split_and!; [reflexivity..|]. intros j Hj. simpl. unfold upd. by repeat case_decide; subst. }
      eapply rtc_l; [eapply (tt_grant _ 0%nat 1); reflexivity|]. apply rtc_refl.
    - reflexivity. }
  destruct Hr as (s & Hs & Ht). exists s. split; [exact Hs|]. split; [exact Ht|].
  exact (proj2 (proj2 (lock_tester_passes clients (fun _ => 1%nat) s Hs)) _ _ _ Ht).
Defined.
