(* ===== verification/RpcTest.v ===== *)
(** * The RPC library's test program

    src/rpc/rpctest.cc: a server with four handlers, and clients that call it and
    check the answers. The concurrent, lossy and failure tests are threads as in
    RpcThreads, with the numbers drawn with [random()] as arguments; the simple
    tests, in which calls fail on purpose, go along the wire as in Service and are
    [Err] when one of their VERIFYs, or one of the server's, fails. *)
From S2P Require Import Prelude Marshall RpcUtil RpcClient Connection RpcServer.
From S2P Require Import LockServer LockServerCache LockClientCache ExtentServer Service.
From S2P Require Import RpcSystem RpcServing RpcThreads RpcLive.

Definition NUM_CL : Z := 2.

Definition str (s : string) : list byte := String.list_byte_of_string s.
Definition char_x : byte := byte_of_Z 120.

(** ** The handlers *)

Definition handle_22 (a b r : list byte) (s : unit) : res (Z * list byte * unit) := Ok (0, a ++ b, s).
(** [a + 1] overflows for the largest [int]. *)
Definition handle_fast (a r : Z) (s : unit) : res (Z * Z * unit) := r ← int_result (a + 1); Ok (0, r, s).
Definition handle_slow (a r : Z) (s : unit) : res (Z * Z * unit) := r ← int_result (a + 2); Ok (0, r, s).
(** A negative length becomes a huge one, which [std::string] refuses by throwing. *)
Definition handle_bigrep (len : Z) (r : list byte) (s : unit) : res (Z * list byte * unit) :=
  if len <? 0 then Err Bad_alloc else Ok (0, replicate (Z.to_nat len) char_x, s).

Section rpctest.
Context `{Allocator}.

(** The operators of [int], for the lengths the tests ask for. *)
Definition length_codec : codec Z :=
  Codec put_int get_int 0 (fun a => 0 <= a < 2 ^ 20) (be 4).

#[global] Instance length_codec_ok : CodecOk length_codec.
Proof.
  assert (Hi : forall a, 0 <= a < 2 ^ 20 -> c_valid int_codec a) by (intros a Ha; cbn; unfold is_signed; lia).
  split; intros a Ha%Hi; [apply (codec_put (c := int_codec) a Ha)|apply (codec_get (c := int_codec) a Ha)].
Qed.

Definition startserver (nonce : Z) : res (rpcs unit) :=
  st ← new_rpcs nonce 0;
  st ← reg1 st 22 (reg_2 string_codec string_codec string_codec handle_22);
  st ← reg1 st 23 (reg_1 int_codec int_codec handle_fast);
  st ← reg1 st 24 (reg_1 int_codec int_codec handle_slow);
  reg1 st 25 (reg_1 int_codec string_codec handle_bigrep).

(** ** Marshalling *)

Definition testmarshall : res unit :=
  let rh := mk_req_header 1 2 3 4 5 in
  m ← pack_req_header new_marshall rh;
  _ ← VERIFY (m_ind m =? RPC_HEADER_SZ);
  let i := 12345 in
  let l := 1223344455 in
  let s := str "hallo...." in
  m ← put_int i m;
  m ← put_ull l m;
  m ← put_string s m;
  let '(b, _) := marshall_take_buf m in
  let sz := zlen b in
  _ ← VERIFY (sz =? RPC_HEADER_SZ + 4 + 8 + zlen s + 4);
  '(rh1, un) ← unpack_req_header (new_unmarshall b sz);
  _ ← VERIFY (bool_decide (rh = rh1));
  '(i1, un) ← get_int 0 un;
  '(l1, un) ← get_ull 0 un;
  '(s1, un) ← get_string [] un;
  _ ← VERIFY (okdone un);
  VERIFY ((i1 =? i) && (l1 =? l) && bool_decide (s1 = s)).

(** ** The simple tests *)

(** [hdr proc] is the header of the next request for [proc]. *)
Context (hdr : Z -> req_header).
Context (st : rpcs unit).

Definition call_big (arg : Z) : res (Z * list byte * unit) :=
  wire_call int_codec string_codec st (hdr 25) arg tt.
Definition call_int (proc arg : Z) : res (Z * Z * unit) :=
  wire_call int_codec int_codec st (hdr proc) arg tt.
Definition call_cat (a b : list byte) : res (Z * list byte * unit) :=
  wire_call (pair_codec string_codec string_codec) string_codec st (hdr 22) (a, b) tt.

(** [n1], [n2] and [n3] are the sizes of the big messages; [bind_ret] and [secs]
    the result and the duration of the [bind] to an address nobody listens on. *)
Definition simple_tests_at (n1 n2 n3 bind_ret secs : Z) : res unit :=
  '(ret, rep, _) ← call_cat (str "hello") (str " goodbye");
  _ ← VERIFY (ret =? 0);
  _ ← VERIFY (bool_decide (rep = str "hello goodbye"));
  '(ret, rep, _) ← call_big n1;
  _ ← VERIFY (ret =? 0);
  _ ← VERIFY (zlen rep =? n1);
  (* too few arguments *)
  '(ret, _, _) ← wire_call string_codec string_codec st (hdr 22) (str "just one") tt;
  _ ← VERIFY (ret <? 0);
  (* too many arguments *)
  '(ret, _, _) ← wire_call (pair_codec int_codec int_codec) string_codec st (hdr 23) (1001, 1002) tt;
  _ ← VERIFY (ret <? 0);
  (* wrong types *)
  '(ret, _, _) ← wire_call (pair_codec string_codec string_codec) int_codec st (hdr 23)
    (str "hello", str " goodbye") tt;
  _ ← VERIFY (ret <? 0);
  '(ret, xx, _) ← call_int 23 77;
  _ ← VERIFY ((ret =? 0) && (xx =? 78));
  '(_, rep, _) ← call_cat (replicate (Z.to_nat n2) char_x) (str "x");
  _ ← VERIFY (zlen rep =? n2 + 1);
  '(_, rep, _) ← call_cat (replicate (Z.to_nat n3) char_x) (str "z");
  _ ← VERIFY (zlen rep =? n3 + 1);
  VERIFY ((bind_ret <? 0) && (secs <=? 4)).
Definition simple_tests : Z -> Z -> res unit := simple_tests_at 70000 1000 1000000.
End rpctest.

(** ** The threads *)

Section threads.
Context `{Allocator}.

(** [client1]'s loop of big replies, and [client2], which does not look at the
    status. *)
Fixpoint big_replies (n : Z) (strict : bool) (draws : list Z) (k : thread) : thread :=
  match draws with
  | [] => k
  | d :: draws =>
      let arg := Z.rem d 2000 in
      T_rpc n false 25 length_codec string_codec arg (fun ret rep =>
        t_verify (negb strict || (ret =? 0))
          (t_verify (zlen rep =? arg) (big_replies n strict draws k)))
  end.

Fixpoint out_of_order (n : Z) (draws : list (Z * Z)) (k : thread) : thread :=
  match draws with
  | [] => k
  | (d, d') :: draws =>
      let which := negb (Z.rem d 2 =? 0) in
      let arg := Z.rem d' 1000 in
      T_rpc n false (if which then 23 else 24) int_codec int_codec arg (fun ret rep =>
        t_verify (ret =? 0)
          (t_verify (rep =? if which then arg + 1 else arg + 2) (out_of_order n draws k)))
  end.

(** [n] is the nonce of the client a thread uses. *)
Definition client1 (n : Z) (draws : list Z) (draws' : list (Z * Z)) : thread :=
  big_replies n true draws (out_of_order n draws' T_done).

(** As many rounds as ten seconds allow. *)
Definition client2 (n : Z) (draws : list Z) : thread := big_replies n false draws T_done.

Fixpoint client3_from (n : Z) (rounds : nat) (i : Z) : thread :=
  match rounds with
  | O => T_done
  | S rounds =>
      T_rpc n true 24 int_codec int_codec i (fun ret rep =>
        t_verify ((ret =? timeout_failure) || (rep =? i + 2)) (client3_from n rounds (i + 1)))
  end.
Definition client3 (n : Z) : thread := client3_from n 4 0.

(** The loops of [pthread_create] and [pthread_join]. *)
Fixpoint create_all (ts : list thread) (k : list nat -> thread) : thread :=
  match ts with
  | [] => k []
  | t :: ts => T_fork t (fun j => create_all ts (fun js => k (j :: js)))
  end.
Fixpoint join_all (js : list nat) (k : thread) : thread :=
  match js with [] => k | j :: js => T_join j (join_all js k) end.
Definition run_all (ts : list thread) (k : thread) : thread := create_all ts (fun js => join_all js k).

(** [clients[which_cl]]. *)
Definition which_cl (clients : list Z) (i : nat) : Z :=
  default 0 (clients !! (i mod Z.to_nat NUM_CL)%nat).

(** One pair of [draws] for each thread. *)
Definition concurrent_test (clients : list Z) (draws : list (list Z * list (Z * Z))) (k : thread) : thread :=
  run_all (imap (fun i d => client1 (which_cl clients i) d.1 d.2) draws) k.

(** The loop of [main], which is also in [lossy_test]. *)
Fixpoint bind_all (clients : list Z) (k : thread) : thread :=
  match clients with
  | [] => k
  | n :: clients => T_bind n (fun ret => t_verify (ret =? 0) (bind_all clients k))
  end.

(** [lossy_test] once the server and the clients are new ones; [nt] is 1. *)
Definition lossy_test (clients : list Z) (draws : list Z) (k : thread) : thread :=
  bind_all clients (run_all [client2 (which_cl clients 0) draws] k).

(** [failure_test] from the first replacement of the client, *)
Definition failure_test_client (n : Z) (k : thread) : thread :=
  T_bind n (fun ret => t_verify (ret >=? 0)
    (T_bind n (fun ret => t_verify (ret <? 0)
      (T_rpc n false 22 (pair_codec string_codec string_codec) string_codec (str "hello", str " goodbye")
        (fun ret rep => t_verify (ret =? 0)
          (t_verify (bool_decide (rep = str "hello goodbye"))
            (run_all (replicate 10 (client3 n)) k))))))).
(** and from the replacement of client and server. *)
Definition failure_test_both (n : Z) (k : thread) : thread :=
  T_bind n (fun ret => t_verify (ret >=? 0) (run_all (replicate 10 (client3 n)) k)).
End threads.

(** ** The command line *)

(** The options [getopt] finds, with their numbers. *)
Inductive option_char := O_c | O_s | O_d (n : Z) | O_p (n : Z) | O_l | O_other.

Record settings := Settings {
  isclient : bool; isserver : bool; debug_level : Z; port : Z; rpc_lossy : bool
}.

Definition set_option (s : settings) (o : option_char) : settings :=
  match o with
  | O_c => Settings true (isserver s) (debug_level s) (port s) (rpc_lossy s)
  | O_s => Settings (isclient s) true (debug_level s) (port s) (rpc_lossy s)
  | O_d n => Settings (isclient s) (isserver s) n (port s) (rpc_lossy s)
  | O_p n => Settings (isclient s) (isserver s) (debug_level s) n (rpc_lossy s)
  | O_l => Settings (isclient s) (isserver s) (debug_level s) (port s) true
  | O_other => s
  end.

Definition main_settings (pid : Z) (opts : list option_char) : settings :=
  let s := foldl set_option (Settings false false 0 (20000 + Z.rem pid 10000) false) opts in
  if negb (isserver s) && negb (isclient s) then Settings true true (debug_level s) (port s) (rpc_lossy s) else s.

(** [main] of a process that is server and client, up to the end of the simple
    tests; the other tests follow. *)
Definition main_both `{Allocator} (nonce : Z) (hdr : Z -> req_header) (bind_ret secs : Z) : res unit :=
  _ ← testmarshall;
  st ← startserver nonce;
  simple_tests hdr st bind_ret secs.

(** Without options, or with both, the process is server and client. *)
Lemma main_settings_both pid opts :
  isserver (main_settings pid opts) = true /\ isclient (main_settings pid opts) = true <->
  (O_c ∈ opts <-> O_s ∈ opts).
Proof.
  assert (Hf : forall s, (isclient (foldl set_option s opts) = true <-> isclient s = true \/ O_c ∈ opts) /\
    (isserver (foldl set_option s opts) = true <-> isserver s = true \/ O_s ∈ opts)).
  { induction opts as [|o opts IH]; intros s; cbn [foldl]; [set_solver|].
    destruct (IH (set_option s o)) as [-> ->]. rewrite !elem_of_cons. destruct o; cbn; naive_solver. }
  unfold main_settings. destruct (Hf (Settings false false 0 (20000 + Z.rem pid 10000) false)) as [Hc Hs].
  cbn [isclient isserver] in Hc, Hs. set (s := foldl _ _ _) in *.
  destruct (isserver s) eqn:Es, (isclient s) eqn:Ec; cbn [negb andb isserver isclient]; rewrite ?Es, ?Ec; naive_solver.
Qed.

(** What the server offers, with replies that fit into a message. *)
Definition offered `{Allocator} (nonce : Z) : service unit :=
  {[rpc_bind := bind_method nonce;
    22 := Method _ _ (pair_codec string_codec string_codec) string_codec (fun p => handle_22 p.1 p.2);
    23 := Method _ _ int_codec int_codec handle_fast;
    24 := Method _ _ int_codec int_codec handle_slow;
    25 := Method _ _ length_codec string_codec handle_bigrep]}.

(** ** Lemmas *)

Definition headers_ok (hdr : Z -> req_header) : Prop :=
  forall proc, is_signed 32 proc -> valid_req_header (hdr proc) /\ h_proc (hdr proc) = proc.

Lemma startserver_serves `{Allocator} nonce :
  exists st, startserver nonce = Ok st /\
    serves st 22 (reg_1 (pair_codec string_codec string_codec) string_codec (fun p => handle_22 p.1 p.2)) /\
    serves st 23 (reg_1 int_codec int_codec handle_fast) /\
    serves st 24 (reg_1 int_codec int_codec handle_slow) /\
    serves st 25 (reg_1 int_codec string_codec handle_bigrep).
Proof.
  unfold startserver, new_rpcs. registered. eexists. split; [done|]. split_and!; served.
  apply serves_here. apply reg_2_tuple.
Qed.

Lemma fits_string `{Allocator} s : zlen s < 2 ^ 29 -> fits string_codec s.
Proof.
  intros Hs. unfold fits. cbn [c_valid c_enc string_codec]. change RPC_HEADER_SZ with 24.
  unfold INT_MAX, MAX_MSG in *. split; [lia|]. unfold zlen in *. rewrite length_app, length_be. lia.
Qed.

Lemma fits_strings `{Allocator} a b :
  zlen a < 2 ^ 28 -> zlen b < 2 ^ 28 -> fits (pair_codec string_codec string_codec) (a, b).
Proof.
  intros Ha Hb. unfold fits. cbn [c_valid c_enc string_codec pair_codec fst snd].
  change RPC_HEADER_SZ with 24. unfold INT_MAX, MAX_MSG in *. split; [lia|].
  unfold zlen in *. rewrite !length_app, !length_be. lia.
Qed.

Section calls.
Context `{Allocator} (hdr : Z -> req_header) (Hhdr : headers_ok hdr) (st : rpcs unit).

Lemma call_big_ok arg :
  serves st 25 (reg_1 int_codec string_codec handle_bigrep) -> 0 <= arg < 2 ^ 29 ->
  call_big hdr st arg = Ok (0, replicate (Z.to_nat arg) char_x, tt).
Proof.
  intros Hs Ha. destruct (Hhdr 25) as [Hh Hp]; [done|].
  apply (wire_call_ok int_codec string_codec st (hdr 25) arg tt handle_bigrep).
  - by rewrite Hp.
  - done.
  - apply fits_int. unfold is_signed. lia.
  - apply fits_string. unfold zlen. rewrite length_replicate. lia.
  - unfold INT_MAX. lia.
  - unfold handle_bigrep. by rewrite (proj2 (Z.ltb_ge arg 0)) by lia.
Qed.

Lemma call_cat_ok a b :
  serves st 22 (reg_1 (pair_codec string_codec string_codec) string_codec (fun p => handle_22 p.1 p.2)) ->
  zlen a < 2 ^ 28 -> zlen b < 2 ^ 28 -> call_cat hdr st a b = Ok (0, a ++ b, tt).
Proof.
  intros Hs Ha Hb. destruct (Hhdr 22) as [Hh Hp]; [done|].
  apply (wire_call_ok (pair_codec string_codec string_codec) string_codec st (hdr 22) (a, b) tt
    (fun p => handle_22 p.1 p.2)).
  - by rewrite Hp.
  - done.
  - by apply fits_strings.
  - apply fits_string. unfold zlen in *. rewrite length_app. lia.
  - unfold INT_MAX. lia.
  - done.
Qed.

Lemma rem_small d n : 0 <= d -> 0 < n < 2 ^ 20 -> 0 <= Z.rem d n < 2 ^ 20.
Proof. intros Hd Hn. pose proof (Z.rem_bound_pos d n Hd ltac:(lia)). lia. Qed.

End calls.

(** ** The threads are safe *)

Section safety.
Context `{Allocator} (nonce : Z).

Notation safe := (safe (offered nonce) (fun _ => True) nonce).
Implicit Types (J : gset nat) (C U : gset Z).

Lemma fits_length a : 0 <= a < 2 ^ 20 -> fits length_codec a.
Proof. intros Ha. by split. Qed.

Lemma offered_ok : service_ok (offered nonce).
Proof.
  unfold offered. repeat apply map_Forall_insert_2; [..|apply map_Forall_empty]; (split; [by vm_compute|]);
    (split; [apply _..|]); cbn [me_c me_cr me_fn me_res me_arg bind_method].
  - intros a s ret r s' _ [= <- <- _]. split; [|done]. apply fits_int, wrapS_range; lia.
  - intros [a b] s ret r s' [[Ha Hb] Hroom] [= <- <- _]. split; [|done].
    cbn [c_enc c_valid pair_codec string_codec fst snd] in *. unfold fits. cbn [c_valid c_enc string_codec].
    change RPC_HEADER_SZ with 24 in *. unfold zlen, INT_MAX, MAX_MSG in *.
    rewrite !length_app, ?length_be in *. lia.
  - intros a s ret r s' _. unfold handle_fast, int_result. case_decide; [|done]. intros [= <- <- _].
    split; [by apply fits_int|done].
  - intros a s ret r s' _. unfold handle_slow, int_result. case_decide; [|done]. intros [= <- <- _].
    split; [by apply fits_int|done].
  - intros a s ret r s' [Ha _]. cbn in Ha. unfold handle_bigrep. case_match; [done|]. intros [= <- <- _]. split; [|done].
    apply fits_string. unfold zlen. rewrite length_replicate. lia.
Qed.

Lemma call_big_safe J C U N n arg k :
  n ∈ C -> 0 <= arg < 2 ^ 20 -> safe J C U N (k 0 (replicate (Z.to_nat arg) char_x)) ->
  safe J C U (S N) (T_rpc n false 25 length_codec string_codec arg k).
Proof.
  intros Hn Ha Hk. apply (safe_T_rpc _ _ _ _ _ _ _ _ _ _ _ _ _ _ handle_bigrep); try done.
  intros s _. exists 0, (replicate (Z.to_nat arg) char_x), s. split_and!; try done.
  unfold handle_bigrep. by rewrite (proj2 (Z.ltb_ge arg 0)) by lia.
Qed.

(** [handle_fast] and [handle_slow], which add [d]. *)
Lemma call_int_safe J C U N n short p meth d arg k :
  n ∈ C -> p <> rpc_bind -> offered nonce !! p = Some (Method _ _ int_codec int_codec meth) ->
  (forall r s, meth arg r s = (r ← int_result (arg + d); Ok (0, r, s))) ->
  0 <= arg < 2 ^ 20 -> 0 <= d <= 2 -> safe J C U N (k 0 (arg + d)) ->
  (short = true -> safe J C U N (k timeout_failure 0)) ->
  safe J C U (S N) (T_rpc n short p int_codec int_codec arg k).
Proof.
  intros Hn Hp Hm Hmeth Ha Hd Hk Hto.
  apply (safe_T_rpc _ _ _ _ _ _ _ _ _ _ _ _ _ _ meth); try done; [apply fits_int; unfold is_signed; lia|].
  intros s _. exists 0, (arg + d), s. split_and!; try done.
  rewrite Hmeth, int_result_ok by (unfold is_signed; lia). done.
Qed.

Lemma big_replies_safe J C U N n strict draws k :
  n ∈ C -> Forall (Z.le 0) draws -> safe J C U N k ->
  safe J C U (length draws + N) (big_replies n strict draws k).
Proof.
  intros Hn Hd Hk. induction Hd as [|d draws Hd _ IH]; [done|]. cbn [big_replies length Nat.add].
  pose proof (rem_small d 2000 Hd ltac:(lia)) as Hr. apply call_big_safe; [done..|].
  unfold zlen. rewrite length_replicate, Z2Nat.id, !Z.eqb_refl, orb_true_r by lia. done.
Qed.

Lemma out_of_order_safe J C U N n draws k :
  n ∈ C -> Forall (fun d => 0 <= d.1 /\ 0 <= d.2) draws -> safe J C U N k ->
  safe J C U (length draws + N) (out_of_order n draws k).
Proof.
  intros Hn Hd Hk. induction Hd as [|[d d'] draws [Hd Hd'] _ IH]; [done|]. cbn [out_of_order length Nat.add fst snd] in *.
  pose proof (rem_small d' 1000 Hd' ltac:(lia)) as Hr. destruct (negb (Z.rem d 2 =? 0)).
  - apply (call_int_safe _ _ _ _ _ _ _ handle_fast 1); try done. by rewrite !Z.eqb_refl.
  - apply (call_int_safe _ _ _ _ _ _ _ handle_slow 2); try done. by rewrite !Z.eqb_refl.
Qed.

Lemma client3_safe C n rounds : forall i,
  n ∈ C -> 0 <= i -> i + Z.of_nat rounds < 2 ^ 20 -> safe ∅ C ∅ rounds (client3_from n rounds i).
Proof.
  induction rounds as [|rounds IH]; intros i Hn Hi Hlim; [constructor|]. cbn [client3_from].
  assert (Hk : safe ∅ C ∅ rounds (client3_from n rounds (i + 1))) by (apply IH; [done|lia..]).
  apply (call_int_safe _ _ _ _ _ _ _ handle_slow 2); try done; [lia|]. by rewrite Z.eqb_refl, orb_true_r.
Qed.

Lemma create_all_safe C U N ts : forall Ns J k,
  Forall2 (safe ∅ C ∅) Ns ts ->
  (forall js, length js = length ts -> safe (J ∪ list_to_set js) C U N (k js)) ->
  safe J C U (sum_list (S <$> Ns) + N) (create_all ts k).
Proof.
  induction ts as [|t ts IH]; intros Ns J k Hts Hk; inversion Hts as [|M ? Ns' ? Ht Hts']; subst.
  - specialize (Hk [] eq_refl). by rewrite list_to_set_nil, (right_id_L ∅ (∪)) in Hk.
  - cbn [create_all fmap list_fmap]. replace (sum_list _ + N)%nat with (S (M + (sum_list (S <$> Ns') + N)))%nat by (simpl; lia).
    apply (safe_fork _ _ _ J C U ∅); [set_solver|done|]. intros j. rewrite difference_empty_L.
    apply IH; [done|]. intros js Hlen. specialize (Hk (j :: js) (f_equal S Hlen)).
    rewrite list_to_set_cons in Hk. by rewrite <- (assoc_L (∪)).
Qed.

Lemma join_all_safe J C U N js k :
  (forall j, j ∈ js -> j ∈ J) -> safe J C U N k -> safe J C U (length js + N) (join_all js k).
Proof.
  intros Hj Hk. induction js as [|j js IH]; [done|]. cbn [join_all length Nat.add].
  constructor; [apply Hj; left|]. apply IH. intros j' ?. apply Hj. by right.
Qed.

Lemma run_all_safe J C U N Ns ts k :
  Forall2 (safe ∅ C ∅) Ns ts -> (forall J', safe J' C U N k) ->
  safe J C U (sum_list (S <$> Ns) + (length ts + N)) (run_all ts k).
Proof.
  intros Hts Hk. apply create_all_safe; [done|]. intros js Hlen. rewrite <- Hlen.
  apply join_all_safe; [set_solver|done].
Qed.

Lemma bind_all_safe J N k : forall ns C U,
  NoDup ns -> list_to_set ns ⊆ U -> safe J (C ∪ list_to_set ns) (U ∖ list_to_set ns) N k ->
  safe J C U (length ns + N) (bind_all ns k).
Proof.
  induction ns as [|n ns IH]; intros C U Hnd Hsub Hk.
  - by rewrite list_to_set_nil, (right_id_L ∅ (∪)), difference_empty_L in Hk.
  - inversion Hnd; subst. rewrite list_to_set_cons in *. cbn [bind_all length Nat.add].
    apply safe_T_bind; [done|set_solver|]. cbn [t_verify Z.eqb]. apply IH; [done| |].
    + intros m Hm. apply elem_of_list_to_set in Hm. set_solver.
    + by rewrite <- (assoc_L (∪)), difference_difference_l_L.
Qed.

Lemma which_cl_in ns i : length ns = Z.to_nat NUM_CL -> which_cl ns i ∈ ns.
Proof.
  intros Hlen. unfold which_cl. destruct (lookup_lt_is_Some_2 ns (i mod Z.to_nat NUM_CL)) as [n Hn].
  { rewrite Hlen. apply Nat.mod_upper_bound. vm_compute. lia. }
  rewrite Hn. by eapply list_elem_of_lookup_2.
Qed.

(** What [client1] draws. *)
Definition draws_ok (d : list Z * list (Z * Z)) : Prop :=
  length d.1 = 100%nat /\ length d.2 = 100%nat /\ Forall (Z.le 0) d.1 /\
  Forall (fun p => 0 <= p.1 /\ 0 <= p.2) d.2.

Lemma concurrent_test_safe J C U ns draws :
  length ns = Z.to_nat NUM_CL -> list_to_set ns ⊆ C -> Forall draws_ok draws ->
  safe J C U (sum_list (S <$> replicate (length draws) 200%nat) + (length draws + 0))
    (concurrent_test ns draws T_done).
Proof.
  intros Hns Hsub Hd. unfold concurrent_test.
  set (ts := imap (fun i d => client1 (which_cl ns i) d.1 d.2) draws).
  assert (Hlen : length ts = length draws) by apply length_imap. rewrite <- Hlen.
  apply run_all_safe; [|constructor].
  apply Forall2_same_length_lookup_2; [by rewrite length_replicate|]. intros i N t HN Ht.
  apply lookup_replicate in HN as [-> _]. unfold ts in Ht. rewrite list_lookup_imap in Ht.
  destruct (draws !! i) as [d|] eqn:Ed; [|done]. injection Ht as <-.
  destruct (proj1 (Forall_lookup _ _) Hd i d Ed) as (L1 & L2 & H1 & H2).
  assert (Hin : which_cl ns i ∈ C) by (apply Hsub, elem_of_list_to_set; by apply which_cl_in).
  pose proof (out_of_order_safe ∅ C ∅ 0 _ d.2 T_done Hin H2 (safe_done _ _ _ _ _ _ _)) as Hs.
  pose proof (big_replies_safe _ _ _ _ _ true d.1 _ Hin H1 Hs) as Hs'. by rewrite L1, L2 in Hs'.
Qed.

Lemma client3_all_safe J C U n :
  n ∈ C -> safe J C U 60 (run_all (replicate 10 (client3 n)) T_done).
Proof.
  intros Hn. apply (run_all_safe J C U 0 (replicate 10 4%nat) (replicate 10 (client3 n))); [|constructor].
  apply Forall2_replicate. by apply client3_safe.
Qed.
End safety.

(** ** The program's parts *)

(** A server and clients just started, and what is run with them. *)
Inductive rpctest_part `{Allocator} : list (Z * Z) -> thread -> Prop :=
  | part_concurrent cls draws :
      length cls = Z.to_nat NUM_CL -> length draws = 10%nat -> Forall draws_ok draws ->
      rpctest_part cls (bind_all (client_nonces cls) (concurrent_test (client_nonces cls) draws T_done))
  | part_lossy cls draws :
      length cls = Z.to_nat NUM_CL -> Z.of_nat (length draws) < 2 ^ 30 -> Forall (Z.le 0) draws ->
      rpctest_part cls (lossy_test (client_nonces cls) draws T_done)
  | part_failure_client rnd loss : rpctest_part [(rnd, loss)] (failure_test_client (u32 rnd) T_done)
  | part_failure_both rnd loss : rpctest_part [(rnd, loss)] (failure_test_both (u32 rnd) T_done).

Lemma part_safe `{Allocator} nonce cls t :
  is_unsigned 32 nonce -> rpctest_part cls t -> nonces_ok cls -> exists N, 1 + Z.of_nat N <= XID_LIMIT /\
    safe (offered nonce) (fun _ => True) nonce ∅ ∅ (list_to_set (client_nonces cls)) N t.
Proof.
  intros Hno Ht [Hnd _]. assert (Hlen : length (client_nonces cls) = length cls) by apply length_fmap.
  destruct Ht as [cls draws Hl Hl' Hd|cls draws Hl Hl' Hd|rnd loss|rnd loss].
  - exists (length (client_nonces cls) + (sum_list (S <$> replicate (length draws) 200%nat) + (length draws + 0)))%nat.
    split; [rewrite Hlen, Hl, Hl'; vm_compute; congruence|]. apply bind_all_safe; [done..|].
    apply concurrent_test_safe; [by rewrite Hlen|set_solver|done].
  - exists (length (client_nonces cls) + (sum_list (S <$> [length draws + 0]%nat) + (1 + 0)))%nat.
    split; [rewrite Hlen, Hl; unfold XID_LIMIT; simpl; lia|]. apply bind_all_safe; [done..|].
    apply (run_all_safe _ _ _ _ _ _ [client2 (which_cl (client_nonces cls) 0) draws]); [|constructor].
    repeat constructor. apply big_replies_safe; [|done|constructor].
    apply elem_of_union_r, elem_of_list_to_set, which_cl_in. by rewrite Hlen.
  - exists 63%nat. split; [vm_compute; congruence|]. apply safe_T_bind; [done|set_solver|]. cbn [t_verify Z.geb Z.compare].
    apply safe_T_bind_again; [set_solver|]. cbn [t_verify].
    apply (safe_T_rpc _ _ _ _ _ _ _ _ _ _ _ _ _ _ (fun p => handle_22 p.1 p.2)); try done; [set_solver|].
    intros s _. exists 0, (str "hello goodbye"), s. split_and!; try done.
    rewrite bool_decide_true by done. apply client3_all_safe. set_solver.
  - exists 61%nat. split; [vm_compute; congruence|]. apply safe_T_bind; [done|set_solver|]. cbn [t_verify Z.geb Z.compare].
    apply client3_all_safe. set_solver.
Qed.

Lemma startserver_started `{Allocator} nonce :
  exists st, startserver nonce = Ok st /\ rs_nonce st = u32 nonce /\ just_started (offered (u32 nonce)) st.
Proof.
  unfold startserver, new_rpcs. registered. eexists. split; [done|]. split; [done|].
  split; [apply wrapU_range; lia|done..|].
  intros p m Hm. unfold offered in Hm.
  repeat (apply lookup_insert_Some in Hm as [[<- <-]|[_ Hm]]); [..|by apply lookup_singleton_Some in Hm as [<- <-]; served];
    [| |served..].
  - served.
  - served. apply serves_here. apply reg_2_tuple.
Qed.

(** ** A server that is gone *)

(** The call of [failure_test] to the recovered server with the old client, as one
    pass along the wire: the outcome [call1] returns. *)
Definition old_client_call `{Allocator} {S A} (st : rpcs S) (rc : rpcc) (c : Z) (p : Z) (ca : codec A) (a : A) :
    res (rpcc * caller * Z) :=
  req ← call_1 ca a;
  r ← call1_begin rc p req unmarshall_empty;
  match r with
  | Refused ret => Ok (rc, Caller 0 unmarshall_empty ret true, ret)
  | Begun rc x xr req =>
      let pkt := on_wire (marshall_cstr req) in
      '(_, b) ← dispatch_begin st (Djob pkt (zlen pkt) c);
      match b with
      | B_old_server rep =>
          rc ← rpcc_got_pdu rc (on_wire rep) (zlen (on_wire rep));
          call1_end rc x xr req
      | _ => Err Undefined
      end
  end.

Lemma old_client_refused `{Allocator} {S A} (st : rpcs S) R rc c p (ca : codec A) `{!CodecOk ca} a :
  rpcc_inv R rc -> xid_ rc < XID_LIMIT -> bind_done rc = true -> destroy_wait rc = false ->
  is_unsigned 32 (clt_nonce rc) -> is_unsigned 32 (srv_nonce rc) ->
  srv_nonce rc <> 0 -> srv_nonce rc <> rs_nonce st ->
  p <> rpc_bind -> is_signed 32 p -> fits ca a ->
  exists rc' caller, old_client_call st rc c p ca a = Ok (rc', caller, oldsrv_failure).
Proof.
  intros Hinv Hlim Hbd Hdw Hcn Hsn Hne0 Hne Hp Hps [Ha Hroom].
  destruct (put_new_marshall ca a Ha Hroom) as (m & Em & _).
  destruct (call1_begin_spec ca R rc p a m unmarshall_empty (fun b => be 4 (zlen b)))
    as (xr & req & u' & E & Hxr & Eu & _); try done.
  { rewrite Hbd. by split. }
  pose proof (call1_begin_inv _ _ _ _ _ _ _ _ _ Hinv Hlim E) as Hinv'. pose proof (inv_xid _ _ Hinv) as Hx.
  destruct (pack_reply_header_spec new_marshall (ReplyHeader (xid_ rc) oldsrv_failure) new_marshall_wf) as (rep & Erep & _).
  destruct (refusal_read (xid_ rc) oldsrv_failure rep) as (u & Er & Hu); [lia|by left|done|].
  assert (Hxid : 1 <= xid_ rc < xid_ (begun_state rc unmarshall_empty)) by (cbn [xid_ begun_state]; lia).
  destruct (reply_taken R _ (xid_ rc) (marshall_cstr rep) oldsrv_failure u Hinv' Hxid Er Hu)
    as (cs & wd & Eg & Hslots & Hdone & Hcs).
  destruct (got_pdu_inv R _ _ _ _ Hinv' ltac:(intros h v Eh _; rewrite Er in Eh; by injection Eh as <- _) Eg) as (R' & Hinv2).
  destruct (Hslots (xid_ rc)) as [cl Hcl]; [cbn; rewrite lookup_insert_eq; eauto|].
  assert (Hret : ca_done cl = true /\ ca_intret cl = oldsrv_failure).
  { split; [by apply Hdone|]. destruct (Hcs _ _ Hcl) as [Hold|[_ ?]]; [|done].
    cbn [calls begun_state] in Hold. rewrite lookup_insert_eq in Hold. injection Hold as <-. by specialize (Hdone _ Hcl). }
  destruct Hret as [Hd Hi]. set (rc1 := set_calls _ cs wd) in *.
  destruct (complete_inv R' rc1 (xid_ rc) (delete (xid_ rc) cs) Hinv2) as (wd2 & Ew & _).
  { cbn. lia. } { intros k c' Hk _. by apply lookup_delete_Some in Hk as [_ ?]. } { intros c'. by rewrite lookup_delete_eq. }
  unfold old_client_call, call_1. rewrite Em. cbn [mbind res_bind]. rewrite E. cbn [mbind res_bind].
  unfold dispatch_begin. cbn [dj_buf dj_sz]. change (with_size_field _ _) with (on_wire (marshall_cstr req)) in Eu.
  rewrite Eu. cbn [mbind res_bind u_ok negb h_srv_nonce h_xid].
  rewrite !(proj2 (Z.eqb_neq _ _)) by done. cbn [negb andb]. rewrite Erep. cbn [mbind res_bind].
  rewrite Eg. cbn [mbind res_bind]. unfold call1_end, call1_unlink. rewrite s32_xid by lia.
  cbn [calls rc1 set_calls xid_rep_window]. rewrite Hcl. cbn [xid_rep_window rc1 set_calls] in Ew. rewrite Ew. cbn [mbind res_bind].
  rewrite Hd, Hi. by do 2 eexists.
Qed.

(** ** Wrong arguments *)

Lemma get_string_at_end s u :
  u_ind u = u_sz u -> get_string s u = Ok (s, Unmarshall (u_buf u) (u_sz u) (u_ind u) false).
Proof.
  intros Hi. unfold get_string, get_uint, field, get_rawbyte.
  assert (Hge : (u_ind u >=? u_sz u) = true) by (apply Z.geb_le; lia).
  rewrite Hge. cbn [mbind res_bind u_ind u_sz]. rewrite Hge. cbn [mbind res_bind u_ind u_sz].
  rewrite Hge. cbn [mbind res_bind u_ind u_sz]. rewrite Hge. done.
Qed.

(** One string where the method takes two. *)
Lemma too_few_abort `{Allocator} {S R} (cr : codec R) h (f : handler S) szf a s
    (meth : list byte * list byte -> R -> S -> res (Z * R * S)) :
  (forall args ret s, f args ret s = reg_1 (pair_codec string_codec string_codec) cr meth args ret s) ->
  c_valid string_codec a -> length szf = 4%nat ->
  let pkt := szf ++ enc_req_header h ++ c_enc string_codec a in
  zlen pkt <= INT_MAX ->
  dispatch_run (Job 0 h f (behind_header pkt)) s = Err Verify_failed.
Proof.
  intros Hf Ha Hszf pkt Hmax.
  destruct (behind_header_ok szf h (c_enc string_codec a) Hszf Hmax) as (Hw & Hok & Hrem).
  fold pkt in Hw, Hok, Hrem.
  assert (Hrem' : remaining (behind_header pkt) = c_enc string_codec a ++ []) by (by rewrite app_nil_r).
  destruct (codec_get a Ha _ [] Hw Hok Hrem') as (u & E & Hwu & R0 & O & _ & _).
  assert (Hend : u_ind u = u_sz u).
  { apply (f_equal length) in R0. unfold remaining in R0. destruct Hwu as (? & ? & _).
    unfold zlen in *. rewrite length_drop, length_take in R0. simpl in R0. lia. }
  eapply (bad_args_abort (pair_codec string_codec string_codec) cr h f _ (a, []) _ s meth); [done| |].
  - cbn [c_get pair_codec c_init fst snd]. rewrite E. cbn [mbind res_bind c_get string_codec].
    rewrite get_string_at_end by done. done.
  - done.
Qed.

Lemma simple_tests_third `{Allocator} hdr st n1 n2 n3 bind_ret secs :
  headers_ok hdr ->
  serves st 22 (reg_1 (pair_codec string_codec string_codec) string_codec (fun p => handle_22 p.1 p.2)) ->
  serves st 25 (reg_1 int_codec string_codec handle_bigrep) -> 0 <= n1 < 2 ^ 29 ->
  simple_tests_at hdr st n1 n2 n3 bind_ret secs = Err Verify_failed.
Proof.
  intros Hh H22 H25 Hn. destruct (Hh 22) as [Hv Hp]; [done|]. unfold simple_tests_at.
  rewrite (call_cat_ok hdr Hh st (str "hello") (str " goodbye")) by done. cbn [mbind res_bind].
  change (0 =? 0) with true. cbn [VERIFY mbind res_bind].
  rewrite bool_decide_true by done. cbn [VERIFY mbind res_bind].
  rewrite (call_big_ok hdr Hh st n1) by done. cbn [mbind res_bind].
  change (0 =? 0) with true. cbn [VERIFY mbind res_bind].
  assert (Hz : zlen (replicate (Z.to_nat n1) char_x) = n1)
    by (unfold zlen; rewrite length_replicate; lia).
  rewrite Hz, Z.eqb_refl. cbn [VERIFY mbind res_bind]. destruct H22 as (f & Hl & Hf).
  assert (Hab : wire_call string_codec string_codec st (hdr 22) (str "just one") tt = Err Verify_failed).
  { apply (wire_call_abort string_codec string_codec st (hdr 22) f); [by rewrite Hp|done|by apply fits_string|].
    intros szf Hszf. eapply (too_few_abort string_codec); [exact Hf|done|done|].
    unfold zlen. rewrite !length_app, Hszf. vm_compute. congruence. }
  rewrite Hab. reflexivity.
Qed.

(** * Properties *)

(** The marshalling test passes, whatever the contents of fresh memory: packing
    the header before or after the arguments makes no difference to the
    reader. *)
Theorem testmarshall_passes `{Allocator} : testmarshall = Ok tt.
Proof.
  unfold testmarshall. set (rh := mk_req_header 1 2 3 4 5).
  destruct (pack_req_header_spec new_marshall rh new_marshall_wf) as (m & -> & Hwf & Hind & C).
  cbn [mbind res_bind]. rewrite Hind. change (m_ind new_marshall =? RPC_HEADER_SZ) with true.
  cbn [VERIFY mbind res_bind].
  set (c := pair_codec int_codec (pair_codec ull_codec string_codec)).
  set (a := (12345, (1223344455, str "hallo...."))).
  assert (Ha : c_valid c a) by (vm_compute; split_and!; congruence).
  destruct (codec_put (c := c) a Ha m Hwf) as (m' & E & Hwf' & C').
  { rewrite Hind. vm_compute. done. }
  cbn [c_put c pair_codec int_codec ull_codec string_codec a fst snd] in E.
  destruct (put_int 12345 m) as [m1|]; [|done]. cbn [mbind res_bind] in E |- *.
  destruct (put_ull 1223344455 m1) as [m2|]; [|done]. cbn [mbind res_bind] in E |- *.
  rewrite E. cbn [mbind res_bind marshall_take_buf].
  set (szf := take 4 (marshall_cstr new_marshall)) in C.
  assert (Hl0 : length (marshall_cstr new_marshall) = 24%nat).
  { pose proof (length_cstr _ new_marshall_wf) as Hl. unfold zlen in Hl.
    change (m_ind new_marshall) with 24 in Hl. lia. }
  assert (Hszf : length szf = 4%nat) by (unfold szf; rewrite length_take; lia).
  assert (Hb : marshall_cstr m' = szf ++ enc_req_header rh ++ c_enc c a).
  { rewrite C', C, (drop_ge (marshall_cstr new_marshall)) by lia. by rewrite app_nil_r, <- app_assoc. }
  assert (Hzl : zlen (marshall_cstr m') = 49).
  { rewrite Hb. unfold zlen. rewrite !length_app, Hszf. vm_compute. done. }
  rewrite Hzl. change (49 =? _) with true. cbn [VERIFY mbind res_bind].
  rewrite <- Hzl, Hb, unpack_req_header_spec; [|apply mk_req_header_valid|done|by rewrite <- Hb, Hzl].
  cbn [mbind res_bind]. rewrite bool_decide_true by done. cbn [VERIFY mbind res_bind].
  destruct (read_message_body c (szf ++ enc_req_header rh) a Ha) as (u & Eg & Hd).
  { rewrite length_app, Hszf. done. }
  { by rewrite <- app_assoc, <- Hb, Hzl. }
  rewrite <- app_assoc in Eg. cbn [c_get c c_init pair_codec int_codec ull_codec string_codec fst snd] in Eg.
  set (un := Unmarshall _ _ _ _) in Eg |- *.
  destruct (get_int 0 un) as [[i1 u1]|]; [|done]. cbn [mbind res_bind] in Eg |- *.
  destruct (get_ull 0 u1) as [[l1 u2]|]; [|done]. cbn [mbind res_bind] in Eg |- *.
  destruct (get_string [] u2) as [[s1 u3]|]; [|done]. cbn [mbind res_bind] in Eg |- *.
  unfold a in Eg. injection Eg as -> -> -> ->. rewrite Hd. cbn [VERIFY mbind res_bind].
  by rewrite !Z.eqb_refl, bool_decide_true.
Qed.


(** The test that cannot pass. The third check of [simple_tests] expects a call
    with too few arguments to return a negative status; [dispatch] does not
    return one but fails a VERIFY, so the server process, which is the test's own
    process by default, aborts there. The same holds for the calls with too many
    arguments. *)
Theorem simple_tests_abort `{Allocator} nonce hdr bind_ret secs :
  headers_ok hdr ->
  exists st, startserver nonce = Ok st /\ simple_tests hdr st bind_ret secs = Err Verify_failed /\
    wire_call (pair_codec int_codec int_codec) string_codec st (hdr 23) (1001, 1002) tt = Err Verify_failed.
Proof.
  intros Hh. destruct (startserver_serves nonce) as (st & E & H22 & H23 & H24 & H25).
  exists st. split; [done|]. destruct (Hh 23) as [Hv3 Hp3]; [done|].
  split.
  - unfold simple_tests. apply simple_tests_third; [exact Hh|exact H22|exact H25|lia].
  - destruct H23 as (f & Hl & Hf).
    apply (wire_call_abort (pair_codec int_codec int_codec) string_codec st (hdr 23) f (1001, 1002) tt);
      [by rewrite Hp3|done|by split|].
    intros szf Hszf. cbn [c_enc pair_codec fst snd].
    apply (extra_bytes_abort int_codec int_codec (hdr 23) f szf 1001 _ tt handle_fast); try done.
    unfold enc_req_header, INT_MAX. cbn [c_enc int_codec]. len.
Qed.

(** So rpctest does not pass: run as server and client, which is its default, it
    aborts in the simple tests. *)
Theorem rpctest_aborts `{Allocator} nonce hdr bind_ret secs :
  headers_ok hdr -> main_both nonce hdr bind_ret secs = Err Verify_failed.
Proof.
  intros Hh. unfold main_both. rewrite testmarshall_passes. cbn [mbind res_bind].
  destruct (startserver_serves nonce) as (st & -> & H22 & _ & _ & H25). cbn [mbind res_bind].
  apply simple_tests_third; [exact Hh|exact H22|exact H25|lia].
Qed.

(** ** Witnesses *)

Module RpcTestExamples.
Definition hdr0 (proc : Z) : req_header := mk_req_header 1 proc 5 77 0.
Lemma hdr0_ok : headers_ok hdr0.
Proof.
  intros proc Hp. split; [apply mk_req_header_valid|]. unfold hdr0, mk_req_header. simpl.
  by rewrite wrapS_small by (done || lia).
Qed.
End RpcTestExamples.
Import RpcTestExamples.
#[local] Existing Instance zero_allocator.


Lemma rpctest_aborts_witness : main_both 77 hdr0 (-1) 3 = Err Verify_failed.
Proof. exact (rpctest_aborts 77 hdr0 (-1) 3 hdr0_ok). Defined.

Lemma simple_tests_abort_witness :
  exists st, startserver 77 = Ok st /\ simple_tests hdr0 st (-1) 3 = Err Verify_failed /\
    wire_call (pair_codec int_codec int_codec) string_codec st (hdr0 23) (1001, 1002) tt = Err Verify_failed.
Proof. exact (simple_tests_abort 77 hdr0 (-1) 3 hdr0_ok). Defined.
