(* ===== verification/Threads.v ===== *)
(** * Threads that run a method

    [method_thread] of src/rpc/method_thread.h in its four arities: the object,
    the method and the arguments travel to the new thread in a heap object [XXX],
    which the child reads, deletes and then forgets. Pointers, objects, methods
    and arguments are numbers; the results of the pthread functions are
    arguments. *)
From S2P Require Import Prelude.

(** The closure; the arities differ in the argument fields only. *)
Record XXX := MkXXX { x_o : Z; x_m : Z; x_args : list Z }.

#[export] Instance XXX_eq_dec : EqDecision XXX.
Proof. solve_decision. Defined.

Record threads := Threads {
  th_heap : gmap Z XXX;
  th_ready : list Z;            (* closures of threads that have not started *)
  th_calls : list XXX           (* methods that have been called *)
}.

(** [err] and [dret]: what [pthread_create] and [pthread_detach] return; [None]:
    [exit(1)]. *)
Definition method_thread_parent (x err dret : Z) (detach : bool) (s : threads) : res (option threads) :=
  if negb (err =? 0) then Ok None
  else
    _ ← (if detach then VERIFY (dret =? 0) else Ok tt);
    Ok (Some (Threads (th_heap s) (th_ready s ++ [x]) (th_calls s))).

(** [new XXX] returned [x]. *)
Definition new_closure (x : Z) (c : XXX) (s : threads) : threads :=
  Threads (<[x := c]> (th_heap s)) (th_ready s) (th_calls s).

Definition method_thread_0 (x o m err dret : Z) (detach : bool) (s : threads) : res (option threads) :=
  method_thread_parent x err dret detach (new_closure x (MkXXX o m []) s).
Definition method_thread_1 (x o m a err dret : Z) (detach : bool) (s : threads) : res (option threads) :=
  method_thread_parent x err dret detach (new_closure x (MkXXX o m [a]) s).
Definition method_thread_2 (x o m a1 a2 err dret : Z) (detach : bool) (s : threads) : res (option threads) :=
  method_thread_parent x err dret detach (new_closure x (MkXXX o m [a1; a2]) s).
Definition method_thread_3 (x o m a1 a2 a3 err dret : Z) (detach : bool) (s : threads)
    : res (option threads) :=
  method_thread_parent x err dret detach (new_closure x (MkXXX o m [a1; a2; a3]) s).

(** The two cancellation calls of the child return [c1] and [c2]. *)
Definition method_thread_child (c1 c2 : Z) : res unit :=
  _ ← VERIFY (c1 =? 0); VERIFY (c2 =? 0).

(** The child: copies the fields, deletes the closure, calls the method. *)
Definition yyy (x c1 c2 : Z) (s : threads) : res threads :=
  match th_heap s !! x with
  | None => Err Undefined
  | Some c =>
      _ ← method_thread_child c1 c2;
      Ok (Threads (delete x (th_heap s)) (th_ready s) (th_calls s ++ [c]))
  end.

(** ** Runs *)

Definition thread_call (c : XXX) (x err dret : Z) (detach : bool) (s : threads) : res (option threads) :=
  match x_args c with
  | [] => method_thread_0 x (x_o c) (x_m c) err dret detach s
  | [a] => method_thread_1 x (x_o c) (x_m c) a err dret detach s
  | [a1; a2] => method_thread_2 x (x_o c) (x_m c) a1 a2 err dret detach s
  | [a1; a2; a3] => method_thread_3 x (x_o c) (x_m c) a1 a2 a3 err dret detach s
  | _ => Err Undefined
  end.

(** Threads are started for the calls asked for, oldest first, and begin to run
    in any order. The allocator returns a block that is not in use. *)
Inductive threads_run : list XXX -> threads -> Prop :=
  | tr_init : threads_run [] (Threads ∅ [] [])
  | tr_create asked s c x dret detach s' :
      threads_run asked s -> th_heap s !! x = None ->
      thread_call c x 0 dret detach s = Ok (Some s') -> threads_run (asked ++ [c]) s'
  | tr_child asked s r1 x r2 s' :
      threads_run asked s -> th_ready s = r1 ++ x :: r2 ->
      yyy x 0 0 (Threads (th_heap s) (r1 ++ r2) (th_calls s)) = Ok s' -> threads_run asked s'.

Lemma method_thread_parent_spec x dret detach s s' :
  method_thread_parent x 0 dret detach s = Ok (Some s') ->
  s' = Threads (th_heap s) (th_ready s ++ [x]) (th_calls s).
Proof.
  unfold method_thread_parent. cbn [negb Z.eqb]. intros E. apply res_bind_Ok_inv in E as (_ & _ & E).
  by injection E as <-.
Qed.

Lemma thread_call_spec c x dret detach s s' :
  thread_call c x 0 dret detach s = Ok (Some s') ->
  s' = Threads (<[x := c]> (th_heap s)) (th_ready s ++ [x]) (th_calls s).
Proof.
  unfold thread_call. destruct c as [o m [|a1 [|a2 [|a3 [|a4 l]]]]]; cbn [x_args x_o x_m]; [..|done];
    by intros ->%method_thread_parent_spec.
Qed.

(** Every thread that has not started finds its closure: there is one for each,
    and no other. *)
Record threads_inv (asked : list XXX) (s : threads) : Prop := {
  ti_nodup : NoDup (th_ready s);
  ti_live : forall x, is_Some (th_heap s !! x) <-> x ∈ th_ready s;
  ti_once : exists cs, Forall2 (fun x c => th_heap s !! x = Some c) (th_ready s) cs /\
    th_calls s ++ cs ≡ₚ asked
}.

Lemma child_closure asked s r1 x r2 :
  threads_inv asked s -> th_ready s = r1 ++ x :: r2 ->
  exists c cs1 cs2, th_heap s !! x = Some c /\
    Forall2 (fun x c => th_heap s !! x = Some c) r1 cs1 /\
    Forall2 (fun x c => th_heap s !! x = Some c) r2 cs2 /\
    th_calls s ++ cs1 ++ c :: cs2 ≡ₚ asked /\ x ∉ r1 ++ r2 /\ NoDup (r1 ++ r2).
Proof.
  intros [Hnd Hlive (cs & Hcs & Hp)] E. rewrite E in *.
  apply Forall2_app_inv_l in Hcs as (cs1 & cs' & H1 & H2 & ->).
  apply Forall2_cons_inv_l in H2 as (c & cs2 & Hc & H2 & ->).
  exists c, cs1, cs2. split_and!; try done.
  - rewrite <- Permutation_middle in Hnd. by apply NoDup_cons in Hnd as [? _].
  - rewrite <- Permutation_middle in Hnd. by apply NoDup_cons in Hnd as [_ ?].
Qed.

Lemma Forall2_heap (h h' : gmap Z XXX) xs cs :
  (forall x, x ∈ xs -> h' !! x = h !! x) ->
  Forall2 (fun x c => h !! x = Some c) xs cs -> Forall2 (fun x c => h' !! x = Some c) xs cs.
Proof.
  intros Hh H. induction H as [|x c xs cs Hx _ IH]; constructor.
  - rewrite Hh; [done|left].
  - apply IH. intros y Hy. apply Hh. by right.
Qed.

Lemma threads_run_inv asked s : threads_run asked s -> threads_inv asked s.
Proof.
  induction 1 as [|asked s c x dret detach s' _ IH Hx E|asked s r1 x r2 s' _ IH Er E].
  - split; simpl; [constructor| |by exists []].
    intros x. rewrite lookup_empty. split; [by intros []|by intros ?%elem_of_nil].
  - apply thread_call_spec in E as ->. destruct IH as [Hnd Hlive (cs & Hcs & Hp)].
    assert (Hn : x ∉ th_ready s) by (rewrite <- Hlive, Hx; by intros []).
    split; simpl.
    + apply NoDup_app. split; [done|]. split; [set_solver|apply NoDup_singleton].
    + intros y. rewrite lookup_insert_is_Some, Hlive. set_solver.
    + exists (cs ++ [c]). split; [|by rewrite app_assoc, Hp].
      apply Forall2_app; [|constructor; [apply lookup_insert_eq|constructor]].
      apply (Forall2_heap (th_heap s)); [|done]. intros y Hy. apply lookup_insert_ne. by intros ->.
  - destruct (child_closure asked s r1 x r2 IH Er) as (c & cs1 & cs2 & Hc & H1 & H2 & Hp & Hx & Hnd).
    unfold yyy in E. simpl in E. rewrite Hc in E. simpl in E. injection E as <-.
    assert (Hother : forall y, y ∈ r1 ++ r2 -> delete x (th_heap s) !! y = th_heap s !! y)
      by (intros y Hy; apply lookup_delete_ne; by intros ->).
    split; simpl.
    + done.
    + intros y. rewrite lookup_delete_is_Some, (ti_live _ _ IH), Er. set_solver.
    + exists (cs1 ++ cs2). split; [|rewrite <- Hp, <- !app_assoc; f_equiv; simpl; by rewrite Permutation_middle].
      apply Forall2_app; [apply (Forall2_heap (th_heap s) _ r1)|apply (Forall2_heap (th_heap s) _ r2)];
        try done; intros y Hy; apply Hother; set_solver.
Qed.

(** * Properties *)

(** C40. A thread gets exactly its call. However the starts of threads interleave,
    no child ever touches a closure that has been freed, each closure is freed
    once, by its child, and none is left when all threads have started; the
    methods called are, up to order, a part of those asked for, each with its own
    object and arguments, and all of them once every thread has started. *)
Theorem method_threads_run_once asked s :
  threads_run asked s ->
  (forall x c1 c2, x ∈ th_ready s -> yyy x c1 c2 s <> Err Undefined) /\
  (forall x, is_Some (th_heap s !! x) <-> x ∈ th_ready s) /\
  (exists waiting, th_calls s ++ waiting ≡ₚ asked) /\
  (th_ready s = [] -> th_calls s ≡ₚ asked /\ th_heap s = ∅).
Proof.
  intros Hi%threads_run_inv. pose proof Hi as [Hnd Hlive (cs & Hcs & Hp)]. split_and!.
  - intros x c1 c2 Hx. apply Hlive in Hx as [c Hc]. unfold yyy, method_thread_child. rewrite Hc.
    destruct (c1 =? 0), (c2 =? 0); done.
  - done.
  - by exists cs.
  - intros Er. rewrite Er in *. apply Forall2_nil_inv_l in Hcs as ->. rewrite app_nil_r in Hp.
    split; [done|]. apply map_empty. intros x. apply eq_None_not_Some. rewrite Hlive. set_solver.
Qed.

(** ** Witnesses *)

Module ThreadExamples.
Definition call_a : XXX := MkXXX 100 1 [7].
Definition call_b : XXX := MkXXX 200 2 [8; 9].
Definition done2 : threads := Threads ∅ [] [call_b; call_a].
End ThreadExamples.
Import ThreadExamples.

(** Two threads, the second of which starts first. *)
Lemma method_threads_run_once_witness :
  threads_run [call_a; call_b] done2 /\ th_calls done2 ≡ₚ [call_a; call_b].
Proof.
  assert (Hr : threads_run [call_a; call_b] done2).
  { apply (tr_child _ (Threads {[5 := call_a]} [5] [call_b]) [] 5 [] done2); [|reflexivity..].
    apply (tr_child _ (Threads (<[6 := call_b]> {[5 := call_a]}) [5; 6] []) [5] 6 []); [|reflexivity..].
    apply (tr_create [call_a] (Threads {[5 := call_a]} [5] []) call_b 6 0 true); [|reflexivity..].
    apply (tr_create [] (Threads ∅ [] []) call_a 5 0 true); [constructor|reflexivity..]. }
  split; [exact Hr|].
  exact (proj1 (proj2 (proj2 (proj2 (method_threads_run_once _ _ Hr))) eq_refl)).
Defined.
