(* ===== verification/Posix.v ===== *)
(** * Programs that make system calls

    The tests src/test-lab-3-b.c and src/test-lab-3-c.c are C programs that act
    on two mounts of the file system through system calls, partly from two
    processes at once. This file has what they need of the operating system:
    programs over system calls, what each call may do on a file system both mounts
    show, and the interleavings of the processes. The second half is a
    rely/guarantee logic for such programs. *)
From S2P Require Import Prelude CxxString.

Notation name := (list byte) (only parsing).

(** ** System calls *)

Inductive errno := ENOENT | EEXIST | EBADF.

#[export] Instance errno_eq_dec : EqDecision errno.
Proof. solve_decision. Defined.

Record oflags := Oflags { o_wronly : bool; o_creat : bool; o_append : bool }.
Definition O_RDONLY : oflags := Oflags false false false.

Inductive call :=
  | Creat (p : name) | Open (p : name) (flags : oflags)
  | Read (fd n : Z) | Write (fd : Z) (b : list byte)
  | Lseek (fd off : Z) | Fsync (fd : Z) | Close (fd : Z)
  | Unlink (p : name) | Mkdir (p : name) | Access (p : name)
  | Opendir (p : name) | Readdir (dp : Z) | Closedir (dp : Z)
  | Sleep (secs : Z).

(** The result: a descriptor or an error number; the bytes read, [None] for
    -1; a count; whether the call returned 0; a stream or a null pointer; the name
    of the next entry or a null pointer. *)
Definition answer (c : call) : Type :=
  match c with
  | Creat _ | Open _ _ => Z + errno
  | Read _ _ => option (list byte)
  | Write _ _ | Lseek _ _ => Z
  | Fsync _ | Close _ | Unlink _ | Mkdir _ | Access _ | Closedir _ => bool
  | Opendir _ => option Z
  | Readdir _ => option (list byte)
  | Sleep _ => unit
  end.

(** ** Programs *)

(** [Fork k] continues with 0 in the child and with the child's number in the
    parent; [Wait] with the number reaped and its exit status. [Undef] is what has
    no defined behaviour. *)
Inductive prog (A : Type) :=
  | Ret (a : A)
  | Exit (status : Z)
  | Undef
  | Sys (c : call) (k : answer c -> prog A)
  | Fork (k : Z -> prog A)
  | Wait (pid : Z) (k : Z * Z -> prog A).
Arguments Ret {_} _.
Arguments Exit {_} _.
Arguments Undef {_}.
Arguments Sys {_} _ _.
Arguments Fork {_} _.
Arguments Wait {_} _ _.

#[export] Instance prog_ret : MRet prog := fun _ => Ret.
#[export] Instance prog_bind : MBind prog := fun A B f =>
  fix bind (p : prog A) : prog B :=
  match p with
  | Ret a => f a
  | Exit z => Exit z
  | Undef => Undef
  | Sys c k => Sys c (fun a => bind (k a))
  | Fork k => Fork (fun pid => bind (k pid))
  | Wait pid k => Wait pid (fun r => bind (k r))
  end.

Definition sys (c : call) : prog (answer c) := Sys c Ret.
Definition fork : prog Z := Fork Ret.
Definition waitpid (pid : Z) : prog (Z * Z) := Wait pid Ret.
(** [if (!b) exit(1);] *)
Definition require (b : bool) : prog unit := if b then Ret tt else Exit 1.

(** ** The file system *)

Definition in_dir (d f : name) : name := d ++ slash :: f.

(** A path up to its last slash, and the rest. *)
Fixpoint split_path (p : name) : option (name * name) :=
  match p with
  | [] => None
  | b :: p =>
      match split_path p with
      | Some (d, f) => Some (b :: d, f)
      | None => if decide (b = slash) then Some ([], p) else None
      end
  end.

(** A directory mounted twice: a path to a directory leads to its number,
    whichever mount point it goes through. A file keeps its number; the contents
    of a number are kept after its name is gone. *)
Record fs := Fs {
  fs_mounts : list name;
  fs_dirs : gmap name Z;
  fs_ents : gmap Z (gmap name Z);
  fs_data : gmap Z (list byte)
}.

Definition set_ents (s : fs) (e : gmap Z (gmap name Z)) : fs :=
  Fs (fs_mounts s) (fs_dirs s) e (fs_data s).
Definition set_data (s : fs) (d : gmap Z (list byte)) : fs :=
  Fs (fs_mounts s) (fs_dirs s) (fs_ents s) d.

(** Open files and directory streams belong to a process. *)
Record ofile := Ofile { of_ino : Z; of_off : Z; of_wr : bool; of_app : bool }.
Record stream := Stream { ds_dir : Z; ds_init : gmap name Z; ds_seen : gset name }.
Record files := Files { fl_fds : gmap Z ofile; fl_dirs : gmap Z stream }.
Definition no_files : files := Files ∅ ∅.
Definition set_fds (l : files) (m : gmap Z ofile) : files := Files m (fl_dirs l).
Definition set_streams (l : files) (m : gmap Z stream) : files := Files (fl_fds l) m.

Definition resolve (s : fs) (p : name) : option (Z * name * gmap name Z) :=
  '(d, f) ← split_path p; D ← fs_dirs s !! d; es ← fs_ents s !! D; Some (D, f, es).

Definition link (s : fs) (D : Z) (f : name) (es : gmap name Z) (ino : Z) : fs :=
  Fs (fs_mounts s) (fs_dirs s) (<[D := <[f := ino]> es]> (fs_ents s)) (<[ino := []]> (fs_data s)).

(** A new descriptor for [ino]. *)
Definition opens (l : files) (ino : Z) (wr app : bool) (fd : Z) (l' : files) : Prop :=
  0 <= fd /\ fl_fds l !! fd = None /\ l' = set_fds l (<[fd := Ofile ino 0 wr app]> (fl_fds l)).

(** Bytes written at an offset; a gap is filled with zeros. *)
Definition splice (c : list byte) (off : Z) (b : list byte) : list byte :=
  let n := Z.to_nat off in
  take n (c ++ replicate (n - length c) Byte.x00) ++ b ++ drop (n + length b) c.

Definition dot_name (f : name) : Prop := f = [byte_of_Z 46] \/ f = [byte_of_Z 46; byte_of_Z 46].

(** What a call may do. A name that exists may also be refused by a creating
    call, which is what a racing creation looks like to its loser. [readdir] may
    or may not show what was created or removed while the stream is open. *)
Definition fs_call (s : fs) (l : files) (c : call) : answer c -> fs -> files -> Prop :=
  match c return answer c -> fs -> files -> Prop with
  | Creat p => fun a s' l' =>
      match resolve s p with
      | None => a = inr ENOENT /\ s' = s /\ l' = l
      | Some (D, f, es) =>
          match es !! f with
          | None => exists fd ino, fs_data s !! ino = None /\ a = inl fd /\
              s' = link s D f es ino /\ opens l ino true false fd l'
          | Some ino =>
              (exists fd, a = inl fd /\ s' = set_data s (<[ino := []]> (fs_data s)) /\
                 opens l ino true false fd l') \/
              (a = inr EEXIST /\ s' = s /\ l' = l)
          end
      end
  | Open p fl => fun a s' l' =>
      match resolve s p with
      | None => a = inr ENOENT /\ s' = s /\ l' = l
      | Some (D, f, es) =>
          match es !! f with
          | None =>
              if o_creat fl then exists fd ino, fs_data s !! ino = None /\ a = inl fd /\
                s' = link s D f es ino /\ opens l ino (o_wronly fl) (o_append fl) fd l'
              else a = inr ENOENT /\ s' = s /\ l' = l
          | Some ino =>
              (exists fd, a = inl fd /\ s' = s /\ opens l ino (o_wronly fl) (o_append fl) fd l') \/
              (o_creat fl = true /\ a = inr EEXIST /\ s' = s /\ l' = l)
          end
      end
  | Read fd n => fun a s' l' => s' = s /\
      match fl_fds l !! fd with
      | Some (Ofile ino off false app) =>
          exists c, fs_data s !! ino = Some c /\
            let b := take (Z.to_nat n) (drop (Z.to_nat off) c) in
            a = Some b /\ l' = set_fds l (<[fd := Ofile ino (off + zlen b) false app]> (fl_fds l))
      | _ => a = None /\ l' = l
      end
  | Write fd b => fun a s' l' =>
      match fl_fds l !! fd with
      | Some (Ofile ino off true app) =>
          exists c, fs_data s !! ino = Some c /\
            let off := if app then zlen c else off in
            a = zlen b /\ s' = set_data s (<[ino := splice c off b]> (fs_data s)) /\
            l' = set_fds l (<[fd := Ofile ino (off + zlen b) true app]> (fl_fds l))
      | _ => a = -1 /\ s' = s /\ l' = l
      end
  | Lseek fd off => fun a s' l' => s' = s /\
      match fl_fds l !! fd with
      | Some (Ofile ino _ wr app) =>
          if 0 <=? off then a = off /\ l' = set_fds l (<[fd := Ofile ino off wr app]> (fl_fds l))
          else a = -1 /\ l' = l
      | None => a = -1 /\ l' = l
      end
  | Fsync fd => fun a s' l' =>
      a = bool_decide (is_Some (fl_fds l !! fd)) /\ s' = s /\ l' = l
  | Close fd => fun a s' l' =>
      a = bool_decide (is_Some (fl_fds l !! fd)) /\ s' = s /\ l' = set_fds l (delete fd (fl_fds l))
  | Unlink p => fun a s' l' => l' = l /\
      match resolve s p with
      | Some (D, f, es) =>
          if decide (is_Some (es !! f)) then a = true /\ s' = set_ents s (<[D := delete f es]> (fs_ents s))
          else a = false /\ s' = s
      | None => a = false /\ s' = s
      end
  | Mkdir p => fun a s' l' => l' = l /\
      match split_path p with
      | Some (m, x) =>
          if decide (m ∈ fs_mounts s /\ fs_dirs s !! p = None) then
            exists D, fs_ents s !! D = None /\ a = true /\
              s' = Fs (fs_mounts s)
                     (foldr (fun m M => <[in_dir m x := D]> M) (fs_dirs s) (fs_mounts s))
                     (<[D := ∅]> (fs_ents s)) (fs_data s)
          else a = false /\ s' = s
      | None => a = false /\ s' = s
      end
  | Access p => fun a s' l' =>
      a = bool_decide (is_Some (fs_dirs s !! p) \/
            is_Some ('(_, f, es) ← resolve s p; (es : gmap name Z) !! f)) /\ s' = s /\ l' = l
  | Opendir p => fun a s' l' => s' = s /\
      match fs_dirs s !! p ≫= fun D => pair D <$> fs_ents s !! D with
      | Some (D, es) => exists dp, fl_dirs l !! dp = None /\ a = Some dp /\
          l' = set_streams l (<[dp := Stream D es ∅]> (fl_dirs l))
      | None => a = None /\ l' = l
      end
  | Readdir dp => fun a s' l' => s' = s /\
      match fl_dirs l !! dp with
      | None => a = None /\ l' = l
      | Some (Stream D init seen) =>
          let es := default ∅ (fs_ents s !! D) in
          match a with
          | Some f => f ∉ seen /\ (f ∈ dom es \/ f ∈ dom init \/ dot_name f) /\
              l' = set_streams l (<[dp := Stream D init ({[f]} ∪ seen)]> (fl_dirs l))
          | None => (forall f ino, init !! f = Some ino -> es !! f = Some ino -> f ∈ seen) /\ l' = l
          end
      end
  | Closedir dp => fun a s' l' =>
      a = bool_decide (is_Some (fl_dirs l !! dp)) /\ s' = s /\
      l' = set_streams l (delete dp (fl_dirs l))
  | Sleep _ => fun _ s' l' => s' = s /\ l' = l
  end.

(** ** Processes *)

Inductive proc :=
  | Running (l : files) (p : prog unit)
  | Zombie (status : Z)
  | Crashed.

Record world := World { wd_fs : fs; wd_procs : gmap Z proc }.

(** Any process makes its next call. A child gets the parent's descriptors;
    what the two share of an open file is not modelled. *)
Inductive world_step : world -> world -> Prop :=
  | w_sys s ps pid l c k a s' l' :
      ps !! pid = Some (Running l (Sys c k)) -> fs_call s l c a s' l' ->
      world_step (World s ps) (World s' (<[pid := Running l' (k a)]> ps))
  | w_fork s ps pid l k pid' :
      ps !! pid = Some (Running l (Fork k)) -> 0 < pid' -> ps !! pid' = None ->
      world_step (World s ps) (World s (<[pid' := Running l (k 0)]> (<[pid := Running l (k pid')]> ps)))
  | w_wait s ps pid l pid' k z :
      ps !! pid = Some (Running l (Wait pid' k)) -> ps !! pid' = Some (Zombie z) ->
      world_step (World s ps) (World s (<[pid := Running l (k (pid', z))]> (delete pid' ps)))
  | w_exit s ps pid l z :
      ps !! pid = Some (Running l (Exit z)) ->
      world_step (World s ps) (World s (<[pid := Zombie z]> ps))
  | w_return s ps pid l :
      ps !! pid = Some (Running l (Ret tt)) ->
      world_step (World s ps) (World s (<[pid := Zombie 0]> ps))
  | w_undef s ps pid l :
      ps !! pid = Some (Running l Undef) ->
      world_step (World s ps) (World s (<[pid := Crashed]> ps)).
