(* ===== verification/PosixLogic.v ===== *)
(** * Rely/guarantee reasoning for programs that make system calls

    [ok e p l x Φ]: whatever the other process does within the rely of [e],
    program [p] with open files [l] is never stuck, never undefined, exits only
    with status 0, keeps the guarantee of [e] at every call and ends in [Φ].
    [world_ok] carries it to all interleavings of a parent and its child, and
    [bounded] counts the steps a program can make. *)
From S2P Require Import Prelude CxxString Posix.

(** ** Well-formed file systems *)

Definition entry (s : fs) (D : Z) (f : list byte) : option Z := fs_ents s !! D ≫= fun es => es !! f.

(** No two names lead to one number, and every number named has contents. *)
Record fs_wf (s : fs) : Prop := {
  wf_inj : forall D f D' f' ino,
    entry s D f = Some ino -> entry s D' f' = Some ino -> D = D' /\ f = f';
  wf_data : forall D f ino, entry s D f = Some ino -> is_Some (fs_data s !! ino)
}.

Lemma resolve_Some s p D f es :
  resolve s p = Some (D, f, es) <->
  exists d, split_path p = Some (d, f) /\ fs_dirs s !! d = Some D /\ fs_ents s !! D = Some es.
Proof.
  unfold resolve. destruct (split_path p) as [[d f']|]; simpl; [|by split; [|intros (? & ? & _)]].
  split.
  - intros (D' & HD & (es' & He & [= <- <- <-])%bind_Some)%bind_Some. by exists d.
  - intros (d' & [= <- <-] & HD & He). rewrite HD. simpl. by rewrite He.
Qed.

Lemma split_in_dir d f : slash ∉ f -> split_path (in_dir d f) = Some (d, f).
Proof.
  intros Hf. unfold in_dir. induction d as [|b d IH]; cbn [app split_path].
  - assert (Hs : split_path f = None); [|rewrite Hs; by rewrite decide_True].
    induction f as [|c f IH]; [done|]. cbn [split_path]. apply not_elem_of_cons in Hf as [Hc Hf].
    rewrite IH by done. by rewrite decide_False.
  - by rewrite IH.
Qed.

Lemma entry_lookup s D es f : fs_ents s !! D = Some es -> entry s D f = es !! f.
Proof. intros E. unfold entry. by rewrite E. Qed.

Lemma entry_set_data s d D f : entry (set_data s d) D f = entry s D f.
Proof. done. Qed.

Lemma entry_insert s D' es' D f :
  entry (set_ents s (<[D' := es']> (fs_ents s))) D f = if decide (D = D') then es' !! f else entry s D f.
Proof.
  unfold entry. cbn [fs_ents set_ents]. case_decide as E.
  - subst. by rewrite lookup_insert_eq.
  - by rewrite lookup_insert_ne.
Qed.

Lemma entry_link s D f es ino D' f' :
  fs_ents s !! D = Some es ->
  entry (link s D f es ino) D' f' = if decide (D' = D /\ f' = f) then Some ino else entry s D' f'.
Proof.
  intros He. unfold entry at 1. cbn [fs_ents link]. destruct (decide (D' = D)) as [->|Hne].
  - rewrite lookup_insert_eq. simpl. destruct (decide (f' = f)) as [->|Hf].
    + by rewrite lookup_insert_eq, decide_True.
    + rewrite lookup_insert_ne, decide_False by naive_solver. by rewrite (entry_lookup _ _ es).
  - rewrite lookup_insert_ne, decide_False by naive_solver. done.
Qed.

Lemma link_wf s D f es ino :
  fs_wf s -> fs_ents s !! D = Some es -> fs_data s !! ino = None -> fs_wf (link s D f es ino).
Proof.
  intros [Hinj Hd] He Hino. split.
  - intros D1 f1 D2 f2 i. rewrite !entry_link by done. repeat case_decide; [naive_solver| | |by apply Hinj].
    + intros [= <-] Hi. apply Hd in Hi. rewrite Hino in Hi. by destruct Hi.
    + intros Hi [= <-]. apply Hd in Hi. rewrite Hino in Hi. by destruct Hi.
  - intros D1 f1 i. rewrite entry_link by done. cbn [fs_data link]. case_decide.
    + intros [= <-]. by rewrite lookup_insert_eq.
    + intros Hi%Hd. rewrite lookup_insert_ne; [done|]. intros <-. rewrite Hino in Hi. by destruct Hi.
Qed.

Lemma set_data_wf s ino c : fs_wf s -> fs_wf (set_data s (<[ino := c]> (fs_data s))).
Proof.
  intros [Hinj Hd]. split; [done|]. intros D f i Hi. cbn [fs_data set_data].
  apply lookup_insert_is_Some'. right. by eapply Hd.
Qed.

Lemma unlink_wf s D f es :
  fs_wf s -> fs_ents s !! D = Some es -> fs_wf (set_ents s (<[D := delete f es]> (fs_ents s))).
Proof.
  intros [Hinj Hd] He.
  assert (Hsub : forall D' f' i, entry (set_ents s (<[D := delete f es]> (fs_ents s))) D' f' = Some i ->
    entry s D' f' = Some i).
  { intros D' f' i. rewrite entry_insert. case_decide as E; [|done]. subst.
    intros [_ ?]%lookup_delete_Some. by rewrite (entry_lookup _ _ es). }
  split; [intros D1 f1 D2 f2 i H1%Hsub H2%Hsub; by eapply Hinj|].
  intros D' f' i Hi%Hsub. by eapply Hd.
Qed.

Lemma mkdir_wf s D M :
  fs_wf s -> fs_ents s !! D = None -> fs_wf (Fs (fs_mounts s) M (<[D := ∅]> (fs_ents s)) (fs_data s)).
Proof.
  intros [Hinj Hd] He.
  assert (Hsub : forall D' f' i, entry (Fs (fs_mounts s) M (<[D := ∅]> (fs_ents s)) (fs_data s)) D' f' = Some i ->
    entry s D' f' = Some i).
  { intros D' f' i. unfold entry. cbn [fs_ents]. destruct (decide (D' = D)) as [->|].
    - rewrite lookup_insert_eq. simpl. by rewrite lookup_empty.
    - by rewrite lookup_insert_ne. }
  split; [intros D1 f1 D2 f2 i H1%Hsub H2%Hsub; by eapply Hinj|].
  intros D' f' i Hi%Hsub. by eapply Hd.
Qed.

Lemma fs_call_wf s l c a s' l' : fs_call s l c a s' l' -> fs_wf s -> fs_wf s'.
Proof.
  intros E Hw. destruct c; cbn [fs_call] in E;
    repeat first
      [ progress destruct_and?
      | match goal with
        | H : context [match resolve ?s ?p with _ => _ end] |- _ =>
            destruct (resolve s p) as [[[? ?] ?]|] eqn:?
        | H : context [match ?m !! ?i with _ => _ end] |- _ => destruct (m !! i) eqn:?
        | H : context [match split_path ?p with _ => _ end] |- _ => destruct (split_path p) as [[? ?]|] eqn:?
        | H : context [if ?b then _ else _] |- _ => destruct b
        | H : context [match ?o with Ofile _ _ _ _ => _ end] |- _ => destruct o as [? ? [] ?]
        | H : resolve _ _ = Some _ |- _ => apply resolve_Some in H as (? & ? & ? & ?)
        | H : _ \/ _ |- _ => destruct H
        | H : ex _ |- _ => destruct H
        end ]; subst; eauto using link_wf, set_data_wf, unlink_wf, mkdir_wf.
Qed.

(** ** Programs in an environment *)

(** What each of the two processes, parent first, has emptied and not yet
    written; only the sections in which both write the same files use it. *)
Definition ghost : Type := option Z * option Z.
Definition st : Type := fs * ghost.

Record mode := Mode { m_rely : relation st; m_guar : relation st }.

(** The first process by itself; a child, which ends in [Q]; a parent whose
    child [pid] will have ended in [Q]. *)
Inductive env :=
  | Alone
  | Child (m : mode) (Q : st -> Prop)
  | Parent (m : mode) (pid : Z) (Q : st -> Prop).

Definition env_rely (e : env) : relation st :=
  match e with Alone => eq | Child m _ | Parent m _ _ => m_rely m end.
Definition env_guar (e : env) : relation st :=
  match e with Alone => fun _ _ => True | Child m _ | Parent m _ _ => m_guar m end.

Record compat (mc mp : mode) (Q : st -> Prop) : Prop := {
  cp_pre_c : PreOrder (m_rely mc);
  cp_pre_p : PreOrder (m_rely mp);
  cp_child : forall x y, m_guar mc x y -> m_rely mp x y;
  cp_parent : forall x y, m_guar mp x y -> m_rely mc x y;
  cp_post : forall x y, Q x -> m_rely mc x y -> Q y
}.

Fixpoint ok {A} (e : env) (p : prog A) (l : files) (x : st)
    (Φ : env -> A -> files -> st -> Prop) {struct p} : Prop :=
  forall x', env_rely e x x' -> fs_wf x'.1 ->
  match p with
  | Ret a => Φ e a l x'
  | Undef => False
  | Exit z => z = 0 /\ match e with Alone => True | Child _ Q => Q x' | Parent _ _ _ => False end
  | Sys c k =>
      (exists a s' l', fs_call x'.1 l c a s' l') /\
      forall a s' l', fs_call x'.1 l c a s' l' ->
        exists g', env_guar e x' (s', g') /\ ok e (k a) l' (s', g') Φ
  | Fork k =>
      e = Alone /\ l = no_files /\ exists mc mp Q g, compat mc mp Q /\
        ok (Child mc Q) (k 0) l (x'.1, g) Φ /\
        forall pid, 0 < pid -> ok (Parent mp pid Q) (k pid) l (x'.1, g) Φ
  | Wait pid k =>
      match e with
      | Parent m pid' Q => pid = pid' /\ (Q x' -> ok Alone (k (pid, 0)) l x' Φ)
      | _ => False
      end
  end.

(** The rely of every environment in use is a preorder. *)
Definition env_pre (e : env) : Prop := PreOrder (env_rely e).

Lemma alone_pre : env_pre Alone.
Proof. split; [by intros x|by intros x y z -> ->]. Qed.

Lemma ok_stable {A} e (p : prog A) l x y Φ :
  env_pre e -> env_rely e x y -> ok e p l x Φ -> ok e p l y Φ.
Proof.
  intros Hpre Hxy Hok. destruct p; intros x' Hy Hw;
    exact (Hok x' (@transitivity _ _ (@PreOrder_Transitive _ _ Hpre) _ _ _ Hxy Hy) Hw).
Qed.

Lemma ok_intro {A} e (p : prog A) l x Φ :
  env_pre e -> (forall y, env_rely e x y -> fs_wf y.1 -> ok e p l y Φ) -> ok e p l x Φ.
Proof. intros Hpre Hok. destruct p; intros y Hy Hw;
  exact (Hok y Hy Hw y (@PreOrder_Reflexive _ _ Hpre y) Hw). Qed.

Lemma ok_bind {A B} (p : prog A) (k : A -> prog B) : forall e l x Φ,
  env_pre e -> ok e p l x (fun e' a l' x' => env_pre e' -> ok e' (k a) l' x' Φ) ->
  ok e (p ≫= k) l x Φ.
Proof.
  induction p as [a|z| |c kp IH|kp IH|pid kp IH]; intros e l x Φ Hpre Hok.
  - apply ok_intro; [done|]. intros y Hy Hw. by apply (Hok y Hy Hw).
  - exact Hok.
  - exact Hok.
  - intros y Hy Hw. destruct (Hok y Hy Hw) as [Hcan Hall]. split; [done|].
    intros a s' l' Hc. destruct (Hall a s' l' Hc) as (g' & Hg & Hk). exists g'. split; [done|].
    by apply IH.
  - intros y Hy Hw. destruct (Hok y Hy Hw) as (He & Hl & mc & mp & Q & g & Hcp & Hc & Hp).
    split_and!; [done..|]. exists mc, mp, Q, g. split; [done|]. split.
    + apply IH; [exact (cp_pre_c _ _ _ Hcp)|done].
    + intros pid Hpid. apply IH; [exact (cp_pre_p _ _ _ Hcp)|by apply Hp].
  - intros y Hy Hw. pose proof (Hok y Hy Hw) as Hwt. destruct e as [| |m pid' Q]; try done.
    destruct Hwt as [-> Hwt]. split; [done|]. intros HQ. apply IH; [apply alone_pre|exact (Hwt HQ)].
Qed.

Lemma ok_weaken {A} (p : prog A) : forall e l x (Φ Ψ : env -> A -> files -> st -> Prop),
  ok e p l x Φ -> (forall e a l x, Φ e a l x -> Ψ e a l x) -> ok e p l x Ψ.
Proof.
  induction p as [a|z| |c kp IH|kp IH|pid kp IH]; intros e l x Φ Ψ Hok Hi y Hy Hw;
    pose proof (Hok y Hy Hw) as Hb; cbn [ok] in Hb |- *.
  - auto.
  - done.
  - done.
  - destruct Hb as [Hcan Hall]. split; [done|]. intros a s' l' Hc.
    destruct (Hall a s' l' Hc) as (g' & Hg & Hk). exists g'. split; [done|]. by eapply IH.
  - destruct Hb as (He & Hl & mc & mp & Q & g & Hcp & Hc & Hp). split_and!; [done..|].
    exists mc, mp, Q, g. split_and!; [done|by eapply IH|intros pid Hpid; by eapply IH; [apply Hp|]].
  - destruct e as [| |m pid' Q]; try done. destruct Hb as [-> Hb]. split; [done|].
    intros HQ. eapply IH; [exact (Hb HQ)|done].
Qed.

(** ** Counting steps *)

(** Every path of a program that does not fork has at most [n] steps. *)
Fixpoint steps_le {A} (p : prog A) (n : nat) : Prop :=
  match p, n with
  | Ret _, _ => True
  | _, O => False
  | Exit _, S _ | Undef, S _ => True
  | Sys c k, S n => forall a, steps_le (k a) n
  | Fork _, S _ => False
  | Wait _ k, S n => forall r, steps_le (k r) n
  end.

(** The steps of a program and of the children it forks. *)
Fixpoint bounded {A} (p : prog A) (n : nat) : Prop :=
  match p, n with
  | _, O => False
  | Ret _, S _ | Exit _, S _ | Undef, S _ => True
  | Sys c k, S n => forall a, bounded (k a) n
  | Fork k, S n => exists n1 n2, (n1 + n2 <= n)%nat /\ bounded (k 0) n1 /\ forall pid, bounded (k pid) n2
  | Wait _ k, S n => forall r, bounded (k r) n
  end.

Lemma steps_le_mono {A} (p : prog A) : forall n m, steps_le p n -> (n <= m)%nat -> steps_le p m.
Proof.
  induction p as [a|z| |c kp IH|kp IH|pid kp IH]; intros [|n] [|m] Hn Hle; simpl in *;
    try done; try lia; intros; eapply IH; eauto with lia.
Qed.

Lemma bounded_mono {A} (p : prog A) : forall n m, bounded p n -> (n <= m)%nat -> bounded p m.
Proof.
  induction p as [a|z| |c kp IH|kp IH|pid kp IH]; intros [|n] [|m] Hn Hle; simpl in *;
    try done; try lia; try (intros; eapply IH; eauto with lia).
  destruct Hn as (n1 & n2 & ? & ? & ?). exists n1, n2. split; [lia|done].
Qed.

Lemma steps_le_bind {A B} (p : prog A) (k : A -> prog B) m : forall n,
  steps_le p n -> (forall a, steps_le (k a) m) -> steps_le (p ≫= k) (n + m).
Proof.
  induction p as [a|z| |c kp IH|kp IH|pid kp IH]; intros [|n] Hn Hk; try done.
  - apply (steps_le_mono _ m); [apply Hk|lia].
  - apply (steps_le_mono _ m); [apply Hk|lia].
  - intros a. apply IH; [apply Hn|done].
  - intros r. apply IH; [apply Hn|done].
Qed.

Lemma bounded_bind {A B} (p : prog A) (k : A -> prog B) m : forall n,
  steps_le p n -> (forall a, bounded (k a) m) -> bounded (p ≫= k) (n + m).
Proof.
  induction p as [a|z| |c kp IH|kp IH|pid kp IH]; intros [|n] Hn Hk; try done.
  - apply (bounded_mono _ m); [apply Hk|lia].
  - apply (bounded_mono _ m); [apply Hk|lia].
  - intros a. apply IH; [apply Hn|done].
  - intros r. apply IH; [apply Hn|done].
Qed.

(** ** All interleavings *)

(** A whole program ends by exiting. *)
Definition ends : env -> unit -> files -> st -> Prop := fun _ _ _ _ => False.

(** The first process, with or without a child, and the steps left. *)
Inductive pool_ok (main : Z) : world -> nat -> Prop :=
  | po_alone s l p g n :
      ok Alone p l (s, g) ends -> bounded p n ->
      pool_ok main (World s {[main := Running l p]}) n
  | po_both s l p pid lc pc mc mp Q g n n' :
      pid <> main -> compat mc mp Q ->
      ok (Parent mp pid Q) p l (s, g) ends -> bounded p n ->
      ok (Child mc Q) pc lc (s, g) ends -> bounded pc n' ->
      pool_ok main (World s (<[main := Running l p]> {[pid := Running lc pc]})) (n + n')
  | po_reaping s l p pid mc mp Q g n :
      pid <> main -> compat mc mp Q ->
      ok (Parent mp pid Q) p l (s, g) ends -> bounded p n -> Q (s, g) ->
      pool_ok main (World s (<[main := Running l p]> {[pid := Zombie 0]})) n
  | po_done s n : pool_ok main (World s {[main := Zombie 0]}) n.

Lemma ok_sys_step e c k l s g n a s' l' :
  env_pre e -> fs_wf s -> ok e (Sys c k) l (s, g) ends -> bounded (Sys c k) n ->
  fs_call s l c a s' l' ->
  exists g' n', (n' < n)%nat /\ env_guar e (s, g) (s', g') /\ ok e (k a) l' (s', g') ends /\
    bounded (k a) n'.
Proof.
  intros Hpre Hw Hok Hb Hc.
  destruct (Hok (s, g) (@PreOrder_Reflexive _ _ Hpre _) Hw) as [_ Hall].
  destruct (Hall a s' l' Hc) as (g' & Hg & Hk). destruct n as [|n]; [done|].
  exists g', n. split_and!; [lia|done|exact Hk|apply Hb].
Qed.

Lemma insert_singleton_swap (i j : Z) (x y : proc) :
  i <> j -> <[i := x]> {[j := y]} =@{gmap Z proc} <[j := y]> {[i := x]}.
Proof. intros. rewrite <- !insert_empty. by apply insert_insert_ne. Qed.

Section pool.
Context (main : Z).

Lemma alone_step s l p g n w' :
  fs_wf s -> ok Alone p l (s, g) ends -> bounded p n ->
  world_step (World s {[main := Running l p]}) w' ->
  fs_wf (wd_fs w') /\ exists n', (n' < n)%nat /\ pool_ok main w' n'.
Proof.
  intros Hw Hok Hb Hs. inversion Hs as [? ? pid l0 c k a s' l' Hp Hc|? ? pid l0 k pid' Hp Hpos Hf
    |? ? pid l0 pid' k z Hp Hz|? ? pid l0 z Hp|? ? pid l0 Hp|? ? pid l0 Hp]; subst;
    apply lookup_singleton_Some in Hp as [-> [= -> ->]];
    rewrite ?insert_singleton_eq; cbn [wd_fs].
  - split; [by eapply fs_call_wf|].
    destruct (ok_sys_step Alone c k l0 s g n a s' l' alone_pre Hw Hok Hb Hc) as (g' & n' & ? & _ & ? & ?).
    exists n'. split; [done|]. by eapply po_alone.
  - split; [done|]. destruct (Hok (s, g) eq_refl Hw) as (_ & -> & mc & mp & Q & g1 & Hcp & Hc & Hp).
    destruct n as [|n]; [done|]. destruct Hb as (n1 & n2 & Hle & Hb1 & Hb2).
    assert (pid' <> pid) by (intros ->; by rewrite lookup_singleton_eq in Hf).
    exists (n2 + n1)%nat. split; [lia|]. rewrite insert_singleton_swap by done.
    apply (po_both pid s no_files (k pid') pid' no_files (k 0) mc mp Q g1 n2 n1); try done;
      exact (Hp pid' Hpos).
  - by destruct (Hok (s, g) eq_refl Hw).
  - split; [done|]. destruct (Hok (s, g) eq_refl Hw) as [-> _]. destruct n as [|n]; [done|].
    exists n. split; [lia|apply po_done].
  - by destruct (Hok (s, g) eq_refl Hw).
  - by destruct (Hok (s, g) eq_refl Hw).
Qed.

Lemma both_step s l p pid lc pc mc mp Q g n nc w' :
  fs_wf s -> pid <> main -> compat mc mp Q ->
  ok (Parent mp pid Q) p l (s, g) ends -> bounded p n ->
  ok (Child mc Q) pc lc (s, g) ends -> bounded pc nc ->
  world_step (World s (<[main := Running l p]> {[pid := Running lc pc]})) w' ->
  fs_wf (wd_fs w') /\ exists n', (n' < n + nc)%nat /\ pool_ok main w' n'.
Proof.
  intros Hw Hne Hcp Hok Hb Hokc Hbc Hs.
  pose proof (cp_pre_p _ _ _ Hcp) as Hpp. pose proof (cp_pre_c _ _ _ Hcp) as Hpc.
  assert (Hr : env_rely (Parent mp pid Q) (s, g) (s, g)) by apply Hpp.
  assert (Hrc : env_rely (Child mc Q) (s, g) (s, g)) by apply Hpc.
  inversion Hs as [? ? q l0 c k a s' l' Hp Hc|? ? q l0 k pid' Hp Hpos Hf
    |? ? q l0 pid' k z Hp Hz|? ? q l0 z Hp|? ? q l0 Hp|? ? q l0 Hp]; subst;
    apply lookup_insert_Some in Hp as [[<- [= -> ->]]|[Hqm [<- [= -> ->]]%lookup_singleton_Some]];
    cbn [wd_fs].
  - split; [by eapply fs_call_wf|].
    destruct (ok_sys_step (Parent mp pid Q) c k l0 s g n a s' l' Hpp Hw Hok Hb Hc) as (g' & n' & ? & Hg & ? & ?).
    exists (n' + nc)%nat. split; [lia|]. rewrite insert_insert_eq. eapply po_both; try done.
    eapply ok_stable; [done| |done]. by apply (cp_parent _ _ _ Hcp).
  - split; [by eapply fs_call_wf|].
    destruct (ok_sys_step (Child mc Q) c k l0 s g nc a s' l' Hpc Hw Hokc Hbc Hc) as (g' & n' & ? & Hg & ? & ?).
    exists (n + n')%nat. split; [lia|]. rewrite insert_insert_ne, insert_singleton_eq by done.
    eapply po_both; try done. eapply ok_stable; [done| |done]. by apply (cp_child _ _ _ Hcp).
  - by destruct (Hok (s, g) Hr Hw).
  - by destruct (Hokc (s, g) Hrc Hw).
  - destruct (Hok (s, g) Hr Hw) as [-> _].
    rewrite lookup_insert_ne, lookup_singleton_eq in Hz by done. done.
  - by destruct (Hokc (s, g) Hrc Hw).
  - by destruct (Hok (s, g) Hr Hw) as [_ []].
  - split; [done|]. destruct (Hokc (s, g) Hrc Hw) as [-> HQ]. destruct nc as [|nc]; [done|].
    exists n. split; [lia|]. rewrite insert_insert_ne, insert_singleton_eq by done. by eapply po_reaping.
  - by destruct (Hok (s, g) Hr Hw).
  - by destruct (Hokc (s, g) Hrc Hw).
  - by destruct (Hok (s, g) Hr Hw).
  - by destruct (Hokc (s, g) Hrc Hw).
Qed.

Lemma reaping_step s l p pid mc mp Q g n w' :
  fs_wf s -> pid <> main -> compat mc mp Q ->
  ok (Parent mp pid Q) p l (s, g) ends -> bounded p n -> Q (s, g) ->
  world_step (World s (<[main := Running l p]> {[pid := Zombie 0]})) w' ->
  fs_wf (wd_fs w') /\ exists n', (n' < n)%nat /\ pool_ok main w' n'.
Proof.
  intros Hw Hne Hcp Hok Hb HQ Hs. pose proof (cp_pre_p _ _ _ Hcp) as Hpp.
  assert (Hr : env_rely (Parent mp pid Q) (s, g) (s, g)) by apply Hpp.
  inversion Hs as [? ? q l0 c k a s' l' Hp Hc|? ? q l0 k pid' Hp Hpos Hf
    |? ? q l0 pid' k z Hp Hz|? ? q l0 z Hp|? ? q l0 Hp|? ? q l0 Hp]; subst;
    apply lookup_insert_Some in Hp as [[<- [= -> ->]]|[Hqm [_ Hp]%lookup_singleton_Some]]; try done;
    cbn [wd_fs].
  - split; [by eapply fs_call_wf|].
    destruct (ok_sys_step (Parent mp pid Q) c k l0 s g n a s' l' Hpp Hw Hok Hb Hc) as (g' & n' & ? & Hg & ? & ?).
    exists n'. split; [done|]. rewrite insert_insert_eq. eapply po_reaping; try done.
    eapply (cp_post _ _ _ Hcp); [done|]. by apply (cp_parent _ _ _ Hcp).
  - by destruct (Hok (s, g) Hr Hw).
  - split; [done|]. destruct (Hok (s, g) Hr Hw) as [-> Hk].
    rewrite lookup_insert_ne, lookup_singleton_eq in Hz by done. injection Hz as <-.
    destruct n as [|n]; [done|]. exists n. split; [lia|].
    rewrite delete_insert_ne, delete_singleton_eq, insert_insert_eq by done.
    eapply po_alone; [exact (Hk HQ)|apply Hb].
  - by destruct (Hok (s, g) Hr Hw) as [_ []].
  - by destruct (Hok (s, g) Hr Hw).
  - by destruct (Hok (s, g) Hr Hw).
Qed.

Lemma pool_step w w' n :
  fs_wf (wd_fs w) -> pool_ok main w n -> world_step w w' ->
  fs_wf (wd_fs w') /\ exists n', (n' < n)%nat /\ pool_ok main w' n'.
Proof.
  intros Hw Hp Hs. destruct Hp.
  - by eapply alone_step.
  - by eapply both_step.
  - by eapply reaping_step.
  - exfalso. inversion Hs as [? ? ? ? ? ? ? ? ? Hp|? ? ? ? ? ? Hp|? ? ? ? ? ? ? Hp|? ? ? ? ? Hp
      |? ? ? ? Hp|? ? ? ? Hp]; subst; by apply lookup_singleton_Some in Hp as [_ ?].
Qed.
End pool.

Lemma ok_can_step e c k l s g :
  env_pre e -> fs_wf s -> ok e (Sys c k) l (s, g) ends -> exists a s' l', fs_call s l c a s' l'.
Proof. intros Hpre Hw Hok. apply (Hok (s, g) (@PreOrder_Reflexive _ _ Hpre _) Hw). Qed.

(** There is always a number that is not in use. *)
Lemma fresh_pos {A} (m : gmap Z A) : exists q, 0 < q /\ m !! q = None.
Proof.
  set (q := 1 + foldr Z.max 0 (elements (dom m))).
  assert (Hle : forall i, i ∈ elements (dom m) -> i < q).
  { unfold q. induction (elements (dom m)) as [|j js IH]; [set_solver|].
    intros i [->|Hi%IH]%elem_of_cons; simpl; lia. }
  exists q. split; [unfold q; clear; induction (elements (dom m)); simpl; lia|].
  apply not_elem_of_dom. intros Hin. apply elem_of_elements, Hle in Hin. lia.
Qed.

Definition finished (main : Z) (w : world) : Prop := exists s, w = World s {[main := Zombie 0]}.

(** A program that is [ok] can move, unless it waits for its child. *)
Lemma ok_moves e l p s g ps pid :
  env_pre e -> fs_wf s -> ok e p l (s, g) ends -> ps !! pid = Some (Running l p) ->
  (exists w', world_step (World s ps) w') \/
  exists m pid' Q k, e = Parent m pid' Q /\ p = Wait pid' k.
Proof.
  intros Hpre Hw Hok Hp.
  destruct p as [[]|z| |c k|k|pid' k].
  - left. eexists. by eapply w_return.
  - left. eexists. by eapply w_exit.
  - left. eexists. by eapply w_undef.
  - left. destruct (ok_can_step _ _ _ _ _ _ Hpre Hw Hok) as (a & s' & l' & Hc).
    eexists. by eapply w_sys.
  - left. destruct (fresh_pos ps) as (q & Hq & Hn). eexists. by eapply (w_fork _ _ _ _ _ q).
  - right. pose proof (Hok (s, g) (@PreOrder_Reflexive _ _ Hpre _) Hw) as Hb.
    destruct e as [| |m q Q]; try done. destruct Hb as [-> _]. by exists m, q, Q, k.
Qed.

Lemma pool_progress main w n :
  fs_wf (wd_fs w) -> pool_ok main w n -> finished main w \/ exists w', world_step w w'.
Proof.
  intros Hw Hp. destruct Hp as [s l p g n Hok _|s l p pid lc pc mc mp Q g n n' Hne Hcp Hok _ Hokc _
    |s l p pid mc mp Q g n Hne Hcp Hok _ HQ|s n]; [right..|by left; exists s].
  - destruct (ok_moves Alone l p s g {[main := Running l p]} main alone_pre Hw Hok) as [?|Hwt];
      [apply lookup_singleton_eq|done|]. by destruct Hwt as (? & ? & ? & ? & ? & _).
  - destruct (ok_moves (Child mc Q) lc pc s g (<[main := Running l p]> {[pid := Running lc pc]}) pid)
      as [?|Hwt]; [exact (cp_pre_c _ _ _ Hcp)|done|done| |done|].
    + by rewrite lookup_insert_ne, lookup_singleton_eq.
    + by destruct Hwt as (? & ? & ? & ? & ? & _).
  - destruct (ok_moves (Parent mp pid Q) l p s g (<[main := Running l p]> {[pid := Zombie 0]}) main)
      as [?|Hwt]; [exact (cp_pre_p _ _ _ Hcp)|done|done|apply lookup_insert_eq|done|].
    destruct Hwt as (m & pid' & Q' & k & E & ->). injection E as <- <- <-.
    eexists. eapply w_wait; [apply lookup_insert_eq|]. by rewrite lookup_insert_ne, lookup_singleton_eq.
Qed.

(** No process has failed. *)
Definition no_failure (w : world) : Prop :=
  forall pid pr, wd_procs w !! pid = Some pr -> pr <> Crashed /\ forall z, pr = Zombie z -> z = 0.

Lemma pool_no_failure main w n : pool_ok main w n -> no_failure w.
Proof.
  intros Hp pid pr Hl. destruct Hp; cbn [wd_procs] in Hl;
    repeat match goal with
    | H : <[_ := _]> _ !! _ = Some _ |- _ => apply lookup_insert_Some in H as [[_ <-]|[_ H]]
    | H : {[_ := _]} !! _ = Some _ |- _ => apply lookup_singleton_Some in H as [_ <-]
    end; split; try done; by intros z [= <-].
Qed.

(** Every run of [p] from [s] has at most [N] steps, no process fails in it, and
    where it ends the first process has exited with status 0 and no child is
    left. *)
Definition passes (N : nat) (main : Z) (p : prog unit) (s : fs) : Prop :=
  forall m w, nsteps world_step m (World s {[main := Running no_files p]}) w ->
    (m <= N)%nat /\ no_failure w /\ (finished main w \/ exists w', world_step w w').

Lemma world_ok N main p s g :
  fs_wf s -> ok Alone p no_files (s, g) ends -> bounded p N -> passes N main p s.
Proof.
  intros Hw Hok Hb m w Hrun.
  assert (Hgen : forall m w0 w n, nsteps world_step m w0 w -> fs_wf (wd_fs w0) -> pool_ok main w0 n ->
    (m <= n)%nat /\ fs_wf (wd_fs w) /\ exists n', pool_ok main w n').
  { clear. intros m w0 w n Hrun. revert n. induction Hrun as [w|m w0 w1 w2 Hs _ IH]; intros n Hw Hp.
    - split_and!; [lia|done|by exists n].
    - destruct (pool_step main _ _ _ Hw Hp Hs) as (Hw1 & n1 & Hlt & Hp1).
      destruct (IH n1 Hw1 Hp1) as (? & ? & ?). split_and!; [lia|done|done]. }
  destruct (Hgen m _ w N Hrun Hw) as (Hle & Hw' & n' & Hp'); [by eapply po_alone|].
  split_and!; [done|by eapply pool_no_failure|by eapply pool_progress].
Qed.

(** ** Directories a process has for itself *)

Definition keys : Type := Z -> list byte -> Prop.
Definition file (s : fs) (D : Z) (f : list byte) : option (list byte) :=
  entry s D f ≫= fun ino => fs_data s !! ino.

(** The names in [K] and what they lead to are left alone. *)
Record keeps (K : keys) (s s' : fs) : Prop := {
  kp_dirs : fs_dirs s' = fs_dirs s;
  kp_ents : forall D, is_Some (fs_ents s !! D) -> is_Some (fs_ents s' !! D);
  kp_entry : forall D f, K D f -> entry s' D f = entry s D f;
  kp_data : forall D f ino, K D f -> entry s D f = Some ino -> fs_data s' !! ino = fs_data s !! ino
}.

#[export] Instance keeps_pre K : PreOrder (keeps K).
Proof.
  split; [by intros s|]. intros s1 s2 s3 [A1 A2 A3 A4] [B1 B2 B3 B4]. split.
  - by rewrite B1.
  - auto.
  - intros D f HK. by rewrite B3, A3.
  - intros D f ino HK Hi. rewrite (B4 D f); [by eapply A4|done|]. by rewrite A3.
Qed.

Lemma keeps_weaken (K K' : keys) s s' :
  keeps K s s' -> (forall D f, K' D f -> K D f) -> keeps K' s s'.
Proof. intros [A1 A2 A3 A4] Hsub. split; eauto. Qed.

Lemma keeps_file K s s' D f : keeps K s s' -> K D f -> file s' D f = file s D f.
Proof.
  intros Hk HK. unfold file. rewrite (kp_entry _ _ _ Hk) by done.
  destruct (entry s D f) as [ino|] eqn:Ei; [|done]. simpl. by eapply kp_data.
Qed.

Definition but (D : Z) (f : list byte) : keys := fun D' f' => ~ (D' = D /\ f' = f).

Lemma keeps_link s D f es ino :
  fs_wf s -> fs_ents s !! D = Some es -> fs_data s !! ino = None ->
  keeps (but D f) s (link s D f es ino).
Proof.
  intros Hw He Hino. split; [done| | |].
  - intros D' HD. cbn [fs_ents link]. apply lookup_insert_is_Some'. by right.
  - intros D' f' HK. rewrite entry_link by done. by rewrite decide_False.
  - intros D' f' i HK Hi. cbn [fs_data link]. apply lookup_insert_ne. intros <-.
    apply (wf_data _ Hw) in Hi. rewrite Hino in Hi. by destruct Hi.
Qed.

Lemma keeps_set_data s D f ino c :
  fs_wf s -> entry s D f = Some ino -> keeps (but D f) s (set_data s (<[ino := c]> (fs_data s))).
Proof.
  intros Hw He. split; [done..|]. intros D' f' i HK Hi. cbn [fs_data set_data].
  apply lookup_insert_ne. intros <-. apply HK. by apply (wf_inj _ Hw D' f' D f ino).
Qed.

Lemma keeps_unlink s D f es :
  fs_ents s !! D = Some es ->
  keeps (but D f) s (set_ents s (<[D := delete f es]> (fs_ents s))).
Proof.
  intros He. split; [done| | |done].
  - intros D' HD. cbn [fs_ents set_ents]. apply lookup_insert_is_Some'. by right.
  - intros D' f' HK. rewrite entry_insert. case_decide as E; [|done]. subst.
    rewrite lookup_delete_ne; [by rewrite (entry_lookup _ _ es)|]. intros ->. by apply HK.
Qed.

(** Directory [D], as far as the names in [N] go, has the contents [F]. *)
Record shows (M : gmap (list byte) Z) (D : Z) (N : keys) (F : gmap (list byte) (list byte)) (s : fs)
    : Prop := {
  sh_dirs : fs_dirs s = M;
  sh_ents : is_Some (fs_ents s !! D);
  sh_file : forall f, N D f -> file s D f = F !! f
}.

(** The other process leaves the names in [N] alone, and this one may change
    them. *)
Record owns (e : env) (N : keys) : Prop := {
  ow_pre : env_pre e;
  ow_rely : forall x x', env_rely e x x' -> keeps N x.1 x'.1;
  ow_guar : forall x x', keeps (fun D f => ~ N D f) x.1 x'.1 -> x'.2 = x.2 -> env_guar e x x'
}.

Lemma alone_owns N : owns Alone N.
Proof. split; [apply alone_pre|by intros x x' ->|done]. Qed.

Lemma shows_keeps M D N F s s' : shows M D N F s -> keeps N s s' -> shows M D N F s'.
Proof.
  intros [S1 S2 S3] Hk. split.
  - by rewrite (kp_dirs _ _ _ Hk).
  - by apply (kp_ents _ _ _ Hk).
  - intros f Hf. rewrite (keeps_file N s) by done. auto.
Qed.

(** After a change of one name. *)
Lemma shows_update M D N F s s' f o :
  shows M D N F s -> keeps (but D f) s s' -> file s' D f = o ->
  shows M D N (partial_alter (fun _ => o) f F) s'.
Proof.
  intros [S1 S2 S3] Hk Ho. split.
  - by rewrite (kp_dirs _ _ _ Hk).
  - by apply (kp_ents _ _ _ Hk).
  - intros f' Hf'. destruct (decide (f' = f)) as [->|Hne].
    + by rewrite lookup_partial_alter_eq.
    + rewrite lookup_partial_alter_ne by done. rewrite (keeps_file (but D f) s); [by apply S3|done|].
      by intros [_ ?].
Qed.

Lemma keeps_outside N s s' D f : N D f -> keeps (but D f) s s' -> keeps (fun D f => ~ N D f) s s'.
Proof. intros HN Hk. eapply keeps_weaken; [done|]. by intros D' f' HN' [-> ->]. Qed.

Section calls.
Context {A : Type} (e : env) (N : keys) (M : gmap (list byte) Z) (D : Z).
Hypothesis Hown : owns e N.
Implicit Types (F : gmap (list byte) (list byte)) (Φ : env -> A -> files -> st -> Prop).

Lemma ok_call c (k : answer c -> prog A) l s g Φ :
  (forall s', keeps N s s' -> fs_wf s' ->
     (exists a s'' l', fs_call s' l c a s'' l') /\
     forall a s'' l', fs_call s' l c a s'' l' ->
       keeps (fun D f => ~ N D f) s' s'' /\ forall g, ok e (k a) l' (s'', g) Φ) ->
  ok e (sys c ≫= k) l (s, g) Φ.
Proof.
  intros Hall [s1 g1] Hr Hw. destruct (Hall s1) as [Hcan Hk]; [by apply (ow_rely _ _ Hown) in Hr|done|].
  split; [done|]. intros a s2 l2 Hc. destruct (Hk a s2 l2 Hc) as [Hkp Hok]. exists g1.
  split; [by apply (ow_guar _ _ Hown)|apply Hok].
Qed.

Lemma ok_ret (a : A) l s g Φ P :
  P s -> (forall s s', P s -> keeps N s s' -> P s') ->
  (forall s g, P s -> Φ e a l (s, g)) -> ok e (Ret a) l (s, g) Φ.
Proof. intros HP Hst HΦ [s1 g1] Hr Hw. apply HΦ. eapply Hst; [done|]. by apply (ow_rely _ _ Hown) in Hr. Qed.

Section named.
Context (d f : list byte).
Hypothesis Hd : M !! d = Some D.
Hypothesis Hf : slash ∉ f.
Hypothesis HN : N D f.

Lemma resolve_shows F s :
  shows M D N F s ->
  exists es, resolve s (in_dir d f) = Some (D, f, es) /\ fs_ents s !! D = Some es /\ entry s D f = es !! f.
Proof.
  intros [S1 [es He] _]. exists es. split_and!; [|done|by apply entry_lookup].
  apply resolve_Some. exists d. rewrite S1. by rewrite split_in_dir.
Qed.

Lemma absent_entry F s : fs_wf s -> shows M D N F s -> F !! f = None -> entry s D f = None.
Proof.
  intros Hw Hs HF. pose proof (sh_file _ _ _ _ _ Hs f HN) as E. rewrite HF in E. unfold file in E.
  destruct (entry s D f) as [ino|] eqn:Ei; [|done]. simpl in E.
  apply (wf_data _ Hw) in Ei. rewrite E in Ei. by destruct Ei.
Qed.

Lemma present_entry F s c :
  shows M D N F s -> F !! f = Some c ->
  exists ino, entry s D f = Some ino /\ fs_data s !! ino = Some c.
Proof.
  intros Hs HF. pose proof (sh_file _ _ _ _ _ Hs f HN) as E. rewrite HF in E.
  by apply bind_Some in E.
Qed.

(** A new file is created and opened. *)
Lemma ok_creat F l s g k Φ :
  shows M D N F s -> F !! f = None ->
  (forall fd ino s' g', fl_fds l !! fd = None -> shows M D N (<[f := []]> F) s' ->
     entry s' D f = Some ino ->
     ok e (k (inl fd)) (set_fds l (<[fd := Ofile ino 0 true false]> (fl_fds l))) (s', g') Φ) ->
  ok e (sys (Creat (in_dir d f)) ≫= k) l (s, g) Φ.
Proof.
  intros Hs HF Hk. apply ok_call. intros s1 Hkp Hw.
  assert (Hs1 : shows M D N F s1) by (by eapply shows_keeps).
  destruct (resolve_shows F s1 Hs1) as (es & Er & He & Ei). cbn [fs_call]. rewrite Er.
  rewrite (absent_entry F s1) in Ei by done. rewrite <- Ei. split.
  - destruct (fresh_pos (fl_fds l)) as (fd & ? & ?), (fresh_pos (fs_data s1)) as (ino & _ & ?).
    exists (inl fd). do 2 eexists. exists fd, ino. split_and!; try done. split_and!; [lia|done|done].
  - intros a s2 l2 (fd & ino & Hino & -> & -> & _ & Hfd & ->).
    pose proof (keeps_link s1 D f es ino Hw He Hino) as Hkl. split; [by eapply keeps_outside|].
    intros g'. apply Hk; [done| |].
    + apply (shows_update M D N F s1); [done..|]. unfold file. rewrite entry_link by done.
      rewrite decide_True by done. simpl. by rewrite lookup_insert_eq.
    + rewrite entry_link by done. by rewrite decide_True.
Qed.

Lemma ok_open F l s g fl c k Φ :
  shows M D N F s -> F !! f = Some c -> o_creat fl = false ->
  (forall fd ino s' g', fl_fds l !! fd = None -> shows M D N F s' -> entry s' D f = Some ino ->
     ok e (k (inl fd)) (set_fds l (<[fd := Ofile ino 0 (o_wronly fl) (o_append fl)]> (fl_fds l))) (s', g') Φ) ->
  ok e (sys (Open (in_dir d f) fl) ≫= k) l (s, g) Φ.
Proof.
  intros Hs HF Hfl Hk. apply ok_call. intros s1 Hkp Hw.
  assert (Hs1 : shows M D N F s1) by (by eapply shows_keeps).
  destruct (resolve_shows F s1 Hs1) as (es & Er & He & Ei). cbn [fs_call]. rewrite Er.
  destruct (present_entry F s1 c Hs1 HF) as (ino & Hi & _). rewrite Hi in Ei. rewrite <- Ei. split.
  - destruct (fresh_pos (fl_fds l)) as (fd & ? & ?).
    exists (inl fd). do 2 eexists. left. exists fd. split_and!; try done. split_and!; [lia|done|done].
  - intros a s2 l2 [(fd & -> & -> & _ & Hfd & ->)|(Hc & _)]; [|congruence].
    split; [done|]. intros g'. by apply Hk.
Qed.

Lemma ok_open_absent F l s g k Φ :
  shows M D N F s -> F !! f = None ->
  (forall s' g', shows M D N F s' -> ok e (k (inr ENOENT)) l (s', g') Φ) ->
  ok e (sys (Open (in_dir d f) O_RDONLY) ≫= k) l (s, g) Φ.
Proof.
  intros Hs HF Hk. apply ok_call. intros s1 Hkp Hw.
  assert (Hs1 : shows M D N F s1) by (by eapply shows_keeps).
  destruct (resolve_shows F s1 Hs1) as (es & Er & He & Ei). cbn [fs_call]. rewrite Er.
  rewrite (absent_entry F s1) in Ei by done. rewrite <- Ei. cbn [o_creat O_RDONLY]. split.
  - by do 3 eexists.
  - intros a s2 l2 (-> & -> & ->). split; [done|]. intros g'. by apply Hk.
Qed.

Lemma ok_unlink F l s g c k Φ :
  shows M D N F s -> F !! f = Some c ->
  (forall s' g', shows M D N (delete f F) s' -> ok e (k true) l (s', g') Φ) ->
  ok e (sys (Unlink (in_dir d f)) ≫= k) l (s, g) Φ.
Proof.
  intros Hs HF Hk. apply ok_call. intros s1 Hkp Hw.
  assert (Hs1 : shows M D N F s1) by (by eapply shows_keeps).
  destruct (resolve_shows F s1 Hs1) as (es & Er & He & Ei). cbn [fs_call]. rewrite Er.
  destruct (present_entry F s1 c Hs1 HF) as (ino & Hi & _). rewrite Hi in Ei.
  destruct (decide (is_Some (es !! f))) as [_|Hno]; [|by destruct Hno; rewrite <- Ei; eexists]. split.
  - by do 3 eexists.
  - intros a s2 l2 (-> & -> & ->). pose proof (keeps_unlink s1 D f es He) as Hku.
    split; [by eapply keeps_outside|]. intros g'. apply Hk.
    apply (shows_update M D N F s1); [done..|]. unfold file.
    rewrite entry_insert, decide_True, lookup_delete_eq by done. done.
Qed.

(** A descriptor of the file. *)
Section open.
Context (l : files) (fd ino off : Z) (app : bool).

Lemma ok_write F s g c b k Φ :
  fl_fds l !! fd = Some (Ofile ino off true app) ->
  shows M D N F s -> entry s D f = Some ino -> F !! f = Some c ->
  let off' := if app then zlen c else off in
  (forall s' g', shows M D N (<[f := splice c off' b]> F) s' -> entry s' D f = Some ino ->
     ok e (k (zlen b)) (set_fds l (<[fd := Ofile ino (off' + zlen b) true app]> (fl_fds l))) (s', g') Φ) ->
  ok e (sys (Write fd b) ≫= k) l (s, g) Φ.
Proof.
  intros Hl Hs Hi HF off' Hk. apply ok_call. intros s1 Hkp Hw.
  assert (Hs1 : shows M D N F s1) by (by eapply shows_keeps). cbn [fs_call]. rewrite Hl.
  assert (Hi1 : entry s1 D f = Some ino) by (by rewrite (kp_entry _ _ _ Hkp)).
  destruct (present_entry F s1 c Hs1 HF) as (ino' & Hi' & Hc). rewrite Hi1 in Hi'. injection Hi' as <-.
  split.
  - do 3 eexists. exists c. by split_and!.
  - intros a s2 l2 (c' & Hc' & -> & -> & ->). rewrite Hc in Hc'. injection Hc' as <-.
    pose proof (keeps_set_data s1 D f ino (splice c off' b) Hw Hi1) as Hkd.
    split; [by eapply keeps_outside|]. intros g'. apply Hk; [|by rewrite entry_set_data].
    apply (shows_update M D N F s1); [done..|]. unfold file. rewrite entry_set_data, Hi1. simpl.
    by rewrite lookup_insert_eq.
Qed.

Lemma ok_read F s g c n k Φ :
  fl_fds l !! fd = Some (Ofile ino off false app) ->
  shows M D N F s -> entry s D f = Some ino -> F !! f = Some c ->
  let b := take (Z.to_nat n) (drop (Z.to_nat off) c) in
  (forall s' g', shows M D N F s' -> entry s' D f = Some ino ->
     ok e (k (Some b)) (set_fds l (<[fd := Ofile ino (off + zlen b) false app]> (fl_fds l))) (s', g') Φ) ->
  ok e (sys (Read fd n) ≫= k) l (s, g) Φ.
Proof.
  intros Hl Hs Hi HF b Hk. apply ok_call. intros s1 Hkp Hw.
  assert (Hs1 : shows M D N F s1) by (by eapply shows_keeps). cbn [fs_call]. rewrite Hl.
  assert (Hi1 : entry s1 D f = Some ino) by (by rewrite (kp_entry _ _ _ Hkp)).
  destruct (present_entry F s1 c Hs1 HF) as (ino' & Hi' & Hc). rewrite Hi1 in Hi'. injection Hi' as <-.
  split.
  - do 3 eexists. split; [done|]. exists c. by split_and!.
  - intros a s2 l2 (-> & c' & Hc' & -> & ->). rewrite Hc in Hc'. injection Hc' as <-.
    split; [done|]. intros g'. by apply Hk.
Qed.

Lemma ok_lseek wr F s g off' k Φ :
  fl_fds l !! fd = Some (Ofile ino off wr app) -> 0 <= off' ->
  shows M D N F s -> entry s D f = Some ino ->
  (forall s' g', shows M D N F s' -> entry s' D f = Some ino ->
     ok e (k off') (set_fds l (<[fd := Ofile ino off' wr app]> (fl_fds l))) (s', g') Φ) ->
  ok e (sys (Lseek fd off') ≫= k) l (s, g) Φ.
Proof.
  intros Hl Hoff Hs Hi Hk. apply ok_call. intros s1 Hkp Hw. cbn [fs_call]. rewrite Hl.
  rewrite (proj2 (Z.leb_le 0 off') Hoff). split.
  - by do 3 eexists.
  - intros a s2 l2 (-> & -> & ->). split; [done|]. intros g'.
    apply Hk; [by eapply shows_keeps|by rewrite (kp_entry _ _ _ Hkp)].
Qed.
End open.
End named.

(** Calls that change no file. *)
Lemma ok_close F l s g fd o k Φ :
  shows M D N F s -> fl_fds l !! fd = None ->
  (forall s' g', shows M D N F s' -> ok e (k true) l (s', g') Φ) ->
  ok e (sys (Close fd) ≫= k) (set_fds l (<[fd := o]> (fl_fds l))) (s, g) Φ.
Proof.
  intros Hs Hl Hk. apply ok_call. intros s1 Hkp Hw. cbn [fs_call fl_fds set_fds].
  rewrite lookup_insert_eq, bool_decide_eq_true_2 by done. split.
  - by do 3 eexists.
  - intros a s2 l2 (-> & -> & ->). split; [done|]. intros g'. rewrite delete_insert_id by done.
    unfold set_fds. cbn [fl_dirs]. destruct l as [fds ds]. cbn [fl_dirs fl_fds] in *.
    apply Hk. by eapply shows_keeps.
Qed.

Lemma ok_sleep F l s g n k Φ :
  shows M D N F s -> (forall s' g', shows M D N F s' -> ok e (k tt) l (s', g') Φ) ->
  ok e (sys (Sleep n) ≫= k) l (s, g) Φ.
Proof.
  intros Hs Hk. apply ok_call. intros s1 Hkp Hw. cbn [fs_call]. split; [by exists tt; do 2 eexists|].
  intros [] s2 l2 [-> ->]. split; [done|]. intros g'. apply Hk. by eapply shows_keeps.
Qed.

Lemma ok_ret_shows F (a : A) l s g Φ :
  shows M D N F s -> (forall s' g', shows M D N F s' -> Φ e a l (s', g')) -> ok e (Ret a) l (s, g) Φ.
Proof. intros Hs HΦ. eapply (ok_ret a l s g Φ (shows M D N F)); [done| |done]. apply shows_keeps. Qed.
End calls.
