(* ===== verification/Lab3.v ===== *)
(** * The file system tests

    src/test-lab-3-b.c and src/test-lab-3-c.c, function by function, as programs
    over the system calls of Posix. Both programs contain their own copies of the
    same functions; where the copies differ (the size of a buffer, the flag of
    [createn]) the difference is a parameter. What they print is left out. *)
From S2P Require Import Prelude CxxString Posix.

Definition str (s : string) : list byte := String.list_byte_of_string s.

(** ** C strings *)

(** [sprintf] into a buffer of 512 bytes. *)
Definition sprintf (s : list byte) : prog (list byte) := if zlen s <? 512 then Ret s else Undef.

Definition dash : byte := byte_of_Z 45.
(** ["%s/%s-%d"]. *)
Definition nth_name (prefix : list byte) (i : nat) : list byte :=
  prefix ++ dash :: print_ull (Z.of_nat i).

(** A string ends at its first zero byte. *)
Fixpoint c_str (b : list byte) : list byte :=
  match b with
  | [] => []
  | x :: b => if decide (x = Byte.x00) then [] else x :: c_str b
  end.

(** [strncmp(a, b, n) == 0]: the end of a string counts as a zero byte. *)
Definition strncmp_eq (a b : list byte) (n : Z) : bool :=
  bool_decide (take (Z.to_nat n) (c_str a ++ [Byte.x00]) = take (Z.to_nat n) (c_str b ++ [Byte.x00])).

Fixpoint strcmp (a b : list byte) : Z :=
  match a, b with
  | [], [] => 0
  | [], y :: _ => - Z_of_byte y
  | x :: _, [] => Z_of_byte x
  | x :: a, y :: b => if decide (x = y) then strcmp a b else Z_of_byte x - Z_of_byte y
  end.

(** An [int] in memory. *)
Definition bytes_of_int (i : Z) : list byte := reverse (be 4 i).
Definition int_of_bytes (b : list byte) : Z := s32 (be_val (reverse b)).

(** ** One file *)

Definition create1 (d f inp : list byte) : prog unit :=
  _ ← sys (Sleep 1);
  n ← sprintf (in_dir d f);
  fd ← sys (Creat n);
  match fd with
  | inr _ => Exit 1
  | inl fd =>
      w ← sys (Write fd inp);
      _ ← require (w =? zlen inp);
      c ← sys (Close fd);
      require c
  end.

(** [bufsz] is the size of [buf]; [strncmp] is given the length of the path. *)
Definition check1 (bufsz : Z) (d f inp : list byte) : prog unit :=
  n ← sprintf (in_dir d f);
  fd ← sys (Open n O_RDONLY);
  match fd with
  | inr _ => Exit 1
  | inl fd =>
      r ← sys (Read fd (bufsz - 1));
      match r with
      | None => Exit 1
      | Some buf =>
          _ ← require (zlen buf =? zlen inp);
          _ ← sys (Close fd);
          require (strncmp_eq buf inp (zlen n))
      end
  end.

Definition unlink1 (d f : list byte) : prog unit :=
  _ ← sys (Sleep 1);
  n ← sprintf (in_dir d f);
  r ← sys (Unlink n);
  require r.

Definition checknot (d f : list byte) : prog unit :=
  n ← sprintf (in_dir d f);
  fd ← sys (Open n O_RDONLY);
  match fd with inl _ => Exit 1 | inr _ => Ret tt end.

Definition append1 (d f inp : list byte) : prog unit :=
  _ ← sys (Sleep 1);
  n ← sprintf (in_dir d f);
  fd ← sys (Open n (Oflags true false true));
  match fd with
  | inr _ => Exit 1
  | inl fd =>
      w ← sys (Write fd inp);
      _ ← require (w =? zlen inp);
      c ← sys (Close fd);
      require c
  end.

(** ** Parts of a file *)

Fixpoint write_chars (fd : Z) (c : byte) (n : nat) : prog unit :=
  match n with
  | O => Ret tt
  | S n =>
      w ← sys (Write fd [c]);
      _ ← require (w =? 1);
      r ← sys (Fsync fd);
      _ ← require r;
      write_chars fd c n
  end.

Definition write1 (d f : list byte) (start : Z) (n : nat) (c : byte) : prog unit :=
  _ ← sys (Sleep 1);
  nm ← sprintf (in_dir d f);
  fd ← sys (Open nm (Oflags true true false));
  fd ← match fd with
       | inr EEXIST => sys (Open nm (Oflags true false false))
       | _ => Ret fd
       end;
  match fd with
  | inr _ => Exit 1
  | inl fd =>
      r ← sys (Lseek fd start);
      _ ← require (r =? start);
      _ ← write_chars fd c n;
      r ← sys (Close fd);
      require r
  end.

Fixpoint read_chars (fd : Z) (c : byte) (n : nat) : prog unit :=
  match n with
  | O => Ret tt
  | S n =>
      r ← sys (Read fd 1);
      match r with
      | Some [xc] => _ ← require (bool_decide (xc = c)); read_chars fd c n
      | _ => Exit 1
      end
  end.

Definition checkread (d f : list byte) (start : Z) (n : nat) (c : byte) : prog unit :=
  _ ← sys (Sleep 1);
  nm ← sprintf (in_dir d f);
  fd ← sys (Open nm O_RDONLY);
  match fd with
  | inr _ => Exit 1
  | inl fd =>
      r ← sys (Lseek fd start);
      _ ← require (r =? start);
      _ ← read_chars fd c n;
      _ ← sys (Close fd);
      Ret tt
  end.

(** ** Many files *)

Fixpoint createn_from (d prefix : list byte) (dup : bool) (i n : nat) : prog unit :=
  match n with
  | O => Ret tt
  | S n =>
      nm ← sprintf (in_dir d (nth_name prefix i));
      fd ← sys (Creat nm);
      match fd with
      | inr e => if dup && bool_decide (e = EEXIST) then createn_from d prefix dup (S i) n else Exit 1
      | inl fd =>
          w ← sys (Write fd (bytes_of_int (Z.of_nat i)));
          _ ← require (w =? 4);
          c ← sys (Close fd);
          _ ← require c;
          createn_from d prefix dup (S i) n
      end
  end.
Definition createn (d prefix : list byte) (nf : nat) (dup : bool) : prog unit :=
  _ ← sys (Sleep 1); createn_from d prefix dup 0 nf.

Fixpoint checkn_from (d prefix : list byte) (i n : nat) : prog unit :=
  match n with
  | O => Ret tt
  | S n =>
      nm ← sprintf (in_dir d (nth_name prefix i));
      fd ← sys (Open nm O_RDONLY);
      match fd with
      | inr _ => Exit 1
      | inl fd =>
          r ← sys (Read fd 4);
          match r with
          | None => Exit 1
          | Some b =>
              _ ← require (zlen b =? 4);
              _ ← require (int_of_bytes b =? Z.of_nat i);
              _ ← sys (Close fd);
              checkn_from d prefix (S i) n
          end
      end
  end.
Definition checkn (d prefix : list byte) (nf : nat) : prog unit := checkn_from d prefix 0 nf.

Fixpoint unlinkn_from (d prefix : list byte) (i n : nat) : prog unit :=
  match n with
  | O => Ret tt
  | S n =>
      nm ← sprintf (in_dir d (nth_name prefix i));
      r ← sys (Unlink nm);
      _ ← require r;
      unlinkn_from d prefix (S i) n
  end.
Definition unlinkn (d prefix : list byte) (nf : nat) : prog unit :=
  _ ← sys (Sleep 1); unlinkn_from d prefix 0 nf.

(** ** The directory *)

Definition compar (a b : list byte) : Z := strcmp a b.
Definition compar_le (a b : list byte) : Prop := compar a b <= 0.
#[export] Instance compar_le_dec a b : Decision (compar_le a b) := Z_le_dec (compar a b) 0.
Definition qsort (l : list (list byte)) : list (list byte) := merge_sort compar_le l.

(** [names] has room for 1000; one more is announced and then stored beyond
    its end. Every entry costs one unit of [fuel]; a stream shows at most 1000
    counted names and the two dot entries. *)
Fixpoint read_names (fuel : nat) (dp : Z) (names : list (list byte)) : prog (list (list byte)) :=
  match fuel with
  | O => Undef
  | S fuel =>
      e ← sys (Readdir dp);
      match e with
      | None => Ret names
      | Some f =>
          if decide (head f = Some (byte_of_Z 46)) then read_names fuel dp names
          else if zlen names >=? 1000 then Undef
          else read_names fuel dp (names ++ [f])
      end
  end.

Fixpoint no_adjacent (l : list (list byte)) : bool :=
  match l with
  | a :: (b :: _) as l' => negb (strcmp a b =? 0) && no_adjacent l'
  | _ => true
  end.

Definition DIR_FUEL : nat := 1003.
Definition dircheck (d : list byte) (nf : Z) : prog unit :=
  dp ← sys (Opendir d);
  match dp with
  | None => Exit 1
  | Some dp =>
      names ← read_names DIR_FUEL dp [];
      _ ← sys (Closedir dp);
      _ ← require (nf =? zlen names);
      require (no_adjacent (qsort names))
  end.

Definition reap (pid : Z) : prog unit :=
  '(wpid, status) ← waitpid pid;
  _ ← require (0 <=? wpid);
  _ ← require (wpid =? pid);
  require (status =? 0).

(** ** The programs *)

Definition big : list byte := replicate (Z.to_nat 20000) (byte_of_Z 120).
Definition huge : list byte := replicate (Z.to_nat (65536 * 2)) (byte_of_Z 48).

(** [child] in the new process, which then exits; [parent] goes on. *)
Definition with_child (child : prog unit) (parent : Z -> prog unit) : prog unit :=
  pid ← fork;
  if pid <? 0 then Exit 1
  else if pid =? 0 then (_ ← child; Exit 0)
  else parent pid.

Section lab_3_b.
Context (m1 m2 : list byte) (pid : Z).
Let d : list byte := byte_of_Z 100 :: print_ull pid.
Let d1 : list byte := in_dir m1 d.
Let d2 : list byte := in_dir m2 d.
Let check : list byte -> list byte -> list byte -> prog unit := check1 21000.

Definition lab3b_start : prog unit :=
  d1 ← sprintf d1;
  r ← sys (Mkdir d1);
  _ ← require r;
  d2 ← sprintf d2;
  a ← sys (Access d2);
  require a.

Definition lab3b_create_read : prog unit :=
  _ ← create1 d1 (str "f1") (str "aaa");
  _ ← check d2 (str "f1") (str "aaa");
  check d1 (str "f1") (str "aaa").

Definition lab3b_unlink : prog unit :=
  _ ← unlink1 d2 (str "f1");
  _ ← create1 d1 (str "fx1") (str "fxx");
  _ ← unlink1 d1 (str "fx1");
  _ ← checknot d1 (str "f1");
  _ ← checknot d2 (str "f1");
  _ ← create1 d1 (str "f2") (str "222");
  _ ← unlink1 d2 (str "f2");
  _ ← checknot d1 (str "f2");
  _ ← checknot d2 (str "f2");
  _ ← create1 d1 (str "f3") (str "333");
  _ ← check d2 (str "f3") (str "333");
  _ ← check d1 (str "f3") (str "333");
  _ ← unlink1 d1 (str "f3");
  _ ← create1 d2 (str "fx2") (str "22");
  _ ← unlink1 d2 (str "fx2");
  _ ← checknot d2 (str "f3");
  checknot d1 (str "f3").

Definition lab3b_append : prog unit :=
  _ ← create1 d2 (str "f1") (str "aaa");
  _ ← append1 d1 (str "f1") (str "bbb");
  _ ← append1 d2 (str "f1") (str "ccc");
  _ ← check d1 (str "f1") (str "aaabbbccc");
  check d2 (str "f1") (str "aaabbbccc").

Definition lab3b_readdir : prog unit :=
  _ ← dircheck d1 1;
  _ ← dircheck d2 1;
  _ ← unlink1 d1 (str "f1");
  _ ← dircheck d1 0;
  _ ← dircheck d2 0;
  _ ← create1 d2 (str "f2") (str "aaa");
  _ ← create1 d1 (str "f3") (str "aaa");
  _ ← dircheck d1 2;
  _ ← dircheck d2 2;
  _ ← unlink1 d2 (str "f2");
  _ ← dircheck d2 1;
  _ ← dircheck d1 1;
  _ ← unlink1 d2 (str "f3");
  _ ← dircheck d1 0;
  dircheck d2 0.

Definition lab3b_many : prog unit :=
  _ ← createn d1 (str "aa") 10 false;
  _ ← createn d2 (str "bb") 10 false;
  _ ← dircheck d2 20;
  _ ← checkn d2 (str "bb") 10;
  _ ← checkn d2 (str "aa") 10;
  _ ← checkn d1 (str "aa") 10;
  _ ← checkn d1 (str "bb") 10;
  _ ← unlinkn d1 (str "aa") 10;
  unlinkn d2 (str "bb") 10.

Definition lab3b_big : prog unit :=
  _ ← create1 d1 (str "bf") big;
  _ ← check d1 (str "bf") big;
  _ ← check d2 (str "bf") big;
  unlink1 d1 (str "bf").

(** The sections with two processes take what follows them. *)
Definition lab3b_concurrent (rest : prog unit) : prog unit :=
  with_child (createn d2 (str "xx") 20 false) (fun pid =>
    _ ← createn d1 (str "yy") 20 false;
    _ ← sys (Sleep 10);
    _ ← reap pid;
    _ ← dircheck d1 40;
    _ ← checkn d1 (str "xx") 20;
    _ ← checkn d2 (str "yy") 20;
    _ ← unlinkn d1 (str "xx") 20;
    _ ← unlinkn d1 (str "yy") 20;
    rest).

Definition lab3b_same_file (rest : prog unit) : prog unit :=
  with_child (createn d2 (str "zz") 20 true) (fun pid =>
    _ ← createn d1 (str "zz") 20 true;
    _ ← sys (Sleep 4);
    _ ← dircheck d1 20;
    _ ← reap pid;
    _ ← checkn d1 (str "zz") 20;
    _ ← checkn d2 (str "zz") 20;
    _ ← unlinkn d1 (str "zz") 20;
    rest).

Definition lab3b_create_delete (rest : prog unit) : prog unit :=
  _ ← createn d1 (str "x1") 20 false;
  _ ← createn d2 (str "x2") 20 false;
  with_child (_ ← unlinkn d2 (str "x1") 20; createn d1 (str "x3") 20 false) (fun pid =>
    _ ← createn d1 (str "x4") 20 false;
    _ ← reap pid;
    _ ← unlinkn d2 (str "x2") 20;
    _ ← unlinkn d2 (str "x4") 20;
    _ ← unlinkn d2 (str "x3") 20;
    _ ← dircheck d1 0;
    rest).

Definition lab3b_same_server (rest : prog unit) : prog unit :=
  with_child (createn d1 (str "zz") 20 true) (fun pid =>
    _ ← createn d1 (str "zz") 20 true;
    _ ← sys (Sleep 2);
    _ ← dircheck d1 20;
    _ ← reap pid;
    _ ← checkn d1 (str "zz") 20;
    _ ← unlinkn d1 (str "zz") 20;
    rest).

Definition lab3b_writes : prog unit :=
  _ ← create1 d1 (str "www") huge;
  with_child (write1 d2 (str "www") 65536 64 (byte_of_Z 50)) (fun pid =>
    _ ← write1 d1 (str "www") 0 64 (byte_of_Z 49);
    _ ← reap pid;
    _ ← checkread d1 (str "www") 0 64 (byte_of_Z 49);
    _ ← checkread d2 (str "www") 0 64 (byte_of_Z 49);
    _ ← checkread d1 (str "www") 65536 64 (byte_of_Z 50);
    _ ← checkread d2 (str "www") 65536 64 (byte_of_Z 50);
    Exit 0).

(** [main] of test-lab-3-b.c, its two arguments being [m1] and [m2]. *)
Definition lab3b_main : prog unit :=
  _ ← lab3b_start;
  _ ← lab3b_create_read;
  _ ← lab3b_unlink;
  _ ← lab3b_append;
  _ ← lab3b_readdir;
  _ ← lab3b_many;
  _ ← lab3b_big;
  lab3b_concurrent (lab3b_same_file (lab3b_create_delete (lab3b_same_server lab3b_writes))).
End lab_3_b.

(** [main] of test-lab-3-c.c: each process in a directory of its own. *)
Section lab_3_c.
Context (m1 m2 : list byte) (pid : Z).
Let da : list byte := str "da" ++ print_ull pid.
Let db : list byte := str "db" ++ print_ull pid.
Let d1 : list byte := in_dir m1 da.
Let d2 : list byte := in_dir m2 db.

Definition lab3c_start : prog unit :=
  d1 ← sprintf d1;
  r ← sys (Mkdir d1);
  _ ← require r;
  d2 ← sprintf d2;
  r ← sys (Mkdir d2);
  _ ← require r;
  dd ← sprintf (in_dir m2 da);
  a ← sys (Access dd);
  require a.

(** This program's [createn] takes no flag: every failure is an error. *)
Definition lab3c_createn (d prefix : list byte) (nf : nat) : prog unit := createn d prefix nf false.

(** Its copies of [unlinkn], [dircheck] and [reap] are those of the other program. *)
Definition lab3c_unlinkn (d prefix : list byte) (nf : nat) : prog unit := unlinkn d prefix nf.
Definition lab3c_dircheck (d : list byte) (nf : Z) : prog unit := dircheck d nf.
Definition lab3c_reap (pid : Z) : prog unit := reap pid.

Definition lab3c_processes : prog unit :=
  with_child (_ ← lab3c_createn d2 (str "xx") 100; lab3c_unlinkn d2 (str "xx") 99) (fun pid =>
    _ ← lab3c_createn d1 (str "yy") 100;
    _ ← lab3c_unlinkn d1 (str "yy") 99;
    _ ← sys (Sleep 4);
    _ ← lab3c_reap pid;
    _ ← lab3c_dircheck d1 1;
    _ ← lab3c_dircheck d2 1;
    Exit 0).

Definition lab3c_main : prog unit := _ ← lab3c_start; lab3c_processes.
End lab_3_c.
