(* ===== verification/Lab3Spec.v ===== *)
(** * What the functions of the file system tests do

    One rule per function of Lab3 for a process that has the names it uses to
    itself ([owns]): the contents of the directory before and after. *)
From S2P Require Import Prelude CxxString Posix PosixLogic Lab3.

(** ** Strings *)

Lemma splice_nil b : splice [] 0 b = b.
Proof. unfold splice. simpl. by rewrite drop_nil, app_nil_r. Qed.

Lemma splice_end c b : splice c (zlen c) b = c ++ b.
Proof.
  unfold splice, zlen. rewrite Nat2Z.id, Nat.sub_diag. simpl. rewrite app_nil_r, take_ge by lia.
  by rewrite drop_ge, app_nil_r by lia.
Qed.

Lemma int_of_bytes_of_int i : is_signed 32 i -> int_of_bytes (bytes_of_int i) = i.
Proof.
  intros Hi. unfold int_of_bytes, bytes_of_int. rewrite reverse_involutive, be_val_be.
  change (i mod 2 ^ (8 * Z.of_nat 4)) with (u32 i). rewrite wrapS_wrapU by lia. by apply wrapS_small.
Qed.

Lemma length_bytes_of_int i : zlen (bytes_of_int i) = 4.
Proof. unfold bytes_of_int, zlen. by rewrite length_reverse, length_be. Qed.

Lemma nth_name_inj prefix i j :
  Z.of_nat i < 2 ^ 64 -> Z.of_nat j < 2 ^ 64 -> nth_name prefix i = nth_name prefix j -> i = j.
Proof.
  intros Hi Hj E. unfold nth_name in E. apply app_inv_head in E. injection E as E.
  apply (f_equal read_ull) in E. rewrite !read_print in E by (unfold is_unsigned; lia). lia.
Qed.

Lemma nth_name_no_slash prefix i : slash ∉ prefix -> slash ∉ nth_name prefix i.
Proof.
  intros Hp. unfold nth_name. rewrite elem_of_app, elem_of_cons. intros [?|[E|?]]; [done| |].
  - by vm_compute in E.
  - by eapply print_ull_no_slash.
Qed.

Lemma nth_name_length prefix i : zlen (nth_name prefix i) <= zlen prefix + 21.
Proof.
  unfold nth_name, zlen, print_ull. rewrite length_app. simpl.
  pose proof (dec_aux_length_le 20 (Z.of_nat i) []) as H. simpl length in H. lia.
Qed.

(** A plain file name: short, and without the bytes that end a name or a
    component. *)
Definition plain (f : list byte) : Prop := slash ∉ f /\ zlen f <= 100.

Lemma nth_name_plain prefix i : slash ∉ prefix -> zlen prefix <= 79 -> plain (nth_name prefix i).
Proof. intros. split; [by apply nth_name_no_slash|]. pose proof (nth_name_length prefix i). lia. Qed.

Notation contents := (gmap (list byte) (list byte)).

(** ** Rules *)

Section rules.
Context (e : env) (N : keys) (M : gmap (list byte) Z) (D : Z).
Hypothesis Hown : owns e N.

(** A function that leaves its open files as they were and takes the directory
    from [F] to [F']. *)
Definition triple (F : contents) (p : prog unit) (F' : contents) : Prop :=
  forall l s g Φ, shows M D N F s ->
    (forall s' g', shows M D N F' s' -> Φ e tt l (s', g')) -> ok e p l (s, g) Φ.

Lemma triple_seq F p F1 (q : prog unit) F2 :
  triple F p F1 -> triple F1 q F2 -> triple F (_ ← p; q) F2.
Proof.
  intros Hp Hq l s g Φ Hs HΦ. apply ok_bind; [apply Hown|]. apply Hp; [done|].
  intros s' g' Hs' _. by apply Hq.
Qed.

Lemma triple_step F p F1 (q : prog unit) l s g Φ :
  triple F p F1 -> shows M D N F s ->
  (forall s' g', shows M D N F1 s' -> ok e q l (s', g') Φ) -> ok e (_ ← p; q) l (s, g) Φ.
Proof. intros Hp Hs Hq. apply ok_bind; [apply Hown|]. apply Hp; [done|]. auto. Qed.

Lemma triple_ret F : triple F (Ret tt) F.
Proof. intros l s g Φ Hs HΦ. by eapply ok_ret_shows. Qed.

Context (d : list byte).
Hypothesis Hd : M !! d = Some D.
Hypothesis Hlen : zlen d <= 400.

Lemma sprintf_ok {A} f (k : list byte -> prog A) : plain f -> (sprintf (in_dir d f) ≫= k) = k (in_dir d f).
Proof.
  intros [_ Hf]. unfold sprintf. replace (zlen (in_dir d f) <? 512) with true; [done|].
  symmetry. apply Z.ltb_lt. unfold in_dir, zlen in *. rewrite length_app. simpl. lia.
Qed.

Section one.
Context (f : list byte).
Hypothesis Hf : plain f.
Hypothesis HN : N D f.

Lemma create1_ok F inp : F !! f = None -> triple F (create1 d f inp) (<[f := inp]> F).
Proof.
  intros HF l s g Φ Hs HΦ. unfold create1. eapply ok_sleep; [done..|]. intros s1 g1 Hs1.
  rewrite sprintf_ok by done. eapply ok_creat; [done|done|apply Hf|done|done|done|].
  intros fd ino s2 g2 Hfd Hs2 Hi2. cbn beta iota.
  eapply (ok_write e N M D Hown f HN _ fd ino 0 false);
    [apply lookup_insert_eq|done|done|apply lookup_insert_eq|].
  intros s3 g3 Hs3 Hi3. rewrite splice_nil, insert_insert_eq in Hs3. cbn [fl_fds set_fds fl_dirs].
  unfold require at 1. rewrite Z.eqb_refl. cbn [mbind prog_bind].
  rewrite insert_insert_eq. change (set_fds (set_fds l ?x) ?y) with (set_fds l y).
  eapply ok_close; [done..|]. intros s4 g4 Hs4. by eapply ok_ret_shows.
Qed.

(** Reading a whole file changes nothing. *)
Lemma check1_ok F bufsz inp :
  F !! f = Some inp -> zlen inp < bufsz -> triple F (check1 bufsz d f inp) F.
Proof.
  intros HF Hsz l s g Φ Hs HΦ. unfold check1. rewrite sprintf_ok by done.
  eapply ok_open; [done|done|apply Hf|done|done|done|done|].
  intros fd ino s2 g2 Hfd Hs2 Hi2. cbn beta iota. cbn [o_wronly o_append O_RDONLY].
  eapply (ok_read e N M D Hown f HN _ fd ino 0 false); [apply lookup_insert_eq|done|done|done|].
  intros s3 g3 Hs3 Hi3. rewrite drop_0, take_ge in * by (unfold zlen in *; lia).
  unfold require at 1. rewrite Z.eqb_refl. cbn [mbind prog_bind fl_fds set_fds fl_dirs].
  rewrite insert_insert_eq. change (set_fds (set_fds l ?x) ?y) with (set_fds l y).
  eapply ok_close; [done..|]. intros s4 g4 Hs4. unfold strncmp_eq.
  rewrite bool_decide_eq_true_2 by done. by eapply ok_ret_shows.
Qed.

Lemma unlink1_ok F : is_Some (F !! f) -> triple F (unlink1 d f) (delete f F).
Proof.
  intros [c HF] l s g Φ Hs HΦ. unfold unlink1. eapply ok_sleep; [done..|]. intros s1 g1 Hs1.
  rewrite sprintf_ok by done. eapply ok_unlink; [done|done|apply Hf|done|done|done|].
  intros s2 g2 Hs2. by eapply ok_ret_shows.
Qed.

Lemma checknot_ok F : F !! f = None -> triple F (checknot d f) F.
Proof.
  intros HF l s g Φ Hs HΦ. unfold checknot. rewrite sprintf_ok by done.
  eapply ok_open_absent; [done|done|apply Hf|done|done|done|].
  intros s2 g2 Hs2. by eapply ok_ret_shows.
Qed.

Lemma append1_ok F old inp :
  F !! f = Some old -> triple F (append1 d f inp) (<[f := old ++ inp]> F).
Proof.
  intros HF l s g Φ Hs HΦ. unfold append1. eapply ok_sleep; [done..|]. intros s1 g1 Hs1.
  rewrite sprintf_ok by done. eapply ok_open; [done|done|apply Hf|done|done|done|done|].
  intros fd ino s2 g2 Hfd Hs2 Hi2. cbn beta iota. cbn [o_wronly o_append].
  eapply (ok_write e N M D Hown f HN _ fd ino 0 true); [apply lookup_insert_eq|done..|].
  intros s3 g3 Hs3 Hi3. rewrite splice_end in Hs3. cbn [fl_fds set_fds fl_dirs].
  unfold require at 1. rewrite Z.eqb_refl. cbn [mbind prog_bind].
  rewrite insert_insert_eq. change (set_fds (set_fds l ?x) ?y) with (set_fds l y).
  eapply ok_close; [done..|]. intros s4 g4 Hs4. by eapply ok_ret_shows.
Qed.

(** The characters at [start + i] for [i < n] are [c]. *)
Lemma read_chars_ok F content c fd ino l k : forall n start s g Φ,
  fl_fds l !! fd = None -> F !! f = Some content -> 0 <= start ->
  (forall i, (i < n)%nat -> content !! (Z.to_nat start + i)%nat = Some c) ->
  shows M D N F s -> entry s D f = Some ino ->
  (forall off s' g', shows M D N F s' -> entry s' D f = Some ino ->
     ok e (k tt) (set_fds l (<[fd := Ofile ino off false false]> (fl_fds l))) (s', g') Φ) ->
  ok (A := unit) e (read_chars fd c n ≫= k)
    (set_fds l (<[fd := Ofile ino start false false]> (fl_fds l))) (s, g) Φ.
Proof.
  induction n as [|n IH]; intros start s g Φ Hfd HF Hst Hc Hs Hi Hk; [by apply Hk|].
  cbn [read_chars].
  eapply (ok_read e N M D Hown f HN _ fd ino start false); [apply lookup_insert_eq|done..|].
  intros s1 g1 Hs1 Hi1. pose proof (Hc 0%nat ltac:(lia)) as H0. rewrite Nat.add_0_r in H0.
  rewrite (drop_S _ _ _ H0). change (take (Z.to_nat 1) (c :: ?r)) with [c]. cbn beta iota.
  unfold require. rewrite bool_decide_eq_true_2 by done. cbn [mbind prog_bind fl_fds set_fds fl_dirs].
  rewrite insert_insert_eq. change (set_fds (set_fds l ?x) ?y) with (set_fds l y).
  apply (IH (start + 1)); try done; [lia|]. intros i Hlt.
  rewrite <- (Hc (S i) ltac:(lia)). f_equal. lia.
Qed.

Lemma checkread_ok F content start n c :
  F !! f = Some content -> 0 <= start ->
  (forall i, (i < n)%nat -> content !! (Z.to_nat start + i)%nat = Some c) ->
  triple F (checkread d f start n c) F.
Proof.
  intros HF Hst Hc l s g Φ Hs HΦ. unfold checkread. eapply ok_sleep; [done..|]. intros s1 g1 Hs1.
  rewrite sprintf_ok by done. eapply ok_open; [done|done|apply Hf|done|done|done|done|].
  intros fd ino s2 g2 Hfd Hs2 Hi2. cbn beta iota. cbn [o_wronly o_append O_RDONLY].
  eapply (ok_lseek e N M D Hown f HN _ fd ino 0 false); [apply lookup_insert_eq|done..|].
  intros s3 g3 Hs3 Hi3. unfold require at 1. rewrite Z.eqb_refl.
  cbn [mbind prog_bind fl_fds set_fds fl_dirs].
  rewrite insert_insert_eq. change (set_fds (set_fds l ?x) ?y) with (set_fds l y).
  eapply (read_chars_ok F content c fd ino l); try done.
  intros off s4 g4 Hs4 Hi4. eapply ok_close; [done..|]. intros s5 g5 Hs5. by eapply ok_ret_shows.
Qed.
End one.

(** *** Many files *)

Fixpoint addn (prefix : list byte) (i n : nat) (F : contents) : contents :=
  match n with
  | O => F
  | S n => addn prefix (S i) n (<[nth_name prefix i := bytes_of_int (Z.of_nat i)]> F)
  end.
Fixpoint deln (prefix : list byte) (i n : nat) (F : contents) : contents :=
  match n with
  | O => F
  | S n => deln prefix (S i) n (delete (nth_name prefix i) F)
  end.

Section many.
Context (prefix : list byte).
Hypothesis Hprefix : slash ∉ prefix /\ zlen prefix <= 79.
Hypothesis HN : forall i, N D (nth_name prefix i).

Lemma prefix_plain i : plain (nth_name prefix i).
Proof. destruct Hprefix. by apply nth_name_plain. Qed.

Lemma createn_from_ok dup n : forall i F, Z.of_nat (i + n) < 2 ^ 31 ->
  (forall j, (i <= j < i + n)%nat -> F !! nth_name prefix j = None) ->
  triple F (createn_from d prefix dup i n) (addn prefix i n F).
Proof.
  induction n as [|n IH]; intros i F Hn HF l s g Φ Hs HΦ; [by eapply triple_ret|].
  cbn [createn_from addn]. rewrite sprintf_ok by apply prefix_plain.
  eapply ok_creat; [done|done|apply prefix_plain|done|done|apply HF; lia|].
  intros fd ino s2 g2 Hfd Hs2 Hi2. cbn beta iota.
  eapply (ok_write e N M D Hown _ (HN i) _ fd ino 0 false);
    [apply lookup_insert_eq|done|done|apply lookup_insert_eq|].
  intros s3 g3 Hs3 Hi3. rewrite splice_nil, insert_insert_eq in Hs3. cbn [fl_fds set_fds fl_dirs].
  rewrite length_bytes_of_int at 1. cbn [mbind prog_bind require Z.eqb Pos.eqb].
  rewrite insert_insert_eq. change (set_fds (set_fds l ?x) ?y) with (set_fds l y).
  eapply ok_close; [done..|]. intros s4 g4 Hs4. eapply IH; [lia| |done|done].
  intros j Hj. rewrite lookup_insert_ne; [apply HF; lia|]. intros E%nth_name_inj; lia.
Qed.

Lemma createn_ok dup n F : Z.of_nat n < 2 ^ 31 ->
  (forall j, (j < n)%nat -> F !! nth_name prefix j = None) ->
  triple F (createn d prefix n dup) (addn prefix 0 n F).
Proof.
  intros Hn HF l s g Φ Hs HΦ. unfold createn. eapply ok_sleep; [done..|]. intros s1 g1 Hs1.
  eapply createn_from_ok; [lia| |done|done]. intros j Hj. apply HF. lia.
Qed.

Lemma checkn_from_ok n F : forall i, Z.of_nat (i + n) < 2 ^ 31 ->
  (forall j, (i <= j < i + n)%nat -> F !! nth_name prefix j = Some (bytes_of_int (Z.of_nat j))) ->
  triple F (checkn_from d prefix i n) F.
Proof.
  induction n as [|n IH]; intros i Hn HF l s g Φ Hs HΦ; [by eapply triple_ret|].
  cbn [checkn_from]. rewrite sprintf_ok by apply prefix_plain.
  eapply ok_open; [done|done|apply prefix_plain|done|done|apply HF; lia|done|].
  intros fd ino s2 g2 Hfd Hs2 Hi2. cbn beta iota. cbn [o_wronly o_append O_RDONLY].
  eapply (ok_read e N M D Hown _ (HN i) _ fd ino 0 false);
    [apply lookup_insert_eq|done|done|apply HF; lia|].
  intros s3 g3 Hs3 Hi3. pose proof (length_bytes_of_int (Z.of_nat i)) as Hl.
  rewrite drop_0, take_ge in * by (unfold zlen in Hl; lia). rewrite Hl.
  rewrite int_of_bytes_of_int by (unfold is_signed; lia).
  unfold require. rewrite !Z.eqb_refl. cbn [mbind prog_bind fl_fds set_fds fl_dirs Z.eqb Pos.eqb].
  rewrite insert_insert_eq. change (set_fds (set_fds l ?x) ?y) with (set_fds l y).
  eapply ok_close; [done..|]. intros s4 g4 Hs4. eapply IH; [lia| |done|done].
  intros j Hj. apply HF. lia.
Qed.

Lemma unlinkn_from_ok n : forall i F, Z.of_nat (i + n) < 2 ^ 31 ->
  (forall j, (i <= j < i + n)%nat -> is_Some (F !! nth_name prefix j)) ->
  triple F (unlinkn_from d prefix i n) (deln prefix i n F).
Proof.
  induction n as [|n IH]; intros i F Hn HF l s g Φ Hs HΦ; [by eapply triple_ret|].
  cbn [unlinkn_from deln]. rewrite sprintf_ok by apply prefix_plain.
  destruct (HF i ltac:(lia)) as [c Hc].
  eapply ok_unlink; [done|done|apply prefix_plain|done|done|done|].
  intros s2 g2 Hs2. cbn [mbind prog_bind require]. eapply IH; [lia| |done|done].
  intros j Hj. rewrite lookup_delete_ne; [apply HF; lia|]. intros E%nth_name_inj; lia.
Qed.

Lemma unlinkn_ok n F : Z.of_nat n < 2 ^ 31 ->
  (forall j, (j < n)%nat -> is_Some (F !! nth_name prefix j)) ->
  triple F (unlinkn d prefix n) (deln prefix 0 n F).
Proof.
  intros Hn HF l s g Φ Hs HΦ. unfold unlinkn. eapply ok_sleep; [done..|]. intros s1 g1 Hs1.
  eapply unlinkn_from_ok; [lia| |done|done]. intros j Hj. apply HF. lia.
Qed.
End many.
End rules.

(** ** The directory listing *)

Lemma strcmp_0 a b : Byte.x00 ∉ a -> Byte.x00 ∉ b -> strcmp a b = 0 -> a = b.
Proof.
  assert (Hz : forall x, Z_of_byte x = 0 -> x = Byte.x00).
  { intros x Hx. rewrite <- (byte_of_Z_of_byte x), Hx. reflexivity. }
  revert b. induction a as [|x a IH]; intros [|y b]; cbn [strcmp]; rewrite ?not_elem_of_cons; intros Ha Hb E.
  - done.
  - destruct Hb as [[] _]. symmetry. apply Hz. lia.
  - destruct Ha as [[] _]. symmetry. by apply Hz.
  - destruct Ha as [_ Ha], Hb as [_ Hb]. destruct (decide (x = y)) as [->|Hne]; [f_equal; auto|].
    exfalso. apply Hne. rewrite <- (byte_of_Z_of_byte x), <- (byte_of_Z_of_byte y). f_equal. lia.
Qed.

Lemma no_adjacent_NoDup l : NoDup l -> Forall (fun f => Byte.x00 ∉ f) l -> no_adjacent l = true.
Proof.
  intros Hnd. induction Hnd as [|a l Ha Hnd IH]; intros Hf; [done|].
  apply Forall_cons in Hf as [Hza Hf]. destruct l as [|b l]; [done|].
  change (negb (strcmp a b =? 0) && no_adjacent (b :: l) = true). rewrite IH by done.
  destruct (Z.eqb_spec (strcmp a b) 0) as [E|]; [|done]. exfalso. apply Ha.
  apply Forall_cons in Hf as [Hzb _]. rewrite (strcmp_0 a b) by done. left.
Qed.

(** A name the listing counts. *)
Definition counted (f : list byte) : Prop := head f <> Some (byte_of_Z 46) /\ Byte.x00 ∉ f.
#[export] Instance counted_dec f : Decision (counted f) := _.

(** Where the directory does not change. *)
Section quiet.
Context (e : env) (I : st -> Prop) (D : Z) (es : gmap (list byte) Z) (d : list byte).
Hypothesis Hpre : env_pre e.
Hypothesis HI : forall x y, I x -> env_rely e x y -> I y.
Hypothesis Hguar : forall x, I x -> env_guar e x x.
Hypothesis Hents : forall x, I x -> fs_ents x.1 !! D = Some es.
Hypothesis Hdirs : forall x, I x -> fs_dirs x.1 !! d = Some D.

(** A call that leaves the file system as it is. *)
Lemma ok_quiet {A} c (k : answer c -> prog A) l x Φ :
  I x ->
  (forall s, I s -> (exists a s' l', fs_call s.1 l c a s' l') /\
     forall a s' l', fs_call s.1 l c a s' l' -> s' = s.1 /\ ok e (k a) l' s Φ) ->
  ok e (sys c ≫= k) l x Φ.
Proof.
  intros Hx Hall y Hy Hw. assert (Iy : I y) by (by eapply HI). destruct (Hall y Iy) as [Hcan Hk].
  split; [done|]. intros a s' l' Hc. destruct (Hk a s' l' Hc) as [-> Hok]. exists y.2.
  replace (y.1, y.2) with y by (by destruct y). split; [by apply Hguar|exact Hok].
Qed.

Lemma ok_quiet_sleep {A} n (k : unit -> prog A) l x Φ :
  I x -> (forall y, I y -> ok e (k tt) l y Φ) -> ok e (sys (Sleep n) ≫= k) l x Φ.
Proof.
  intros Hx Hk. apply ok_quiet; [done|]. intros y Hy. cbn [fs_call].
  split; [by exists tt; do 2 eexists|]. intros [] s' l' [-> ->]. split; [done|]. by apply Hk.
Qed.

Hypothesis Hcounted : forall f, f ∈ dom es -> counted f.
Hypothesis Hsmall : (size es <= 1000)%nat.

Definition dots : gset (list byte) := {[ [byte_of_Z 46]; [byte_of_Z 46; byte_of_Z 46] ]}.

Lemma read_names_ok {A} (k : _ -> prog A) dp l Φ : forall fuel seen names x,
  (size ((dom es ∪ dots) ∖ seen) < fuel)%nat -> seen ⊆ dom es ∪ dots -> NoDup names ->
  (forall f, f ∈ names <-> f ∈ seen /\ f ∈ dom es) -> I x ->
  (forall names' seen' y, names' ≡ₚ elements (dom es) -> I y ->
     ok e (k names') (set_streams l (<[dp := Stream D es seen']> (fl_dirs l))) y Φ) ->
  ok e (read_names fuel dp names ≫= k) (set_streams l (<[dp := Stream D es seen]> (fl_dirs l))) x Φ.
Proof.
  induction fuel as [|fuel IH]; intros seen names x Hfuel Hseen Hnd Hnames Hx Hk; [lia|].
  cbn [read_names]. apply ok_quiet; [done|]. intros y Hy. cbn [fs_call fl_dirs set_streams].
  rewrite lookup_insert_eq, (Hents y Hy). cbn [default option_rect]. split.
  { destruct (decide (dom es ⊆ seen)) as [Hall|Hno].
    - exists None. do 2 eexists. split; [done|]. split; [|done]. intros f ino Hf _.
      apply Hall, elem_of_dom. by exists ino.
    - destruct (set_choose_or_empty (dom es ∖ seen)) as [[f Hf]|Hemp].
      2: { exfalso. apply Hno. clear -Hemp. set_solver. }
      apply elem_of_difference in Hf as [Hf1 Hf2].
      exists (Some f). do 2 eexists. split; [done|]. split; [done|]. split; [by left|done]. }
  intros a s' l' [-> Ha]. split; [done|]. destruct a as [f|].
  - destruct Ha as (Hns & Hin & ->).
    assert (Hf : f ∈ dom es ∪ dots).
    { apply elem_of_union. unfold dots. rewrite elem_of_union, !elem_of_singleton.
      unfold dot_name in Hin. tauto. }
    cbn [fl_dirs set_streams]. rewrite insert_insert_eq.
    change (set_streams (set_streams l ?a) ?b) with (set_streams l b).
    assert (Hsz : (size ((dom es ∪ dots) ∖ ({[f]} ∪ seen)) < fuel)%nat).
    { enough (size ((dom es ∪ dots) ∖ ({[f]} ∪ seen)) < size ((dom es ∪ dots) ∖ seen))%nat by lia.
      apply subset_size. clear -Hns Hf. revert Hf. generalize (dom es ∪ dots). intros X Hf.
      split; [set_solver|]. intros Hs. assert (Hin : f ∈ X ∖ ({[f]} ∪ seen)) by (apply Hs; set_solver).
      set_solver. }
    assert (Hseen' : {[f]} ∪ seen ⊆ dom es ∪ dots).
    { clear -Hseen Hf. revert Hseen Hf. generalize (dom es ∪ dots). set_solver. }
    destruct (decide (head f = Some (byte_of_Z 46))) as [Hdot|Hdot].
    + apply IH; [done..| |done|done]. intros f'. rewrite Hnames.
      assert (Hn : f ∉ dom es) by (intros [? _]%Hcounted; done). clear -Hn. set_solver.
    + assert (Hfd : f ∈ dom es).
      { apply elem_of_union in Hf as [?|Hf]; [done|]. unfold dots in Hf.
        apply elem_of_union in Hf as [->%elem_of_singleton| ->%elem_of_singleton]; by destruct Hdot. }
      assert (Hnd' : NoDup (names ++ [f])).
      { apply NoDup_app. split_and!; [done| |apply NoDup_singleton].
        intros f' Hf'%Hnames. clear -Hf' Hns. set_solver. }
      assert (Hlen : (length (names ++ [f]) <= 1000)%nat).
      { etrans; [|exact Hsmall]. rewrite <- size_dom, <- (size_list_to_set (C := gset (list byte)) _ Hnd').
        apply subseteq_size. intros f'. rewrite elem_of_list_to_set, elem_of_app, Hnames.
        clear -Hfd. set_solver. }
      rewrite length_app in Hlen. simpl in Hlen.
      destruct (Z.geb_spec (zlen names) 1000); [unfold zlen in *; lia|].
      apply IH; [done..| |done|done]. intros f'. rewrite elem_of_app, Hnames. clear -Hfd. set_solver.
  - destruct Ha as [Hall ->]. apply Hk; [|done]. apply NoDup_Permutation; [done|apply NoDup_elements|].
    intros f. rewrite Hnames, elem_of_elements. split; [tauto|]. intros Hf. split; [|done].
    apply elem_of_dom in Hf as [ino Hf]. by eapply Hall.
Qed.

Lemma dircheck_quiet nf l x Φ :
  nf = Z.of_nat (size es) -> I x -> (forall y, I y -> Φ e tt l y) -> ok e (dircheck d nf) l x Φ.
Proof.
  intros -> Hx HΦ. unfold dircheck. apply ok_quiet; [done|]. intros y Hy. cbn [fs_call].
  rewrite (Hdirs y Hy). cbn [mbind option_bind]. rewrite (Hents y Hy). cbn [fmap option_fmap option_map].
  split.
  { destruct (fresh_pos (fl_dirs l)) as (dp & _ & Hdp). exists (Some dp). do 2 eexists.
    split; [done|]. by exists dp. }
  intros a s' l' (-> & dp & Hdp & -> & ->). split; [done|].
  apply (read_names_ok _ dp l); [|set_solver|constructor|set_solver|done|].
  { unfold DIR_FUEL. replace ((dom es ∪ dots) ∖ ∅) with (dom es ∪ dots) by set_solver.
    enough (size (dom es ∪ dots) <= 1002)%nat by lia.
    assert (size (dom es ∪ dots) <= size (dom es) + size dots)%nat.
    { rewrite size_union_alt. pose proof (subseteq_size (dots ∖ dom es) dots ltac:(set_solver)). lia. }
    rewrite size_dom in *. change (size dots) with 2%nat in *. lia. }
  intros names seen z Hnames Hz. apply ok_quiet; [done|]. intros z' Hz'. cbn [fs_call fl_dirs set_streams].
  split; [by do 3 eexists|]. intros a s' l' (-> & -> & ->). split; [done|].
  rewrite delete_insert_id by done. change (set_streams (set_streams l ?a) ?b) with (set_streams l b).
  assert (Hl : set_streams l (fl_dirs l) = l) by (by destruct l). rewrite Hl.
  assert (Hlen : length names = size es).
  { rewrite Hnames, <- size_dom. reflexivity. }
  unfold zlen. rewrite Hlen. unfold require at 1. rewrite Z.eqb_refl. cbn [mbind prog_bind].
  rewrite no_adjacent_NoDup; [|..].
  - intros w Hw _. apply HΦ. by eapply HI.
  - unfold qsort. rewrite merge_sort_Permutation, Hnames. apply NoDup_elements.
  - unfold qsort. rewrite merge_sort_Permutation, Hnames. apply Forall_forall.
    intros f Hf%elem_of_elements. by apply Hcounted.
Qed.
End quiet.

Lemma keeps_ents (N : keys) D es s s' :
  (forall f, N D f) -> keeps N s s' -> fs_ents s !! D = Some es -> fs_ents s' !! D = Some es.
Proof.
  intros HN Hk He. destruct (kp_ents _ _ _ Hk D) as [es' He']; [by rewrite He|].
  rewrite He'. f_equal. apply map_eq. intros f.
  rewrite <- (entry_lookup s' D es' f He'), <- (entry_lookup s D es f He). by apply Hk.
Qed.

(** The names of a directory are those of its contents. *)
Lemma shows_dom M D N F s es :
  (forall f, N D f) -> fs_wf s -> shows M D N F s -> fs_ents s !! D = Some es -> dom es = dom F.
Proof.
  intros HN Hw Hs He. apply set_eq. intros f. rewrite !elem_of_dom.
  rewrite <- (sh_file _ _ _ _ _ Hs f (HN f)). unfold file. rewrite (entry_lookup s D es f He).
  destruct (es !! f) as [ino|] eqn:Ef; [|by split; intros []].
  split; [|by eexists]. intros _. simpl. apply (wf_data _ Hw D f). by rewrite (entry_lookup s D es).
Qed.

Definition listable (F : contents) : Prop := Forall (fun p => counted p.1) (map_to_list F) /\ (size F <= 1000)%nat.
#[export] Instance listable_dec F : Decision (listable F) := _.

Lemma listable_counted F f : listable F -> f ∈ dom F -> counted f.
Proof.
  intros [Hall _] [c Hc]%elem_of_dom. rewrite Forall_forall in Hall.
  by apply (Hall (f, c)), elem_of_map_to_list.
Qed.

Lemma dircheck_keeps e N M D d F (P : fs -> Prop) nf l s g Φ :
  owns e N -> M !! d = Some D -> (forall f, N D f) -> listable F -> nf = Z.of_nat (size F) ->
  (forall s s', P s -> keeps N s s' -> P s') -> shows M D N F s -> P s ->
  (forall s' g', shows M D N F s' -> P s' -> Φ e tt l (s', g')) -> ok e (dircheck d nf) l (s, g) Φ.
Proof.
  intros Hown Hd HN HF -> HP Hs Ps HΦ. apply ok_intro; [apply Hown|]. intros [s1 g1] Hr Hw. simpl in Hw.
  pose proof (ow_rely _ _ Hown _ _ Hr) as Hk. simpl in Hk.
  assert (Hs1 : shows M D N F s1) by (by eapply shows_keeps).
  destruct (sh_ents _ _ _ _ _ Hs1) as [es He]. pose proof (shows_dom _ _ _ _ _ _ HN Hw Hs1 He) as Hdom.
  assert (Hsz : size es = size F) by (rewrite <- !size_dom; by rewrite Hdom).
  apply (dircheck_quiet e (fun x => shows M D N F x.1 /\ fs_ents x.1 !! D = Some es /\ P x.1) D es d).
  - apply Hown.
  - intros x y (H1 & H2 & H3) Hxy%(ow_rely _ _ Hown). split_and!;
      [by eapply shows_keeps|by eapply keeps_ents|by eapply HP].
  - intros x _. by apply (ow_guar _ _ Hown).
  - by intros x (_ & ? & _).
  - intros x (Hx & _). by rewrite (sh_dirs _ _ _ _ _ Hx).
  - intros f. rewrite Hdom. by apply listable_counted.
  - rewrite Hsz. apply HF.
  - by rewrite Hsz.
  - simpl. split_and!; [done..|]. by eapply HP.
  - intros [s2 g2] (H1 & _ & H3). by apply HΦ.
Qed.

Lemma dircheck_ok e N M D d F nf :
  owns e N -> M !! d = Some D -> (forall f, N D f) -> listable F -> nf = Z.of_nat (size F) ->
  triple e N M D F (dircheck d nf) F.
Proof.
  intros Hown Hd HN HF Hnf l s g Φ Hs HΦ. by apply (dircheck_keeps e N M D d F (fun _ => True)); eauto.
Qed.

(** ** Two processes *)

Lemma ok_with_child child parent s g g' mc mp Q Φ :
  compat mc mp Q ->
  (forall Ψ, (forall l x, Q x -> Ψ (Child mc Q) tt l x) -> ok (Child mc Q) child no_files (s, g') Ψ) ->
  (forall pid, 0 < pid -> ok (Parent mp pid Q) (parent pid) no_files (s, g') Φ) ->
  ok Alone (with_child child parent) no_files (s, g) Φ.
Proof.
  intros Hcp Hc Hp x Hx Hw. cbn [env_rely] in Hx. subst x. split_and!; [done..|]. exists mc, mp, Q, g'. split; [done|]. split.
  - change (ok (Child mc Q) (child ≫= fun _ => Exit 0) no_files (s, g') Φ).
    apply ok_bind; [exact (cp_pre_c _ _ _ Hcp)|]. apply Hc. intros l y Hy _ z Hz Hwz.
    split; [done|]. by eapply (cp_post _ _ _ Hcp).
  - intros pid Hpid. specialize (Hp pid Hpid). simpl.
    destruct (Z.ltb_spec pid 0); [lia|]. destruct (Z.eqb_spec pid 0); [lia|]. exact Hp.
Qed.

Lemma ok_reap {A} m pid Q (I : st -> Prop) (k : unit -> prog A) l x Φ :
  0 < pid -> I x -> (forall x y, I x -> m_rely m x y -> I y) ->
  (forall y, I y -> Q y -> ok Alone (k tt) l y Φ) -> ok (Parent m pid Q) (reap pid ≫= k) l x Φ.
Proof.
  intros Hpid Hx HI Hk y Hy Hw. split; [done|]. intros HQ. simpl. unfold require.
  rewrite (proj2 (Z.leb_le 0 pid)), Z.eqb_refl by lia. simpl. apply Hk; [|done]. by eapply HI.
Qed.

(** The names are divided between the two. *)
Definition only (K : keys) : mode :=
  Mode (fun x y => keeps K x.1 y.1) (fun x y => keeps (fun D f => ~ K D f) x.1 y.1).
Definition others (K : keys) : keys := fun D f => ~ K D f.

Lemma only_pre K : PreOrder (m_rely (only K)).
Proof. split; [intros x; by simpl|intros x y z; simpl; by etrans]. Qed.

Lemma only_compat K Q :
  (forall x y, Q x -> keeps K x.1 y.1 -> Q y) -> compat (only K) (only (others K)) Q.
Proof.
  intros HQ. split; [apply only_pre..|done| |exact HQ].
  intros x y Hk. eapply keeps_weaken; [exact Hk|]. by intros D f HK Hn.
Qed.

Lemma child_owns K Q : owns (Child (only K) Q) K.
Proof. split; [apply only_pre|done|done]. Qed.

Lemma parent_owns K pid Q : owns (Parent (only (others K)) pid Q) (others K).
Proof. split; [apply only_pre|done|done]. Qed.

(** What both see is what there is. *)
Lemma shows_join M D (K : keys) `{!forall f, Decision (K D f)} F1 F2 F s :
  shows M D K F1 s -> shows M D (others K) F2 s ->
  (forall f, F !! f = if decide (K D f) then F1 !! f else F2 !! f) ->
  shows M D (fun _ _ => True) F s.
Proof.
  intros [S1 S2 S3] [_ _ T3] HF. split; [done..|]. intros f _. rewrite HF. case_decide; auto.
Qed.

Lemma shows_sub M D (N N' : keys) F s :
  shows M D N F s -> (forall f, N' D f -> N D f) -> shows M D N' F s.
Proof. intros [S1 S2 S3] Hsub. split; auto. Qed.
