(* ===== verification/Lab3Race.v ===== *)
(** * Two processes on the same files

    The sections of test-lab-3-b.c in which parent and child create the same
    files, or write to the same file: every interleaving leaves what the checks
    that follow expect. *)
From S2P Require Import Prelude CxxString Posix PosixLogic Lab3 Lab3Spec.

Lemma splice_same c : splice c 0 c = c.
Proof.
  unfold splice. change (Z.to_nat 0) with 0%nat. rewrite take_0, Nat.add_0_l, drop_ge by lia.
  by rewrite app_nil_r.
Qed.

(** ** The same names *)

Section race.
Context (M : gmap (list byte) Z) (D : Z) (prefix : list byte) (n : nat).
Hypothesis Hprefix : slash ∉ prefix /\ zlen prefix <= 79.
Hypothesis Hn : Z.of_nat n < 2 ^ 31.
#[local] Notation nm := (nth_name prefix).

Definition pending (j : nat) (g : ghost) : Prop := g.1 = Some (Z.of_nat j) \/ g.2 = Some (Z.of_nat j).

(** Every name is one of the [n], and a file is complete unless somebody has
    emptied it and is about to write it. *)
Record race_inv (x : st) : Prop := {
  ri_dirs : fs_dirs x.1 = M;
  ri_ents : is_Some (fs_ents x.1 !! D);
  ri_names : forall f, is_Some (entry x.1 D f) -> exists j, (j < n)%nat /\ f = nm j;
  ri_data : forall j ino, (j < n)%nat -> entry x.1 D (nm j) = Some ino ->
    fs_data x.1 !! ino = Some (bytes_of_int (Z.of_nat j)) \/
    fs_data x.1 !! ino = Some [] /\ pending j x.2
}.

Definition mine (b : bool) (g : ghost) : option Z := if b then g.1 else g.2.
Definition set_mine (b : bool) (g : ghost) (o : option Z) : ghost := if b then (o, g.2) else (g.1, o).

Lemma mine_set b g o : mine b (set_mine b g o) = o.
Proof. by destruct b. Qed.
Lemma mine_set_other b g o : mine (negb b) (set_mine b g o) = mine (negb b) g.
Proof. by destruct b. Qed.
Lemma pending_mine b j g : pending j g <-> mine b g = Some (Z.of_nat j) \/ mine (negb b) g = Some (Z.of_nat j).
Proof. unfold pending. destruct b; simpl; tauto. Qed.

(** What process [b] may do. *)
Definition hop (b : bool) (x y : st) : Prop :=
  (race_inv x -> race_inv y) /\
  (forall f ino, entry x.1 D f = Some ino -> entry y.1 D f = Some ino) /\
  mine (negb b) y.2 = mine (negb b) x.2.
Definition race (b : bool) : mode := Mode (hop (negb b)) (hop b).

Lemma hop_pre b : PreOrder (hop b).
Proof.
  split; [by intros x|]. intros x y z (A1 & A2 & A3) (B1 & B2 & B3).
  split_and!; [auto|auto|congruence].
Qed.

(** Process [b] is through with the first [i] files. *)
Definition done_upto (b : bool) (i : nat) (x : st) : Prop :=
  race_inv x /\ mine b x.2 = None /\ forall j, (j < i)%nat -> is_Some (entry x.1 D (nm j)).

Lemma done_upto_stable b i x y : done_upto b i x -> hop (negb b) x y -> done_upto b i y.
Proof.
  intros (H1 & H2 & H3) (B1 & B2 & B3). rewrite negb_involutive in B3. split_and!; [auto|congruence|].
  intros j Hj. destruct (H3 j Hj) as [ino Hi]. exists ino. auto.
Qed.

Lemma race_compat Q :
  (forall x y, Q x -> hop true x y -> Q y) -> compat (race false) (race true) Q.
Proof. intros HQ. split; [apply hop_pre..|done|done|exact HQ]. Qed.

(** [i] has been emptied by [b] through the number [ino]. *)
Definition emptied (b : bool) (i : nat) (ino : Z) (x : st) : Prop :=
  race_inv x /\ mine b x.2 = Some (Z.of_nat i) /\ entry x.1 D (nm i) = Some ino /\
  forall j, (j < i)%nat -> is_Some (entry x.1 D (nm j)).

Lemma emptied_stable b i ino x y : emptied b i ino x -> hop (negb b) x y -> emptied b i ino y.
Proof.
  intros (H1 & H2 & H3 & H4) (B1 & B2 & B3). rewrite negb_involutive in B3.
  split_and!; [auto|congruence|auto|]. intros j Hj. destruct (H4 j Hj) as [i' Hi]. exists i'. auto.
Qed.

Section side.
Context (b : bool) (e : env) (d : list byte).
Hypothesis Hrely : env_rely e = hop (negb b).
Hypothesis Hguar : env_guar e = hop b.
Hypothesis Hd : M !! d = Some D.
Hypothesis Hlen : zlen d <= 400.

Lemma nm_plain i : plain (nm i).
Proof. destruct Hprefix. by apply nth_name_plain. Qed.

Lemma nm_inj i j : (i < n)%nat -> (j < n)%nat -> nm i = nm j -> i = j.
Proof. intros Hi Hj E%nth_name_inj; lia. Qed.

(** Emptying file [i], which [b] has done to no other. *)
Lemma emptied_intro i ino x s :
  (i < n)%nat -> done_upto b i x -> fs_wf x.1 -> keeps (but D (nm i)) x.1 s ->
  entry s D (nm i) = Some ino -> fs_data s !! ino = Some [] ->
  (forall ino', entry x.1 D (nm i) = Some ino' -> ino' = ino) ->
  let y := (s, set_mine b x.2 (Some (Z.of_nat i))) in hop b x y /\ emptied b i ino y.
Proof.
  intros Hi (H1 & H2 & H3) Hw Hk He Hda Hsame y.
  assert (Hgrow : forall f ino', entry x.1 D f = Some ino' -> entry s D f = Some ino').
  { intros f ino' Hf. destruct (decide (f = nm i)) as [->|Hne]; [by rewrite (Hsame _ Hf)|].
    by rewrite (kp_entry _ _ _ Hk) by (by intros [_ ?]). }
  assert (Hinv : race_inv y).
  { destruct H1 as [R1 R2 R3 R4]. split; cbn [fst snd y].
    - by rewrite (kp_dirs _ _ _ Hk).
    - by apply (kp_ents _ _ _ Hk).
    - intros f Hf. destruct (decide (f = nm i)) as [->|Hne]; [by exists i|].
      apply R3. by rewrite <- (kp_entry _ _ _ Hk) by (by intros [_ ?]).
    - intros j ino' Hj Hj'. destruct (decide (j = i)) as [->|Hne].
      + rewrite He in Hj'. injection Hj' as <-. right. split; [done|]. apply (pending_mine b).
        left. apply mine_set.
      + assert (Hb : but D (nm i) D (nm j)) by (intros [_ E%nm_inj]; done).
        rewrite (kp_entry _ _ _ Hk) in Hj' by done. rewrite (kp_data _ _ _ Hk D (nm j)) by done.
        destruct (R4 j ino' Hj Hj') as [?|[? Hp]]; [by left|right]. split; [done|].
        apply (pending_mine b). apply (pending_mine b) in Hp as [Hp|Hp]; [congruence|].
        right. by rewrite mine_set_other. }
  split; [split_and!; [done|exact Hgrow|apply mine_set_other]|].
  split_and!; [done|apply mine_set|done|]. intros j Hj. destruct (H3 j Hj) as [i' Hi'].
  exists i'. by apply Hgrow.
Qed.

(** Writing it. *)
Lemma written i ino c x :
  (i < n)%nat -> emptied b i ino x -> fs_wf x.1 -> fs_data x.1 !! ino = Some c ->
  let s := set_data x.1 (<[ino := splice c 0 (bytes_of_int (Z.of_nat i))]> (fs_data x.1)) in
  let y := (s, set_mine b x.2 None) in hop b x y /\ done_upto b (S i) y.
Proof.
  intros Hi (H1 & H2 & H3 & H4) Hw Hc s y.
  assert (Hsp : splice c 0 (bytes_of_int (Z.of_nat i)) = bytes_of_int (Z.of_nat i)).
  { destruct (ri_data _ H1 i ino Hi H3) as [E|[E _]]; rewrite Hc in E; injection E as ->.
    - apply splice_same.
    - apply splice_nil. }
  pose proof (keeps_set_data x.1 D (nm i) ino (splice c 0 (bytes_of_int (Z.of_nat i))) Hw H3) as Hk.
  fold s in Hk.
  assert (Hinv : race_inv y).
  { destruct H1 as [R1 R2 R3 R4]. split; cbn [fst snd y]; [done..|].
    intros j ino' Hj Hj'. unfold s in Hj'. rewrite entry_set_data in Hj'.
    destruct (decide (j = i)) as [->|Hne].
    - left. rewrite H3 in Hj'. injection Hj' as <-. cbn [fs_data set_data s].
      by rewrite lookup_insert_eq, Hsp.
    - assert (Hb : but D (nm i) D (nm j)) by (intros [_ E%nm_inj]; done).
      rewrite (kp_data _ _ _ Hk D (nm j)) by done.
      destruct (R4 j ino' Hj Hj') as [?|[? Hp]]; [by left|right]. split; [done|].
      apply (pending_mine b). apply (pending_mine b) in Hp as [Hp|Hp].
      + rewrite H2 in Hp. injection Hp as Hp. lia.
      + right. by rewrite mine_set_other. }
  split; [split_and!; [done|done|apply mine_set_other]|].
  split_and!; [done|apply mine_set|]. intros j Hj. destruct (decide (j = i)) as [->|]; [by exists ino|].
  apply H4. lia.
Qed.

Lemma side_pre : env_pre e.
Proof. unfold env_pre. rewrite Hrely. apply hop_pre. Qed.

Lemma hop_refl x : hop b x x.
Proof. apply (hop_pre b). Qed.

(** Calls of this process that leave the file system alone. *)
Lemma ok_race_quiet {A} (P : st -> Prop) c (k : answer c -> prog A) l x Φ :
  (forall x y, P x -> hop (negb b) x y -> P y) -> P x ->
  (forall y, P y -> (exists a s' l', fs_call y.1 l c a s' l') /\
     forall a s' l', fs_call y.1 l c a s' l' -> s' = y.1 /\ ok e (k a) l' y Φ) ->
  ok e (sys c ≫= k) l x Φ.
Proof.
  intros HP Hx Hall. apply (ok_quiet e P); [|by intros y _; rewrite Hguar; apply hop_refl|done|done].
  intros y z Hy Hz. rewrite Hrely in Hz. by eapply HP.
Qed.

(** The rest of one round, once file [i] has been opened. *)
Lemma round_rest {A} i ino fd l x (k : prog A) Φ :
  (i < n)%nat -> emptied b i ino x -> fl_fds l !! fd = None ->
  (forall y, done_upto b (S i) y -> ok e k l y Φ) ->
  ok e (w ← sys (Write fd (bytes_of_int (Z.of_nat i))); _ ← require (w =? 4);
        c ← sys (Close fd); _ ← require c; k)
    (set_fds l (<[fd := Ofile ino 0 true false]> (fl_fds l))) x Φ.
Proof.
  intros Hi Hx Hfd Hk y Hy Hw. rewrite Hrely in Hy. pose proof (emptied_stable _ _ _ _ _ Hx Hy) as Hey.
  assert (Hc : exists c, fs_data y.1 !! ino = Some c).
  { destruct Hey as (Hr & _ & He & _). destruct (ri_data _ Hr i ino Hi He) as [?|[? _]]; eauto. }
  destruct Hc as [c Hc]. cbn [fs_call fl_fds set_fds]. rewrite lookup_insert_eq. split.
  { do 3 eexists. exists c. by split_and!. }
  intros a s' l' (c' & Hc' & -> & -> & ->). rewrite Hc in Hc'. injection Hc' as <-.
  destruct (written i ino c y Hi Hey Hw Hc) as [Hhop Hdone].
  exists (set_mine b y.2 None). rewrite Hguar. split; [exact Hhop|].
  rewrite length_bytes_of_int. cbn [mbind prog_bind require Z.eqb Pos.eqb fl_dirs fl_fds set_fds].
  rewrite insert_insert_eq. change (set_fds (set_fds l ?u) ?v) with (set_fds l v).
  apply (ok_race_quiet (done_upto b (S i)));
    [by intros; eapply done_upto_stable|exact Hdone|].
  intros z Hz. cbn [fs_call fl_fds set_fds fl_dirs]. rewrite lookup_insert_eq.
  split; [by do 3 eexists|]. intros a s' l' (-> & -> & ->). split; [done|].
  rewrite delete_insert_id by done. change (set_fds (set_fds l ?u) ?v) with (set_fds l v).
  assert (Hl : set_fds l (fl_fds l) = l) by (by destruct l). rewrite Hl. by apply Hk.
Qed.

Lemma createn_race_from m : forall i x l Φ,
  (i + m = n)%nat -> done_upto b i x -> (forall y, done_upto b n y -> Φ e tt l y) ->
  ok e (createn_from d prefix true i m) l x Φ.
Proof.
  induction m as [|m IH]; intros i x l Φ Him Hx HΦ.
  { intros y Hy _. rewrite Hrely in Hy. apply HΦ. replace n with i by lia. by eapply done_upto_stable. }
  cbn [createn_from]. rewrite (sprintf_ok d Hlen) by apply nm_plain.
  intros y Hy Hw. rewrite Hrely in Hy. pose proof (done_upto_stable _ _ _ _ Hx Hy) as Hdy. clear x Hx Hy.
  pose proof Hdy as (Hr & Hm & Hall). destruct (ri_ents _ Hr) as [es He].
  assert (Er : resolve y.1 (in_dir d (nm i)) = Some (D, nm i, es)).
  { apply resolve_Some. exists d. rewrite (ri_dirs _ Hr), split_in_dir by apply nm_plain. done. }
  assert (Hent : entry y.1 D (nm i) = es !! nm i) by (by apply entry_lookup).
  cbn [fs_call]. rewrite Er. destruct (es !! nm i) as [ino|] eqn:Ei.
  - destruct (fresh_pos (fl_fds l)) as (fd0 & ? & ?). split.
    { exists (inl fd0). do 2 eexists. left. exists fd0. split_and!; try done. split_and!; [lia|done|done]. }
    intros a s' l' [(fd & -> & -> & _ & Hfd & ->)|(-> & -> & ->)].
    + destruct (emptied_intro i ino y (set_data y.1 (<[ino := []]> (fs_data y.1)))) as [Hhop Hem];
        [lia|done|done|by apply keeps_set_data|done|by cbn [fs_data set_data]; rewrite lookup_insert_eq|congruence|].
      exists (set_mine b y.2 (Some (Z.of_nat i))). rewrite Hguar. split; [exact Hhop|].
      apply (round_rest i ino fd l); [lia|exact Hem|done|]. intros z Hz. by apply IH; [lia|..].
    + exists y.2. rewrite Hguar. replace (y.1, y.2) with y by (by destruct y).
      split; [apply hop_refl|]. apply IH; [lia| |done]. split_and!; [done..|].
      intros j Hj. destruct (decide (j = i)) as [->|]; [by rewrite Hent|]. apply Hall. lia.
  - destruct (fresh_pos (fl_fds l)) as (fd0 & ? & ?), (fresh_pos (fs_data y.1)) as (ino0 & _ & ?). split.
    { exists (inl fd0). do 2 eexists. exists fd0, ino0. split_and!; try done. split_and!; [lia|done|done]. }
    intros a s' l' (fd & ino & Hino & -> & -> & _ & Hfd & ->).
    destruct (emptied_intro i ino y (link y.1 D (nm i) es ino)) as [Hhop Hem];
      [lia|done|done|by apply keeps_link| |by cbn [fs_data link]; rewrite lookup_insert_eq|congruence|].
    { rewrite entry_link by done. by rewrite decide_True. }
    exists (set_mine b y.2 (Some (Z.of_nat i))). rewrite Hguar. split; [exact Hhop|].
    apply (round_rest i ino fd l); [lia|exact Hem|done|]. intros z Hz. by apply IH; [lia|..].
Qed.

Lemma createn_race l x Φ :
  done_upto b 0 x -> (forall y, done_upto b n y -> Φ e tt l y) -> ok e (createn d prefix n true) l x Φ.
Proof.
  intros Hx HΦ. unfold createn. apply (ok_race_quiet (done_upto b 0));
    [by intros; eapply done_upto_stable|done|].
  intros y Hy. cbn [fs_call]. split; [by exists tt; do 2 eexists|]. intros [] s' l' [-> ->].
  split; [done|]. by apply createn_race_from.
Qed.
End side.

(** *** All files are there *)

Lemma lookup_addn_ne m : forall i F f,
  (forall j, (i <= j < i + m)%nat -> f <> nm j) -> addn prefix i m F !! f = F !! f.
Proof.
  induction m as [|m IH]; intros i F f Hf; [done|]. cbn [addn]. rewrite IH.
  - apply lookup_insert_ne. intros E. apply (Hf i); [lia|done].
  - intros j Hj. apply Hf. lia.
Qed.

Lemma lookup_addn m : forall i F j,
  (i <= j < i + m)%nat -> Z.of_nat (i + m) < 2 ^ 31 ->
  addn prefix i m F !! nm j = Some (bytes_of_int (Z.of_nat j)).
Proof.
  induction m as [|m IH]; intros i F j Hj Hm; [lia|]. cbn [addn].
  destruct (decide (j = i)) as [->|Hne]; [|apply IH; lia].
  rewrite lookup_addn_ne; [apply lookup_insert_eq|]. intros j' Hj' E%nth_name_inj; lia.
Qed.

(** When both are through, the directory has the [n] files. *)
Lemma race_over x :
  done_upto true n x -> done_upto false n x ->
  shows M D (fun _ _ => True) (addn prefix 0 n ∅) x.1.
Proof.
  intros (Hr & H1 & Hall) (_ & H2 & _). split; [apply Hr|apply Hr|]. intros f _. unfold file.
  destruct (entry x.1 D f) as [ino|] eqn:Ef; simpl.
  - destruct (ri_names _ Hr f) as (j & Hj & ->); [by rewrite Ef|].
    rewrite lookup_addn by lia. destruct (ri_data _ Hr j ino Hj Ef) as [->|[_ Hp]]; [done|].
    destruct Hp as [Hp|Hp]; simpl in *; congruence.
  - symmetry. rewrite lookup_addn_ne; [apply lookup_empty|]. intros j Hj ->.
    destruct (Hall j) as [ino Hi]; [lia|]. congruence.
Qed.

(** The listing while the other may still be creating. *)
Lemma race_entries b x : done_upto b n x -> forall es, fs_ents x.1 !! D = Some es ->
  dom es = list_to_set (nm <$> seq 0 n).
Proof.
  intros (Hr & _ & Hall) es He. apply set_eq. intros f. rewrite elem_of_dom, elem_of_list_to_set.
  rewrite <- (entry_lookup x.1 D es f He). rewrite list_elem_of_fmap. split.
  - intros (j & Hj & ->)%(ri_names _ Hr). exists j. split; [done|]. apply elem_of_seq. lia.
  - intros (j & -> & Hj%elem_of_seq). apply Hall. lia.
Qed.

Lemma race_listing e b d l x Φ :
  env_rely e = hop (negb b) -> env_guar e = hop b -> M !! d = Some D ->
  (forall j, (j < n)%nat -> counted (nm j)) -> (n <= 1000)%nat ->
  done_upto b n x -> (forall y, done_upto b n y -> Φ e tt l y) ->
  ok e (dircheck d (Z.of_nat n)) l x Φ.
Proof.
  intros Hrely Hguar Hd Hcnt Hsm Hx HΦ. pose proof Hx as (Hr & _ & _). destruct (ri_ents _ Hr) as [es He].
  pose proof (race_entries b x Hx es He) as Hdom.
  assert (Hsize : size es = n).
  { rewrite <- size_dom, Hdom, size_list_to_set; [by rewrite length_fmap, length_seq|].
    apply NoDup_fmap_2_strong; [|apply NoDup_seq]. intros i j Hi%elem_of_seq Hj%elem_of_seq.
    apply nm_inj; lia. }
  apply (dircheck_quiet e (fun y => done_upto b n y /\ fs_ents y.1 !! D = Some es) D es d).
  - unfold env_pre. rewrite Hrely. apply hop_pre.
  - intros y z (Hy & Hey) Hz. rewrite Hrely in Hz. pose proof (done_upto_stable _ _ _ _ Hy Hz) as Hdz.
    split; [done|]. pose proof Hdz as (Hrz & _). destruct (ri_ents _ Hrz) as [es' He']. rewrite He'. f_equal.
    apply map_eq. intros f. pose proof (race_entries b z Hdz es' He') as Hdom'. rewrite <- Hdom in Hdom'.
    destruct Hz as (_ & Hgrow & _). destruct (es !! f) as [ino|] eqn:Ef.
    + rewrite <- (entry_lookup z.1 D es' f He'). apply Hgrow. by rewrite (entry_lookup y.1 D es).
    + apply not_elem_of_dom. rewrite Hdom'. by apply not_elem_of_dom.
  - intros y _. rewrite Hguar. apply (hop_pre b).
  - by intros y [_ ?].
  - intros y [(Hry & _) _]. by rewrite (ri_dirs _ Hry).
  - intros f. rewrite Hdom, elem_of_list_to_set, list_elem_of_fmap.
    intros (j & -> & Hj%elem_of_seq). apply Hcnt. lia.
  - by rewrite Hsize.
  - by rewrite Hsize.
  - done.
  - intros y [Hy _]. by apply HΦ.
Qed.
End race.

Lemma race_start M D prefix n b s :
  shows M D (fun _ _ => True) ∅ s -> fs_wf s -> done_upto M D prefix n b 0 (s, (None, None)).
Proof.
  intros Hs Hw.
  assert (He : forall f, entry s D f = None).
  { intros f. by apply (absent_entry (fun _ _ => True) M D f I ∅). }
  split_and!; [split; cbn [fst snd]|by destruct b|lia].
  - apply Hs.
  - apply Hs.
  - intros f. rewrite He. by intros [].
  - intros j ino _. by rewrite He.
Qed.

(** ** Parts of one file *)

Lemma splice_inside c i x :
  (i < length c)%nat -> splice c (Z.of_nat i) [x] = <[i := x]> c.
Proof.
  intros Hi. unfold splice. rewrite Nat2Z.id. rewrite take_app_le by lia.
  rewrite insert_take_drop by lia. cbn [app length]. by rewrite Nat.add_1_r.
Qed.

Section ranges.
Context (M : gmap (list byte) Z) (D : Z) (f : list byte) (ino : Z) (len : nat).
Hypothesis Hf : plain f.
#[local] Notation range := (nat * nat)%type.

(** The process with range [r] changes nothing but the bytes in [r]. *)
Definition touches (r : range) (x y : st) : Prop :=
  fs_dirs y.1 = fs_dirs x.1 /\ (is_Some (fs_ents x.1 !! D) -> is_Some (fs_ents y.1 !! D)) /\
  entry y.1 D f = entry x.1 D f /\
  forall c, fs_data x.1 !! ino = Some c -> exists c', fs_data y.1 !! ino = Some c' /\
    length c' = length c /\ forall i, ~ (r.1 <= i < r.2)%nat -> c' !! i = c !! i.

Lemma touches_pre r : PreOrder (touches r).
Proof.
  split; [intros x; split_and!; [done..|]; by eauto|].
  intros x y z (A1 & A2 & A3 & A4) (B1 & B2 & B3 & B4). split_and!; [congruence|auto|congruence|].
  intros c Hc. destruct (A4 c Hc) as (c1 & Hc1 & L1 & E1). destruct (B4 c1 Hc1) as (c2 & Hc2 & L2 & E2).
  exists c2. split_and!; [done|congruence|]. intros i Hi. by rewrite E2, E1.
Qed.

(** The bytes from [a] to [b] are [v]. *)
Definition has (a b : nat) (v : byte) (x : st) : Prop :=
  fs_dirs x.1 = M /\ is_Some (fs_ents x.1 !! D) /\ entry x.1 D f = Some ino /\
  exists c, fs_data x.1 !! ino = Some c /\ length c = len /\ forall i, (a <= i < b)%nat -> c !! i = Some v.

Lemma has_touches a b v r x y :
  has a b v x -> touches r x y -> (forall i, (a <= i < b)%nat -> ~ (r.1 <= i < r.2)%nat) -> has a b v y.
Proof.
  intros (H1 & H2 & H3 & c & Hc & Hl & Hv) (B1 & B2 & B3 & B4) Hdis.
  split_and!; [congruence|auto|congruence|]. destruct (B4 c Hc) as (c' & Hc' & Hl' & He').
  exists c'. split_and!; [done|congruence|]. intros i Hi. rewrite He'; auto.
Qed.

(** One side: [r] is its own range and [q] the other's. *)
Section side.
Context (e : env) (d : list byte) (r q : range).
Hypothesis Hrely : env_rely e = touches q.
Hypothesis Hguar : env_guar e = touches r.
Hypothesis Hd : M !! d = Some D.
Hypothesis Hlen : zlen d <= 400.
Hypothesis Hdisj : forall i, (r.1 <= i < r.2)%nat -> ~ (q.1 <= i < q.2)%nat.
Hypothesis Hin : (r.2 <= len)%nat.

Lemma ok_range_quiet {A} b v c (k : answer c -> prog A) l x Φ :
  (b <= r.2)%nat -> has r.1 b v x ->
  (forall y, has r.1 b v y -> (exists a s' l', fs_call y.1 l c a s' l') /\
     forall a s' l', fs_call y.1 l c a s' l' -> s' = y.1 /\ ok e (k a) l' y Φ) ->
  ok e (sys c ≫= k) l x Φ.
Proof.
  intros Hb Hx Hall. apply (ok_quiet e (has r.1 b v)); [| |done|done].
  - intros y z Hy Hz. rewrite Hrely in Hz. eapply has_touches; [done..|]. intros i Hi. apply Hdisj. lia.
  - intros y _. rewrite Hguar. apply touches_pre.
Qed.

Lemma write_chars_ok {A} v fd l (k : unit -> prog A) Φ : forall m i x,
  (r.1 <= i)%nat -> (i + m = r.2)%nat -> has r.1 i v x ->
  (forall y off, has r.1 r.2 v y ->
     ok e (k tt) (set_fds l (<[fd := Ofile ino off true false]> (fl_fds l))) y Φ) ->
  ok e (write_chars fd v m ≫= k)
    (set_fds l (<[fd := Ofile ino (Z.of_nat i) true false]> (fl_fds l))) x Φ.
Proof.
  induction m as [|m IH]; intros i x Hr Hi Hx Hk.
  { replace i with (r.2) in * by lia. by apply Hk. }
  cbn [write_chars]. intros y Hy Hw. rewrite Hrely in Hy.
  assert (Hhy : has r.1 i v y) by (eapply has_touches; [done..|]; intros j Hj; apply Hdisj; lia).
  clear x Hx Hy. pose proof Hhy as (H1 & H2 & H3 & c & Hc & Hl & Hv).
  cbn [fs_call fl_fds set_fds]. rewrite lookup_insert_eq. split.
  { do 3 eexists. exists c. by split_and!. }
  intros a s' l' (c' & Hc' & -> & -> & ->). rewrite Hc in Hc'. injection Hc' as <-.
  rewrite splice_inside by lia. set (s := set_data _ _). exists y.2. rewrite Hguar. split.
  { split_and!; [done..|]. intros c' Hc'. rewrite Hc in Hc'. injection Hc' as <-.
    exists (<[i := v]> c). cbn [s fst fs_data set_data]. rewrite lookup_insert_eq, length_insert.
    split_and!; [done..|]. intros j Hj. apply list_lookup_insert_ne. lia. }
  assert (Hs : has r.1 (S i) v (s, y.2)).
  { split_and!; [done..|]. exists (<[i := v]> c). cbn [s fst fs_data set_data].
    rewrite lookup_insert_eq, length_insert. split_and!; [done..|]. intros j Hj.
    destruct (decide (j = i)) as [->|]; [apply list_lookup_insert_eq; lia|].
    rewrite list_lookup_insert_ne by done. apply Hv. lia. }
  cbn [mbind prog_bind require Z.eqb Pos.eqb fl_dirs fl_fds set_fds zlen length Z.of_nat].
  rewrite insert_insert_eq. change (set_fds (set_fds l ?u) ?w) with (set_fds l w).
  apply (ok_range_quiet (S i) v); [lia|done|]. intros z Hz. cbn [fs_call fl_fds set_fds].
  rewrite lookup_insert_eq. split; [by do 3 eexists|]. intros a s' l' (-> & -> & ->).
  split; [done|]. rewrite bool_decide_eq_true_2 by done. cbn [mbind prog_bind require].
  replace (Z.of_nat i + zlen [v]) with (Z.of_nat (S i)) by (unfold zlen; simpl; lia).
  apply IH; [lia|lia|done|done].
Qed.

(** Opening the file, which exists: a creating call may also be refused. *)
Lemma write1_ok v l x Φ :
  (r.1 <= r.2)%nat -> has r.1 r.1 v x -> (forall y, has r.1 r.2 v y -> Φ e tt l y) ->
  ok e (write1 d f (Z.of_nat r.1) (r.2 - r.1) v) l x Φ.
Proof.
  intros Hr Hx HΦ. unfold write1. apply (ok_range_quiet r.1 v); [lia|done|]. intros y Hy. cbn [fs_call].
  split; [by exists tt; do 2 eexists|]. intros [] s' l' [-> ->]. split; [done|]. clear x Hx.
  rewrite (sprintf_ok d Hlen) by done.
  assert (Hres : forall z, has r.1 r.1 v z -> exists es, resolve z.1 (in_dir d f) = Some (D, f, es) /\ es !! f = Some ino).
  { intros z (H1 & [es He] & H3 & _). exists es. split.
    - apply resolve_Some. exists d. rewrite H1, split_in_dir by apply Hf. done.
    - by rewrite <- (entry_lookup z.1 D es f He). }
  assert (Hrest : forall fd z, has r.1 r.1 v z -> fl_fds l !! fd = None ->
    ok e (r0 ← sys (Lseek fd (Z.of_nat r.1)); _ ← require (r0 =? Z.of_nat r.1);
          _ ← write_chars fd v (r.2 - r.1); r0 ← sys (Close fd); require r0)
      (set_fds l (<[fd := Ofile ino 0 true false]> (fl_fds l))) z Φ).
  { intros fd z Hz Hfd. apply (ok_range_quiet r.1 v); [lia|done|]. intros w Hw. cbn [fs_call fl_fds set_fds].
    rewrite lookup_insert_eq, (proj2 (Z.leb_le 0 (Z.of_nat r.1))) by lia. split; [by do 3 eexists|].
    intros a s' l' (-> & -> & ->). split; [done|]. unfold require at 1. rewrite Z.eqb_refl.
    cbn [mbind prog_bind fl_fds fl_dirs set_fds]. rewrite insert_insert_eq.
    change (set_fds (set_fds l ?u) ?w) with (set_fds l w).
    apply (write_chars_ok v fd l); [lia|lia|done|]. intros w2 off Hw2.
    apply (ok_range_quiet r.2 v); [lia|done|]. intros w3 Hw3. cbn [fs_call fl_fds set_fds fl_dirs].
    rewrite lookup_insert_eq. split; [by do 3 eexists|]. intros a s' l' (-> & -> & ->). split; [done|].
    rewrite bool_decide_eq_true_2 by done. rewrite delete_insert_id by done.
    change (set_fds (set_fds l ?u) ?w) with (set_fds l w).
    assert (El : set_fds l (fl_fds l) = l) by (by destruct l). rewrite El.
    intros w4 Hw4 _. rewrite Hrely in Hw4. apply HΦ. eapply has_touches; [done..|].
    intros i Hi. by apply Hdisj. }
  apply (ok_range_quiet r.1 v); [lia|done|]. clear y Hy. intros y Hy.
  destruct (Hres y Hy) as (es & Er & Ef). cbn [fs_call]. rewrite Er, Ef.
  destruct (fresh_pos (fl_fds l)) as (fd0 & ? & ?). split.
  { exists (inl fd0). do 2 eexists. left. exists fd0. split_and!; try done. split_and!; [lia|done|done]. }
  intros a s' l' [(fd & -> & -> & _ & Hfd & ->)|(_ & -> & -> & ->)]; (split; [done|]).
  - by apply Hrest.
  - cbn [mbind prog_bind]. apply (ok_range_quiet r.1 v); [lia|done|]. clear y Hy es Er Ef. intros y Hy.
    destruct (Hres y Hy) as (es & Er & Ef). cbn [fs_call]. rewrite Er, Ef. split.
    { exists (inl fd0). do 2 eexists. left. exists fd0. split_and!; try done. split_and!; [lia|done|done]. }
    intros a s' l' [(fd & -> & -> & _ & Hfd & ->)|(Hfl & _)]; [|done]. split; [done|]. by apply Hrest.
Qed.
End side.

Definition part (r q : range) : mode := Mode (touches q) (touches r).

Lemma part_compat r q Q :
  (forall x y, Q x -> touches q x y -> Q y) -> compat (part r q) (part q r) Q.
Proof. intros HQ. split; [apply touches_pre..|done|done|exact HQ]. Qed.
End ranges.
