(* ===== verification/Lab3Main.v ===== *)
(** * The file system tests pass

    Both programs of Lab3, from their first call to their exit, on a file system
    whose two mounts show the same directories: however the calls of the two
    processes interleave, no check fails. *)
From S2P Require Import Prelude CxxString Posix PosixLogic Lab3 Lab3Spec Lab3Race.

#[export] Instance plain_dec f : Decision (plain f) := _.

Definition everything : keys := fun _ _ => True.

Lemma triple_eq e N M D F p F1 F2 : triple e N M D F p F1 -> F1 = F2 -> triple e N M D F p F2.
Proof. by intros ? <-. Qed.

(** Facts about closed terms. *)
Ltac ground := first [apply (bool_decide_unpack _); vm_compute; exact I | vm_compute; reflexivity | exact I].
Lemma upto (P : nat -> Prop) n : Forall P (seq 0 n) -> forall j, (j < n)%nat -> P j.
Proof. rewrite Forall_forall. intros HP j Hj. apply HP, elem_of_seq. lia. Qed.

(** A fact about the first few numbers, each of them closed. *)
Ltac upto :=
  let j := fresh "j" in let Hj := fresh "Hj" in intros j Hj;
  lazymatch type of Hj with
  | (_ <= _ < _)%nat => destruct Hj as [_ Hj]; revert j Hj
  | _ => revert j Hj
  end; apply upto; ground.

Ltac rule :=
  lazymatch goal with
  | |- triple _ _ _ _ _ (create1 _ _ _) _ => eapply create1_ok; [done|done|done|ground|ground|ground]
  | |- triple _ _ _ _ _ (check1 _ _ _ _) _ =>
      eapply check1_ok; [done|done|done|ground|ground|ground|ground]
  | |- triple _ _ _ _ _ (unlink1 _ _) _ => eapply unlink1_ok; [done|done|done|ground|ground|ground]
  | |- triple _ _ _ _ _ (checknot _ _) _ => eapply checknot_ok; [done|done|done|ground|ground|ground]
  | |- triple _ _ _ _ _ (append1 _ _ _) _ => eapply append1_ok; [done|done|done|ground|ground|ground]
  | |- triple _ _ _ _ _ (createn _ _ _ _) _ =>
      eapply createn_ok; [done|done|done|by split; ground|by intros|lia|upto]
  | |- triple _ _ _ _ _ (checkn _ _ _) _ =>
      eapply checkn_from_ok; [done|done|done|by split; ground|by intros|lia|upto]
  | |- triple _ _ _ _ _ (unlinkn _ _ _) _ =>
      eapply unlinkn_ok; [done|done|done|by split; ground|by intros|lia|upto]
  | |- triple _ _ _ _ _ (dircheck _ _) _ => eapply dircheck_ok; [done|done|by intros|ground|ground]
  end.

(** ** Dividing the names *)

Definition with_prefix (p : list byte) : keys := fun _ f => (p ++ [dash]) `prefix_of` f.

#[export] Instance with_prefix_dec p D f : Decision (with_prefix p D f) := prefix_dec (p ++ [dash]) f.

Lemma nth_name_prefix p D i : with_prefix p D (nth_name p i).
Proof. exists (print_ull (Z.of_nat i)). unfold nth_name. by rewrite <- app_assoc. Qed.

Lemma nth_name_other p q D i : length p = length q -> p <> q -> ~ with_prefix p D (nth_name q i).
Proof.
  intros Hl Hne [k Hk]. unfold nth_name in Hk. rewrite <- app_assoc in Hk.
  apply app_inj_1 in Hk as [E _]; congruence.
Qed.

(** What the two processes leave behind. *)
Definition join (D : Z) (K : keys) `{!forall f, Decision (K D f)} (F1 F2 : contents) : contents :=
  filter (fun p => K D p.1) F1 ∪ filter (fun p => ~ K D p.1) F2.

Lemma shows_both M D (K : keys) `{!forall f, Decision (K D f)} F1 F2 F s :
  shows M D K F1 s -> shows M D (others K) F2 s -> join D K F1 F2 = F ->
  shows M D everything F s.
Proof.
  intros H1 H2 <-. apply (shows_join M D K F1 F2); [done..|]. intros f. unfold join.
  destruct (filter (fun p => K D p.1) F1 !! f) as [c|] eqn:E1.
  - rewrite (lookup_union_Some_l _ _ _ _ E1). apply map_lookup_filter_Some in E1 as [E1 HK].
    by rewrite decide_True.
  - rewrite lookup_union_r by done. case_decide as HK.
    + destruct (F1 !! f) as [c|] eqn:Ef.
      * by rewrite map_lookup_filter_Some_2 with (x := c) in E1.
      * apply map_lookup_filter_None. right. intros c _. simpl. tauto.
    + destruct (F2 !! f) as [c|] eqn:Ef.
      * by apply map_lookup_filter_Some_2.
      * apply map_lookup_filter_None. by left.
Qed.

(** The checks after the child has been reaped, up to an empty directory. *)
Ltac finish H :=
  repeat (eapply triple_step; [apply alone_owns| |exact H|]; [rule|]; clear H; intros ? ? H);
  lazymatch goal with Hrest : forall s g, shows _ _ _ _ s -> _ |- _ => apply Hrest end;
  lazymatch type of H with
  | shows ?M ?D ?N ?F ?s => assert (E : F = ∅) by ground; rewrite E in H; exact H
  end.

Section lab_3_b.
Context (M : gmap (list byte) Z) (D : Z) (m1 m2 : list byte) (pid : Z).
#[local] Notation d := (byte_of_Z 100 :: print_ull pid).
#[local] Notation d1 := (in_dir m1 d).
#[local] Notation d2 := (in_dir m2 d).
Hypothesis Hd1 : M !! d1 = Some D.
Hypothesis Hd2 : M !! d2 = Some D.
Hypothesis Hl1 : zlen d1 <= 400.
Hypothesis Hl2 : zlen d2 <= 400.
#[local] Notation alone := (triple Alone everything M D).

Let Hown : owns Alone everything := alone_owns everything.

Lemma create_read_ok : alone ∅ (lab3b_create_read m1 m2 pid) {[str "f1" := str "aaa"]}.
Proof.
  unfold lab3b_create_read. repeat (eapply triple_seq; [done|rule|]). eapply triple_eq; [rule|ground].
Qed.

Lemma unlink_ok : alone {[str "f1" := str "aaa"]} (lab3b_unlink m1 m2 pid) ∅.
Proof.
  unfold lab3b_unlink. repeat (eapply triple_seq; [done|rule|]). eapply triple_eq; [rule|ground].
Qed.

Lemma append_ok : alone ∅ (lab3b_append m1 m2 pid) {[str "f1" := str "aaabbbccc"]}.
Proof.
  unfold lab3b_append. repeat (eapply triple_seq; [done|rule|]). eapply triple_eq; [rule|ground].
Qed.

Lemma readdir_ok : alone {[str "f1" := str "aaabbbccc"]} (lab3b_readdir m1 m2 pid) ∅.
Proof.
  unfold lab3b_readdir. repeat (eapply triple_seq; [done|rule|]). eapply triple_eq; [rule|ground].
Qed.

Lemma many_ok : alone ∅ (lab3b_many m1 m2 pid) ∅.
Proof.
  unfold lab3b_many. repeat (eapply triple_seq; [done|rule|]). eapply triple_eq; [rule|ground].
Qed.

Lemma big_ok : alone ∅ (lab3b_big m1 m2 pid) ∅.
Proof.
  unfold lab3b_big. repeat (eapply triple_seq; [done|rule|]). eapply triple_eq; [rule|ground].
Qed.

(** *** Different files *)

Section parallel.
Context (rest : prog unit) (Φ : env -> unit -> files -> st -> Prop).
Hypothesis Hrest : forall s g, shows M D everything ∅ s -> ok Alone rest no_files (s, g) Φ.

Lemma concurrent_ok s g :
  shows M D everything ∅ s -> ok Alone (lab3b_concurrent m1 m2 pid rest) no_files (s, g) Φ.
Proof.
  intros Hs. unfold lab3b_concurrent. pose (K := with_prefix (str "xx")).
  set (F1 := addn (str "xx") 0 20 ∅). set (F2 := addn (str "yy") 0 20 ∅).
  apply (ok_with_child _ _ s g (None, None) (only K) (only (others K)) (fun x => shows M D K F1 x.1)).
  - apply only_compat. intros x y. apply shows_keeps.
  - intros Ψ HΨ. eapply (createn_ok _ K M D (child_owns _ _) d2 Hd2 Hl2 (str "xx")).
    + split; ground.
    + intros i. apply nth_name_prefix.
    + lia.
    + intros j _. apply lookup_empty.
    + by eapply shows_sub.
    + intros s' g' Hs'. by apply HΨ.
  - intros q Hq. eapply (triple_step _ (others K) M D (parent_owns _ _ _) ∅ _ F2).
    { eapply (createn_ok _ (others K) M D (parent_owns _ _ _) d1 Hd1 Hl1 (str "yy"));
        [split; ground| |lia|intros j _; apply lookup_empty]. intros i. by apply nth_name_other. }
    { by eapply shows_sub. }
    intros s1 g1 Hs1. eapply (ok_sleep _ (others K) M D (parent_owns _ _ _)); [done|].
    intros s2 g2 Hs2. apply (ok_reap _ _ _ (fun x => shows M D (others K) F2 x.1)); [done|done| |].
    { intros x y. apply shows_keeps. }
    intros [s3 g3] Hp Hc. cbn [fst] in Hp, Hc.
    assert (Hs3 : shows M D everything (addn (str "xx") 0 20 (addn (str "yy") 0 20 ∅)) s3).
    { eapply (shows_both M D (with_prefix (str "xx"))); [exact Hc|exact Hp|]. unfold F1, F2. ground. }
    clear Hs1 Hs2 Hc Hp. clear F1 F2 K. finish Hs3.
Qed.

#[local] Notation F0 := (addn (str "x2") 0 20 (addn (str "x1") 0 20 ∅)).
#[local] Notation F1 := (addn (str "x3") 0 20 (deln (str "x1") 0 20 F0)).
#[local] Notation F2 := (addn (str "x4") 0 20 F0).

Lemma create_delete_ok s g :
  shows M D everything ∅ s -> ok Alone (lab3b_create_delete m1 m2 pid rest) no_files (s, g) Φ.
Proof.
  intros Hs. unfold lab3b_create_delete.
  do 2 (eapply triple_step; [apply alone_owns| |exact Hs|]; [rule|]; clear Hs g; intros s' g Hs;
        clear s; rename s' into s).
  pose (K := fun D f => with_prefix (str "x1") D f \/ with_prefix (str "x3") D f : Prop).
  assert (Hc1 : forall i, K D (nth_name (str "x1") i)) by (intros i; left; apply nth_name_prefix).
  assert (Hc3 : forall i, K D (nth_name (str "x3") i)) by (intros i; right; apply nth_name_prefix).
  assert (Hp4 : forall i, others K D (nth_name (str "x4") i)).
  { intros i [H|H]; revert H; by apply nth_name_other. }
  apply (ok_with_child _ _ s g (None, None) (only K) (only (others K)) (fun x => shows M D K F1 x.1)).
  - apply only_compat. intros x y. apply shows_keeps.
  - intros Ψ HΨ. eapply (triple_step _ K M D (child_owns _ _) F0 _ (deln (str "x1") 0 20 F0)).
    { eapply (unlinkn_ok _ K M D (child_owns _ _) d2 Hd2 Hl2); [split; ground|done|lia|upto]. }
    { by eapply shows_sub. }
    intros s1 g1 Hs1.
    eapply (createn_ok _ K M D (child_owns _ _) d1 Hd1 Hl1);
      [split; ground|done|lia| |exact Hs1|]; [upto|].
    intros s' g' Hs'. by apply HΨ.
  - intros q Hq. eapply (triple_step _ (others K) M D (parent_owns _ _ _) F0 _ F2).
    { eapply (createn_ok _ (others K) M D (parent_owns _ _ _) d1 Hd1 Hl1);
        [split; ground|done|lia|upto]. }
    { by eapply shows_sub. }
    intros s1 g1 Hs1. apply (ok_reap _ _ _ (fun x => shows M D (others K) F2 x.1)); [done|done| |].
    { intros x y. apply shows_keeps. }
    intros [s3 g3] Hp Hc. cbn [fst] in Hp, Hc.
    assert (Hs3 : shows M D everything
      (addn (str "x3") 0 20 (addn (str "x4") 0 20 (addn (str "x2") 0 20 ∅))) s3).
    { eapply (shows_both M D (fun D f => with_prefix (str "x1") D f \/ with_prefix (str "x3") D f));
        [exact Hc|exact Hp|]. ground. }
    clear Hs Hs1 Hc Hp Hc1 Hc3 Hp4. clear K. finish Hs3.
Qed.

(** *** The same files *)

(** Both processes create the twenty files, through [da] and [db]. *)
Lemma race_ok (da db : list byte) (secs : Z) (after : prog unit) s g :
  M !! da = Some D -> zlen da <= 400 -> M !! db = Some D -> zlen db <= 400 ->
  shows M D everything ∅ s ->
  (forall s g, shows M D everything (addn (str "zz") 0 20 ∅) s -> ok Alone after no_files (s, g) Φ) ->
  ok Alone (with_child (createn db (str "zz") 20 true) (fun pid =>
    _ ← createn da (str "zz") 20 true; _ ← sys (Sleep secs); _ ← dircheck da 20; _ ← reap pid; after))
    no_files (s, g) Φ.
Proof.
  intros Hda Hla Hdb Hlb Hs Hafter. apply ok_intro; [apply alone_pre|]. intros y0 Hy0 Hw.
  cbn [env_rely] in Hy0. subst y0. cbn [fst] in Hw.
  assert (Hz : slash ∉ str "zz" /\ zlen (str "zz") <= 79) by (split; ground).
  assert (Hn : Z.of_nat 20 < 2 ^ 31) by lia.
  pose (up := done_upto M D (str "zz") 20).
  assert (Hst : forall b i x y, up b i x -> hop M D (str "zz") 20 (negb b) x y -> up b i y)
    by (intros; by eapply done_upto_stable).
  apply (ok_with_child _ _ s g (None, None) (race M D (str "zz") 20 false) (race M D (str "zz") 20 true)
    (up false 20%nat)).
  - apply race_compat. apply Hst.
  - intros Ψ HΨ. apply (createn_race M D (str "zz") 20 Hz Hn false); [done..|by apply race_start|].
    intros y Hy. by apply HΨ.
  - intros q Hq. set (e := Parent _ q _). assert (Hpre : env_pre e) by apply hop_pre.
    apply ok_bind; [done|].
    apply (createn_race M D (str "zz") 20 Hz Hn true e); [done..|by apply race_start|]. intros x Hx _.
    apply (ok_race_quiet M D (str "zz") 20 true e eq_refl eq_refl (up true 20%nat)); [apply Hst|done|].
    intros y Hy. cbn [fs_call]. split; [by exists tt; do 2 eexists|]. intros [] s' l' [-> ->].
    split; [done|]. apply ok_bind; [done|].
    apply (race_listing M D (str "zz") 20 Hn e true); [done..|upto|lia|done|]. intros z Hz' _.
    apply (ok_reap _ _ _ (up true 20%nat)); [done|done|apply Hst|].
    intros [s4 g4] Hp Hc. apply Hafter. by apply (race_over M D (str "zz") 20 Hn (s4, g4)).
Qed.

Lemma same_file_ok s g :
  shows M D everything ∅ s ->
  ok Alone (lab3b_same_file m1 m2 pid rest) no_files (s, g) Φ.
Proof.
  intros Hs. unfold lab3b_same_file. apply (race_ok d1 d2 4); [done..|].
  intros s1 g1 Hs1. finish Hs1.
Qed.

Lemma same_server_ok s g :
  shows M D everything ∅ s ->
  ok Alone (lab3b_same_server m1 pid rest) no_files (s, g) Φ.
Proof.
  intros Hs. unfold lab3b_same_server. apply (race_ok d1 d1 2); [done..|].
  intros s1 g1 Hs1. finish Hs1.
Qed.
End parallel.

(** *** Parts of one file *)

Lemma exit_ok l x Φ : ok Alone (A := unit) (Exit 0) l x Φ.
Proof. by intros y _ _. Qed.

Ltac ranges :=
  repeat match goal with x := (_, _) : nat * nat |- _ => unfold x in *; clear x end; unfold zlen in *; cbn [fst snd] in *; lia.

Lemma huge_length : zlen huge = 131072.
Proof. unfold zlen, huge. rewrite length_replicate. apply Z2Nat.id. lia. Qed.

Lemma writes_ok s g :
  shows M D everything ∅ s -> ok Alone (lab3b_writes m1 m2 pid) no_files (s, g) ends.
Proof.
  intros Hs. unfold lab3b_writes. eapply triple_step; [apply alone_owns| |exact Hs|]; [rule|].
  clear s g Hs. intros s g Hs. pose proof huge_length as Hlen. revert Hs Hlen.
  generalize huge. intros content Hs Hlen.
  destruct (present_entry everything M D (str "www") I _ s content Hs) as (ino & Hi & Hdat);
    [apply lookup_insert_eq|].
  pose (lo := (0, 64)%nat). pose (hi := (Z.to_nat 65536, Z.to_nat 65600)).
  pose (has := has M D (str "www") ino (length content)).
  assert (Hplain : plain (str "www")) by ground.
  assert (H0 : forall a v, has a a v (s, (None, None))).
  { intros a v. split_and!; [apply Hs|apply Hs|done|]. exists content. split_and!; [done..|]. lia. }
  apply (ok_with_child _ _ s g (None, None) (part D (str "www") ino hi lo) (part D (str "www") ino lo hi)
    (has hi.1 hi.2 (byte_of_Z 50))).
  - apply part_compat. intros x y Hx Hy. eapply has_touches; [exact Hx|exact Hy|]. ranges.
  - intros Ψ HΨ. replace 65536 with (Z.of_nat hi.1) by ranges.
    replace 64%nat with (hi.2 - hi.1)%nat by ranges.
    apply (write1_ok M D (str "www") ino (length content) Hplain _ d2 hi lo); try done;
      [ranges..|apply H0|]. intros y Hy. by apply HΨ.
  - intros q Hq. apply ok_bind; [apply touches_pre|]. change 0 with (Z.of_nat lo.1).
    change 64%nat with (lo.2 - lo.1)%nat at 1.
    apply (write1_ok M D (str "www") ino (length content) Hplain _ d1 lo hi); try done;
      [ranges..|apply H0|]. intros y Hy _.
    apply (ok_reap _ _ _ (has lo.1 lo.2 (byte_of_Z 49))); [done|exact Hy| |].
    { intros x z Hx Hz. eapply has_touches; [exact Hx|exact Hz|]. ranges. }
    clear y Hy. intros [s3 g3] (E1 & E2 & E3 & c & Hc & _ & Hlo) (_ & _ & _ & c' & Hc' & _ & Hhi).
    cbn [fst] in *. rewrite Hc in Hc'. injection Hc' as <-.
    assert (Hs3 : shows M D (fun _ f => f = str "www") {[str "www" := c]} s3).
    { split; [done|done|]. intros f ->. unfold file. rewrite E3. simpl. by rewrite Hc, lookup_singleton_eq. }
    assert (Hck : forall d start v, M !! d = Some D -> zlen d <= 400 -> 0 <= start ->
      (forall i, (i < 64)%nat -> c !! (Z.to_nat start + i)%nat = Some v) ->
      triple Alone (fun _ f => f = str "www") M D {[str "www" := c]}
        (checkread d (str "www") start 64 v) {[str "www" := c]}).
    { intros d start v Hd Hl Hst Hv.
      eapply (checkread_ok _ _ _ _ (alone_owns _) d Hd Hl (str "www") Hplain eq_refl _ c);
        [apply lookup_singleton_eq|done|done]. }
    do 4 (eapply triple_step; [apply alone_owns|apply Hck|exact Hs3|clear Hs3; intros ? ? Hs3];
      [done|done|lia|intros i Hi64; first [apply Hlo; ranges|apply Hhi; ranges]|]).
    apply exit_ok.
Qed.
End lab_3_b.

(** ** Making the directories *)

Definition made (s : fs) (x : list byte) (D : Z) : fs :=
  Fs (fs_mounts s) (foldr (fun m M => <[in_dir m x := D]> M) (fs_dirs s) (fs_mounts s))
    (<[D := ∅]> (fs_ents s)) (fs_data s).

Lemma made_lookup (ms : list (list byte)) (M : gmap (list byte) Z) x D m :
  m ∈ ms -> foldr (fun m M => <[in_dir m x := D]> M) M ms !! in_dir m x = Some D.
Proof.
  induction ms as [|m' ms IH]; [by intros ?%elem_of_nil|]. intros Hin. simpl.
  destruct (decide (in_dir m' x = in_dir m x)) as [->|Hne]; [apply lookup_insert_eq|].
  rewrite lookup_insert_ne by done. apply IH. apply elem_of_cons in Hin as [->|]; done.
Qed.

Lemma made_lookup_ne (ms : list (list byte)) (M : gmap (list byte) Z) x D m y :
  slash ∉ x -> slash ∉ y -> x <> y ->
  foldr (fun m M => <[in_dir m x := D]> M) M ms !! in_dir m y = M !! in_dir m y.
Proof.
  intros Hx Hy Hne. induction ms as [|m' ms IH]; [done|]. simpl. rewrite lookup_insert_ne; [done|].
  intros E%(f_equal split_path). rewrite !split_in_dir in E by done. congruence.
Qed.

Lemma ok_alone {A} c (k : answer c -> prog A) l s g Φ :
  (fs_wf s -> (exists a s' l', fs_call s l c a s' l') /\
     forall a s' l', fs_call s l c a s' l' -> ok Alone (k a) l' (s', g) Φ) ->
  ok Alone (sys c ≫= k) l (s, g) Φ.
Proof.
  intros Hall y Hy Hw. cbn [env_rely] in Hy. subst y. destruct (Hall Hw) as [Hcan Hk].
  split; [done|]. intros a s' l' Hc. exists g. split; [done|]. by apply Hk.
Qed.

Lemma ok_mkdir {A} m x (k : bool -> prog A) s g l Φ :
  m ∈ fs_mounts s -> slash ∉ x -> fs_dirs s !! in_dir m x = None ->
  (forall D, fs_ents s !! D = None -> ok Alone (k true) l (made s x D, g) Φ) ->
  ok Alone (sys (Mkdir (in_dir m x)) ≫= k) l (s, g) Φ.
Proof.
  intros Hm Hx Hn Hk. apply ok_alone. intros _. cbn [fs_call]. rewrite split_in_dir by done.
  destruct (decide (m ∈ fs_mounts s /\ fs_dirs s !! in_dir m x = None)) as [_|[]]; [|done]. split.
  - destruct (fresh_pos (fs_ents s)) as (D & _ & HD). do 3 eexists. split; [done|]. by exists D.
  - intros a s' l' (-> & D & HD & -> & ->). by apply Hk.
Qed.

Lemma ok_access {A} p (k : bool -> prog A) s g l Φ :
  is_Some (fs_dirs s !! p) -> ok Alone (k true) l (s, g) Φ -> ok Alone (sys (Access p) ≫= k) l (s, g) Φ.
Proof.
  intros Hp Hk. apply ok_alone. intros _. cbn [fs_call]. rewrite bool_decide_eq_true_2 by (by left).
  split; [by do 3 eexists|]. by intros a s' l' (-> & -> & ->).
Qed.

Lemma made_shows s x D : shows (fs_dirs (made s x D)) D everything ∅ (made s x D).
Proof.
  split; [done|cbn [fs_ents made]; by rewrite lookup_insert_eq|]. intros f _. unfold file, entry.
  cbn [fs_ents made]. rewrite lookup_insert_eq. simpl. by rewrite !lookup_empty.
Qed.

Lemma sprintf_short {A} s (k : list byte -> prog A) : zlen s < 512 -> (sprintf s ≫= k) = k s.
Proof. intros H. unfold sprintf. by rewrite (proj2 (Z.ltb_lt _ _) H). Qed.

(** A name of letters and the number of the process. *)
Lemma pid_name_plain p pid : slash ∉ p -> zlen p <= 2 -> slash ∉ p ++ print_ull pid /\ zlen (p ++ print_ull pid) <= 22.
Proof.
  intros Hp Hl. split; [rewrite elem_of_app; intros [?|?]; [done|by eapply print_ull_no_slash]|].
  pose proof (dec_aux_length_le 20 pid []) as H. change (length []) with 0%nat in H.
  unfold zlen in *. rewrite length_app. unfold print_ull. lia.
Qed.

Lemma in_dir_length m x : zlen (in_dir m x) = zlen m + 1 + zlen x.
Proof. unfold in_dir, zlen. rewrite length_app. simpl. lia. Qed.

Lemma start_ok {A} m1 m2 pid (k : prog A) s g Φ :
  let d := byte_of_Z 100 :: print_ull pid in
  m1 ∈ fs_mounts s -> m2 ∈ fs_mounts s -> fs_dirs s !! in_dir m1 d = None ->
  zlen m1 <= 377 -> zlen m2 <= 377 ->
  (forall s' M D, shows M D everything ∅ s' -> M !! in_dir m1 d = Some D -> M !! in_dir m2 d = Some D ->
     ok Alone k no_files (s', g) Φ) ->
  ok Alone (_ ← lab3b_start m1 m2 pid; k) no_files (s, g) Φ.
Proof.
  intros d H1 H2 Hn L1 L2 Hk. destruct (pid_name_plain [byte_of_Z 100] pid) as [Hs Hl]; [ground|done|].
  change ([byte_of_Z 100] ++ print_ull pid) with d in Hs, Hl.
  apply ok_bind; [apply alone_pre|]. unfold lab3b_start. fold d.
  rewrite sprintf_short by (rewrite in_dir_length; lia). apply ok_mkdir; [done..|]. intros D HD.
  cbn [require mbind prog_bind].
  change (ok Alone (sprintf (in_dir m2 d) ≫= fun d2 => sys (Access d2) ≫= require) no_files
    (made s d D, g) (fun e' _ l' x' => env_pre e' -> ok e' k l' x' Φ)).
  rewrite sprintf_short by (rewrite in_dir_length; lia).
  assert (Hm2 : fs_dirs (made s d D) !! in_dir m2 d = Some D) by (by apply made_lookup).
  apply ok_access; [by rewrite Hm2|]. intros x Hx _ _. cbn [env_rely] in Hx. subst x.
  eapply Hk; [apply made_shows|by apply made_lookup|done].
Qed.

Lemma lab3b_ok m1 m2 pid s g :
  let d := byte_of_Z 100 :: print_ull pid in
  m1 ∈ fs_mounts s -> m2 ∈ fs_mounts s -> fs_dirs s !! in_dir m1 d = None ->
  zlen m1 <= 377 -> zlen m2 <= 377 ->
  ok Alone (lab3b_main m1 m2 pid) no_files (s, g) ends.
Proof.
  intros d H1 H2 Hn L1 L2. unfold lab3b_main. apply start_ok; [done..|]. intros s' M D Hs Hd1 Hd2.
  destruct (pid_name_plain [byte_of_Z 100] pid) as [_ Hl]; [ground|done|].
  change ([byte_of_Z 100] ++ print_ull pid) with d in Hl.
  assert (Hl1 : zlen (in_dir m1 d) <= 400) by (rewrite in_dir_length; lia).
  assert (Hl2 : zlen (in_dir m2 d) <= 400) by (rewrite in_dir_length; lia).
  pose proof (alone_owns everything) as Hown.
  eapply triple_step; [done|by eapply create_read_ok|done|]. clear s' g Hs. intros s' g Hs.
  eapply triple_step; [done|by eapply unlink_ok|done|]. clear s' g Hs. intros s' g Hs.
  eapply triple_step; [done|by eapply append_ok|done|]. clear s' g Hs. intros s' g Hs.
  eapply triple_step; [done|by eapply readdir_ok|done|]. clear s' g Hs. intros s' g Hs.
  eapply triple_step; [done|by eapply many_ok|done|]. clear s' g Hs. intros s' g Hs.
  eapply triple_step; [done|by eapply big_ok|done|]. clear s' g Hs. intros s' g Hs.
  apply (concurrent_ok M D); try done. clear s' g Hs. intros s' g Hs.
  apply (same_file_ok M D); try done. clear s' g Hs. intros s' g Hs.
  apply (create_delete_ok M D); try done. clear s' g Hs. intros s' g Hs.
  apply (same_server_ok M D); try done. clear s' g Hs. intros s' g Hs.
  by apply (writes_ok M D).
Qed.

(** ** test-lab-3-c *)

Section lab_3_c.
Context (m1 m2 : list byte) (pid : Z).
#[local] Notation da := (str "da" ++ print_ull pid).
#[local] Notation db := (str "db" ++ print_ull pid).

Lemma lab3c_names :
  (slash ∉ da /\ zlen da <= 22) /\ (slash ∉ db /\ zlen db <= 22) /\ db <> da.
Proof. split_and!; [apply pid_name_plain; ground..|done]. Qed.

Hypothesis L1 : zlen m1 <= 377.
Hypothesis L2 : zlen m2 <= 377.

Lemma lab3c_start_ok s g Φ :
  m1 ∈ fs_mounts s -> m2 ∈ fs_mounts s ->
  fs_dirs s !! in_dir m1 da = None -> fs_dirs s !! in_dir m2 db = None ->
  (forall M D1 D2 s', D1 <> D2 -> M !! in_dir m1 da = Some D1 -> M !! in_dir m2 db = Some D2 ->
     shows M D1 everything ∅ s' -> shows M D2 everything ∅ s' -> Φ Alone tt no_files (s', g)) ->
  ok Alone (lab3c_start m1 m2 pid) no_files (s, g) Φ.
Proof.
  intros H1 H2 Hna Hnb HΦ. destruct lab3c_names as ([Hsa Hla] & [Hsb Hlb] & Hab). unfold lab3c_start.
  set (a := str "da" ++ print_ull pid) in *. set (b := str "db" ++ print_ull pid) in *. clearbody a b.
  rewrite sprintf_short by (rewrite in_dir_length; lia). apply ok_mkdir; [done..|]. intros D1 HD1.
  unfold require at 1. change (Ret tt ≫= ?k) with (k tt). cbn beta.
  rewrite sprintf_short by (rewrite in_dir_length; lia). set (s1 := made s a D1).
  apply ok_mkdir; [done|done|by unfold s1, made; cbn [fs_dirs]; rewrite made_lookup_ne|].
  intros D2 HD2. set (s2 := made s1 b D2). unfold require at 1. change (Ret tt ≫= ?k) with (k tt).
  cbn beta. rewrite sprintf_short by (rewrite in_dir_length; lia).
  assert (Ma : forall m, m ∈ fs_mounts s -> fs_dirs s2 !! in_dir m a = Some D1).
  { intros m Hm. unfold s2, made. cbn [fs_dirs]. rewrite made_lookup_ne by done. by apply made_lookup. }
  assert (Mb : fs_dirs s2 !! in_dir m2 b = Some D2) by (by apply made_lookup).
  assert (Hne : D1 <> D2).
  { intros <-. unfold s1, made in HD2. cbn [fs_ents] in HD2. by rewrite lookup_insert_eq in HD2. }
  apply ok_access; [by rewrite Ma|]. intros x Hx _. cbn [env_rely] in Hx. subst x.
  apply (HΦ (fs_dirs s2) D1 D2); [done|by apply Ma|done| |apply made_shows].
  split; [done|..]; unfold s2, s1, made, file, entry; cbn [fs_ents];
    rewrite lookup_insert_ne, lookup_insert_eq by done; [done|].
  intros f _. simpl. by rewrite !lookup_empty.
Qed.

Section processes.
Context (M : gmap (list byte) Z) (D1 D2 : Z).
Hypothesis Hne : D1 <> D2.
Hypothesis Ha : M !! in_dir m1 da = Some D1.
Hypothesis Hb : M !! in_dir m2 db = Some D2.
(** The child has the second directory. *)
#[local] Notation K := ((fun D _ => D = D2) : keys).
#[local] Notation made100 p := (addn (str p) 0 100 ∅).
#[local] Notation left1 p := (deln (str p) 0 99 (made100 p)).

Lemma lab3c_lengths : zlen (in_dir m1 da) <= 400 /\ zlen (in_dir m2 db) <= 400.
Proof. destruct lab3c_names as ([_ ?] & [_ ?] & _). rewrite !in_dir_length. lia. Qed.

(** The files 0 to 98 of 100 are created and removed. *)
Lemma create_remove_ok e N D d p :
  owns e N -> M !! d = Some D -> zlen d <= 400 -> (forall f, N D f) -> p = "xx" \/ p = "yy" ->
  triple e N M D ∅ (_ ← createn d (str p) 100 false; unlinkn d (str p) 99) (left1 p).
Proof.
  intros Hown Hd Hl HN Hp. eapply (triple_seq _ _ _ _ Hown _ _ (made100 p)).
  - eapply createn_ok; [done..| |done|lia|intros j _; apply lookup_empty].
    destruct Hp as [->| ->]; split; ground.
  - eapply unlinkn_ok; [done..| |done|lia|]; destruct Hp as [->| ->]; first [split; ground|upto].
Qed.

Lemma lab3c_processes_ok s g :
  shows M D1 everything ∅ s -> shows M D2 everything ∅ s ->
  ok Alone (lab3c_processes m1 m2 pid) no_files (s, g) ends.
Proof.
  intros S1 S2. destruct lab3c_lengths as [La Lb]. unfold lab3c_processes, lab3c_createn, lab3c_unlinkn, lab3c_reap, lab3c_dircheck.
  apply (ok_with_child _ _ s g (None, None) (only K) (only (others K))
    (fun x => shows M D2 K (left1 "xx") x.1)).
  - apply only_compat. intros x y. apply shows_keeps.
  - intros Ψ HΨ. eapply (create_remove_ok _ K D2); [apply child_owns|done|done|done|by left| |].
    { by eapply shows_sub. }
    intros s' g' Hs'. by apply HΨ.
  - intros q Hq. pose proof (parent_owns K q (fun x => shows M D2 K (left1 "xx") x.1)) as Hp.
    eapply (triple_step _ (others K) M D1 Hp ∅ _ (made100 "yy")).
    { eapply createn_ok; [done..|split; ground|done|lia|intros j _; apply lookup_empty]. }
    { by eapply shows_sub. }
    intros s3 g3 S3. eapply (triple_step _ (others K) M D1 Hp _ _ (left1 "yy")); [|exact S3|].
    { eapply unlinkn_ok; [done..|split; ground|done|lia|upto]. }
    intros s4 g4 S4. eapply (ok_sleep _ (others K) M D1 Hp); [exact S4|].
    intros s5 g5 S5. apply (ok_reap _ _ _ (fun x => shows M D1 (others K) (left1 "yy") x.1));
      [done|exact S5|intros x y; apply shows_keeps|].
    intros [s6 g6] Sp Sc. cbn [fst] in Sp, Sc. pose proof (alone_owns everything) as Hown.
    apply ok_bind; [apply alone_pre|].
    apply (dircheck_keeps Alone everything M D1 _ (left1 "yy") (shows M D2 everything (left1 "xx")));
      [done|done|done|ground|ground|apply shows_keeps|by eapply shows_sub|by eapply shows_sub|].
    intros s7 g7 _ S7 _. eapply (triple_step Alone everything M D2 Hown (left1 "xx") _ (left1 "xx"));
      [apply dircheck_ok; [done|done|done|ground|ground]|exact S7|].
    intros s8 g8 _. by intros y _ _.
Qed.
End processes.

Lemma lab3c_ok s g :
  m1 ∈ fs_mounts s -> m2 ∈ fs_mounts s ->
  fs_dirs s !! in_dir m1 da = None -> fs_dirs s !! in_dir m2 db = None ->
  ok Alone (lab3c_main m1 m2 pid) no_files (s, g) ends.
Proof.
  intros H1 H2 Hna Hnb. unfold lab3c_main. apply ok_bind; [apply alone_pre|].
  apply lab3c_start_ok; [done..|]. intros M D1 D2 s' Hne Ha Hb S1 S2 _. by apply (lab3c_processes_ok M D1 D2).
Qed.
End lab_3_c.

(** ** Both programs end *)

Ltac steps :=
  repeat first
    [ exact I
    | match goal with |- forall _, _ => intro end
    | case_match
    | progress cbn [steps_le mbind prog_bind sys Nat.add Nat.mul]
    | progress unfold require, sprintf ].

Lemma create1_steps d f inp : steps_le (create1 d f inp) 5.
Proof. unfold create1. steps. Qed.
Lemma check1_steps n d f inp : steps_le (check1 n d f inp) 4.
Proof. unfold check1. steps. Qed.
Lemma unlink1_steps d f : steps_le (unlink1 d f) 3.
Proof. unfold unlink1. steps. Qed.
Lemma checknot_steps d f : steps_le (checknot d f) 2.
Proof. unfold checknot. steps. Qed.
Lemma append1_steps d f inp : steps_le (append1 d f inp) 5.
Proof. unfold append1. steps. Qed.
Ltac loop := steps; try (eapply steps_le_mono; [match goal with IH : forall _, _ |- _ => apply IH | IH : steps_le _ _ |- _ => exact IH end|lia]).

Lemma write_chars_steps fd c n : steps_le (write_chars fd c n) (n * 3).
Proof. induction n as [|n IH]; [done|]. cbn [write_chars]. loop. Qed.
Lemma read_chars_steps fd c n : steps_le (read_chars fd c n) (n * 2).
Proof. induction n as [|n IH]; [done|]. cbn [read_chars]. loop. Qed.
Lemma createn_from_steps d p dup n : forall i, steps_le (createn_from d p dup i n) (n * 4).
Proof. induction n as [|n IH]; intros i; [done|]. cbn [createn_from]. loop. Qed.
Lemma checkn_from_steps d p n : forall i, steps_le (checkn_from d p i n) (n * 4).
Proof. induction n as [|n IH]; intros i; [done|]. cbn [checkn_from]. loop. Qed.
Lemma unlinkn_from_steps d p n : forall i, steps_le (unlinkn_from d p i n) (n * 2).
Proof. induction n as [|n IH]; intros i; [done|]. cbn [unlinkn_from]. loop. Qed.
Lemma read_names_steps dp : forall n names, steps_le (read_names n dp names) (S n).
Proof. induction n as [|n IH]; intros names; [done|]. cbn [read_names]. loop. Qed.

Lemma createn_steps d p n dup : steps_le (createn d p n dup) (S (n * 4)).
Proof. intros ?. apply createn_from_steps. Qed.
Lemma checkn_steps d p n : steps_le (checkn d p n) (n * 4).
Proof. apply checkn_from_steps. Qed.
Lemma unlinkn_steps d p n : steps_le (unlinkn d p n) (S (n * 2)).
Proof. intros ?. apply unlinkn_from_steps. Qed.
Lemma reap_steps pid : steps_le (reap pid) 2.
Proof. unfold reap, waitpid. steps. Qed.
Lemma sleep_steps n : steps_le (sys (Sleep n)) 1.
Proof. done. Qed.

Lemma sys_steps c : steps_le (sys c) 1.
Proof. done. Qed.
Lemma sprintf_steps s : steps_le (sprintf s) 1.
Proof. unfold sprintf. by case_match. Qed.
Lemma require_steps b : steps_le (require b) 1.
Proof. by destruct b. Qed.

Lemma dircheck_steps d nf : steps_le (dircheck d nf) (1 + (S DIR_FUEL + (1 + (1 + 1)))).
Proof.
  refine (steps_le_bind _ _ _ 1 (sys_steps (Opendir d)) _). intros [dp|]; [|done].
  refine (steps_le_bind _ _ _ _ (read_names_steps dp DIR_FUEL []) _). intros names.
  refine (steps_le_bind _ _ _ 1 (sys_steps (Closedir dp)) _). intros b.
  refine (steps_le_bind _ _ _ 1 (require_steps _) _). intros []. apply require_steps.
Qed.

Lemma write1_steps d f start n c :
  steps_le (write1 d f start n c) (1 + (1 + (1 + (1 + (1 + (1 + (n * 3 + (1 + 1)))))))).
Proof.
  refine (steps_le_bind _ _ _ 1 (sys_steps (Sleep 1)) _). intros [].
  refine (steps_le_bind _ _ _ 1 (sprintf_steps _) _). intros nm.
  refine (steps_le_bind _ _ _ 1 (sys_steps (Open nm _)) _). intros fd.
  refine (steps_le_bind _ _ _ 1 _ _); [by destruct fd as [|[]]|]. intros [fd'|]; [|done].
  refine (steps_le_bind _ _ _ 1 (sys_steps (Lseek fd' start)) _). intros r.
  refine (steps_le_bind _ _ _ 1 (require_steps _) _). intros [].
  refine (steps_le_bind _ _ _ _ (write_chars_steps fd' c n) _). intros [].
  refine (steps_le_bind _ _ _ 1 (sys_steps (Close fd')) _). intros b. apply require_steps.
Qed.

Lemma checkread_steps d f start n c :
  steps_le (checkread d f start n c) (1 + (1 + (1 + (1 + (1 + (n * 2 + (1 + 1))))))).
Proof.
  refine (steps_le_bind _ _ _ 1 (sys_steps (Sleep 1)) _). intros [].
  refine (steps_le_bind _ _ _ 1 (sprintf_steps _) _). intros nm.
  refine (steps_le_bind _ _ _ 1 (sys_steps (Open nm O_RDONLY)) _). intros [fd|]; [|done].
  refine (steps_le_bind _ _ _ 1 (sys_steps (Lseek fd start)) _). intros r.
  refine (steps_le_bind _ _ _ 1 (require_steps _) _). intros [].
  refine (steps_le_bind _ _ _ _ (read_chars_steps fd c n) _). intros [].
  refine (steps_le_bind _ _ _ 1 (sys_steps (Close fd)) _). by intros b.
Qed.

(** A whole program: the functions one after the other. *)
Ltac steps_of :=
  lazymatch goal with
  | |- steps_le (sys ?c) _ => exact (sys_steps c)
  | |- steps_le (sprintf _) _ => apply sprintf_steps
  | |- steps_le (require _) _ => apply require_steps
  | |- steps_le (create1 _ _ _) _ => apply create1_steps
  | |- steps_le (check1 _ _ _ _) _ => apply check1_steps
  | |- steps_le (unlink1 _ _) _ => apply unlink1_steps
  | |- steps_le (checknot _ _) _ => apply checknot_steps
  | |- steps_le (append1 _ _ _) _ => apply append1_steps
  | |- steps_le (createn _ _ _ _) _ => apply createn_steps
  | |- steps_le (checkn _ _ _) _ => apply checkn_steps
  | |- steps_le (unlinkn _ _ _) _ => apply unlinkn_steps
  | |- steps_le (dircheck _ _) _ => apply dircheck_steps
  | |- steps_le (reap _) _ => apply reap_steps
  | |- steps_le (write1 _ _ _ _ _) _ => apply write1_steps
  | |- steps_le (checkread _ _ _ _ _) _ => apply checkread_steps
  end.
Ltac sequence := repeat first [steps_of | eapply steps_le_bind; [steps_of|intros ?]].

Lemma with_child_bounded child parent n m :
  steps_le child n -> (forall pid, bounded (parent pid) m) ->
  bounded (with_child child parent) (1 + ((n + 1) + (n + 1 + m))).
Proof.
  intros Hc Hp. exists (n + 1)%nat, (n + 1 + m)%nat. split; [lia|]. split.
  - apply (bounded_bind child (fun _ => Exit 0)); [done|by intros []].
  - intros pid. simpl. destruct (Z.ltb_spec pid 0).
    { apply (bounded_mono _ 1); [done|lia]. }
    destruct (Z.eqb_spec pid 0).
    + apply (bounded_mono _ (n + 1)); [|lia]. apply (bounded_bind child (fun _ => Exit 0)); [done|by intros []].
    + apply (bounded_mono _ m); [apply Hp|lia].
Qed.

Lemma lab3b_bounded m1 m2 pid : exists N, bounded (lab3b_main m1 m2 pid) N.
Proof.
  eexists. unfold lab3b_main.
  do 7 (eapply bounded_bind; [unfold lab3b_start, lab3b_create_read, lab3b_unlink,
    lab3b_append, lab3b_readdir, lab3b_many, lab3b_big; cbv beta zeta; sequence|intros _]).
  unfold lab3b_concurrent, lab3b_same_file, lab3b_create_delete, lab3b_same_server, lab3b_writes.
  repeat first
    [ eapply with_child_bounded; [sequence|intros ?]
    | eapply bounded_bind; [steps_of|intros ?] ].
  exact (I : bounded (Exit 0) 1).
Qed.

Lemma lab3c_bounded m1 m2 pid : exists N, bounded (lab3c_main m1 m2 pid) N.
Proof.
  eexists. unfold lab3c_main. eapply bounded_bind; [unfold lab3c_start; sequence|intros _].
  unfold lab3c_processes, lab3c_createn, lab3c_unlinkn, lab3c_reap, lab3c_dircheck. eapply with_child_bounded; [sequence|intros ?].
  repeat (eapply bounded_bind; [steps_of|intros ?]). exact (I : bounded (Exit 0) 1).
Qed.

(** A check that reads another file of the same length accepts it when the two
    agree on as many bytes as the path has. *)
Lemma check1_compares_path e N M D d f F bufsz inp got :
  owns e N -> M !! d = Some D -> zlen d <= 400 -> plain f -> N D f ->
  F !! f = Some got -> zlen got = zlen inp -> zlen inp < bufsz ->
  Byte.x00 ∉ got -> Byte.x00 ∉ inp ->
  take (Z.to_nat (zlen (in_dir d f))) got = take (Z.to_nat (zlen (in_dir d f))) inp ->
  triple e N M D F (check1 bufsz d f inp) F.
Proof.
  intros Hown Hd Hlen Hf HN HF Heq Hsz Hz1 Hz2 Htake l s g Φ Hs HΦ. unfold check1.
  rewrite (sprintf_ok d Hlen) by done. eapply ok_open; [done|done|apply Hf|done|done|done|done|].
  intros fd ino s2 g2 Hfd Hs2 Hi2. cbn beta iota. cbn [o_wronly o_append O_RDONLY].
  eapply (ok_read e N M D Hown f HN _ fd ino 0 false); [apply lookup_insert_eq|done|done|done|].
  intros s3 g3 Hs3 Hi3. rewrite drop_0, take_ge in * by (unfold zlen in *; lia).
  rewrite Heq. unfold require at 1. rewrite Z.eqb_refl. cbn [mbind prog_bind fl_fds set_fds fl_dirs].
  rewrite insert_insert_eq. change (set_fds (set_fds l ?x) ?y) with (set_fds l y).
  eapply ok_close; [done..|]. intros s4 g4 Hs4. unfold strncmp_eq.
  assert (Hc : forall b, Byte.x00 ∉ b -> c_str b = b).
  { clear. induction b as [|x b IH]; [done|]. intros [Hx Hb]%not_elem_of_cons. simpl.
    rewrite decide_False by congruence. f_equal. auto. }
  rewrite !Hc by done. rewrite bool_decide_eq_true_2; [by eapply ok_ret_shows|].
  rewrite !take_app, Htake. do 2 f_equal. unfold zlen in Heq. lia.
Qed.

(** * Properties *)

(** No directory [d] below the mount [m]. *)
Definition no_dir (s : fs) (m d : list byte) : Prop := fs_dirs s !! in_dir m d = None.



(** [check1] can miss a difference: it gives [strncmp] the length of the
    path, so a file of the right length whose contents agree with the expected
    ones on that many bytes is accepted, whatever follows. *)
Theorem check1_misses bufsz d f inp got M D s g l :
  M !! d = Some D -> zlen d <= 400 -> plain f -> zlen got = zlen inp -> zlen inp < bufsz ->
  Byte.x00 ∉ got -> Byte.x00 ∉ inp ->
  take (Z.to_nat (zlen (in_dir d f))) got = take (Z.to_nat (zlen (in_dir d f))) inp ->
  shows M D (fun _ _ => True) {[f := got]} s ->
  ok Alone (check1 bufsz d f inp) l (s, g) (fun _ _ l' x => l' = l /\ file x.1 D f = Some got).
Proof.
  intros Hd Hl Hf Hz Hb Hn1 Hn2 Ht Hs.
  eapply (check1_compares_path Alone (fun _ _ => True) M D); try done; [apply alone_owns|apply lookup_singleton_eq|].
  intros s' g' Hs'. split; [done|]. cbn [fst]. rewrite (sh_file _ _ _ _ _ Hs' f I). apply lookup_singleton_eq.
Qed.

(** ** Witnesses *)

Definition mounted (m1 m2 : list byte) : fs := Fs [m1; m2] ∅ ∅ ∅.

Lemma mounted_wf m1 m2 : fs_wf (mounted m1 m2).
Proof. split; intros *; unfold entry; cbn [fs_ents mounted]; by rewrite lookup_empty. Qed.



(** The path /d/f has four characters; the fifth byte of the file is wrong. *)
Definition wrong_fs : fs := Fs [] {[str "/d" := 1]} {[1 := {[str "f" := 9]}]} {[9 := str "aaaaX"]}.

Lemma check1_misses_witness :
  ok Alone (check1 512 (str "/d") (str "f") (str "aaaab")) no_files (wrong_fs, (None, None))
    (fun _ _ l' x => l' = no_files /\ file x.1 1 (str "f") = Some (str "aaaaX")).
Proof.
  apply (check1_misses 512 (str "/d") (str "f") (str "aaaab") (str "aaaaX") {[str "/d" := 1]} 1).
  - apply lookup_singleton_eq.
  - vm_compute. discriminate.
  - ground.
  - reflexivity.
  - reflexivity.
  - ground.
  - ground.
  - reflexivity.
  - split; [reflexivity|exists {[str "f" := 9]}; reflexivity|]. intros f _. unfold file, entry.
    cbn [fs_ents wrong_fs]. rewrite lookup_singleton_eq. cbn [mbind option_bind].
    destruct (decide (f = str "f")) as [->|Hne].
    + rewrite !lookup_singleton_eq. reflexivity.
    + by rewrite !lookup_singleton_ne by done.
Defined.
